(* ===== verification/_CoqProject ===== *)
-Q . S2P
Prelude.v
GoStrings.v
Metrics.v
Netip.v
NetipText.v
Policy.v
Subnet.v
AddressRange.v
Receivers.v
Composite.v
RAReceiver.v
DHCPv6PD.v
SharedRA.v
Factory.v
DynamicPrefix.v
Controller.v
Acquisition.v
Operator.v
Ownership.v
ListBackends.v
PoolConfigs.v
PoolBackends.v
CalicoSiblings.v
KubeVip.v
PoolSync.v
ServiceAddrs.v
ServiceSync.v
ServiceLife.v
BGPSync.v
GoTime.v
CrowdSecLAPI.v
LAPIClient.v
CrowdSec.v
Dependents.v
Cilium.v
Watches.v
Startup.v
Observed.v
Statuses.v
Rotation.v
ServiceRotation.v
EndToEnd.v
