(* ===== verification/Prelude.v ===== *)
(** * Dynamic Prefix Operator: verification library

    The operator keeps a Kubernetes cluster usable behind a connection whose
    IPv6 prefix changes.  Per DynamicPrefix resource it acquires the prefix
    (DHCPv6 prefix delegation, Router Advertisements, or the first with the second
    as fallback), writes it with its derived subnets and ranges into status, keeps
    the replaced prefixes as history while they drain, and carries all of them
    into the objects that hand out addresses: IP pools of several load balancers,
    and LoadBalancer Services.  The library follows that flow.

    ** Files and source

    - [Prelude]: outcomes of Go functions ([Ret], [Fail], [Panic]) and their
      notation, tactics, hints, generic lemmas on lists, maps and arithmetic.
    - [GoStrings], [Netip], [NetipText]: what the program uses of the packages
      strings, strconv and net/netip, written out and proved against arithmetic
      on 128-bit numbers; printing and parsing are inverse.
    - [Policy] (internal/prefix/policy.go, validate.go), [Subnet] (subnet.go),
      [AddressRange] (addressrange.go): which prefixes are accepted, and what is
      carved out of them.
    - [Receivers] (types.go, health.go, mock_receiver.go): events, the bounded
      channel, the interface [ReceiverOps] with its laws [ReceiverLaws].
      [Composite] (composite_receiver.go), [RAReceiver] (ra_receiver.go),
      [DHCPv6PD] (dhcpv6pd_receiver.go), [SharedRA] (shared_ra_receiver.go) and
      [Factory] (factory.go) implement or use it.
    - [DynamicPrefix] (internal/controller/dynamicprefix_controller.go,
      rarejections.go, api/v1alpha1/dynamicprefix_types.go): receivers per
      resource, wake-ups, status, history and conditions, over receivers behind the
      interface [HandleOps] with its laws [HandleLaws].  [Controller]: its runs.
      [Acquisition] puts the factory's receivers, with the pool and the claims they
      share, behind that interface; [Operator]: both in one run.
    - [Ownership] (ownership.go, ownedlist.go) and [ListBackends]: telling the
      operator's entries from the user's in a shared list, with the interface
      [OwnedListLaws] that each list backend satisfies.
    - [PoolConfigs] and [PoolBackends] (poolsync_controller.go,
      poolsync_backends.go), [CalicoSiblings], [KubeVip] (kubevip_backend.go):
      from a status to what a pool should hold, and each backend's update and
      release.  [PoolSync] (poolsync_controller.go, poolsync_condition.go,
      conditions_apply.go): the reconcile over all backends through the interface
      [poolBackend], and the PoolsSynced condition.
    - [ServiceAddrs] and [ServiceSync] (servicesync_controller.go): the addresses
      of a Service and the annotations that carry them.  [ServiceLife]: reconciles
      in sequence.
    - [BGPSync] (bgpsync_controller.go): the BGP advertisements of the subnets.
      [CrowdSecLAPI] (crowdsec_lapi.go) with [GoTime], the standard library's
      parser of durations, [LAPIClient] (the same file), how that client connects, and
      [CrowdSec] (crowdsec_controller.go): the client of CrowdSec's API behind the
      interface [MarkerAPI] with its laws [MarkerLaws], and the reconciler that keeps
      one marker per trusted prefix.
    - [Dependents] (dynamicprefix_predicates.go): the filter in front of the
      controllers that depend on a resource.
    - [Cilium] (ciliumversions.go, ciliuml2nudge.go): which APIs the cluster
      serves, and whether its Cilium needs the nudge of [ServiceSync].
    - [Metrics] (metrics.go): the series and the calls on them, which the
      reconcilers of [DynamicPrefix], [PoolSync] and [CrowdSec] return.  [Watches]
      (the SetupWithManager methods and the mappings of the four controllers):
      whom a change wakes.  [Startup] (cmd/main.go, leaderelection_logger.go): the
      flags, the caches and what is registered with the manager.
    - [Observed], [Statuses], [Rotation], [ServiceRotation] and [EndToEnd] put
      components together: gauges and events against the state of the controllers;
      every status there can be; a resource with one of its pools, and with one of
      its Services, under both of their controllers; and all of it in one run, from
      the messages at the receivers to the pool and the Service.

    ** State and operations

    Every component is a record of the state the Go value keeps, one definition
    per method with the method's guards in their order, and errors as values of a
    type per component (the texts are kept where later code reads them, and left
    out where they are only printed).  Machine integers are Z with their width
    written where it matters (uint16 carries, the uint64 of an FNV hash, the int64
    nanoseconds of a duration, byte masks).  Objects shared by reference - the
    entries and subscriptions of [SharedRA], the receivers of [Acquisition] - live
    in maps from identifiers, and methods that release a lock in the middle are
    split there, so that interleavings are sequences of steps.  The network, the
    clock and the API server are inputs: what a socket reads, what a call answers.
    A pool object is its list field with its annotations, a Service its
    annotations and assigned addresses.  Where controllers run together, the
    address space the prefixes come from is a parameter, so that the users' own
    IPv6 addresses outside it can be told from the operator's.

    ** What the theorems show

    - Arithmetic: subnets, ranges, CIDRs and offsets are exact, fail exactly when
      they must and never wrap; the selection of an advertisement equals its
      reference.
    - Receivers: what a receiver holds was accepted by its policy (but for a Router
      Advertisement option shorter than /3, held on its length alone); leases end;
      loops do not spin; start and stop in any order leak nothing; failover
      follows its rule; no interface has two DHCPv6 clients.  The composite and the
      pool are proved against [ReceiverLaws], which the client, the Router
      Advertisement receiver, a subscription and the composite itself satisfy; the
      controller against [HandleLaws], which [Acquisition] discharges.
    - Controller: receivers match resources over any history of reconciles, and
      nothing else runs or is held: interfaces and sockets are in use exactly while
      some resource uses them, as its spec says ([Operator]); status describes the
      held prefix; the history invariant; a reconcile at rest that reads
      back the status it left writes nothing (the API server keeps whole seconds of a
      lease's expiry; see [DynamicPrefix.updateStatusIfChanged]).
    - Pools and Services: over any number of updates the user's entries stay, the
      operator's are exactly those of the latest calculation, a repeated update
      writes nothing, the release gives the field back; configurations lie inside
      managed prefixes unless the status is degraded; a rotation keeps the old address while it asks for the
      new one, and DNS follows the address that is assigned.
    - Around them: each subnet is advertised on its own whatever fails for the
      others; CrowdSec's markers are created before old ones expire and never
      trust more than a delegated prefix, up to a limit of prefixes; a request to it ends, over a connection
      that presents the certificate on disk at that moment; the filter drops
      only updates no dependent could tell; discovery equals its reference; the
      nudge stops only for a version with the fix, 1.20.1 or later, that the status
      counters of the agents' DaemonSet show rolled out.

    - The whole: who is not told of a change does the same before and after
      ([Watches]); whatever the flags, the operator starts as asked or exits
      ([Startup]); no gauge says in sync where the condition says failing, and
      each change to an accepted prefix is told once ([Observed]); and through any
      interleaving of the two controllers, of failing writes, stale caches and
      edits by users, one good pass brings a pool ([Rotation]) or a Service
      ([ServiceRotation]) to the status it reads, and no pass of the Service
      controller, good or not, costs the user an entry.
      [EndToEnd.whole_refines_parts] composes them: every run of the receivers, the
      reconcilers and the users, restarts included, is a run of each of those parts,
      so their theorems hold of it; and what is delegated, remembered and handed out
      comes from the address space the policies of the resource accept (2000::/3 for
      a policy that asks for global addresses, by [global_policy_within]), however
      the network answers.

    [ListBackends.shared_list_refines] states the contract of the shared lists
    as a refinement: the one list behaves as two, one per owner.

    ** Bounds and fuel

    Recursion over bytes runs over the 16 bytes of an address, [hex_digits] over 16
    digits, which cover 64 bits.  Parsing loops recurse on the text; where the loop
    of the source does not, the fuel is the length of the text, one step per byte
    consumed, and the round trips show it suffices.  [do_loop] of
    [CrowdSecLAPI] needs two turns, as its theorem shows.  [run_loop] and [ra_run] take
    the finite sequence of turns they are run for, and their theorems hold for
    every such sequence.

    ** Parameters

    Hypotheses stand only for code that is not in the repository: the condition
    helpers of apimachinery ([DynamicPrefix]), the DHCPv6 and ndp libraries (their
    messages are data), the API server's answers, the hash in the name of a Calico
    sibling, the discovery client, the semver package, the manager with url.Parse,
    labels.Parse and IsQualifiedName ([Startup]), the packages for TLS and files
    ([LAPIClient]), what CrowdSec's API
    answers (with its documented filters where [CrowdSecLAPI] shows that the
    client satisfies the interface), and, in [ServiceSync], whether the running
    Cilium needs the nudge.  Each theorem with hypotheses is applied to a concrete
    input by the lemma named after it, [.._witness].

    ** Not modelled

    Log lines, the texts of events and help texts; the flags of the metrics and
    webhook servers with their TLS, health checks; the scheduling of the manager
    (its queues, and when an informer delivers: reconciles are steps in any order
    instead); and generated code (deep copies, apply configurations), which only
    copies fields. *)

From stdpp Require Export base tactics numbers list strings option gmap pretty.
From Stdlib Require Export ZArith Lia Ascii.

#[global] Open Scope Z_scope.

(** ** Results of Go functions

    A Go function that returns [(T, error)] returns [Ret v] or [Fail e] here; a
    run-time panic (an out-of-range index, [FillBytes] on a value that does not
    fit its buffer, a closed channel closed again) is the third outcome. *)

Inductive outcome (E A : Type) : Type :=
| Ret (a : A)
| Fail (e : E)
| Panic.

Arguments Ret {E A} a.
Arguments Fail {E A} e.
Arguments Panic {E A}.

Declare Scope go_scope.
Delimit Scope go_scope with go.

Definition obind {E A B} (m : outcome E A) (k : A -> outcome E B) : outcome E B :=
  match m with
  | Ret a => k a
  | Fail e => Fail e
  | Panic => Panic
  end.

(** Wrapping an error on the way out: Go's [fmt.Errorf("...: %w", err)]. *)
Definition wrap_err {E F A} (f : E -> F) (m : outcome E A) : outcome F A :=
  match m with
  | Ret a => Ret a
  | Fail e => Fail (f e)
  | Panic => Panic
  end.

Notation "'let*' x ':=' c 'in' k" := (obind c (fun x => k))
  (at level 10, x binder, c at level 100, k at level 200) : go_scope.

Definition is_ret {E A} (m : outcome E A) : bool :=
  match m with Ret _ => true | _ => false end.

(** A Go function that returns a bare [error]: [None] is [nil]. *)
Definition guard_err {E A} (e : option E) (k : outcome E A) : outcome E A :=
  match e with Some err => Fail err | None => k end.

#[global] Instance outcome_eq_dec {E A} `{EqDecision E} `{EqDecision A} :
  EqDecision (outcome E A).
Proof. intros x y; unfold Decision; decide equality; apply decide_rel; apply _. Defined.

Lemma obind_ret {E A B} (m : outcome E A) (k : A -> outcome E B) b :
  obind m k = Ret b <-> exists a, m = Ret a /\ k a = Ret b.
Proof. destruct m; cbn; split; [by eauto | by intros (? & [= <-] & ?) | done | by intros (? & ? & ?) | done | by intros (? & ? & ?)]. Qed.

Lemma wrap_err_ret {E F A} (f : E -> F) (m : outcome E A) a :
  wrap_err f m = Ret a <-> m = Ret a.
Proof. destruct m; cbn; split; congruence. Qed.

(** The [for _, cfg := range configs] loops that stop at the first error. *)
Fixpoint omap_all {E A B} (f : A -> outcome E B) (l : list A) : outcome E (list B) :=
  match l with
  | [] => Ret []
  | x :: l' =>
      match f x with
      | Ret y =>
          match omap_all f l' with
          | Ret ys => Ret (y :: ys)
          | Fail e => Fail e
          | Panic => Panic
          end
      | Fail e => Fail e
      | Panic => Panic
      end
  end.

Lemma omap_all_ret {E A B} (f : A -> outcome E B) l ys :
  omap_all f l = Ret ys <-> Forall2 (fun x y => f x = Ret y) l ys.
Proof.
  revert ys; induction l as [|x l IH]; intros ys; cbn.
  - split; [intros [= <-]; constructor | inversion 1; done].
  - destruct (f x) as [y|e|] eqn:Hx.
    + destruct (omap_all f l) as [zs|e|] eqn:Hl; split; intros H.
      * simplify_eq. constructor; [done | by apply IH].
      * inversion H as [|? y' ? ys' Hy Hys]; subst. rewrite Hx in Hy. simplify_eq.
        apply IH in Hys. by simplify_eq.
      * done.
      * inversion H as [|? y' ? ys' Hy Hys]; subst. apply IH in Hys. done.
      * done.
      * inversion H as [|? y' ? ys' Hy Hys]; subst. apply IH in Hys. done.
    + split; [done | inversion 1; congruence].
    + split; [done | inversion 1; congruence].
Qed.

Lemma omap_all_no_panic {E A B} (f : A -> outcome E B) l :
  (forall x, x ∈ l -> f x <> Panic) -> omap_all f l <> Panic.
Proof.
  induction l as [|x l IH]; cbn; intros H; [done|].
  destruct (f x) eqn:Hx; [|done|by destruct (H x (list_elem_of_here _ _))].
  destruct (omap_all f l) eqn:Hl; [done|done|].
  exfalso. apply IH; [|done]. set_solver.
Qed.

(** ** Machine integers *)

(** Go's [int64]/[int]/[time.Duration] arithmetic: two's complement wrap-around. *)
Definition wrap64 (z : Z) : Z := (z + 2 ^ 63) mod 2 ^ 64 - 2 ^ 63.

(** Go's [uint64] arithmetic. *)
Definition wrapu64 (z : Z) : Z := z mod 2 ^ 64.

Lemma wrap64_id z : - 2 ^ 63 <= z < 2 ^ 63 -> wrap64 z = z.
Proof. intros H. unfold wrap64. rewrite Z.mod_small; lia. Qed.

Lemma wrap64_range z : - 2 ^ 63 <= wrap64 z < 2 ^ 63.
Proof.
  unfold wrap64. pose proof (Z.mod_pos_bound (z + 2 ^ 63) (2 ^ 64) eq_refl). lia.
Qed.

Lemma wrapu64_id z : 0 <= z < 2 ^ 64 -> wrapu64 z = z.
Proof. intros H. by apply Z.mod_small. Qed.

(** ** Bit fields *)

Create HintDb go_bits.
Create Rewrite HintDb go_bits.
#[export] Hint Rewrite Z.land_spec Z.lor_spec Z.lxor_spec : go_bits.

Lemma pow2_pos n : 0 <= n -> 0 < 2 ^ n.
Proof. intros. by apply Z.pow_pos_nonneg. Qed.

#[export] Hint Resolve pow2_pos : go_bits.

(** The mask with the [n] high bits of a [w]-bit word set. *)
Definition high_mask (w n : Z) : Z := Z.shiftl (Z.ones n) (w - n).

Lemma high_mask_spec w n i :
  0 <= n <= w -> 0 <= i ->
  Z.testbit (high_mask w n) i = bool_decide (w - n <= i < w).
Proof.
  intros Hn Hi. unfold high_mask. rewrite Z.shiftl_spec by done.
  case_bool_decide as H.
  - apply Z.ones_spec_low. lia.
  - destruct (decide (i < w - n)).
    + apply Z.testbit_neg_r. lia.
    + apply Z.ones_spec_high. lia.
Qed.

(** A value of a [w]-bit word has no bits at or above [w]. *)
Lemma testbit_high x w i : 0 <= x < 2 ^ w -> w <= i -> Z.testbit x i = false.
Proof.
  intros Hx Hi. destruct (decide (0 <= w)).
  - rewrite <- (Z.mod_small x (2 ^ w)) by done.
    apply Z.mod_pow2_bits_high. lia.
  - rewrite Z.pow_neg_r in Hx by lia. lia.
Qed.

Lemma bits_bounded x w :
  0 <= w -> 0 <= x -> (forall i, w <= i -> Z.testbit x i = false) -> x < 2 ^ w.
Proof.
  intros Hw Hx H. destruct (decide (x = 0)) as [->|Hne]; [by apply pow2_pos|].
  apply Z.log2_lt_pow2; [lia|].
  destruct (decide (Z.log2 x < w)); [done|].
  pose proof (Z.bit_log2 x ltac:(lia)) as Hb. rewrite H in Hb by lia. done.
Qed.

(** Masking keeps the network part: Go's [ip.addr.and(mask6(n))]. *)
Lemma land_high_mask w n x :
  0 <= n <= w -> 0 <= x < 2 ^ w ->
  Z.land x (high_mask w n) = x / 2 ^ (w - n) * 2 ^ (w - n).
Proof.
  intros Hn Hx. rewrite <- Z.shiftr_div_pow2, <- Z.shiftl_mul_pow2 by lia.
  apply Z.bits_inj'. intros i Hi.
  rewrite Z.land_spec, high_mask_spec, Z.shiftl_spec by lia.
  destruct (decide (i < w - n)).
  - rewrite bool_decide_false, andb_false_r by lia.
    symmetry. apply Z.testbit_neg_r. lia.
  - rewrite Z.shiftr_spec by lia.
    replace (i - (w - n) + (w - n)) with i by lia.
    case_bool_decide; [by rewrite andb_true_r|].
    rewrite (testbit_high x w i) by lia. done.
Qed.

(** Agreement on the masked bits is agreement of the network part: the test
    netip's [Contains] makes. *)
Lemma lxor_mask_zero w n x y :
  0 <= n <= w -> 0 <= x < 2 ^ w -> 0 <= y < 2 ^ w ->
  Z.land (Z.lxor x y) (high_mask w n) = 0 <->
  x / 2 ^ (w - n) = y / 2 ^ (w - n).
Proof.
  intros Hn Hx Hy. rewrite <- !Z.shiftr_div_pow2 by lia. split; intros H.
  - apply Z.bits_inj'. intros i Hi. rewrite !Z.shiftr_spec by lia.
    apply (f_equal (fun z => Z.testbit z (i + (w - n)))) in H.
    rewrite Z.land_spec, high_mask_spec, Z.lxor_spec, Z.bits_0 in H by lia.
    destruct (decide (i + (w - n) < w)).
    + rewrite bool_decide_true, andb_true_r in H by lia.
      by destruct (Z.testbit x _), (Z.testbit y _).
    + rewrite (testbit_high x w), (testbit_high y w) by lia. done.
  - apply Z.bits_inj'. intros i Hi.
    rewrite Z.land_spec, high_mask_spec, Z.lxor_spec, Z.bits_0 by lia.
    case_bool_decide; [|by rewrite andb_false_r].
    apply (f_equal (fun z => Z.testbit z (i - (w - n)))) in H.
    rewrite !Z.shiftr_spec in H by lia.
    replace (i - (w - n) + (w - n)) with i in H by lia.
    rewrite H. by destruct (Z.testbit y i).
Qed.

(** Two numbers with the same quotient lie in the same aligned block. *)
Lemma same_block x b h :
  0 <= h -> x / 2 ^ h = b / 2 ^ h <->
  b / 2 ^ h * 2 ^ h <= x <= b / 2 ^ h * 2 ^ h + (2 ^ h - 1).
Proof.
  intros Hh. pose proof (pow2_pos h Hh) as Hp.
  pose proof (Z.div_mod x (2 ^ h)) as Hx. pose proof (Z.mod_pos_bound x (2 ^ h) Hp).
  split; intros H'.
  - rewrite <- H'. lia.
  - symmetry. apply (Z.div_unique_pos x (2 ^ h) _ (x - b / 2 ^ h * 2 ^ h)); lia.
Qed.

Lemma div_pow2_mono x y h : 0 <= h -> x <= y -> x / 2 ^ h <= y / 2 ^ h.
Proof. intros Hh Hxy. apply Z.div_le_mono; [by apply pow2_pos | done]. Qed.

(** Agreement on longer quotients gives agreement on shorter ones. *)
Lemma agree_mono x y h h' : 0 <= h <= h' -> x / 2 ^ h = y / 2 ^ h -> x / 2 ^ h' = y / 2 ^ h'.
Proof.
  intros Hh He. replace h' with (h + (h' - h)) by lia.
  rewrite Z.pow_add_r, <- !Z.div_div by (pose proof (pow2_pos h); pose proof (pow2_pos (h' - h)); lia).
  by rewrite He.
Qed.

(** Clearing low bits does not change the bits above them. *)
Lemma div_block_div x h h' : 0 <= h <= h' -> x / 2 ^ h * 2 ^ h / 2 ^ h' = x / 2 ^ h'.
Proof.
  intros Hh. apply (agree_mono _ _ h); [done|]. apply Z.div_mul. pose proof (pow2_pos h). lia.
Qed.

(** ** Lists *)

Lemma filter_all_true {A} (P : A -> Prop) `{!forall x, Decision (P x)} (l : list A) :
  (forall x, x ∈ l -> P x) -> filter P l = l.
Proof.
  induction l as [|x l IH]; intros Hl; [done|].
  rewrite filter_cons_True by (apply Hl; set_solver). f_equal. apply IH. set_solver.
Qed.

Lemma filter_all_false {A} (P : A -> Prop) `{!forall x, Decision (P x)} (l : list A) :
  (forall x, x ∈ l -> ~ P x) -> filter P l = [].
Proof.
  induction l as [|x l IH]; intros Hl; [done|].
  rewrite filter_cons_False by (apply Hl; set_solver). apply IH. set_solver.
Qed.

Lemma NoDup_filter_stable {A} (P : A -> Prop) `{!forall x, Decision (P x)} (l : list A) :
  NoDup l -> NoDup (filter P l).
Proof. intros ?. by apply NoDup_filter. Qed.

#[export] Hint Resolve NoDup_filter_stable : core.

(** ** Adding and removing one element *)

Lemma union_single_nonempty (x : nat) (X : gset nat) : {[x]} ∪ X <> empty.
Proof. set_solver. Qed.

Lemma elem_union_single (x y : nat) (X : gset nat) :
  x ∈ {[y]} ∪ X <-> if decide (x = y) then true = true else x ∈ X.
Proof. rewrite elem_of_union, elem_of_singleton. destruct (decide (x = y)); tauto. Qed.

Lemma elem_diff_single (x y : nat) (X : gset nat) :
  x ∈ X ∖ {[y]} <-> if decide (x = y) then false = true else x ∈ X.
Proof. rewrite elem_of_difference, elem_of_singleton. destruct (decide (x = y)); [|tauto]. split; [tauto|done]. Qed.

(** ** Runs of a step relation *)

Section Runs.
Context {A : Type} (R : A -> A -> Prop).

Inductive run : A -> A -> Prop :=
| run_refl s : run s s
| run_step s1 s2 s3 : R s1 s2 -> run s2 s3 -> run s1 s3.

(** An invariant of every step holds along every run. *)
Lemma run_invariant (I : A -> Prop) :
  (forall s s', I s -> R s s' -> I s') -> forall s s', run s s' -> I s -> I s'.
Proof. intros Hstep s s' Hrun. induction Hrun; eauto. Qed.

Lemma run_one s s' : R s s' -> run s s'.
Proof. intros. eapply run_step; [done|]. constructor. Qed.

Lemma run_trans s1 s2 s3 : run s1 s2 -> run s2 s3 -> run s1 s3.
Proof. induction 1; [done|]. intros. eapply run_step; eauto. Qed.
End Runs.

(** ** Tactics *)

(** Case on every boolean test the goal's code makes, turning comparisons on
    integers into propositions. *)
Ltac case_tests :=
  repeat match goal with
  | |- context [if ?b then _ else _] => let H := fresh "Htest" in destruct b eqn:H
  end.

Ltac zbool :=
  repeat match goal with
  | H : (_ <? _) = true |- _ => apply Z.ltb_lt in H
  | H : (_ <? _) = false |- _ => apply Z.ltb_ge in H
  | H : (_ <=? _) = true |- _ => apply Z.leb_le in H
  | H : (_ <=? _) = false |- _ => apply Z.leb_gt in H
  | H : (_ =? _) = true |- _ => apply Z.eqb_eq in H
  | H : (_ =? _) = false |- _ => apply Z.eqb_neq in H
  | H : (_ && _)%bool = true |- _ => apply andb_true_iff in H as [? ?]
  | H : (_ || _)%bool = false |- _ => apply orb_false_iff in H as [? ?]
  | H : negb _ = true |- _ => apply negb_true_iff in H
  | H : negb _ = false |- _ => apply negb_false_iff in H
  end.
