(* ===== verification/GoStrings.v ===== *)
(** * Go's string functions

    The functions of packages [strings] and [strconv] the program calls, on byte
    strings: [Split] and [Join] on a one-byte separator, [Cut], the search for
    the first and the last occurrence of a byte, [TrimSpace] (with the Unicode
    white space it removes, as UTF-8 byte sequences), and decimal numbers. *)

From S2P Require Import Prelude.

(** Every byte of a string satisfies a test. *)
Fixpoint str_all (P : ascii -> bool) (s : string) : bool :=
  match s with
  | EmptyString => true
  | String c s' => P c && str_all P s'
  end.

Definition byte_code (c : ascii) : Z := Z.of_N (N_of_ascii c).

(** ** Decimal digits *)

Definition digit_val (c : ascii) : option Z :=
  let n := byte_code c in
  if ((48 <=? n) && (n <=? 57))%bool then Some (n - 48) else None.

(** [strconv.Atoi] on a string without a sign: every byte a digit, at least one. *)
Fixpoint atoi_from (acc : Z) (s : string) : option Z :=
  match s with
  | EmptyString => Some acc
  | String c s' =>
      match digit_val c with
      | Some d => atoi_from (acc * 10 + d) s'
      | None => None
      end
  end.

Definition atoi_unsigned (s : string) : option Z :=
  match s with
  | EmptyString => None
  | String _ _ => atoi_from 0 s
  end.

(** [strconv.Itoa] and the [%d] verb. *)
Definition itoa (z : Z) : string := pretty z.

(** ** Splitting and joining on a one-byte separator *)

Fixpoint split_on (sep : ascii) (s : string) : list string :=
  match s with
  | EmptyString => [EmptyString]
  | String c s' =>
      if decide (c = sep) then EmptyString :: split_on sep s'
      else match split_on sep s' with
           | h :: t => String c h :: t
           | [] => [String c EmptyString]
           end
  end.

Fixpoint join (sep : string) (l : list string) : string :=
  match l with
  | [] => EmptyString
  | [x] => x
  | x :: l' => x +:+ sep +:+ join sep l'
  end.

(** [strings.Cut] at the first occurrence of a byte. *)
Fixpoint cut_first (sep : ascii) (s : string) : option (string * string) :=
  match s with
  | EmptyString => None
  | String c s' =>
      if decide (c = sep) then Some (EmptyString, s')
      else match cut_first sep s' with
           | Some (l, r) => Some (String c l, r)
           | None => None
           end
  end.

(** Cutting at the last occurrence, as [bytealg.LastIndexByteString] does. *)
Fixpoint cut_last (sep : ascii) (s : string) : option (string * string) :=
  match s with
  | EmptyString => None
  | String c s' =>
      match cut_last sep s' with
      | Some (l, r) => Some (String c l, r)
      | None => if decide (c = sep) then Some (EmptyString, s') else None
      end
  end.

(** ** [strings.TrimSpace] *)

(** One-byte white space: tab, newline, vertical tab, form feed, return, space. *)
Definition space1 (a : ascii) : bool :=
  let n := byte_code a in (((9 <=? n) && (n <=? 13)) || (n =? 32))%bool.

(** Two-byte white space: U+0085 and U+00A0. *)
Definition space2 (a b : ascii) : bool :=
  ((byte_code a =? 194) && ((byte_code b =? 133) || (byte_code b =? 160)))%bool.

(** Three-byte white space: U+1680, U+2000 to U+200A, U+2028, U+2029, U+202F,
    U+205F and U+3000. *)
Definition space3 (a b c : ascii) : bool :=
  let x := byte_code a in let y := byte_code b in let z := byte_code c in
  (((x =? 225) && (y =? 154) && (z =? 128))
   || ((x =? 226) && (y =? 128)
       && (((128 <=? z) && (z <=? 138)) || (z =? 168) || (z =? 169) || (z =? 175)))
   || ((x =? 226) && (y =? 129) && (z =? 159))
   || ((x =? 227) && (y =? 128) && (z =? 128)))%bool.

Section Trim.
Variables (sp2 : ascii -> ascii -> bool) (sp3 : ascii -> ascii -> ascii -> bool).

Fixpoint trim_front (s : string) : string :=
  match s with
  | EmptyString => EmptyString
  | String a s1 =>
      if space1 a then trim_front s1
      else match s1 with
           | EmptyString => s
           | String b s2 =>
               if sp2 a b then trim_front s2
               else match s2 with
                    | EmptyString => s
                    | String c s3 => if sp3 a b c then trim_front s3 else s
                    end
           end
  end.
End Trim.

Definition trim_left (s : string) : string := trim_front space2 space3 s.

Definition trim_right (s : string) : string :=
  String.rev (trim_front (fun a b => space2 b a) (fun a b c => space3 c b a) (String.rev s)).

Definition TrimSpace (s : string) : string := trim_right (trim_left s).

(** * Lemmas *)

(** Printable ASCII other than the space: no trimming, no UTF-8. *)
Definition plain (c : ascii) : bool :=
  let n := byte_code c in ((33 <=? n) && (n <=? 126))%bool.

Lemma append_cons c s1 s2 : String c s1 +:+ s2 = String c (s1 +:+ s2).
Proof. done. Qed.

Lemma append_nil_l s : EmptyString +:+ s = s.
Proof. done. Qed.

Lemma append_nil_r s : s +:+ EmptyString = s.
Proof. induction s as [|c s IH]; [done|]. by rewrite append_cons, IH. Qed.

Lemma append_assoc s1 s2 s3 : (s1 +:+ s2) +:+ s3 = s1 +:+ (s2 +:+ s3).
Proof. induction s1 as [|c s IH]; [done|]. by rewrite !append_cons, IH. Qed.

Create Rewrite HintDb go_str.
#[export] Hint Rewrite append_nil_r append_nil_l append_assoc append_cons : go_str.

Lemma append_inj_l s1 s2 s3 : s1 +:+ s2 = s1 +:+ s3 -> s2 = s3.
Proof. apply (inj (String.append s1)). Qed.

Lemma str_all_app P s1 s2 : str_all P (s1 +:+ s2) = (str_all P s1 && str_all P s2)%bool.
Proof.
  induction s1 as [|c s1 IH]; [done|]. rewrite append_cons. cbn.
  by rewrite IH, andb_assoc.
Qed.

Lemma str_all_impl P Q s :
  (forall c, P c = true -> Q c = true) -> str_all P s = true -> str_all Q s = true.
Proof.
  intros H. induction s; cbn; [done|]. intros [? ?]%andb_true_iff.
  apply andb_true_iff. auto.
Qed.

Lemma str_all_rev_app P s1 s2 :
  str_all P (String.rev_app s1 s2) = (str_all P s1 && str_all P s2)%bool.
Proof.
  revert s2; induction s1 as [|c s1 IH]; intros s2; cbn; [done|].
  rewrite IH. cbn. by destruct (P c), (str_all P s1).
Qed.

Lemma str_all_rev P s : str_all P (String.rev s) = str_all P s.
Proof. unfold String.rev. rewrite str_all_rev_app. cbn. by rewrite andb_true_r. Qed.

Lemma rev_app_rev_app s1 s2 s3 :
  String.rev_app (String.rev_app s1 s2) s3 = String.rev_app s2 (s1 +:+ s3).
Proof. revert s2 s3; induction s1; intros; rewrite ?append_cons; cbn; [done|]. by rewrite IHs1. Qed.

Lemma rev_involutive s : String.rev (String.rev s) = s.
Proof. unfold String.rev. rewrite rev_app_rev_app. cbn. apply append_nil_r. Qed.

Lemma plain_not_space1 c : plain c = true -> space1 c = false.
Proof. unfold plain, space1. intros. zbool. lia. Qed.

Lemma trim_front_plain sp2 sp3 s :
  (forall a b, plain a = true -> sp2 a b = false) ->
  (forall a b c, plain a = true -> sp3 a b c = false) ->
  str_all plain s = true -> trim_front sp2 sp3 s = s.
Proof.
  intros H2 H3. destruct s as [|a s1]; cbn; [done|].
  intros [Ha Hs]%andb_true_iff. rewrite (plain_not_space1 a Ha).
  destruct s1 as [|b s2]; [done|]. rewrite H2 by done.
  destruct s2 as [|c s3]; [done|]. by rewrite H3.
Qed.

Lemma plain_not_space2 a b : plain a = true \/ plain b = true -> space2 a b = false.
Proof. unfold plain, space2. intros [?|?]; zbool; lia. Qed.

Lemma plain_not_space3 a b c : plain a = true \/ plain c = true -> space3 a b c = false.
Proof. unfold plain, space3. intros [?|?]; zbool; lia. Qed.

(** Text of printable ASCII is not changed by trimming. *)
Lemma TrimSpace_plain s : str_all plain s = true -> TrimSpace s = s.
Proof.
  intros H. unfold TrimSpace, trim_left, trim_right.
  rewrite (trim_front_plain space2 space3 s);
    auto using plain_not_space2, plain_not_space3.
  rewrite trim_front_plain; [apply rev_involutive| | |by rewrite str_all_rev];
    auto using plain_not_space2, plain_not_space3.
Qed.

(** Bytes other than the separator. *)
Definition not_byte (sep c : ascii) : bool := negb (bool_decide (c = sep)).

Lemma split_on_app sep x s :
  str_all (not_byte sep) x = true ->
  split_on sep (x +:+ String sep s) = x :: split_on sep s.
Proof.
  induction x as [|c x IH]; rewrite ?append_cons; cbn.
  - intros _. by rewrite append_nil_l; cbn; rewrite decide_True.
  - intros [Hc Hx]%andb_true_iff. unfold not_byte in Hc.
    rewrite decide_False by (by intros ->; rewrite bool_decide_true in Hc).
    by rewrite IH.
Qed.

Lemma split_on_none sep x :
  str_all (not_byte sep) x = true -> split_on sep x = [x].
Proof.
  induction x as [|c x IH]; cbn; [done|].
  intros [Hc Hx]%andb_true_iff. unfold not_byte in Hc.
  rewrite decide_False by (by intros ->; rewrite bool_decide_true in Hc).
  by rewrite IH.
Qed.

(** Joining pieces that do not hold the separator and splitting again. *)
Lemma split_join sep l :
  l <> [] -> Forall (fun x => str_all (not_byte sep) x = true) l ->
  split_on sep (join (String sep EmptyString) l) = l.
Proof.
  intros Hne Hl. induction Hl as [|x l Hx Hl IH]; [done|].
  destruct l as [|y l].
  - by apply split_on_none.
  - change (join _ (x :: y :: l)) with (x +:+ String sep (join (String sep EmptyString) (y :: l))).
    rewrite split_on_app by done. f_equal. by apply IH.
Qed.

Lemma cut_first_app sep x s :
  str_all (not_byte sep) x = true -> cut_first sep (x +:+ String sep s) = Some (x, s).
Proof.
  induction x as [|c x IH]; rewrite ?append_cons; cbn.
  - intros _. by rewrite append_nil_l; cbn; rewrite decide_True.
  - intros [Hc Hx]%andb_true_iff. unfold not_byte in Hc.
    rewrite decide_False by (by intros ->; rewrite bool_decide_true in Hc).
    by rewrite IH.
Qed.

Lemma cut_first_none sep x :
  str_all (not_byte sep) x = true -> cut_first sep x = None.
Proof.
  induction x as [|c x IH]; cbn; [done|].
  intros [Hc Hx]%andb_true_iff. unfold not_byte in Hc.
  rewrite decide_False by (by intros ->; rewrite bool_decide_true in Hc).
  by rewrite IH.
Qed.

Lemma cut_last_none sep x :
  str_all (not_byte sep) x = true -> cut_last sep x = None.
Proof.
  induction x as [|c x IH]; cbn; [done|].
  intros [Hc Hx]%andb_true_iff. unfold not_byte in Hc. rewrite IH by done.
  by rewrite decide_False by (by intros ->; rewrite bool_decide_true in Hc).
Qed.

Lemma cut_last_app sep x s :
  str_all (not_byte sep) s = true -> cut_last sep (x +:+ String sep s) = Some (x, s).
Proof.
  intros Hs. induction x as [|c x IH]; rewrite ?append_cons, ?append_nil_l; cbn.
  - by rewrite cut_last_none, decide_True.
  - by rewrite IH.
Qed.

Lemma str_all_join P sep l :
  str_all P sep = true -> Forall (fun x => str_all P x = true) l ->
  str_all P (join sep l) = true.
Proof.
  intros Hsep Hl. induction Hl as [|x l Hx Hl IH]; [done|].
  destruct l as [|y l]; [done|].
  change (join sep (x :: y :: l)) with (x +:+ sep +:+ join sep (y :: l)).
  by rewrite !str_all_app, Hx, Hsep, IH.
Qed.

(** ** Decimal numbers *)

Lemma pretty_N_chars n s P :
  (forall k, (k < 10)%N -> P (pretty_N_char k) = true) ->
  str_all P s = true -> str_all P (pretty_N_go n s) = true.
Proof.
  intros HP. revert s. induction (N.lt_wf_0 n) as [n _ IH]; intros s Hs.
  destruct (decide (n = 0)%N) as [->|]; [by rewrite pretty_N_go_0|].
  rewrite pretty_N_go_step by lia. apply IH; [apply N.div_lt; lia|].
  cbn. rewrite Hs, HP; [done|]. by apply N.mod_lt.
Qed.

Lemma itoa_chars P z :
  P "-"%char = true -> (forall k, (k < 10)%N -> P (pretty_N_char k) = true) ->
  str_all P (itoa z) = true.
Proof.
  intros Hm HP. destruct z as [|p|p]; unfold itoa, pretty, pretty_Z.
  - pose proof (HP 0%N eq_refl) as H0. cbn in *. by rewrite H0.
  - unfold pretty, pretty_positive, pretty, pretty_N.
    rewrite decide_False by done. by apply pretty_N_chars.
  - unfold pretty, pretty_positive, pretty, pretty_N.
    rewrite decide_False by done. rewrite str_all_app. apply andb_true_iff.
    split; [cbn; by rewrite Hm | by apply pretty_N_chars].
Qed.

Lemma pretty_N_char_cases P :
  forallb (fun k => P (pretty_N_char k)) [0; 1; 2; 3; 4; 5; 6; 7; 8; 9]%N = true ->
  forall k, (k < 10)%N -> P (pretty_N_char k) = true.
Proof.
  intros H k Hk. rewrite forallb_forall in H. apply H.
  assert (k = 0 \/ k = 1 \/ k = 2 \/ k = 3 \/ k = 4 \/ k = 5 \/ k = 6 \/ k = 7 \/ k = 8 \/ k = 9)%N
    by lia.
  cbn. intuition auto.
Qed.

(** The bytes of a decimal number are a minus sign and digits. *)
Lemma itoa_all P z :
  forallb P ["-"; "0"; "1"; "2"; "3"; "4"; "5"; "6"; "7"; "8"; "9"]%char = true ->
  str_all P (itoa z) = true.
Proof.
  intros H. cbn in H. apply itoa_chars.
  - by destruct (P "-"%char).
  - apply pretty_N_char_cases. cbn. by destruct (P "-"%char).
Qed.

Lemma itoa_inj x y : itoa x = itoa y -> x = y.
Proof. apply (inj pretty). Qed.

(** The first part of a concatenation is determined when it ends at the first
    occurrence of a byte it does not hold. *)
Lemma append_sep_inj sep x1 x2 s1 s2 :
  str_all (not_byte sep) x1 = true -> str_all (not_byte sep) x2 = true ->
  x1 +:+ String sep s1 = x2 +:+ String sep s2 -> x1 = x2 /\ s1 = s2.
Proof.
  intros H1 H2 H. apply (f_equal (cut_first sep)) in H.
  rewrite !cut_first_app in H by done. by simplify_eq.
Qed.

(** Likewise from the right, when the second parts do not hold the byte. *)
Lemma append_sep_inj_r sep x1 x2 s1 s2 :
  str_all (not_byte sep) s1 = true -> str_all (not_byte sep) s2 = true ->
  x1 +:+ String sep s1 = x2 +:+ String sep s2 -> x1 = x2 /\ s1 = s2.
Proof.
  intros H1 H2 H. apply (f_equal (cut_last sep)) in H.
  rewrite !cut_last_app in H by done. by simplify_eq.
Qed.

(** ** Trimming and separators *)

(** Trimming only removes white space. *)
Lemma trim_front_keeps sp2 sp3 c s :
  (forall a b, (sp2 a b = true -> not_byte c a = true /\ not_byte c b = true)) ->
  (forall a b d, sp3 a b d = true -> not_byte c a = true /\ not_byte c b = true /\ not_byte c d = true) ->
  (forall a, space1 a = true -> not_byte c a = true) ->
  str_all (not_byte c) (trim_front sp2 sp3 s) = str_all (not_byte c) s.
Proof.
  intros H2 H3 H1. induction s as [s IH] using (induction_ltof1 _ String.length). unfold ltof in IH.
  destruct s as [|a s1]; [done|]. cbn [trim_front]. destruct (space1 a) eqn:E1.
  { rewrite IH by (cbn; lia). cbn. by rewrite H1. }
  destruct s1 as [|b s2]; [done|]. destruct (sp2 a b) eqn:E2.
  { rewrite IH by (cbn; lia). apply H2 in E2 as [Ea Eb]. cbn. by rewrite Ea, Eb. }
  destruct s2 as [|d s3]; [done|]. destruct (sp3 a b d) eqn:E3; [|done].
  rewrite IH by (cbn; lia). apply H3 in E3 as (Ea & Eb & Ed). cbn. by rewrite Ea, Eb, Ed.
Qed.

(** A blank text holds no comma. *)
Lemma TrimSpace_empty_nocomma s : TrimSpace s = EmptyString -> str_all (not_byte ",") s = true.
Proof.
  intros H.
  assert (forall P s, str_all P s = str_all P (String.rev s)) as Hr by (intros; by rewrite str_all_rev).
  assert (forall a, space1 a = true -> not_byte "," a = true) as H1 by (intros [[] [] [] [] [] [] [] []]; vm_compute; congruence).
  assert (forall a b, space2 a b = true -> not_byte "," a = true /\ not_byte "," b = true) as H2.
  { intros a b E. split; unfold not_byte; rewrite bool_decide_false; try done; intros ->; unfold space2 in E; rewrite ?andb_true_iff, ?orb_true_iff, ?Z.eqb_eq in E; change (byte_code ",") with 44 in E; lia. }
  assert (forall a b d, space3 a b d = true -> not_byte "," a = true /\ not_byte "," b = true /\ not_byte "," d = true) as H3.
  { intros a b d E. repeat split; unfold not_byte; rewrite bool_decide_false; try done; intros ->; unfold space3 in E; rewrite ?orb_true_iff, ?andb_true_iff, ?orb_true_iff, ?andb_true_iff, ?Z.eqb_eq, ?Z.leb_le in E; change (byte_code ",") with 44 in E; lia. }
  rewrite <- (trim_front_keeps space2 space3) by done. fold (trim_left s).
  rewrite Hr. rewrite <- (trim_front_keeps (fun a b => space2 b a) (fun a b c => space3 c b a)).
  - rewrite Hr. fold (trim_right (trim_left s)). unfold TrimSpace in H. by rewrite H.
  - intros a b E. apply H2 in E as [? ?]. by split.
  - intros a b d E. apply H3 in E as (? & ? & ?). by repeat split.
  - done.
Qed.
