(* ===== verification/Metrics.v ===== *)
(** * Metrics

    The series of [internal/controller/metrics.go] and the functions that change
    them.  A counter or gauge vector is a map from label values to a number (all of
    them are integers below 2^53, which float64 holds exactly).  The controllers
    give the list of their calls; [apply] replays it. *)

From S2P Require Import Prelude.

Record registry : Type := mkRegistry {
  prefixReceivedTotal : gmap (string * string) Z;      (* name, source *)
  prefixChangesTotal : gmap string Z;
  prefixLeaseExpirySeconds : gmap string Z;
  receiverHealthy : gmap string Z;
  raRejectedTotal : gmap (string * string) Z;          (* interface, reason *)
  raHopLimitCheckEnabled : gmap string Z;
  poolsSynced : gmap (string * string * string) Z;     (* backend, dynamic_prefix, pool *)
  crowdsecMarkers : gmap string Z;
  crowdsecSyncTotal : gmap (string * string) Z         (* name, result *)
}.

Definition empty_registry : registry := mkRegistry empty empty empty empty empty empty empty empty empty.

(** [WithLabelValues(...).Inc()]. *)
Definition inc {K} `{Countable K} (k : K) (m : gmap K Z) : gmap K Z := <[k := default 0 (m !! k) + 1]> m.

Definition with_pools (f : gmap (string * string * string) Z -> gmap (string * string * string) Z) (r : registry) : registry :=
  mkRegistry (prefixReceivedTotal r) (prefixChangesTotal r) (prefixLeaseExpirySeconds r) (receiverHealthy r)
    (raRejectedTotal r) (raHopLimitCheckEnabled r) (f (poolsSynced r)) (crowdsecMarkers r) (crowdsecSyncTotal r).
Definition with_crowdsec (f : gmap string Z -> gmap string Z) (g : gmap (string * string) Z -> gmap (string * string) Z)
    (r : registry) : registry :=
  mkRegistry (prefixReceivedTotal r) (prefixChangesTotal r) (prefixLeaseExpirySeconds r) (receiverHealthy r)
    (raRejectedTotal r) (raHopLimitCheckEnabled r) (poolsSynced r) (f (crowdsecMarkers r)) (g (crowdsecSyncTotal r)).
Definition with_prefix (received : gmap (string * string) Z -> gmap (string * string) Z)
    (changes lease healthy : gmap string Z -> gmap string Z) (r : registry) : registry :=
  mkRegistry (received (prefixReceivedTotal r)) (changes (prefixChangesTotal r)) (lease (prefixLeaseExpirySeconds r))
    (healthy (receiverHealthy r)) (raRejectedTotal r) (raHopLimitCheckEnabled r) (poolsSynced r) (crowdsecMarkers r)
    (crowdsecSyncTotal r).
Definition with_ra (rejected : gmap (string * string) Z -> gmap (string * string) Z) (check_ : gmap string Z -> gmap string Z)
    (r : registry) : registry :=
  mkRegistry (prefixReceivedTotal r) (prefixChangesTotal r) (prefixLeaseExpirySeconds r) (receiverHealthy r)
    (rejected (raRejectedTotal r)) (check_ (raHopLimitCheckEnabled r)) (poolsSynced r) (crowdsecMarkers r) (crowdsecSyncTotal r).

Definition bool_value (b : bool) : Z := if b then 1 else 0.

(** ** The functions *)

Definition recordPrefixReceivedMetric (name source : string) : registry -> registry := with_prefix (inc (name, source)) id id id.
Definition recordPrefixChangedMetric (name : string) : registry -> registry := with_prefix id (inc name) id id.

(** [Unix()] of a time in nanoseconds: its seconds, rounded down. *)
Definition recordPrefixLeaseExpiryMetric (name : string) (expiresAt : option Z) : registry -> registry :=
  with_prefix id id (insert name (match expiresAt with None => 0 | Some t => t / 10 ^ 9 end)) id.

Definition recordReceiverHealthMetric (name : string) (healthy : bool) : registry -> registry :=
  with_prefix id id id (insert name (bool_value healthy)).
Definition RecordRARejection (iface reason : string) : registry -> registry := with_ra (inc (iface, reason)) id.
Definition RecordRAHopLimitCheck (iface : string) (enabled : bool) : registry -> registry :=
  with_ra id (insert iface (bool_value enabled)).
Definition recordPoolSyncedMetric (backend dynamicPrefix pool : string) : registry -> registry :=
  with_pools (insert (backend, dynamicPrefix, pool) 1).
Definition recordPoolSyncFailedMetric (backend dynamicPrefix pool : string) : registry -> registry :=
  with_pools (insert (backend, dynamicPrefix, pool) 0).

(** [DeletePartialMatch] on the backend and the pool. *)
Definition forgetPoolMetrics (backend pool : string) : registry -> registry :=
  with_pools (filter (fun '((b, _, p), _) => ~ (b = backend /\ p = pool))).

Definition forgetPrefixMetrics (name : string) (r : registry) : registry :=
  with_pools (filter (fun '((_, d, _), _) => d <> name)) (with_prefix id id (delete name) (delete name) r).

Definition recordCrowdSecSyncMetric (name result : string) : registry -> registry := with_crowdsec id (inc (name, result)).
Definition setCrowdSecMarkers (name : string) (n : Z) : registry -> registry := with_crowdsec (insert name n) id.
Definition forgetCrowdSecMetrics (name : string) : registry -> registry := with_crowdsec (delete name) id.

(** ** Calls as data *)

Inductive metric : Type :=
| MPrefixReceived (name source : string)
| MPrefixChanged (name : string)
| MLeaseExpiry (name : string) (expiresAt : option Z)
| MReceiverHealth (name : string) (healthy : bool)
| MForgetPrefix (name : string)
| MPoolSynced (backend dynamicPrefix pool : string)
| MPoolSyncFailed (backend dynamicPrefix pool : string)
| MForgetPool (backend pool : string)
| MCrowdSecSync (name result : string)
| MCrowdSecMarkers (name : string) (n : Z)
| MForgetCrowdSec (name : string).

Definition apply_metric (m : metric) : registry -> registry :=
  match m with
  | MPrefixReceived name source => recordPrefixReceivedMetric name source
  | MPrefixChanged name => recordPrefixChangedMetric name
  | MLeaseExpiry name expiresAt => recordPrefixLeaseExpiryMetric name expiresAt
  | MReceiverHealth name healthy => recordReceiverHealthMetric name healthy
  | MForgetPrefix name => forgetPrefixMetrics name
  | MPoolSynced b d p => recordPoolSyncedMetric b d p
  | MPoolSyncFailed b d p => recordPoolSyncFailedMetric b d p
  | MForgetPool b p => forgetPoolMetrics b p
  | MCrowdSecSync name result => recordCrowdSecSyncMetric name result
  | MCrowdSecMarkers name n => setCrowdSecMarkers name n
  | MForgetCrowdSec name => forgetCrowdSecMetrics name
  end.

Definition apply (ms : list metric) (r : registry) : registry := foldl (fun r m => apply_metric m r) r ms.

(** * Lemmas *)

Lemma apply_app ms1 ms2 r : apply (ms1 ++ ms2) r = apply ms2 (apply ms1 r).
Proof. apply foldl_app. Qed.

(** The pool gauge after one call. *)
Lemma pools_after m r b d p :
  poolsSynced (apply_metric m r) !! (b, d, p) =
  match m with
  | MPoolSynced b' d' p' => if decide (b = b' /\ d = d' /\ p = p') then Some 1 else poolsSynced r !! (b, d, p)
  | MPoolSyncFailed b' d' p' => if decide (b = b' /\ d = d' /\ p = p') then Some 0 else poolsSynced r !! (b, d, p)
  | MForgetPool b' p' => if decide (b = b' /\ p = p') then None else poolsSynced r !! (b, d, p)
  | MForgetPrefix name => if decide (d = name) then None else poolsSynced r !! (b, d, p)
  | _ => poolsSynced r !! (b, d, p)
  end.
Proof.
  destruct m; cbn [apply_metric]; try done; unfold recordPoolSyncedMetric, recordPoolSyncFailedMetric, forgetPoolMetrics,
    forgetPrefixMetrics; cbn [with_pools with_prefix poolsSynced].
  - rewrite map_lookup_filter. destruct (poolsSynced r !! (b, d, p)) as [v|]; cbn; [|by case_decide].
    case_decide; cbn; case_guard; cbn; first [done | exfalso; tauto].
  - case_decide as H; [destruct H as (-> & -> & ->); by rewrite lookup_insert_eq|]. rewrite lookup_insert_ne; [done|].
    intros [= -> -> ->]. by apply H.
  - case_decide as H; [destruct H as (-> & -> & ->); by rewrite lookup_insert_eq|]. rewrite lookup_insert_ne; [done|].
    intros [= -> -> ->]. by apply H.
  - rewrite map_lookup_filter. destruct (poolsSynced r !! (b, d, p)) as [v|]; cbn; [|by case_decide].
    case_decide; cbn; case_guard; cbn; first [done | exfalso; tauto].
Qed.
