(* ===== verification/Netip.v ===== *)
(** * IP addresses and prefixes

    Go's package [net/netip], as far as the program uses it: an address is a
    128-bit number with a kind (the zero value, IPv4, or IPv6 with an optional
    zone), a prefix is an address and a length stored as one plus the number of
    bits, so that the zero value is the invalid prefix.  The second half gives
    the facts about them the components share: bytes and numbers, masking as
    division, containment as an interval. *)

From S2P Require Import Prelude GoStrings.

Module netip.

(** The kinds of address: [z0] is the zero [Addr]; an IPv6 address with the empty
    zone has none. *)
Inductive zkind : Type :=
| z0
| z4
| z6 (zone : string).

#[global] Instance zkind_eq_dec : EqDecision zkind.
Proof. solve_decision. Defined.

(** [addr] is the address in 128 bits; an IPv4 address is held in its
    IPv4-mapped form, as netip holds it. *)
Record Addr : Type := mkAddr { addr : Z; z : zkind }.

#[global] Instance Addr_eq_dec : EqDecision Addr.
Proof. solve_decision. Defined.

Definition zero_addr : Addr := mkAddr 0 z0.

(** The 96 bits in front of an IPv4 address. *)
Definition v4_mapped : Z := Z.shiftl 65535 32.

Definition Is4 (a : Addr) : bool := bool_decide (z a = z4).
Definition Is6 (a : Addr) : bool :=
  match z a with z6 _ => true | _ => false end.
Definition Zone (a : Addr) : string :=
  match z a with z6 zn => zn | _ => EmptyString end.
Definition Is4In6 (a : Addr) : bool := Is6 a && (Z.shiftr (addr a) 32 =? 65535).
Definition hasZone (a : Addr) : bool :=
  Is6 a && negb (bool_decide (Zone a = EmptyString)).
Definition BitLen (a : Addr) : Z :=
  match z a with z0 => 0 | z4 => 32 | z6 _ => 128 end.
Definition IsValidAddr (a : Addr) : bool := negb (bool_decide (z a = z0)).

(** [WithZone] changes IPv6 addresses only. *)
Definition WithZone (a : Addr) (zone : string) : Addr :=
  match z a with z6 _ => mkAddr (addr a) (z6 zone) | _ => a end.
Definition withoutZone (a : Addr) : Addr := WithZone a EmptyString.

Definition Unmap (a : Addr) : Addr :=
  if Is4In6 a then mkAddr (addr a) z4 else a.

Definition IPv6Unspecified : Addr := mkAddr 0 (z6 EmptyString).
Definition IPv4Unspecified : Addr := mkAddr v4_mapped z4.

(** ** Bytes *)

(** Byte [i] of the sixteen, most significant first. *)
Definition byte_of (x : Z) (i : nat) : Z := Z.shiftr x (8 * (15 - Z.of_nat i)) mod 256.

Definition As16 (a : Addr) : list Z := byte_of (addr a) <$> seq 0 16.

(** Big-endian value of a list of bytes. *)
Definition be_value (bs : list Z) : Z := foldl (fun acc b => acc * 256 + b) 0 bs.

Definition AddrFrom16 (bs : list Z) : Addr := mkAddr (be_value bs) (z6 EmptyString).
Definition As4 (a : Addr) : list Z := drop 12 (As16 a).
Definition AddrFrom4 (bs : list Z) : Addr := mkAddr (v4_mapped + be_value bs) z4.

(** ** Classification *)

Definition v6u16_0 (a : Addr) : Z := Z.shiftr (addr a) 112.

Definition IsLinkLocalUnicast (a0 : Addr) : bool :=
  let a := Unmap a0 in
  match z a with
  | z0 => false
  | z4 => Z.shiftr (addr a) 16 mod 65536 =? 43518 (* 169.254 *)
  | z6 _ => Z.land (v6u16_0 a) 65472 =? 65152      (* fe80::/10 *)
  end.

Definition IsLoopback (a0 : Addr) : bool :=
  let a := Unmap a0 in
  match z a with
  | z0 => false
  | z4 => Z.shiftr (addr a) 24 mod 256 =? 127
  | z6 _ => addr a =? 1
  end.

Definition IsMulticast (a0 : Addr) : bool :=
  let a := Unmap a0 in
  match z a with
  | z0 => false
  | z4 => Z.land (Z.shiftr (addr a) 24 mod 256) 240 =? 224
  | z6 _ => Z.shiftr (addr a) 120 =? 255           (* ff00::/8 *)
  end.

Definition IsUnspecified (a : Addr) : bool :=
  bool_decide (a = IPv4Unspecified) || bool_decide (a = IPv6Unspecified).

(** ** Comparison *)

(** [strings] comparison of the zones decides between equal IPv6 addresses. *)
Definition Compare (a b : Addr) : Z :=
  if BitLen a <? BitLen b then -1
  else if BitLen b <? BitLen a then 1
  else if addr a <? addr b then -1
  else if addr b <? addr a then 1
  else if Is6 a
       then match String.compare (Zone a) (Zone b) with Lt => -1 | Eq => 0 | Gt => 1 end
       else 0.

(** ** Prefixes *)

Record Prefix : Type := mkPrefix { ip : Addr; bitsPlusOne : Z }.

#[global] Instance Prefix_eq_dec : EqDecision Prefix.
Proof. solve_decision. Defined.

Definition zero_prefix : Prefix := mkPrefix zero_addr 0.

Definition Bits (p : Prefix) : Z := bitsPlusOne p - 1.
Definition IsValid (p : Prefix) : bool := 0 <? bitsPlusOne p.

(** [PrefixFrom] neither masks nor fails: a length that does not fit makes the
    prefix invalid. *)
Definition PrefixFrom (a : Addr) (bits : Z) : Prefix :=
  mkPrefix (withoutZone a)
    (if (IsValidAddr a && (0 <=? bits) && (bits <=? BitLen a))%bool then bits + 1 else 0).

(** [mask6(n)]. *)
Definition mask6 (n : Z) : Z := high_mask 128 n.

Inductive prefix_error : Type := ErrNegativeBits | ErrTooLong.

#[global] Instance prefix_error_eq_dec : EqDecision prefix_error.
Proof. solve_decision. Defined.

(** [Addr.Prefix]: keep the top [b] bits. *)
Definition AddrPrefix (a : Addr) (b : Z) : outcome prefix_error Prefix :=
  if b <? 0 then Fail ErrNegativeBits
  else match z a with
       | z0 => Ret zero_prefix
       | z4 => if 32 <? b then Fail ErrTooLong
               else Ret (PrefixFrom (mkAddr (Z.land (addr a) (mask6 (b + 96))) z4) b)
       | z6 zn => if 128 <? b then Fail ErrTooLong
                  else Ret (PrefixFrom (mkAddr (Z.land (addr a) (mask6 b)) (z6 zn)) b)
       end.

Definition Masked (p : Prefix) : Prefix :=
  match AddrPrefix (ip p) (Bits p) with Ret m => m | _ => zero_prefix end.

Definition Contains (p : Prefix) (a : Addr) : bool :=
  if (negb (IsValid p) || hasZone a)%bool then false
  else if ((BitLen (ip p) =? 0) || (BitLen a =? 0) || negb (BitLen (ip p) =? BitLen a))%bool
  then false
  else if Is4 a
  then Z.shiftr (Z.lxor (addr a) (addr (ip p)) mod 2 ^ 32) (32 - Bits p) =? 0
  else Z.land (Z.lxor (addr a) (addr (ip p))) (mask6 (Bits p)) =? 0.

(** ** Well-formed values

    What every [netip] constructor maintains: the number fits 128 bits, an IPv4
    address is in mapped form, and a prefix carries no zone and a length that
    fits its address. *)
Definition addr_wf (a : Addr) : Prop :=
  0 <= addr a < 2 ^ 128 /\
  (z a = z4 -> Z.shiftr (addr a) 32 = 65535) /\
  (z a = z0 -> addr a = 0).

Definition prefix_wf (p : Prefix) : Prop :=
  addr_wf (ip p) /\ Zone (ip p) = EmptyString /\
  (IsValid p = true -> IsValidAddr (ip p) = true /\ 0 <= Bits p <= BitLen (ip p)) /\
  0 <= bitsPlusOne p.

(** A valid IPv6 prefix, the only kind the program derives addresses from. *)
Definition prefix6 (p : Prefix) : Prop :=
  prefix_wf p /\ IsValid p = true /\ Is6 (ip p) = true.

(** ** The addresses of an IPv6 prefix as an interval of numbers *)
Definition first_num (p : Prefix) : Z :=
  addr (ip p) / 2 ^ (128 - Bits p) * 2 ^ (128 - Bits p).
Definition last_num (p : Prefix) : Z := first_num p + (2 ^ (128 - Bits p) - 1).
Definition in_prefix (p : Prefix) (x : Z) : Prop := first_num p <= x <= last_num p.

End netip.

Import netip.

(** * Lemmas *)

(** ** Bytes and numbers *)

Definition byte_ok (b : Z) : Prop := 0 <= b < 256.

Lemma byte_of_ok x i : byte_ok (byte_of x i).
Proof. unfold byte_of, byte_ok. by apply Z.mod_pos_bound. Qed.

Lemma length_As16 a : length (As16 a) = 16%nat.
Proof. done. Qed.

Lemma As16_lookup a i : (i < 16)%nat -> As16 a !! i = Some (byte_of (addr a) i).
Proof.
  intros Hi. unfold As16. rewrite list_lookup_fmap, lookup_seq_lt by lia. done.
Qed.

Lemma foldl_be_shift bs acc :
  foldl (fun a b => a * 256 + b) acc bs = acc * 256 ^ Z.of_nat (length bs) + be_value bs.
Proof.
  unfold be_value. revert acc. induction bs as [|b bs IH]; intros acc; cbn [foldl length].
  - rewrite Z.mul_1_r. lia.
  - rewrite IH, (IH (0 * 256 + b)), Nat2Z.inj_succ, Z.pow_succ_r by lia. lia.
Qed.

Lemma be_value_cons b bs : be_value (b :: bs) = b * 256 ^ Z.of_nat (length bs) + be_value bs.
Proof. unfold be_value at 1. cbn [foldl]. rewrite foldl_be_shift. lia. Qed.

Lemma be_value_bound bs :
  Forall byte_ok bs -> 0 <= be_value bs < 256 ^ Z.of_nat (length bs).
Proof.
  induction 1 as [|b bs Hb Hbs IH]; [cbn; lia|].
  rewrite be_value_cons. cbn [length]. rewrite Nat2Z.inj_succ, Z.pow_succ_r by lia.
  unfold byte_ok in Hb. nia.
Qed.

Lemma be_value_bound16 bs :
  Forall byte_ok bs -> length bs = 16%nat -> 0 <= be_value bs < 2 ^ 128.
Proof. intros H Hl. apply be_value_bound in H. rewrite Hl in H. exact H. Qed.

(** Bit [i] of a big-endian value is bit [i mod 8] of the byte it falls in. *)
Lemma be_value_testbit bs i :
  Forall byte_ok bs -> 0 <= i < 8 * Z.of_nat (length bs) ->
  Z.testbit (be_value bs) i =
  Z.testbit (nth (length bs - 1 - Z.to_nat (i / 8)) bs 0) (i mod 8).
Proof.
  induction 1 as [|b bs Hb Hbs IH]; intros Hi; [cbn in Hi; lia|].
  rewrite be_value_cons.
  pose proof (be_value_bound bs Hbs) as Hv.
  assert (256 ^ Z.of_nat (length bs) = 2 ^ (8 * Z.of_nat (length bs))) as Hp.
  { change 256 with (2 ^ 8). by rewrite <- Z.pow_mul_r by lia. }
  rewrite Hp in *. cbn [length] in *. rewrite Nat2Z.inj_succ in Hi.
  set (n := Z.of_nat (length bs)) in *.
  assert (b * 2 ^ (8 * n) + be_value bs = Z.lor (Z.shiftl b (8 * n)) (be_value bs)) as ->.
  { rewrite <- Z.shiftl_mul_pow2 by lia.
    rewrite <- Z.lxor_lor, <- Z.add_nocarry_lxor; [done| |].
    all: apply Z.bits_inj'; intros k Hk; rewrite Z.land_spec, Z.shiftl_spec, Z.bits_0 by done.
    all: destruct (decide (k < 8 * n));
      [rewrite Z.testbit_neg_r by lia; done
      |rewrite (testbit_high (be_value bs) (8 * n)) by lia; by rewrite andb_false_r]. }
  rewrite Z.lor_spec, Z.shiftl_spec by lia.
  destruct (decide (i < 8 * n)) as [Hlt|Hge].
  - rewrite Z.testbit_neg_r, orb_false_l, IH by lia.
    assert (i / 8 < n) by (apply Z.div_lt_upper_bound; lia).
    assert (0 <= i / 8) by (apply Z.div_pos; lia).
    replace (S (length bs) - 1 - Z.to_nat (i / 8))%nat
      with (S (length bs - 1 - Z.to_nat (i / 8))) by lia.
    done.
  - rewrite (testbit_high (be_value bs) (8 * n)), orb_false_r by lia.
    assert (i / 8 = n) as Hd.
    { symmetry. apply (Z.div_unique_pos i 8 n (i - 8 * n)); lia. }
    replace (S (length bs) - 1 - Z.to_nat (i / 8))%nat with 0%nat by lia.
    cbn [nth]. f_equal. pose proof (Z.div_mod i 8). lia.
Qed.

Lemma byte_of_testbit x i k :
  (i < 16)%nat -> 0 <= k < 8 ->
  Z.testbit (byte_of x i) k = Z.testbit x (k + 8 * (15 - Z.of_nat i)).
Proof.
  intros Hi Hk. unfold byte_of. change 256 with (2 ^ 8).
  rewrite Z.mod_pow2_bits_low, Z.shiftr_spec by lia. done.
Qed.

Lemma nth_fmap_seq {A} (f : nat -> A) n i d :
  (i < n)%nat -> nth i (f <$> seq 0 n) d = f i.
Proof.
  intros Hi. apply nth_lookup_Some with (d := d).
  rewrite list_lookup_fmap, lookup_seq_lt by lia. done.
Qed.

(** Reading sixteen bytes given by a function of their position. *)
Lemma be_value_bytes_testbit (f : nat -> Z) i :
  (forall j, (j < 16)%nat -> byte_ok (f j)) -> 0 <= i < 128 ->
  Z.testbit (be_value (f <$> seq 0 16)) i =
  Z.testbit (f (15 - Z.to_nat (i / 8))%nat) (i mod 8).
Proof.
  intros Hf Hi. rewrite be_value_testbit.
  - change (length (f <$> seq 0 16)) with 16%nat.
    rewrite nth_fmap_seq by lia. done.
  - apply Forall_fmap, Forall_forall. intros j [_ Hj]%elem_of_seq. apply Hf. lia.
  - change (length (f <$> seq 0 16)) with 16%nat. lia.
Qed.

Lemma be_value_As16 a : 0 <= addr a < 2 ^ 128 -> be_value (As16 a) = addr a.
Proof.
  intros Ha. apply Z.bits_inj'. intros i Hi.
  destruct (decide (i < 128)) as [Hlt|Hge].
  - unfold As16. rewrite be_value_bytes_testbit by (auto using byte_of_ok).
    pose proof (Z.div_mod i 8). pose proof (Z.mod_pos_bound i 8).
    assert (i / 8 < 16) by (apply Z.div_lt_upper_bound; lia).
    assert (0 <= i / 8) by (apply Z.div_pos; lia).
    rewrite byte_of_testbit by lia. f_equal. lia.
  - rewrite (testbit_high (addr a) 128) by lia. apply (testbit_high _ 128); [|lia].
    apply be_value_bound16; [|done].
    apply Forall_fmap, Forall_forall. intros. apply byte_of_ok.
Qed.

(** ** Masking and containment *)

Create HintDb netip.

Lemma prefix6_bits p : prefix6 p -> 0 <= Bits p <= 128.
Proof.
  intros ((_ & _ & H & _) & Hv & H6). destruct (H Hv) as [_ Hb].
  unfold Is6, BitLen in *. destruct (z (ip p)); done.
Qed.

Lemma prefix6_addr p : prefix6 p -> 0 <= addr (ip p) < 2 ^ 128.
Proof. intros ((H & _) & _). apply H. Qed.

Lemma prefix6_z p : prefix6 p -> z (ip p) = z6 EmptyString.
Proof.
  intros ((_ & Hz & _) & _ & H6). unfold Is6, Zone in *. by destruct (z (ip p)); simplify_eq.
Qed.

#[export] Hint Resolve prefix6_bits prefix6_addr : netip.

Lemma first_num_bounds p : prefix6 p -> 0 <= first_num p /\ last_num p < 2 ^ 128.
Proof.
  intros Hp. pose proof (prefix6_bits p Hp) as Hb. pose proof (prefix6_addr p Hp) as Ha.
  unfold last_num, first_num. set (h := 128 - Bits p).
  pose proof (pow2_pos h ltac:(lia)) as Hh.
  assert (0 <= addr (ip p) / 2 ^ h) by (by apply Z.div_pos; lia).
  assert (addr (ip p) / 2 ^ h < 2 ^ (128 - h)).
  { apply Z.div_lt_upper_bound; [done|]. rewrite <- Z.pow_add_r by lia.
    replace (h + (128 - h)) with 128 by lia. lia. }
  assert (2 ^ 128 = 2 ^ (128 - h) * 2 ^ h) as -> by (rewrite <- Z.pow_add_r by lia; f_equal; lia).
  nia.
Qed.

Lemma first_num_le_last p : prefix6 p -> first_num p <= last_num p.
Proof.
  intros Hp. pose proof (prefix6_bits p Hp). unfold last_num.
  pose proof (pow2_pos (128 - Bits p) ltac:(lia)). lia.
Qed.

Lemma in_prefix_block p x :
  prefix6 p -> in_prefix p x <-> x / 2 ^ (128 - Bits p) = addr (ip p) / 2 ^ (128 - Bits p).
Proof.
  intros Hp. pose proof (prefix6_bits p Hp). unfold in_prefix, last_num, first_num.
  rewrite same_block by lia. done.
Qed.

(** The masked prefix starts at the first address and covers the same block. *)
Lemma Masked6 p : prefix6 p -> Masked p = mkPrefix (mkAddr (first_num p) (z6 EmptyString)) (Bits p + 1).
Proof.
  intros Hp. pose proof (prefix6_bits p Hp) as Hb.
  unfold Masked, AddrPrefix. rewrite (prefix6_z p Hp).
  destruct (Z.ltb_spec (Bits p) 0); [lia|]. destruct (Z.ltb_spec 128 (Bits p)); [lia|].
  unfold PrefixFrom, withoutZone, WithZone. cbn [z addr IsValidAddr BitLen].
  rewrite (proj2 (Z.leb_le _ _)), (proj2 (Z.leb_le _ _)) by lia. cbn.
  unfold first_num, mask6. by rewrite land_high_mask by eauto with netip.
Qed.

Lemma Masked6_wf p : prefix6 p -> prefix6 (Masked p).
Proof.
  intros Hp. pose proof (first_num_bounds p Hp). pose proof (prefix6_bits p Hp).
  pose proof (first_num_le_last p Hp).
  rewrite Masked6 by done. unfold prefix6, prefix_wf, addr_wf, IsValid, IsValidAddr, Bits, Is6; cbn.
  rewrite Z.ltb_lt. change (Z.pow_pos 2 128) with (2 ^ 128). unfold Bits in *.
  repeat split; intros; done || lia.
Qed.

Lemma Masked6_Bits p : prefix6 p -> Bits (Masked p) = Bits p.
Proof. intros Hp. rewrite Masked6 by done. unfold Bits; cbn. lia. Qed.

Lemma Masked6_first p : prefix6 p -> first_num (Masked p) = first_num p.
Proof.
  intros Hp. unfold first_num at 1. rewrite Masked6_Bits, Masked6 by done. cbn.
  pose proof (prefix6_bits p Hp). unfold first_num.
  by rewrite Z.div_mul by (pose proof (pow2_pos (128 - Bits p)); lia).
Qed.

Lemma Masked6_in p x : prefix6 p -> in_prefix (Masked p) x <-> in_prefix p x.
Proof.
  intros Hp. unfold in_prefix, last_num. by rewrite Masked6_first, Masked6_Bits.
Qed.

(** A prefix is masked when its address is the first of the block. *)
Lemma Masked6_id p : prefix6 p -> addr (ip p) = first_num p -> Masked p = p.
Proof.
  intros Hp Ha. rewrite Masked6 by done. rewrite <- Ha. destruct p as [[x zk] b].
  pose proof (prefix6_z _ Hp) as Hz. cbn in *. subst. f_equal. unfold Bits; cbn. lia.
Qed.

Lemma Masked6_idem p : prefix6 p -> Masked (Masked p) = Masked p.
Proof.
  intros Hp. apply Masked6_id; [by apply Masked6_wf|].
  rewrite Masked6_first by done. by rewrite Masked6 by done.
Qed.

(** [Contains] on IPv6 is membership in the interval. *)
Lemma Contains6 p a :
  prefix6 p -> addr_wf a -> z a = z6 EmptyString ->
  Contains p a = true <-> in_prefix p (addr a).
Proof.
  intros Hp (Ha & _) Hz. pose proof (prefix6_bits p Hp). pose proof Hp as (_ & Hv & _).
  unfold Contains, hasZone, Is6, Zone, BitLen, Is4. rewrite Hv, Hz, (prefix6_z p Hp).
  rewrite bool_decide_true by done. cbn -[Z.eqb Z.land].
  change ((128 =? 0) || (128 =? 0) || negb (128 =? 128))%bool with false. cbv iota.
  rewrite bool_decide_false by done.
  rewrite in_prefix_block, Z.eqb_eq by done. unfold mask6.
  rewrite lxor_mask_zero by eauto with netip. done.
Qed.

Lemma Contains6_zone p a : hasZone a = true -> Contains p a = false.
Proof. unfold Contains. intros ->. by rewrite orb_true_r. Qed.

Lemma addr6_wf x : 0 <= x < 2 ^ 128 -> addr_wf (mkAddr x (z6 EmptyString)).
Proof. intros. split; [done|]. by split. Qed.

Lemma AddrFrom16_wf bs :
  Forall byte_ok bs -> length bs = 16%nat -> addr_wf (AddrFrom16 bs).
Proof. intros. apply addr6_wf. by apply be_value_bound16. Qed.

#[export] Hint Resolve addr6_wf AddrFrom16_wf Masked6_wf : netip.

(** ** Comparison of zone-free IPv6 addresses is comparison of numbers *)
Lemma Compare6 x y :
  Compare (mkAddr x (z6 EmptyString)) (mkAddr y (z6 EmptyString)) =
  match x ?= y with Lt => -1 | Eq => 0 | Gt => 1 end.
Proof.
  unfold Compare; cbn. destruct (Z.compare_spec x y) as [->|H|H].
  - by rewrite Z.ltb_irrefl.
  - by rewrite (proj2 (Z.ltb_lt x y)).
  - by rewrite (proj2 (Z.ltb_ge x y)), (proj2 (Z.ltb_lt y x)) by lia.
Qed.

(** ** [PrefixFrom] on IPv6 addresses *)
Lemma PrefixFrom_addr a n : addr (ip (PrefixFrom a n)) = addr a.
Proof. unfold PrefixFrom, withoutZone, WithZone. by destruct a as [x []]. Qed.

Lemma PrefixFrom6_bits a n : Is6 a = true -> 0 <= n <= 128 -> Bits (PrefixFrom a n) = n.
Proof.
  unfold Is6, PrefixFrom, Bits, IsValidAddr, BitLen. destruct a as [x [| |zn]]; cbn [z]; try done.
  intros _ Hn. rewrite (proj2 (Z.leb_le 0 n)), (proj2 (Z.leb_le n 128)) by lia. cbn [bitsPlusOne andb negb].
  rewrite bool_decide_false by done. cbn [negb andb]. lia.
Qed.

Lemma PrefixFrom6 a n : addr_wf a -> Is6 a = true -> 0 <= n <= 128 -> prefix6 (PrefixFrom a n).
Proof.
  intros Ha H6 Hn. pose proof (PrefixFrom6_bits a n H6 Hn) as Hb. pose proof (PrefixFrom_addr a n) as Hx.
  assert (z (ip (PrefixFrom a n)) = z6 EmptyString) as Hz.
  { unfold PrefixFrom, withoutZone, WithZone, Is6 in *. by destruct a as [x []]. }
  assert (bitsPlusOne (PrefixFrom a n) = n + 1) as Hb1 by (unfold Bits in Hb; lia).
  unfold prefix6, prefix_wf, addr_wf, IsValid, IsValidAddr, Is6, Zone, BitLen. rewrite Hx, Hz, Hb, Hb1.
  destruct Ha as (Ha & _). rewrite Z.ltb_lt. repeat split; intros; (done || lia).
Qed.

(** An IPv6 address without a zone. *)
Definition addr6 (a : netip.Addr) : Prop := netip.addr_wf a /\ netip.z a = netip.z6 EmptyString.

Lemma addr6_eta a : addr6 a -> a = netip.mkAddr (netip.addr a) (netip.z6 EmptyString).
Proof. intros [_ Hz]. destruct a as [x zk]. cbn in *. by rewrite Hz. Qed.
