(* ===== verification/NetipText.v ===== *)
(** * Reading and printing addresses and prefixes

    [netip.ParseAddr], [netip.ParsePrefix] and the [String] methods, following
    the loops of Go's implementation (an error is [None]: the program only wraps
    the message).  The main facts: parsing a printed address or prefix gives it
    back, so printing is injective and re-parsing is stable; and the bytes of a
    printed address without a zone are hexadecimal digits, colons and dots. *)

From S2P Require Import Prelude GoStrings Netip.

Module netiptext.

(** ** Hexadecimal groups *)

Definition hex_val (c : ascii) : option Z :=
  let n := byte_code c in
  if ((48 <=? n) && (n <=? 57))%bool then Some (n - 48)
  else if ((97 <=? n) && (n <=? 102))%bool then Some (n - 87)
  else if ((65 <=? n) && (n <=? 70))%bool then Some (n - 55)
  else None.

Definition digit (d : Z) : ascii :=
  ascii_of_N (Z.to_N (if d <? 10 then 48 + d else 87 + d)).

(** The digit loop of [parseIPv6]: at most four digits and at most 16 bits. *)
Fixpoint scan_hex (off : nat) (acc : Z) (s : string) : option (nat * Z * string) :=
  match s with
  | EmptyString => Some (off, acc, s)
  | String c s' =>
      match hex_val c with
      | None => Some (off, acc, s)
      | Some d =>
          let acc' := Z.shiftl acc 4 + d in
          if (3 <? off)%nat then None
          else if 65535 <? acc' then None
          else scan_hex (S off) acc' s'
      end
  end.

(** [appendHex]: no leading zeros. *)
Definition appendHex (x : Z) : string :=
  (if 4096 <=? x then String (digit (Z.shiftr x 12)) EmptyString else EmptyString) +:+
  (if 256 <=? x then String (digit (Z.land (Z.shiftr x 8) 15)) EmptyString else EmptyString) +:+
  (if 16 <=? x then String (digit (Z.land (Z.shiftr x 4) 15)) EmptyString else EmptyString) +:+
  String (digit (Z.land x 15)) EmptyString.

(** ** Dotted decimal *)

(** [parseIPv4Fields]: no leading zeros, no empty field, each at most 255. *)
Fixpoint v4_loop (s : string) (fields : list Z) (val : Z) (digLen : nat) (prev : option ascii)
    : option (list Z) :=
  match s with
  | EmptyString => if (length fields <? 3)%nat then None else Some (fields ++ [val])
  | String c s' =>
      match digit_val c with
      | Some d =>
          if ((digLen =? 1)%nat && (val =? 0))%bool then None
          else let val' := val * 10 + d in
               if 255 <? val' then None
               else v4_loop s' fields val' (S digLen) (Some c)
      | None =>
          if decide (c = "."%char) then
            if (bool_decide (prev = None) || bool_decide (s' = EmptyString)
                || bool_decide (prev = Some "."%char))%bool then None
            else if (length fields =? 3)%nat then None
            else v4_loop s' (fields ++ [val]) 0 0 (Some c)
          else None
      end
  end.

Definition parseIPv4Fields (s : string) : option (list Z) := v4_loop s [] 0 0 None.

(** [appendDecimal]. *)
Definition appendDecimal (x : Z) : string :=
  (if 100 <=? x then String (digit (x / 100)) EmptyString else EmptyString) +:+
  (if 10 <=? x then String (digit (x / 10 mod 10)) EmptyString else EmptyString) +:+
  String (digit (x mod 10)) EmptyString.

(** ** IPv6 *)

(** The loop [for i < 16] of [parseIPv6]; [ip] is the bytes written so far, so
    [i] is its length, and eight rounds exhaust the sixteen bytes. *)
Fixpoint v6_loop (fuel : nat) (s : string) (ip : list Z) (ellipsis : option nat)
    : option (list Z * option nat * string) :=
  match fuel with
  | O => Some (ip, ellipsis, s)
  | S fuel' =>
      if (16 <=? length ip)%nat then Some (ip, ellipsis, s) else
      match scan_hex 0 0 s with
      | None => None
      | Some (off, acc, rest) =>
          if (off =? 0)%nat then None else
          match rest with
          | String "."%char _ =>
              if (bool_decide (ellipsis = None) && negb (length ip =? 12)%nat)%bool then None
              else if (16 <? length ip + 4)%nat then None
              else match parseIPv4Fields s with
                   | Some b4 => Some (ip ++ b4, ellipsis, EmptyString)
                   | None => None
                   end
          | _ =>
              let ip' := ip ++ [Z.shiftr acc 8 mod 256; acc mod 256] in
              match rest with
              | EmptyString => Some (ip', ellipsis, EmptyString)
              | String ":"%char EmptyString => None
              | String ":"%char (String ":"%char EmptyString) =>
                  if decide (ellipsis = None)
                  then Some (ip', Some (length ip'), EmptyString) else None
              | String ":"%char (String ":"%char s2) =>
                  if decide (ellipsis = None)
                  then v6_loop fuel' s2 ip' (Some (length ip')) else None
              | String ":"%char s1 => v6_loop fuel' s1 ip' ellipsis
              | _ => None
              end
          end
      end
  end.

(** The end of [parseIPv6]: the whole text is used, and an ellipsis is expanded. *)
Definition v6_finish (ip : list Z) (ellipsis : option nat) (rest zone : string)
    : option netip.Addr :=
  if negb (bool_decide (rest = EmptyString)) then None else
  if (length ip <? 16)%nat then
    match ellipsis with
    | None => None
    | Some e =>
        Some (netip.WithZone
          (netip.AddrFrom16 (take e ip ++ replicate (16 - length ip) 0 ++ drop e ip)) zone)
    end
  else match ellipsis with
       | Some _ => None
       | None => Some (netip.WithZone (netip.AddrFrom16 ip) zone)
       end.

(** The leading ellipsis. *)
Definition v6_lead (s : string) : string * option nat :=
  match s with
  | String ":"%char (String ":"%char s') => (s', Some 0%nat)
  | _ => (s, None)
  end.

Definition v6_body (s zone : string) : option netip.Addr :=
  let '(s', ell) := v6_lead s in
  if (negb (bool_decide (ell = None)) && bool_decide (s' = EmptyString))%bool
  then Some (netip.WithZone netip.IPv6Unspecified zone)
  else match v6_loop 8 s' [] ell with
       | Some (ip, e, rest) => v6_finish ip e rest zone
       | None => None
       end.

Definition parseIPv6 (s : string) : option netip.Addr :=
  match cut_first "%"%char s with
  | Some (s', zone) => if decide (zone = EmptyString) then None else v6_body s' zone
  | None => v6_body s EmptyString
  end.

Definition parseIPv4 (s : string) : option netip.Addr :=
  netip.AddrFrom4 <$> parseIPv4Fields s.

(** [ParseAddr] looks for the first byte that tells the family. *)
Fixpoint first_sep (s : string) : option ascii :=
  match s with
  | EmptyString => None
  | String c s' =>
      if decide (c = "."%char \/ c = ":"%char \/ c = "%"%char) then Some c else first_sep s'
  end.

Definition ParseAddr (s : string) : option netip.Addr :=
  match first_sep s with
  | Some "."%char => parseIPv4 s
  | Some ":"%char => parseIPv6 s
  | _ => None
  end.

(** [ParsePrefix]: the text after the last slash is a decimal length without a
    leading zero, and a zone is refused. *)
Definition ParsePrefix (s : string) : option netip.Prefix :=
  match cut_last "/"%char s with
  | None => None
  | Some (ips, bitsStr) =>
      match ParseAddr ips with
      | None => None
      | Some a =>
          if netip.hasZone a then None else
          let lead_ok :=
            match bitsStr with
            | String c (String _ _) => ((49 <=? byte_code c) && (byte_code c <=? 57))%bool
            | _ => true
            end in
          if negb lead_ok then None else
          match atoi_unsigned bitsStr with
          | None => None
          | Some bits =>
              let maxBits := if netip.Is6 a then 128 else 32 in
              if ((bits <? 0) || (maxBits <? bits))%bool then None
              else Some (netip.PrefixFrom a bits)
          end
      end
  end.

(** ** Printing *)

(** The eight 16-bit groups. *)
Definition v6u16 (a : netip.Addr) (i : nat) : Z :=
  Z.shiftr (netip.addr a) (16 * (7 - Z.of_nat i)) mod 65536.

Definition groups (a : netip.Addr) : list Z := v6u16 a <$> seq 0 8.

(** End of the run of zero groups starting at [i]. *)
Fixpoint run_end (gs : list Z) (i : nat) : nat :=
  match gs with
  | g :: gs' => if g =? 0 then run_end gs' (S i) else i
  | [] => i
  end.

(** The run [::] stands for: the first of the longest of at least two groups;
    (255, 255) when there is none. *)
Definition zero_run (gs : list Z) : nat * nat :=
  foldl (fun '(zs, ze) i =>
           let j := run_end (drop i gs) i in
           if ((2 <=? j - i)%nat && (ze - zs <? j - i)%nat)%bool then (i, j) else (zs, ze))
        (255%nat, 255%nat) (seq 0 8).

Fixpoint print6 (fuel : nat) (gs : list Z) (zs ze i : nat) : string :=
  match fuel with
  | O => EmptyString
  | S fuel' =>
      if (8 <=? i)%nat then EmptyString
      else if (i =? zs)%nat then
        "::" +:+ (if (8 <=? ze)%nat then EmptyString
                  else appendHex (nth ze gs 0) +:+ print6 fuel' gs zs ze (S ze))
      else (if (0 <? i)%nat then ":" else EmptyString) +:+ appendHex (nth i gs 0)
           +:+ print6 fuel' gs zs ze (S i)
  end.

Definition zone_suffix (zone : string) : string :=
  if decide (zone = EmptyString) then EmptyString else String "%"%char zone.

Definition string6 (a : netip.Addr) : string :=
  let gs := groups a in
  let '(zs, ze) := zero_run gs in
  print6 9 gs zs ze 0 +:+ zone_suffix (netip.Zone a).

Definition string4 (a : netip.Addr) : string :=
  join "." (appendDecimal <$> netip.As4 a).

Definition AddrString (a : netip.Addr) : string :=
  match netip.z a with
  | netip.z0 => "invalid IP"
  | netip.z4 => string4 a
  | netip.z6 zone =>
      if netip.Is4In6 a
      then "::ffff:" +:+ string4 a +:+ zone_suffix zone
      else string6 a
  end.

Definition PrefixString (p : netip.Prefix) : string :=
  if netip.IsValid p then AddrString (netip.ip p) +:+ "/" +:+ itoa (netip.Bits p)
  else "invalid Prefix".

End netiptext.

Import netiptext.

(** ** Concrete values *)

Definition addr_of_string (s : string) : netip.Addr := default netip.zero_addr (ParseAddr s).
Definition prefix_of_string (s : string) : netip.Prefix := default netip.zero_prefix (ParsePrefix s).

Example parse_full : AddrString <$> ParseAddr "2001:0DB8:0:0:1:0:0:1" = Some "2001:db8::1:0:0:1".
Proof. vm_compute. reflexivity. Qed.
Example parse_suffix : AddrString <$> ParseAddr "::f000:0:0:0" = Some "::f000:0:0:0".
Proof. vm_compute. reflexivity. Qed.
Example parse_mapped : AddrString <$> ParseAddr "::ffff:192.0.2.1%eth0" = Some "::ffff:192.0.2.1%eth0".
Proof. vm_compute. reflexivity. Qed.
Example parse_v4 : AddrString <$> ParseAddr "10.0.0.255" = Some "10.0.0.255".
Proof. vm_compute. reflexivity. Qed.
Example parse_bad : ParseAddr <$> ["1::2::3"; "1:2:3"; "01.2.3.4"; "::12345"; "fe80::1%"; "1:2:3:4:5:6:7:8::"]
  = [None; None; None; None; None; None].
Proof. vm_compute. reflexivity. Qed.
Example parse_prefix : PrefixString <$> ParsePrefix "2001:db8::1/48" = Some "2001:db8::1/48".
Proof. vm_compute. reflexivity. Qed.
Example parse_prefix_bad : ParsePrefix <$> ["2001:db8::/048"; "2001:db8::/129"; "fe80::1%eth0/64"; "::/"]
  = [None; None; None; None].
Proof. vm_compute. reflexivity. Qed.

(** * The round trip *)

(** ** Groups of hexadecimal digits *)

Definition is_hex (c : ascii) : bool := bool_decide (is_Some (hex_val c)).

Fixpoint hexnum (acc : Z) (s : string) : Z :=
  match s with
  | EmptyString => acc
  | String c s' => hexnum (acc * 16 + default 0 (hex_val c)) s'
  end.

(** Text that ends a group. *)
Definition ends_group (s : string) : Prop :=
  match s with String c _ => hex_val c = None | EmptyString => True end.

Lemma small_cases n (P : Z -> Prop) :
  (forall k, (k < n)%nat -> P (Z.of_nat k)) -> forall d, 0 <= d < Z.of_nat n -> P d.
Proof. intros H d Hd. rewrite <- (Z2Nat.id d) by lia. apply H. lia. Qed.

Lemma hex_val_digit d : 0 <= d < 16 -> hex_val (digit d) = Some d.
Proof.
  revert d. apply (small_cases 16). intros k Hk.
  do 16 (destruct k as [|k]; [reflexivity|]). lia.
Qed.

Lemma hex_val_range c d : hex_val c = Some d -> 0 <= d < 16.
Proof. unfold hex_val. intros. case_match; zbool; simplify_eq; [lia|]. repeat case_match; zbool; simplify_eq; lia. Qed.

Lemma is_hex_digit d : 0 <= d < 16 -> is_hex (digit d) = true.
Proof. intros. unfold is_hex. rewrite hex_val_digit by done. done. Qed.

Lemma scan_hex_run s rest off acc :
  str_all is_hex s = true -> (off + String.length s <= 4)%nat ->
  0 <= acc < 16 ^ Z.of_nat off -> ends_group rest ->
  scan_hex off acc (s +:+ rest) = Some ((off + String.length s)%nat, hexnum acc s, rest).
Proof.
  revert off acc. induction s as [|c s IH]; intros off acc Hs Hl Hacc Hrest.
  - rewrite append_nil_l. cbn [String.length hexnum]. rewrite Nat.add_0_r.
    destruct rest as [|c rest]; [done|]. cbn. by rewrite Hrest.
  - rewrite append_cons. cbn [String.length hexnum scan_hex] in *.
    apply andb_true_iff in Hs as [Hc Hs]. unfold is_hex in Hc.
    apply bool_decide_eq_true in Hc as [d Hd]. rewrite Hd. cbn [from_option]; unfold id.
    pose proof (hex_val_range c d Hd). rewrite Z.shiftl_mul_pow2 by lia.
    change (2 ^ 4) with 16.
    assert (16 ^ Z.of_nat (S off) <= 16 ^ 4) by (apply Z.pow_le_mono_r; lia).
    rewrite Nat2Z.inj_succ, Z.pow_succ_r in * by lia.
    destruct (Nat.ltb_spec 3 off); [lia|]. destruct (Z.ltb_spec 65535 (acc * 16 + d)); [lia|].
    rewrite IH; [|done|lia| |done].
    + do 3 f_equal. lia.
    + rewrite Nat2Z.inj_succ, Z.pow_succ_r by lia. lia.
Qed.

Lemma land_15 x : Z.land x 15 = x mod 16.
Proof. exact (Z.land_ones x 4 ltac:(lia)). Qed.

(** A printed group: one to four hexadecimal digits whose value is the group. *)
Lemma appendHex_spec x :
  0 <= x < 65536 ->
  str_all is_hex (appendHex x) = true /\
  (1 <= String.length (appendHex x) <= 4)%nat /\ hexnum 0 (appendHex x) = x.
Proof.
  intros Hx. unfold appendHex. rewrite !land_15, !Z.shiftr_div_pow2 by lia.
  assert (forall y, is_hex (digit (y mod 16)) = true) as Hm.
  { intros y. apply is_hex_digit. by apply Z.mod_pos_bound. }
  assert (forall y, hex_val (digit (y mod 16)) = Some (y mod 16)) as Hv.
  { intros y. apply hex_val_digit. by apply Z.mod_pos_bound. }
  change (2 ^ 12) with 4096. change (2 ^ 8) with 256. change (2 ^ 4) with 16.
  pose proof (Z.div_mod x 16 ltac:(lia)). pose proof (Z.mod_pos_bound x 16 ltac:(lia)).
  pose proof (Z.div_mod (x / 16) 16 ltac:(lia)). pose proof (Z.div_mod (x / 256) 16 ltac:(lia)).
  assert (x / 16 / 16 = x / 256) as H16 by (by rewrite Z.div_div).
  assert (x / 256 / 16 = x / 4096) as H256 by (by rewrite Z.div_div).
  pose proof (Z.mod_pos_bound (x / 16) 16 ltac:(lia)).
  pose proof (Z.mod_pos_bound (x / 256) 16 ltac:(lia)).
  destruct (Z.leb_spec 4096 x); destruct (Z.leb_spec 256 x); destruct (Z.leb_spec 16 x); try lia;
    autorewrite with go_str; cbn [str_all String.length hexnum].
  - assert (0 <= x / 4096 < 16) by (split; [apply Z.div_pos|apply Z.div_lt_upper_bound]; lia).
    rewrite !Hm, !Hv, (is_hex_digit (x / 4096)), (hex_val_digit (x / 4096)) by done.
    cbn [from_option]; unfold id. split; [done|]. split; lia.
  - rewrite !Hm, !Hv. cbn [from_option]; unfold id. assert (x / 4096 = 0) by (apply Z.div_small; lia).
    split; [done|]. split; lia.
  - rewrite !Hm, !Hv. cbn [from_option]; unfold id. assert (x / 256 = 0) by (apply Z.div_small; lia).
    split; [done|]. split; lia.
  - rewrite !Hm, !Hv. cbn [from_option]; unfold id. assert (x / 16 = 0) by (apply Z.div_small; lia).
    split; [done|]. split; lia.
Qed.

Lemma scan_hex_group x rest :
  0 <= x < 65536 -> ends_group rest ->
  exists n, scan_hex 0 0 (appendHex x +:+ rest) = Some (S n, x, rest).
Proof.
  intros Hx Hrest. destruct (appendHex_spec x Hx) as (Hh & Hl & Hn).
  exists (String.length (appendHex x) - 1)%nat.
  rewrite scan_hex_run by (done || lia). rewrite Hn. do 3 f_equal. lia.
Qed.

(** The first byte of a printed group is a digit, so not a colon. *)
Lemma appendHex_cons x :
  0 <= x < 65536 -> exists c s, appendHex x = String c s /\ is_hex c = true.
Proof.
  intros Hx. destruct (appendHex_spec x Hx) as (Hh & Hl & _).
  destruct (appendHex x) as [|c s]; [cbn in Hl; lia|].
  exists c, s. split; [done|]. cbn in Hh. by apply andb_true_iff in Hh as [].
Qed.

(** ** The group loop *)

Definition grp_ok (x : Z) : Prop := 0 <= x < 65536.
Definition grp_bytes (x : Z) : list Z := [Z.shiftr x 8 mod 256; x mod 256].
Definition bytes_of (gs : list Z) : list Z := gs ≫= grp_bytes.
Definition hexes (gs : list Z) : string := join ":" (appendHex <$> gs).

Lemma length_bytes_of gs : length (bytes_of gs) = (2 * length gs)%nat.
Proof.
  induction gs as [|g gs IH]; [done|].
  change (bytes_of (g :: gs)) with (grp_bytes g ++ bytes_of gs).
  rewrite length_app, IH. cbn [length grp_bytes]. lia.
Qed.

Lemma bytes_of_app gs1 gs2 : bytes_of (gs1 ++ gs2) = bytes_of gs1 ++ bytes_of gs2.
Proof. apply bind_app. Qed.

(** Take the branches of the parser on a byte known to be a digit. *)
Ltac hex_case c Hc :=
  destruct c as [[] [] [] [] [] [] [] []]; first [discriminate Hc | reflexivity].

Lemma v6_loop_last f g ip ell :
  grp_ok g -> (length ip < 16)%nat ->
  v6_loop (S f) (appendHex g) ip ell = Some (ip ++ grp_bytes g, ell, EmptyString).
Proof.
  intros Hg Hl. destruct (scan_hex_group g EmptyString Hg) as [n Hn]; [done|].
  rewrite append_nil_r in Hn. cbn [v6_loop].
  destruct (Nat.leb_spec 16 (length ip)); [lia|]. by rewrite Hn.
Qed.

Lemma v6_loop_colon f g ip ell c s :
  grp_ok g -> (length ip < 16)%nat -> is_hex c = true ->
  v6_loop (S f) (appendHex g +:+ ":" +:+ String c s) ip ell =
  v6_loop f (String c s) (ip ++ grp_bytes g) ell.
Proof.
  intros Hg Hl Hc. destruct (scan_hex_group g (":" +:+ String c s) Hg) as [n Hn]; [done|].
  cbn [v6_loop]. destruct (Nat.leb_spec 16 (length ip)); [lia|]. rewrite Hn.
  hex_case c Hc.
Qed.

Lemma v6_loop_ellipsis_end f g ip :
  grp_ok g -> (length ip < 16)%nat ->
  v6_loop (S f) (appendHex g +:+ "::") ip None =
  Some (ip ++ grp_bytes g, Some (length (ip ++ grp_bytes g)), EmptyString).
Proof.
  intros Hg Hl. destruct (scan_hex_group g "::" Hg) as [n Hn]; [done|].
  cbn [v6_loop]. destruct (Nat.leb_spec 16 (length ip)); [lia|]. by rewrite Hn.
Qed.

Lemma v6_loop_ellipsis f g ip c s :
  grp_ok g -> (length ip < 16)%nat ->
  v6_loop (S f) (appendHex g +:+ "::" +:+ String c s) ip None =
  v6_loop f (String c s) (ip ++ grp_bytes g) (Some (length (ip ++ grp_bytes g))).
Proof.
  intros Hg Hl. destruct (scan_hex_group g ("::" +:+ String c s) Hg) as [n Hn]; [done|].
  cbn [v6_loop]. destruct (Nat.leb_spec 16 (length ip)); [lia|]. by rewrite Hn.
Qed.

Lemma hexes_cons g1 g2 gs : hexes (g1 :: g2 :: gs) = appendHex g1 +:+ ":" +:+ hexes (g2 :: gs).
Proof. done. Qed.

Lemma hexes_first g gs :
  grp_ok g -> exists c s, hexes (g :: gs) = String c s /\ is_hex c = true.
Proof.
  intros Hg. destruct (appendHex_cons g Hg) as (c & s & Hs & Hc). destruct gs as [|g2 gs].
  - exists c, s. done.
  - rewrite hexes_cons, Hs, append_cons. eauto.
Qed.

Lemma v6_loop_hexes gs fuel ip ell :
  gs <> [] -> Forall grp_ok gs -> (length gs <= fuel)%nat ->
  (length ip + 2 * length gs <= 16)%nat ->
  v6_loop fuel (hexes gs) ip ell = Some (ip ++ bytes_of gs, ell, EmptyString).
Proof.
  intros Hne Hgs. revert fuel ip Hne. induction Hgs as [|g gs Hg Hgs IH]; intros fuel ip Hne Hf Hl; [done|].
  destruct fuel as [|fuel]; cbn [length] in *; [lia|]. destruct gs as [|g2 gs].
  - change (hexes [g]) with (appendHex g). rewrite v6_loop_last by (done || lia).
    done.
  - rewrite hexes_cons. inversion Hgs as [|? ? Hg2 Hgs']; subst.
    destruct (hexes_first g2 gs Hg2) as (c & s & Hs & Hc). rewrite Hs.
    rewrite v6_loop_colon by (done || lia). rewrite <- Hs, IH; [|done|lia|].
    + by rewrite <- app_assoc.
    + rewrite length_app. cbn [length grp_bytes]. cbn [length] in Hl. lia.
Qed.

Lemma v6_loop_run pre post fuel ip :
  pre <> [] -> Forall grp_ok pre -> Forall grp_ok post ->
  (length pre + length post <= fuel)%nat ->
  (length ip + 2 * (length pre + length post) <= 16)%nat ->
  v6_loop fuel (hexes pre +:+ "::" +:+ hexes post) ip None =
  Some (ip ++ bytes_of pre ++ bytes_of post, Some (length (ip ++ bytes_of pre)), EmptyString).
Proof.
  intros Hne Hpre Hpost. revert fuel ip Hne.
  induction Hpre as [|g pre Hg Hpre IH]; intros fuel ip Hne Hf Hl; [done|].
  destruct fuel as [|fuel]; cbn [length] in *; [lia|]. destruct pre as [|g2 pre].
  - change (hexes [g]) with (appendHex g). change (bytes_of [g]) with (grp_bytes g).
    destruct Hpost as [|g2 post Hg2 Hpost].
    + change (hexes []) with EmptyString. rewrite append_nil_r.
      rewrite v6_loop_ellipsis_end by (done || lia). by rewrite app_nil_r.
    + destruct (hexes_first g2 post Hg2) as (c & s & Hs & Hc). rewrite Hs.
      rewrite v6_loop_ellipsis by (done || lia). rewrite <- Hs, v6_loop_hexes.
      * by rewrite <- app_assoc.
      * done.
      * by constructor.
      * cbn [length] in *. lia.
      * rewrite length_app. cbn [length grp_bytes] in *. lia.
  - rewrite hexes_cons, !append_assoc. inversion Hpre as [|? ? Hg2 Hpre']; subst.
    destruct (hexes_first g2 pre Hg2) as (c & s & Hs & Hc).
    rewrite Hs, (append_cons c s). rewrite v6_loop_colon by (done || lia).
    rewrite <- (append_cons c s), <- Hs. rewrite IH; [|done|lia|].
    + change (bytes_of (g :: g2 :: pre)) with (grp_bytes g ++ bytes_of (g2 :: pre)).
      by rewrite !app_assoc.
    + rewrite length_app. cbn [length grp_bytes] in *. lia.
Qed.

(** ** What is printed *)

(** The run of zero groups the printer leaves out, when there is one. *)
Definition run_ok (gs : list Z) (r : nat * nat) : Prop :=
  r = (255%nat, 255%nat) \/
  ((fst r + 2 <= snd r)%nat /\ (snd r <= length gs)%nat /\
   forall k, (fst r <= k < snd r)%nat -> nth k gs 0 = 0).

Lemma run_end_spec gs i :
  (i <= run_end gs i <= i + length gs)%nat /\
  (forall k, (k < run_end gs i - i)%nat -> nth k gs 0 = 0).
Proof.
  revert i. induction gs as [|g gs IH]; intros i; cbn [run_end length].
  - split; [lia|]. intros k. lia.
  - destruct (Z.eqb_spec g 0) as [->|]; [|split; [lia|]; intros k; lia].
    destruct (IH (S i)) as [Hb Hz]. split; [lia|]. intros [|k] Hk; [done|].
    cbn [nth]. apply Hz. lia.
Qed.

Lemma nth_drop {A} k i (l : list A) d : nth k (drop i l) d = nth (i + k) l d.
Proof.
  revert l. induction i as [|i IH]; intros l; [done|].
  destruct l; cbn; [by destruct k|]. apply IH.
Qed.

Lemma zero_run_ok gs : length gs = 8%nat -> run_ok gs (zero_run gs).
Proof.
  intros Hl. unfold zero_run.
  assert (forall ixs r, Forall (fun i => (i < 8)%nat) ixs -> run_ok gs r ->
    run_ok gs (foldl (fun '(zs, ze) i =>
      let j := run_end (drop i gs) i in
      if ((2 <=? j - i)%nat && (ze - zs <? j - i)%nat)%bool then (i, j) else (zs, ze)) r ixs))
    as Hfold.
  { induction ixs as [|i ixs IH]; intros [zs ze] His Hr; [done|]. inversion His; subst.
    cbn [foldl]. apply IH; [done|]. case_match; [|done].
    apply andb_true_iff in H as [H _]. apply Nat.leb_le in H.
    destruct (run_end_spec (drop i gs) i) as [Hb Hz]. rewrite length_drop in Hb.
    right. cbn [fst snd]. split; [lia|]. split; [lia|]. intros k Hk.
    specialize (Hz (k - i)%nat ltac:(lia)). rewrite nth_drop in Hz.
    by replace (i + (k - i))%nat with k in Hz by lia. }
  apply Hfold; [|by left]. repeat constructor.
Qed.

(** Text printed for groups [gs] around the run from [zs] to [ze]. *)
Lemma print6_shape gs zs ze :
  length gs = 8%nat ->
  (zs = 255%nat -> ze = 255%nat -> print6 9 gs zs ze 0 = hexes gs) /\
  ((zs + 2 <= ze <= 8)%nat ->
   print6 9 gs zs ze 0 = hexes (take zs gs) +:+ "::" +:+ hexes (drop ze gs)).
Proof.
  intros Hl. destruct gs as [|g0 [|g1 [|g2 [|g3 [|g4 [|g5 [|g6 [|g7 [|]]]]]]]]]; try done.
  split.
  - intros -> ->. unfold hexes. cbn -[appendHex]. by autorewrite with go_str.
  - intros H. unfold hexes.
    do 7 (destruct zs as [|zs];
      [do 9 (destruct ze as [|ze];
         [first [lia | cbn -[appendHex]; by autorewrite with go_str]|]); lia|]).
    lia.
Qed.

Lemma groups_ok a : Forall grp_ok (groups a).
Proof.
  apply Forall_fmap, Forall_forall. intros i _. unfold grp_ok, v6u16.
  cbn. by apply Z.mod_pos_bound.
Qed.

Lemma grp_bytes_v6u16 a i :
  (i < 8)%nat -> grp_bytes (v6u16 a i) = [netip.byte_of (netip.addr a) (2 * i);
                                          netip.byte_of (netip.addr a) (2 * i + 1)].
Proof.
  intros Hi. unfold grp_bytes, v6u16, netip.byte_of.
  change 65536 with (2 ^ 16). change 256 with (2 ^ 8).
  assert (forall n m k, 0 <= k -> 0 <= m -> m + 8 <= 16 -> n = k + m ->
    Z.shiftr (Z.shiftr (netip.addr a) k mod 2 ^ 16) m mod 2 ^ 8 =
    Z.shiftr (netip.addr a) n mod 2 ^ 8) as H.
  { intros n m k Hk Hm Hmk ->. apply Z.bits_inj'. intros j Hj.
    destruct (decide (j < 8)).
    - rewrite !Z.mod_pow2_bits_low, !Z.shiftr_spec, Z.mod_pow2_bits_low, Z.shiftr_spec by lia.
      f_equal. lia.
    - by rewrite !Z.mod_pow2_bits_high by lia. }
  f_equal; [|f_equal].
  - apply H; lia.
  - rewrite <- (H _ 0 (16 * (7 - Z.of_nat i))) by lia. by rewrite Z.shiftr_0_r.
Qed.

Lemma bytes_of_groups a : bytes_of (groups a) = netip.As16 a.
Proof.
  unfold bytes_of, groups, netip.As16. cbn [seq fmap list_fmap mbind list_bind].
  rewrite !grp_bytes_v6u16 by lia. done.
Qed.

(** ** Parsing what was printed *)

Lemma v6_lead_hex c s : is_hex c = true -> v6_lead (String c s) = (String c s, None).
Proof. intros Hc. hex_case c Hc. Qed.

Lemma v6_body_plain g gs zone :
  grp_ok g ->
  v6_body (hexes (g :: gs)) zone =
  match v6_loop 8 (hexes (g :: gs)) [] None with
  | Some (ip, e, rest) => v6_finish ip e rest zone
  | None => None
  end.
Proof.
  intros Hg. destruct (hexes_first g gs Hg) as (c & s & -> & Hc).
  unfold v6_body. by rewrite v6_lead_hex.
Qed.

Lemma v6_body_run_front post zone :
  Forall grp_ok post -> (length post <= 6)%nat ->
  v6_body ("::" +:+ hexes post) zone = v6_finish (bytes_of post) (Some 0%nat) EmptyString zone.
Proof.
  intros Hpost Hl. destruct post as [|g post]; [done|].
  pose proof Hpost as Hpost'. inversion Hpost as [|? ? Hg _]; subst.
  pose proof (v6_loop_hexes (g :: post) 8 [] (Some 0%nat) ltac:(done) Hpost'
    ltac:(lia) ltac:(cbn [length] in *; lia)) as Hloop.
  destruct (hexes_first g post Hg) as (c & s & Hs & Hc). rewrite Hs in *.
  unfold v6_body. change (v6_lead ("::" +:+ String c s)) with (String c s, Some 0%nat).
  cbv beta iota. rewrite (bool_decide_false (String c s = EmptyString)), andb_false_r by done.
  by rewrite Hloop.
Qed.

Lemma v6_body_run g pre post zone :
  Forall grp_ok (g :: pre) -> Forall grp_ok post ->
  (length (g :: pre) + length post <= 8)%nat ->
  v6_body (hexes (g :: pre) +:+ "::" +:+ hexes post) zone =
  v6_finish (bytes_of (g :: pre) ++ bytes_of post)
    (Some (length (bytes_of (g :: pre)))) EmptyString zone.
Proof.
  intros Hpre Hpost Hl.
  pose proof (v6_loop_run (g :: pre) post 8 [] ltac:(done) Hpre Hpost Hl
    ltac:(cbn [length] in *; lia)) as Hloop.
  inversion Hpre as [|? ? Hg _]; subst.
  destruct (hexes_first g pre Hg) as (c & s & Hs & Hc). rewrite Hs in *.
  rewrite append_cons in *.
  unfold v6_body. by rewrite v6_lead_hex, Hloop.
Qed.

(** Expanding the ellipsis puts the run of zero groups back. *)
Lemma v6_finish_run pre post n zone :
  n <> 0%nat -> (length pre + n + length post = 8)%nat ->
  v6_finish (bytes_of pre ++ bytes_of post) (Some (length (bytes_of pre))) EmptyString zone =
  Some (netip.mkAddr (netip.be_value (bytes_of (pre ++ replicate n 0 ++ post))) (netip.z6 zone)).
Proof.
  intros Hn Hl. unfold v6_finish. rewrite bool_decide_true by done. cbn [negb].
  rewrite length_app, !length_bytes_of.
  destruct (Nat.ltb_spec (2 * length pre + 2 * length post) 16); [|lia].
  rewrite take_app_le, take_ge, drop_app_ge by (rewrite length_bytes_of; lia).
  rewrite length_bytes_of, Nat.sub_diag, drop_0.
  replace (16 - (2 * length pre + 2 * length post))%nat with (2 * n)%nat by lia.
  rewrite !bytes_of_app. do 2 f_equal. unfold netip.AddrFrom16, netip.WithZone; cbn.
  do 4 f_equal. clear. induction n as [|n IH]; [done|].
  replace (S n + (S n + 0))%nat with (S (S (n + (n + 0)))) by lia. cbn [replicate].
  change (bytes_of (0 :: replicate n 0)) with (0 :: 0 :: bytes_of (replicate n 0)).
  by rewrite <- IH.
Qed.

Lemma be_value_groups a :
  netip.addr_wf a -> netip.be_value (bytes_of (groups a)) = netip.addr a.
Proof. intros (Ha & _). by rewrite bytes_of_groups, be_value_As16. Qed.

(** The whole group list around a run of zero groups. *)
Lemma run_split gs zs ze :
  (zs <= ze <= length gs)%nat -> (forall k, (zs <= k < ze)%nat -> nth k gs 0 = 0) ->
  take zs gs ++ replicate (ze - zs) 0 ++ drop ze gs = gs.
Proof.
  intros Hb Hz. apply list_eq. intros k.
  destruct (decide (k < zs)%nat).
  { rewrite lookup_app_l by (rewrite length_take; lia). by rewrite lookup_take_lt. }
  rewrite lookup_app_r by (rewrite length_take; lia). rewrite length_take, Nat.min_l by lia.
  destruct (decide (k < ze)%nat).
  - rewrite lookup_app_l by (rewrite length_replicate; lia).
    rewrite lookup_replicate_2 by lia. symmetry.
    specialize (Hz k ltac:(lia)). rewrite <- Hz.
    destruct (nth_lookup_or_length gs k 0); [done|lia].
  - rewrite lookup_app_r by (rewrite length_replicate; lia).
    rewrite length_replicate, lookup_drop. f_equal. lia.
Qed.

(** Text before a zone or a family byte. *)
Definition addr_byte (c : ascii) : bool :=
  is_hex c || bool_decide (c = ":"%char) || bool_decide (c = "."%char).

Lemma str_all_hexes P gs :
  (forall c, is_hex c = true -> P c = true) -> P ":"%char = true -> Forall grp_ok gs ->
  str_all P (hexes gs) = true.
Proof.
  intros HP Hc Hgs. apply str_all_join; [cbn; by rewrite Hc|].
  apply Forall_fmap. eapply Forall_impl; [done|]. intros g Hg. cbn.
  destruct (appendHex_spec g Hg) as (Hh & _). by eapply str_all_impl.
Qed.

(** Every printed IPv6 text is groups joined by colons, around at most one run. *)
Lemma string6_shape a (Q : string -> Prop) :
  Q (hexes (groups a)) ->
  (forall zs ze, (zs + 2 <= ze <= 8)%nat ->
     take zs (groups a) ++ replicate (ze - zs) 0 ++ drop ze (groups a) = groups a ->
     Q (hexes (take zs (groups a)) +:+ "::" +:+ hexes (drop ze (groups a)))) ->
  exists s, string6 a = s +:+ zone_suffix (netip.Zone a) /\ Q s.
Proof.
  intros H1 H2. unfold string6. pose proof (zero_run_ok (groups a) eq_refl) as Hr.
  destruct (zero_run (groups a)) as [zs ze]. eexists; split; [done|].
  destruct (print6_shape (groups a) zs ze eq_refl) as [P1 P2].
  destruct Hr as [[= -> ->]|(Hlt & Hle & Hz)].
  - by rewrite P1.
  - cbn [fst snd] in *. change (length (groups a)) with 8%nat in Hle.
    rewrite P2 by lia. apply H2; [lia|]. apply run_split; [|done].
    change (length (groups a)) with 8%nat. lia.
Qed.

(** The body of the IPv6 parser inverts the printer. *)
Lemma v6_body_hexes a zone :
  netip.addr_wf a ->
  v6_body (hexes (groups a)) zone = Some (netip.mkAddr (netip.addr a) (netip.z6 zone)).
Proof.
  intros Ha. pose proof (groups_ok a) as Hok. pose proof (be_value_groups a Ha) as Hv.
  assert (length (groups a) = 8%nat) as Hl by done.
  destruct (groups a) as [|g gs] eqn:Hg; [done|].
  rewrite v6_body_plain by (by inversion Hok).
  rewrite (v6_loop_hexes (g :: gs) 8 [] None) by (done || rewrite Hl; cbn; lia).
  unfold v6_finish. rewrite bool_decide_true by done. cbn [negb app].
  rewrite length_bytes_of, Hl. change (2 * 8 <? 16)%nat with false. cbv iota.
  unfold netip.AddrFrom16, netip.WithZone. cbn [netip.z netip.addr].
  by rewrite Hv.
Qed.

Lemma v6_body_run_all a zone zs ze :
  netip.addr_wf a -> (zs + 2 <= ze <= 8)%nat ->
  take zs (groups a) ++ replicate (ze - zs) 0 ++ drop ze (groups a) = groups a ->
  v6_body (hexes (take zs (groups a)) +:+ "::" +:+ hexes (drop ze (groups a))) zone =
  Some (netip.mkAddr (netip.addr a) (netip.z6 zone)).
Proof.
  intros Ha Hb Hgs.
  assert (Forall grp_ok (take zs (groups a))) as Hpre by (apply Forall_take, groups_ok).
  assert (Forall grp_ok (drop ze (groups a))) as Hpost by (apply Forall_drop, groups_ok).
  assert (length (take zs (groups a)) = zs) as Hlt
    by (rewrite length_take; change (length (groups a)) with 8%nat; lia).
  assert (length (drop ze (groups a)) = (8 - ze)%nat) as Hld by (by rewrite length_drop).
  assert (netip.addr a = netip.be_value (bytes_of (take zs (groups a) ++
    replicate (ze - zs) 0 ++ drop ze (groups a)))) as ->
    by (rewrite Hgs; symmetry; by apply be_value_groups).
  rewrite <- (v6_finish_run (take zs (groups a)) (drop ze (groups a)) (ze - zs) zone) by lia.
  destruct (take zs (groups a)) as [|g pre].
  - change (hexes []) with EmptyString. rewrite append_nil_l, v6_body_run_front by (done || lia).
    done.
  - by rewrite v6_body_run by (done || lia).
Qed.

Lemma cut_zone s zone :
  str_all (not_byte "%"%char) s = true ->
  parseIPv6 (s +:+ zone_suffix zone) = v6_body s zone.
Proof.
  intros Hs. unfold parseIPv6, zone_suffix. destruct (decide (zone = EmptyString)) as [->|Hz].
  - rewrite append_nil_r, cut_first_none by done. done.
  - rewrite cut_first_app by done. by rewrite decide_False.
Qed.

Lemma is_hex_not_byte b c :
  is_hex b = false -> is_hex c = true -> not_byte b c = true.
Proof. intros Hb Hc. unfold not_byte. rewrite bool_decide_false; [done|congruence]. Qed.

Lemma is_hex_not_sep c : is_hex c = true -> ~ (c = "."%char \/ c = ":"%char \/ c = "%"%char).
Proof. intros Hc [->|[->| ->]]; discriminate Hc. Qed.

Lemma first_sep_app s c rest :
  str_all is_hex s = true -> c = "."%char \/ c = ":"%char \/ c = "%"%char ->
  first_sep (s +:+ String c rest) = Some c.
Proof.
  intros Hs Hc. induction s as [|b s IH].
  - rewrite append_nil_l. cbn. by rewrite decide_True.
  - rewrite append_cons. cbn in *. apply andb_true_iff in Hs as [Hb Hs].
    rewrite decide_False by (by apply is_hex_not_sep). by apply IH.
Qed.

(** An IPv6 text has a colon before any dot or percent sign. *)
Lemma first_sep_hexes g gs rest :
  grp_ok g -> gs <> [] -> first_sep (hexes (g :: gs) +:+ rest) = Some ":"%char.
Proof.
  intros Hg Hne. destruct gs as [|g2 gs]; [done|]. rewrite hexes_cons, !append_assoc.
  destruct (appendHex_spec g Hg) as (Hh & _).
  rewrite append_cons, append_nil_l. apply first_sep_app; auto.
Qed.

Lemma first_sep_run pre rest :
  Forall grp_ok pre -> first_sep (hexes pre +:+ "::" +:+ rest) = Some ":"%char.
Proof.
  intros Hpre. destruct Hpre as [|g pre Hg Hpre]; [done|]. destruct pre as [|g2 pre].
  - change (hexes [g]) with (appendHex g). rewrite !append_cons, append_nil_l.
    destruct (appendHex_spec g Hg) as (Hh & _). apply first_sep_app; auto.
  - apply first_sep_hexes; done.
Qed.

Lemma parse_string6 a zone :
  netip.addr_wf a -> netip.z a = netip.z6 zone -> ParseAddr (string6 a) = Some a.
Proof.
  intros Ha Hz.
  assert (a = netip.mkAddr (netip.addr a) (netip.z6 zone)) as Heq by (destruct a; cbn in *; by subst).
  destruct (string6_shape a (fun s => str_all (not_byte "%"%char) s = true /\
      (forall rest, first_sep (s +:+ rest) = Some ":"%char) /\ v6_body s zone = Some a))
    as (s & -> & Hs & Hf & Hb).
  - split; [apply str_all_hexes; [|done|apply groups_ok]; intros; by apply is_hex_not_byte|].
    split; [|by rewrite v6_body_hexes, <- Heq].
    intros rest. pose proof (groups_ok a) as Hok.
    destruct (groups a) as [|g gs] eqn:Hg; [done|]. inversion Hok; subst.
    apply first_sep_hexes; [done|]. by intros ->.
  - intros zs ze Hb Hgs.
    assert (Forall grp_ok (take zs (groups a))) by (apply Forall_take, groups_ok).
    assert (Forall grp_ok (drop ze (groups a))) by (apply Forall_drop, groups_ok).
    split; [|split].
    + rewrite !str_all_app, !str_all_hexes by (done || intros; by apply is_hex_not_byte). done.
    + intros rest. rewrite !append_assoc. by apply first_sep_run.
    + by rewrite v6_body_run_all, <- Heq.
  - unfold netip.Zone. rewrite Hz. unfold ParseAddr. rewrite Hf. by rewrite cut_zone.
Qed.

(** ** Dotted decimal *)

Lemma digit_val_digit d : 0 <= d < 10 -> digit_val (digit d) = Some d.
Proof.
  revert d. apply (small_cases 10). intros k Hk.
  do 10 (destruct k as [|k]; [reflexivity|]). lia.
Qed.

Lemma digit_not_dot d : 0 <= d < 16 -> digit d <> "."%char.
Proof. intros Hd He. pose proof (hex_val_digit d Hd) as H. by rewrite He in H. Qed.

(** A printed byte: read back digit by digit, without a leading zero. *)
Lemma v4_loop_decimal x rest fields prev :
  0 <= x < 256 ->
  exists n c, c <> "."%char /\
    v4_loop (appendDecimal x +:+ rest) fields 0 0 prev = v4_loop rest fields x (S n) (Some c).
Proof.
  intros Hx. unfold appendDecimal.
  pose proof (Z.div_mod x 10 ltac:(lia)). pose proof (Z.mod_pos_bound x 10 ltac:(lia)).
  pose proof (Z.div_mod (x / 10) 10 ltac:(lia)). pose proof (Z.mod_pos_bound (x / 10) 10 ltac:(lia)).
  assert (x / 10 / 10 = x / 100) by (by rewrite Z.div_div).
  assert (0 <= x / 100 < 10) by (split; [apply Z.div_pos|apply Z.div_lt_upper_bound]; lia).
  set (d1 := x mod 10) in *. set (d2 := x / 10 mod 10) in *. set (d3 := x / 100) in *.
  pose proof (digit_val_digit d1 ltac:(lia)) as E1. pose proof (digit_val_digit d2 ltac:(lia)) as E2.
  pose proof (digit_val_digit d3 ltac:(lia)) as E3.
  destruct (Z.leb_spec 100 x), (Z.leb_spec 10 x); try lia; autorewrite with go_str.
  - exists 2%nat, (digit d1). split; [apply digit_not_dot; lia|].
    cbn [v4_loop]. rewrite E3. cbn [Nat.eqb andb].
    destruct (Z.ltb_spec 255 (0 * 10 + d3)); [lia|]. cbn [v4_loop]. rewrite E2. cbn [Nat.eqb andb].
    destruct (Z.eqb_spec (0 * 10 + d3) 0); [lia|].
    destruct (Z.ltb_spec 255 ((0 * 10 + d3) * 10 + d2)); [lia|].
    cbn [v4_loop]. rewrite E1. cbn [Nat.eqb andb].
    destruct (Z.ltb_spec 255 (((0 * 10 + d3) * 10 + d2) * 10 + d1)); [lia|]. f_equal. lia.
  - exists 1%nat, (digit d1). split; [apply digit_not_dot; lia|].
    cbn [v4_loop]. rewrite E2. cbn [Nat.eqb andb].
    destruct (Z.ltb_spec 255 (0 * 10 + d2)); [lia|]. cbn [v4_loop]. rewrite E1. cbn [Nat.eqb andb].
    destruct (Z.eqb_spec (0 * 10 + d2) 0); [lia|].
    destruct (Z.ltb_spec 255 ((0 * 10 + d2) * 10 + d1)); [lia|]. f_equal. lia.
  - exists 0%nat, (digit d1). split; [apply digit_not_dot; lia|].
    cbn [v4_loop]. rewrite E1. cbn [Nat.eqb andb].
    destruct (Z.ltb_spec 255 (0 * 10 + d1)); [lia|]. f_equal. lia.
Qed.

Lemma v4_loop_dot x fields n c s b :
  b <> "."%char -> (length fields < 3)%nat ->
  v4_loop (String "."%char (String c s)) fields x n (Some b) =
  v4_loop (String c s) (fields ++ [x]) 0 0 (Some "."%char).
Proof.
  intros Hb Hf. cbn [v4_loop digit_val]. change (digit_val "."%char) with (@None Z).
  rewrite decide_True by done. rewrite (bool_decide_false (Some b = None)) by done.
  rewrite (bool_decide_false (String c s = EmptyString)) by done.
  rewrite (bool_decide_false (Some b = Some "."%char)) by congruence. cbn [orb].
  by rewrite (proj2 (Nat.eqb_neq _ _)) by lia.
Qed.

Lemma appendDecimal_cons x :
  0 <= x < 256 -> exists c s, appendDecimal x = String c s /\ is_hex c = true.
Proof.
  intros Hx. unfold appendDecimal.
  assert (0 <= x / 100 < 10) by (split; [apply Z.div_pos|apply Z.div_lt_upper_bound]; lia).
  pose proof (Z.mod_pos_bound x 10 ltac:(lia)). pose proof (Z.mod_pos_bound (x / 10) 10 ltac:(lia)).
  destruct (100 <=? x), (10 <=? x); autorewrite with go_str;
    eexists _, _; (split; [done|]); apply is_hex_digit; lia.
Qed.

Lemma appendDecimal_hex x :
  0 <= x < 256 ->
  str_all is_hex (appendDecimal x) = true /\ (1 <= String.length (appendDecimal x) <= 3)%nat.
Proof.
  intros Hx. unfold appendDecimal.
  assert (0 <= x / 100 < 10) by (split; [apply Z.div_pos|apply Z.div_lt_upper_bound]; lia).
  pose proof (Z.mod_pos_bound x 10 ltac:(lia)). pose proof (Z.mod_pos_bound (x / 10) 10 ltac:(lia)).
  destruct (100 <=? x), (10 <=? x); autorewrite with go_str; cbn [str_all String.length];
    rewrite !is_hex_digit by lia; split; (done || lia).
Qed.

Lemma v4_loop_field x y rest fields n b :
  b <> "."%char -> (length fields < 3)%nat -> 0 <= y < 256 ->
  v4_loop ("." +:+ appendDecimal y +:+ rest) fields x n (Some b) =
  v4_loop (appendDecimal y +:+ rest) (fields ++ [x]) 0 0 (Some "."%char).
Proof.
  intros Hb Hf Hy. destruct (appendDecimal_cons y Hy) as (c & s & -> & _).
  by apply v4_loop_dot.
Qed.

Lemma parse_dotted b0 b1 b2 b3 :
  Forall byte_ok [b0; b1; b2; b3] ->
  parseIPv4Fields (join "." (appendDecimal <$> [b0; b1; b2; b3])) = Some [b0; b1; b2; b3].
Proof.
  rewrite !Forall_cons. intros (H0 & H1 & H2 & H3 & _). unfold byte_ok in *.
  cbn [fmap list_fmap join]. unfold parseIPv4Fields.
  destruct (v4_loop_decimal b0 ("." +:+ appendDecimal b1 +:+ "." +:+ appendDecimal b2 +:+ "."
    +:+ appendDecimal b3) [] None H0) as (n0 & x0 & Hx0 & ->).
  rewrite v4_loop_field by (done || cbn; lia).
  destruct (v4_loop_decimal b1 ("." +:+ appendDecimal b2 +:+ "." +:+ appendDecimal b3) ([] ++ [b0])
    (Some "."%char) H1) as (n1 & x1 & Hx1 & ->).
  rewrite v4_loop_field by (done || cbn; lia).
  destruct (v4_loop_decimal b2 ("." +:+ appendDecimal b3) (([] ++ [b0]) ++ [b1])
    (Some "."%char) H2) as (n2 & x2 & Hx2 & ->).
  rewrite <- (append_nil_r (appendDecimal b3)), v4_loop_field by (done || cbn; lia).
  by destruct (v4_loop_decimal b3 EmptyString ((([] ++ [b0]) ++ [b1]) ++ [b2])
    (Some "."%char) H3) as (n3 & x3 & Hx3 & ->).
Qed.

Lemma be_value_app l1 l2 :
  netip.be_value (l1 ++ l2) =
  netip.be_value l1 * 256 ^ Z.of_nat (length l2) + netip.be_value l2.
Proof. unfold netip.be_value at 1. rewrite foldl_app. apply foldl_be_shift. Qed.

Lemma be_value_mapped l :
  Forall byte_ok l -> length l = 16%nat -> Z.shiftr (netip.be_value l) 32 = 65535 ->
  netip.v4_mapped + netip.be_value (drop 12 l) = netip.be_value l.
Proof.
  intros Hok Hl H32. rewrite Z.shiftr_div_pow2 in H32 by lia.
  assert (length (drop 12 l) = 4%nat) as Hd by (rewrite length_drop; lia).
  pose proof (be_value_app (take 12 l) (drop 12 l)) as Happ. rewrite take_drop, Hd in Happ.
  pose proof (be_value_bound (drop 12 l) (Forall_drop _ _ _ Hok)) as Hb. rewrite Hd in Hb.
  change (256 ^ Z.of_nat 4) with (2 ^ 32) in *.
  assert (netip.be_value (take 12 l) = 65535) as Hhi.
  { rewrite <- H32. apply (Z.div_unique_pos _ (2 ^ 32) _ (netip.be_value (drop 12 l))); lia. }
  change netip.v4_mapped with (65535 * 2 ^ 32). lia.
Qed.

(** The last four bytes are the IPv4 address. *)
Lemma As4_value a :
  netip.addr_wf a -> Z.shiftr (netip.addr a) 32 = 65535 ->
  netip.v4_mapped + netip.be_value (netip.As4 a) = netip.addr a.
Proof.
  intros (Ha & _) H32. pose proof (be_value_As16 a Ha) as Hv. rewrite <- Hv in H32 |- *.
  apply be_value_mapped; [|apply length_As16|done].
  apply Forall_fmap, Forall_forall. intros. apply byte_of_ok.
Qed.

Lemma As4_shape a : exists b0 b1 b2 b3,
  netip.As4 a = [b0; b1; b2; b3] /\ Forall byte_ok [b0; b1; b2; b3].
Proof.
  do 4 eexists. split; [reflexivity|]. repeat constructor; apply byte_of_ok.
Qed.

Lemma string4_parse a : parseIPv4Fields (string4 a) = Some (netip.As4 a).
Proof.
  unfold string4. destruct (As4_shape a) as (b0 & b1 & b2 & b3 & -> & H).
  by apply parse_dotted.
Qed.

Lemma string4_shape a : exists d rest,
  string4 a = d +:+ String "."%char rest /\ str_all is_hex d = true /\
  (1 <= String.length d <= 3)%nat.
Proof.
  unfold string4. destruct (As4_shape a) as (b0 & b1 & b2 & b3 & -> & H).
  exists (appendDecimal b0), (join "." (appendDecimal <$> [b1; b2; b3])).
  rewrite !Forall_cons in H. destruct H as (H0 & _). destruct (appendDecimal_hex b0 H0).
  done.
Qed.

Lemma parse_string4 a :
  netip.addr_wf a -> netip.z a = netip.z4 -> ParseAddr (string4 a) = Some a.
Proof.
  intros Ha Hz. pose proof Ha as (_ & H4 & _). unfold ParseAddr, parseIPv4.
  rewrite string4_parse. destruct (string4_shape a) as (d & rest & -> & Hd & _).
  rewrite first_sep_app by auto.
  transitivity (netip.AddrFrom4 <$> Some (netip.As4 a)); [done|].
  cbn [fmap option_fmap option_map]. unfold netip.AddrFrom4.
  rewrite As4_value by auto. destruct a; cbn in *; by subst.
Qed.

Lemma scan_hex_dec d rest :
  str_all is_hex d = true -> (1 <= String.length d <= 3)%nat ->
  exists n v, scan_hex 0 0 (d +:+ String "."%char rest) = Some (S n, v, String "."%char rest).
Proof.
  intros Hd Hl. exists (String.length d - 1)%nat, (hexnum 0 d).
  rewrite scan_hex_run by (done || lia). do 3 f_equal. lia.
Qed.

Lemma v6_loop_v4_tail f a :
  v6_loop (S f) (string4 a) [255; 255] (Some 0%nat) =
  Some ([255; 255] ++ netip.As4 a, Some 0%nat, EmptyString).
Proof.
  cbn [v6_loop length Nat.leb]. rewrite string4_parse.
  destruct (string4_shape a) as (d & rest & -> & Hd & Hl).
  destruct (scan_hex_dec d rest Hd Hl) as (n & v & ->). done.
Qed.

Lemma parse_string4in6 a zone :
  netip.addr_wf a -> netip.z a = netip.z6 zone -> Z.shiftr (netip.addr a) 32 = 65535 ->
  ParseAddr ("::ffff:" +:+ string4 a +:+ zone_suffix zone) = Some a.
Proof.
  intros Ha Hz H32.
  assert (a = netip.mkAddr (netip.addr a) (netip.z6 zone)) as Heq by (clear -Hz; destruct a; cbn in *; by subst).
  assert (str_all (not_byte "%"%char) (string4 a) = true) as Hpct.
  { unfold string4. apply str_all_join; [done|]. apply Forall_fmap, Forall_forall. intros b Hb.
    destruct (As4_shape a) as (b0 & b1 & b2 & b3 & E & H). rewrite E in Hb.
    rewrite Forall_forall in H. destruct (appendDecimal_hex b (H b Hb)) as [Hh _].
    eapply str_all_impl; [|done]. intros c Hc. by apply is_hex_not_byte. }
  change (ParseAddr ?s) with (parseIPv6 s).
  rewrite <- append_assoc, cut_zone by (by rewrite str_all_app, Hpct).
  unfold v6_body.
  change (v6_lead ("::ffff:" +:+ string4 a))
    with (appendHex 65535 +:+ ":" +:+ string4 a, Some 0%nat). cbv beta iota.
  rewrite (bool_decide_false (_ +:+ _ = EmptyString)), andb_false_r by done.
  pose proof (v6_loop_v4_tail 6 a) as Htail.
  destruct (string4_shape a) as (d & rest & Hs & Hd & Hl).
  destruct d as [|c d]; [cbn in Hl; lia|]. rewrite append_cons in Hs. rewrite Hs in *.
  cbn in Hd. apply andb_true_iff in Hd as [Hc _].
  rewrite v6_loop_colon by (done || cbn; lia).
  change ([] ++ grp_bytes 65535) with [255; 255]. rewrite Htail.
  unfold v6_finish. rewrite bool_decide_true by done. cbn [negb].
  change (length ([255; 255] ++ netip.As4 a)) with 6%nat. cbn -[netip.As4 netip.be_value].
  unfold netip.AddrFrom16, netip.WithZone. cbn [netip.z netip.addr].
  assert (netip.be_value (0 :: 0 :: 0 :: 0 :: 0 :: 0 :: 0 :: 0 :: 0 :: 0 :: 255 :: 255 :: netip.As4 a)
    = netip.addr a) as ->.
  { rewrite !be_value_cons. cbn [length]. change (length (netip.As4 a)) with 4%nat.
    rewrite <- (As4_value a Ha H32). change netip.v4_mapped with (65535 * 2 ^ 32). lia. }
  f_equal. exact (eq_sym Heq).
Qed.

(** ** The round trip of addresses *)

Lemma ParseAddr_String a :
  netip.addr_wf a -> netip.IsValidAddr a = true -> ParseAddr (AddrString a) = Some a.
Proof.
  intros Ha Hv. unfold AddrString, netip.IsValidAddr in *. destruct (netip.z a) as [| |zone] eqn:Hz.
  - by rewrite bool_decide_true in Hv.
  - by apply parse_string4.
  - destruct (netip.Is4In6 a) eqn:H46.
    + unfold netip.Is4In6 in H46. apply andb_true_iff in H46 as [_ H46%Z.eqb_eq].
      by apply parse_string4in6.
    + by eapply parse_string6.
Qed.

Lemma AddrString_inj a b :
  netip.addr_wf a -> netip.addr_wf b -> netip.IsValidAddr a = true -> netip.IsValidAddr b = true ->
  AddrString a = AddrString b -> a = b.
Proof.
  intros Ha Hb Va Vb H. apply (f_equal ParseAddr) in H.
  rewrite !ParseAddr_String in H by done. by simplify_eq.
Qed.

(** ** The bytes of a printed address *)

Lemma string4_bytes a : str_all addr_byte (string4 a) = true.
Proof.
  unfold string4. apply str_all_join; [done|]. apply Forall_fmap, Forall_forall. intros b Hb.
  destruct (As4_shape a) as (b0 & b1 & b2 & b3 & E & H). rewrite E in Hb.
  rewrite Forall_forall in H. destruct (appendDecimal_hex b (H b Hb)) as [Hh _].
  eapply str_all_impl; [|done]. intros c Hc. unfold addr_byte. by rewrite Hc.
Qed.

Lemma hexes_bytes gs : Forall grp_ok gs -> str_all addr_byte (hexes gs) = true.
Proof.
  intros H. apply str_all_hexes; [|done|done]. intros c Hc. unfold addr_byte. by rewrite Hc.
Qed.

Lemma AddrString_bytes a :
  netip.IsValidAddr a = true -> netip.Zone a = EmptyString ->
  str_all addr_byte (AddrString a) = true.
Proof.
  intros Hv Hz. unfold AddrString, netip.IsValidAddr, netip.Zone in *.
  destruct (netip.z a) as [| |zone] eqn:E.
  - by rewrite bool_decide_true in Hv.
  - apply string4_bytes.
  - subst zone. destruct (netip.Is4In6 a).
    + rewrite !str_all_app, string4_bytes. done.
    + destruct (string6_shape a (fun s => str_all addr_byte s = true)) as (s & -> & Hs).
      * apply hexes_bytes, groups_ok.
      * intros zs ze _ _. rewrite !str_all_app, !hexes_bytes;
          auto using Forall_take, Forall_drop, groups_ok.
      * unfold netip.Zone. rewrite E, str_all_app, Hs. done.
Qed.

Lemma addr_byte_plain c : addr_byte c = true -> plain c = true.
Proof. destruct c as [[] [] [] [] [] [] [] []]; vm_compute; congruence. Qed.

Lemma addr_byte_not b c : addr_byte b = false -> addr_byte c = true -> not_byte b c = true.
Proof. intros Hb Hc. unfold not_byte. rewrite bool_decide_false; [done|congruence]. Qed.

(** ** The round trip of prefixes *)

Definition bits_text_ok (b : Z) : bool :=
  bool_decide (atoi_unsigned (itoa b) = Some b) &&
  match itoa b with
  | String c (String _ _) => ((49 <=? byte_code c) && (byte_code c <=? 57))%bool
  | _ => true
  end.

Lemma bits_text b : 0 <= b <= 128 -> bits_text_ok b = true.
Proof.
  intros Hb. apply (small_cases 129 (fun b => bits_text_ok b = true)); [|lia]. intros k Hk.
  assert (forallb (fun k => bits_text_ok (Z.of_nat k)) (seq 0 129) = true) as H
    by (vm_compute; reflexivity).
  rewrite forallb_forall in H. apply H, in_seq. lia.
Qed.

Lemma PrefixFrom_id p :
  netip.prefix_wf p -> netip.IsValid p = true -> netip.PrefixFrom (netip.ip p) (netip.Bits p) = p.
Proof.
  intros (Ha & Hz & Hb & _) Hv. destruct (Hb Hv) as [Hva Hbits].
  unfold netip.PrefixFrom. rewrite Hva, (proj2 (Z.leb_le _ _)), (proj2 (Z.leb_le _ _)) by lia.
  cbn [andb]. destruct p as [[x zk] b1]. unfold netip.Bits in *. cbn in *.
  unfold netip.withoutZone, netip.WithZone. cbn.
  destruct zk; cbn in Hz; subst; f_equal; lia.
Qed.

Lemma ParsePrefix_String p :
  netip.prefix_wf p -> netip.IsValid p = true -> ParsePrefix (PrefixString p) = Some p.
Proof.
  intros Hwf Hv. pose proof Hwf as (Ha & Hz & Hb & _). destruct (Hb Hv) as [Hva Hbits].
  unfold PrefixString. rewrite Hv. unfold ParsePrefix.
  assert (0 <= netip.Bits p <= 128) as Hb128.
  { unfold netip.BitLen in Hbits. destruct (netip.z (netip.ip p)); lia. }
  rewrite (append_cons "/"), append_nil_l, cut_last_app by (apply itoa_all; reflexivity).
  rewrite ParseAddr_String by done.
  pose proof (bits_text _ Hb128) as Ht. unfold bits_text_ok in Ht.
  apply andb_true_iff in Ht as [Ht%bool_decide_eq_true Hlead].
  assert (netip.hasZone (netip.ip p) = false) as ->.
  { unfold netip.hasZone. rewrite bool_decide_true by done. by rewrite andb_false_r. }
  cbv zeta. rewrite Hlead. cbn [negb]. rewrite Ht.
  assert ((netip.Bits p <? 0) = false) as -> by (apply Z.ltb_ge; lia).
  assert (((if netip.Is6 (netip.ip p) then 128 else 32) <? netip.Bits p) = false) as ->.
  { apply Z.ltb_ge. unfold netip.BitLen, netip.Is6 in *. destruct (netip.z (netip.ip p)); lia. }
  cbn [orb]. by rewrite PrefixFrom_id.
Qed.

(** ** Parsing only produces well-formed values *)

Lemma digit_val_range c d : digit_val c = Some d -> 0 <= d <= 9.
Proof. unfold digit_val. intros. case_match; zbool; simplify_eq. lia. Qed.

Lemma v4_loop_wf s fields val dl prev r :
  v4_loop s fields val dl prev = Some r -> Forall byte_ok fields -> byte_ok val ->
  (length fields <= 3)%nat -> Forall byte_ok r /\ length r = 4%nat.
Proof.
  revert fields val dl prev. induction s as [|c s IH]; intros fields val dl prev H Hf Hv Hl.
  - cbn [v4_loop] in H. destruct (Nat.ltb_spec (length fields) 3); simplify_eq.
    split; [by apply Forall_app; split; [|constructor]|]. rewrite length_app. cbn. lia.
  - cbn [v4_loop] in H. destruct (digit_val c) as [d|] eqn:Hd.
    + pose proof (digit_val_range c d Hd). unfold byte_ok in *.
      destruct ((dl =? 1)%nat && (val =? 0))%bool; [done|].
      destruct (Z.ltb_spec 255 (val * 10 + d)); [done|].
      eapply IH in H; [done|done| |done]. lia.
    + destruct (decide (c = "."%char)); [|done].
      destruct (_ || _)%bool; [done|]. destruct (Nat.eqb_spec (length fields) 3); [done|].
      eapply IH in H; [done| | |].
      * by apply Forall_app; split; [|constructor].
      * done.
      * rewrite length_app. cbn. lia.
Qed.

Lemma parseIPv4Fields_wf s r : parseIPv4Fields s = Some r -> Forall byte_ok r /\ length r = 4%nat.
Proof. intros H. eapply v4_loop_wf; [done|constructor|done|cbn; lia]. Qed.

Lemma grp_bytes_ok acc : Forall byte_ok [Z.shiftr acc 8 mod 256; acc mod 256].
Proof. repeat constructor; by apply Z.mod_pos_bound. Qed.

Lemma v6_loop_wf fuel s ip e ip' e' rest :
  v6_loop fuel s ip e = Some (ip', e', rest) ->
  Forall byte_ok ip -> (length ip + 2 * fuel = 16)%nat ->
  Forall byte_ok ip' /\ (length ip' <= 16)%nat.
Proof.
  revert s ip e. induction fuel as [|fuel IH]; intros s ip e H Hok Hl.
  - cbn in H. simplify_eq. split; [done|lia].
  - cbn [v6_loop] in H. destruct (Nat.leb_spec 16 (length ip)); [simplify_eq; split; [done|lia]|].
    destruct (scan_hex 0 0 s) as [[[off acc] rst]|]; [|done].
    destruct (off =? 0)%nat; [done|].
    set (ip1 := ip ++ [Z.shiftr acc 8 mod 256; acc mod 256]) in *.
    assert (Forall byte_ok ip1) as Hok1 by (apply Forall_app; split; [done|apply grp_bytes_ok]).
    assert (length ip1 + 2 * fuel = 16)%nat as Hl1 by (unfold ip1; rewrite length_app; cbn; lia).
    clearbody ip1.
    destruct rst as [|c rst]; [simplify_eq; split; [done|lia]|].
    destruct c as [[] [] [] [] [] [] [] []]; try discriminate H.
    + destruct (bool_decide (e = None) && negb (length ip =? 12)%nat)%bool; [done|].
      destruct (Nat.ltb_spec 16 (length ip + 4)); [done|].
      destruct (parseIPv4Fields s) as [b4|] eqn:H4; [|done]. simplify_eq.
      destruct (parseIPv4Fields_wf s b4 H4). rewrite Forall_app, length_app. split; [done|lia].
    + destruct rst as [|c2 rst]; [done|].
      destruct c2 as [[] [] [] [] [] [] [] []]; try (eapply IH; eassumption).
      destruct rst; (destruct (decide (e = None)); [|done]);
        [simplify_eq; split; [done|lia]|eapply IH; eassumption].
Qed.

Lemma WithZone_wf bs zone :
  Forall byte_ok bs -> length bs = 16%nat ->
  netip.addr_wf (netip.WithZone (netip.AddrFrom16 bs) zone) /\
  netip.z (netip.WithZone (netip.AddrFrom16 bs) zone) = netip.z6 zone.
Proof.
  intros H Hl. split; [|done]. split; [by apply be_value_bound16|]. by split.
Qed.

Lemma v6_body_wf s zone a :
  v6_body s zone = Some a -> netip.addr_wf a /\ netip.z a = netip.z6 zone.
Proof.
  unfold v6_body. intros H. destruct (v6_lead s) as [s' ell]. destruct (_ && _)%bool.
  { simplify_eq. split; [|done]. split; [done|]. by split. }
  destruct (v6_loop 8 s' [] ell) as [[[ip e] rest]|] eqn:Hloop; [|done].
  apply v6_loop_wf in Hloop as [Hok Hlen]; [|constructor|done].
  unfold v6_finish in H. destruct (negb _); [done|].
  destruct (Nat.ltb_spec (length ip) 16).
  - destruct e as [e|]; [|done]. simplify_eq. apply WithZone_wf.
    + rewrite !Forall_app. split; [by apply Forall_take|]. split; [|by apply Forall_drop].
      by apply Forall_replicate.
    + rewrite !length_app, length_take, length_replicate, length_drop. lia.
  - destruct e; [done|]. simplify_eq. apply WithZone_wf; [done|lia].
Qed.

Lemma ParseAddr_wf s a :
  ParseAddr s = Some a -> netip.addr_wf a /\ netip.IsValidAddr a = true.
Proof.
  unfold ParseAddr. intros H. destruct (first_sep s) as [c|]; [|done].
  destruct c as [[] [] [] [] [] [] [] []]; try discriminate H.
  - unfold parseIPv4 in H. apply fmap_Some in H as (b4 & H4 & ->).
    destruct (parseIPv4Fields_wf s b4 H4) as [Hok Hl]. split; [|done].
    pose proof (be_value_bound b4 Hok) as Hb. rewrite Hl in Hb.
    change (256 ^ Z.of_nat 4) with (2 ^ 32) in Hb.
    split; [|split; [intros _|done]]; cbn [netip.addr netip.AddrFrom4];
      change netip.v4_mapped with (65535 * 2 ^ 32).
    + lia.
    + rewrite Z.shiftr_div_pow2 by lia. symmetry.
      apply (Z.div_unique_pos _ (2 ^ 32) 65535 (netip.be_value b4)); lia.
  - unfold parseIPv6 in H. destruct (cut_first _ s) as [[s' zone]|].
    + destruct (decide _); [done|]. apply v6_body_wf in H as [Hwf Hz].
      split; [done|]. unfold netip.IsValidAddr. by rewrite Hz.
    + apply v6_body_wf in H as [Hwf Hz]. split; [done|]. unfold netip.IsValidAddr. by rewrite Hz.
Qed.

Lemma ParsePrefix_wf s p :
  ParsePrefix s = Some p -> netip.prefix_wf p /\ netip.IsValid p = true.
Proof.
  unfold ParsePrefix. intros H. destruct (cut_last _ s) as [[ips bitsStr]|]; [|done].
  destruct (ParseAddr ips) as [a|] eqn:Ha; [|done]. apply ParseAddr_wf in Ha as [Hwf Hva].
  destruct (netip.hasZone a) eqn:Hz; [done|]. cbv zeta in H. destruct (negb _); [done|].
  destruct (atoi_unsigned bitsStr) as [bits|]; [|done].
  destruct ((bits <? 0) || _)%bool eqn:Hb; [done|]. simplify_eq. zbool.
  assert (bits <= netip.BitLen a) as Hle.
  { unfold netip.BitLen, netip.Is6, netip.IsValidAddr in *. destruct (netip.z a); done. }
  assert (netip.bitsPlusOne (netip.PrefixFrom a bits) = bits + 1) as Hbits.
  { unfold netip.PrefixFrom. cbn. rewrite Hva, !(proj2 (Z.leb_le _ _)) by lia. done. }
  assert (netip.withoutZone a = a) as Hno.
  { unfold netip.hasZone, netip.withoutZone, netip.WithZone, netip.Is6, netip.Zone in *.
    destruct a as [x [| |zn]]; cbn in *; [done|done|].
    apply negb_false_iff, bool_decide_eq_true in Hz. by subst. }
  unfold netip.prefix_wf, netip.IsValid, netip.Bits. rewrite Hbits.
  unfold netip.PrefixFrom. cbn [netip.ip]. rewrite Hno.
  split; [|apply Z.ltb_lt; lia]. split; [done|]. split; [|split; [split; [done|lia]|lia]].
  unfold netip.hasZone, netip.Zone, netip.Is6 in *. destruct (netip.z a) eqn:E; [done|done|].
  cbn in Hz. by apply negb_false_iff, bool_decide_eq_true in Hz.
Qed.

(** ** What the parser reads consists of address bytes *)

Lemma scan_hex_split off acc s off' acc' rest :
  scan_hex off acc s = Some (off', acc', rest) -> exists pre, s = pre +:+ rest /\ str_all addr_byte pre = true.
Proof.
  revert off acc. induction s as [|c s IH]; intros off acc H; cbn [scan_hex] in H.
  - simplify_eq. by exists EmptyString.
  - destruct (hex_val c) as [d|] eqn:Hd; [|simplify_eq; by exists EmptyString].
    destruct (3 <? off)%nat; [done|]. destruct (65535 <? _); [done|].
    apply IH in H as (pre & -> & Hp). exists (String c pre). split; [done|].
    cbn. rewrite Hp, andb_true_r. unfold addr_byte, is_hex. rewrite Hd. by rewrite bool_decide_true by (by eexists).
Qed.

Lemma digit_val_addr_byte c d : digit_val c = Some d -> addr_byte c = true.
Proof. destruct c as [[] [] [] [] [] [] [] []]; vm_compute; congruence. Qed.

Lemma v4_loop_bytes s fields val dl prev r :
  v4_loop s fields val dl prev = Some r -> str_all addr_byte s = true.
Proof.
  revert fields val dl prev. induction s as [|c s IH]; intros fields val dl prev H; [done|].
  cbn [v4_loop] in H. cbn [str_all]. destruct (digit_val c) as [d|] eqn:Hd.
  - rewrite (digit_val_addr_byte c d Hd). destruct (_ && _)%bool; [done|]. destruct (255 <? _); [done|].
    by apply IH in H.
  - destruct (decide (c = "."%char)) as [->|]; [|done]. destruct (_ || _)%bool; [done|].
    destruct (_ =? _)%nat; [done|]. by apply IH in H.
Qed.

Lemma v6_loop_bytes fuel s ip e ip' e' :
  v6_loop fuel s ip e = Some (ip', e', EmptyString) -> str_all addr_byte s = true.
Proof.
  revert s ip e. induction fuel as [|fuel IH]; intros s ip e H; [by cbn in H; simplify_eq|].
  cbn [v6_loop] in H. destruct (16 <=? length ip)%nat; [by simplify_eq|].
  destruct (scan_hex 0 0 s) as [[[off acc] rst]|] eqn:Hs; [|done].
  apply scan_hex_split in Hs as (pre & Es & Hpre).
  destruct (off =? 0)%nat; [done|]. set (ip1 := ip ++ _) in *. clearbody ip1.
  destruct rst as [|c rst]; [by subst; rewrite append_nil_r|].
  destruct c as [[] [] [] [] [] [] [] []]; try discriminate H.
  - destruct (_ && _)%bool; [done|]. destruct (16 <? _)%nat; [done|].
    destruct (parseIPv4Fields s) eqn:H4; [|done]. by eapply v4_loop_bytes.
  - subst s. rewrite str_all_app, Hpre. cbn [andb].
    assert (forall t, str_all addr_byte (String ":" t) = str_all addr_byte t) as Hcolon by done.
    rewrite Hcolon. destruct rst as [|c2 rst]; [done|].
    destruct c2 as [[] [] [] [] [] [] [] []]; try (eapply IH; eassumption).
    destruct rst; (destruct (decide (e = None)); [|done]); [done|]. rewrite Hcolon. by eapply IH.
Qed.

Lemma v6_body_bytes s zone a : v6_body s zone = Some a -> str_all addr_byte s = true.
Proof.
  unfold v6_body. intros H. destruct (v6_lead s) as [s' ell] eqn:Hl.
  assert (str_all addr_byte s' = true -> str_all addr_byte s = true) as Hs.
  { intros Hs'. revert Hl. unfold v6_lead.
    destruct s as [|c1 s]; [by intros [= <- <-]|].
    destruct c1 as [[] [] [] [] [] [] [] []]; try (by intros [= <- <-]).
    destruct s as [|c2 s]; [by intros [= <- <-]|].
    destruct c2 as [[] [] [] [] [] [] [] []]; try (by intros [= <- <-]). }
  apply Hs. destruct (_ && _)%bool eqn:E.
  - by apply andb_true_iff in E as [_ ->%bool_decide_eq_true].
  - destruct (v6_loop 8 s' [] ell) as [[[ip e] rest]|] eqn:Hloop; [|done]. unfold v6_finish in H.
    destruct (bool_decide (rest = EmptyString)) eqn:Er; [|done]. apply bool_decide_eq_true in Er as ->.
    by eapply v6_loop_bytes.
Qed.

(** A text without a percent sign that is an address has only address bytes. *)
Lemma ParseAddr_bytes s a :
  ParseAddr s = Some a -> str_all (not_byte "%") s = true -> str_all addr_byte s = true.
Proof.
  unfold ParseAddr. intros H Hp. destruct (first_sep s) as [c|]; [|done].
  destruct c as [[] [] [] [] [] [] [] []]; try discriminate H.
  - apply fmap_Some in H as (b4 & H4 & _). by eapply v4_loop_bytes.
  - unfold parseIPv6 in H. rewrite cut_first_none in H by done. by eapply v6_body_bytes.
Qed.

Lemma PrefixString_chars p P :
  netip.prefix_wf p -> netip.IsValid p = true ->
  (forall c, addr_byte c = true -> P c = true) -> P "/"%char = true -> P "-"%char = true ->
  str_all P (PrefixString p) = true.
Proof.
  intros (_ & Hz & Hb & _) Hv HP Hs Hm. destruct (Hb Hv) as [Hva _]. unfold PrefixString. rewrite Hv.
  rewrite !str_all_app. rewrite (str_all_impl addr_byte P) by (done || by apply AddrString_bytes).
  cbn [str_all andb]. rewrite Hs. apply itoa_chars; [done|].
  apply pretty_N_char_cases. cbn. by rewrite !HP by reflexivity.
Qed.

(** A printed prefix is not an address. *)
Lemma ParseAddr_PrefixString p :
  netip.prefix_wf p -> netip.IsValid p = true -> ParseAddr (PrefixString p) = None.
Proof.
  intros Hwf Hv. destruct (ParseAddr (PrefixString p)) as [a|] eqn:E; [|done].
  apply ParseAddr_bytes in E.
  - unfold PrefixString in E. rewrite Hv, !str_all_app in E. cbn in E.
    by rewrite andb_false_r in E.
  - apply PrefixString_chars; [done|done| |done|done]. intros c. by apply addr_byte_not.
Qed.

(** Likewise an address without a zone. *)
Lemma ParseAddr_bytes_nozone s a :
  ParseAddr s = Some a -> netip.hasZone a = false -> str_all addr_byte s = true.
Proof.
  unfold ParseAddr. intros H Hz. destruct (first_sep s) as [c|]; [|done].
  destruct c as [[] [] [] [] [] [] [] []]; try discriminate H.
  - apply fmap_Some in H as (b4 & H4 & _). by eapply v4_loop_bytes.
  - unfold parseIPv6 in H. destruct (cut_first _ s) as [[s' zone]|]; [|by eapply v6_body_bytes].
    destruct (decide (zone = EmptyString)) as [|Hne]; [done|]. apply v6_body_wf in H as [_ Hz6].
    unfold netip.hasZone, netip.Is6, netip.Zone in Hz. rewrite Hz6 in Hz. by rewrite bool_decide_false in Hz.
Qed.

Lemma atoi_from_bytes acc s n : atoi_from acc s = Some n -> str_all addr_byte s = true.
Proof.
  revert acc. induction s as [|c s IH]; intros acc; cbn; [done|].
  destruct (digit_val c) as [d|] eqn:Hd; [|done]. intros H. by rewrite (digit_val_addr_byte c d Hd), (IH _ H).
Qed.

Lemma cut_last_split sep s l r : cut_last sep s = Some (l, r) -> s = l +:+ String sep r.
Proof.
  revert l r. induction s as [|c s IH]; intros l r; cbn; [done|].
  destruct (cut_last sep s) as [[l' r']|].
  - intros [= <- <-]. by rewrite append_cons, <- IH.
  - destruct (decide (c = sep)) as [->|]; [|done]. by intros [= <- <-].
Qed.

Definition prefix_byte (c : ascii) : bool := addr_byte c || bool_decide (c = "/"%char).

(** A prefix has no zone, so its text has only these bytes. *)
Lemma ParsePrefix_bytes s p : ParsePrefix s = Some p -> str_all prefix_byte s = true.
Proof.
  unfold ParsePrefix. destruct (cut_last _ s) as [[ips bitsStr]|] eqn:Hcut; [|done].
  apply cut_last_split in Hcut as ->. destruct (ParseAddr ips) as [a|] eqn:Ha; [|done].
  destruct (netip.hasZone a) eqn:Hz; [done|]. cbv zeta. destruct (negb _); [done|].
  destruct (atoi_unsigned bitsStr) as [bits|] eqn:Hb; [|done]. intros _.
  assert (forall c, addr_byte c = true -> prefix_byte c = true) as Hsub by (intros c Hc; unfold prefix_byte; by rewrite Hc).
  rewrite str_all_app. cbn. rewrite (str_all_impl addr_byte) by (done || by eapply ParseAddr_bytes_nozone).
  rewrite (str_all_impl addr_byte _ bitsStr); [done|done|].
  destruct bitsStr; [done|]. by eapply atoi_from_bytes.
Qed.

(** A zone shows in the text. *)
Lemma AddrString_zone a : netip.hasZone a = true -> str_all (not_byte "%") (AddrString a) = false.
Proof.
  unfold netip.hasZone, netip.Is6, netip.Zone. intros H. unfold AddrString.
  destruct (netip.z a) as [| |zone] eqn:E; [done|done|]. cbn [andb] in H.
  assert (zone <> EmptyString) as Hne by by intros ->.
  assert (forall s, str_all (not_byte "%") (s +:+ zone_suffix zone) = false) as Hs.
  { intros s. rewrite str_all_app. unfold zone_suffix. destruct (decide _); [done|]. cbn. by rewrite andb_false_r. }
  destruct (netip.Is4In6 a).
  - rewrite <- ?append_assoc. apply Hs.
  - destruct (string6_shape a (fun _ => True)) as (s & Hs6 & _); [done|done|].
    rewrite Hs6. unfold netip.Zone. rewrite E. apply Hs.
Qed.

(** Concrete prefixes for the witnesses of the other files. *)
Lemma prefix6_of_string s :
  match ParsePrefix s with Some p => netip.Is6 (netip.ip p) | None => false end = true ->
  netip.prefix6 (prefix_of_string s).
Proof.
  unfold prefix_of_string. destruct (ParsePrefix s) as [p|] eqn:H; [|done]. cbn.
  apply ParsePrefix_wf in H as [? ?]. intros ?. by split.
Qed.

Lemma addr_of_string_wf s : netip.addr_wf (addr_of_string s).
Proof.
  unfold addr_of_string. destruct (ParseAddr s) as [a|] eqn:H; cbn.
  - by apply ParseAddr_wf in H as [? _].
  - repeat split; done.
Qed.
