(* ===== verification/Policy.v ===== *)
(** * Acceptance policies

    [internal/prefix/policy.go] and [validate.go], with the address classes of
    [ra_receiver.go]: which acquired prefixes may be used, and which routers'
    advertisements are believed.  Errors are the values the Go functions build,
    [None] being [nil]. *)

From stdpp Require Import sorting.
From S2P Require Import Prelude GoStrings Netip NetipText.

(** ** Address classes ([ra_receiver.go], [validate.go]) *)

(** 2000::/3: the first three bits are 001. *)
Definition isGlobalUnicast (addr : netip.Addr) : bool :=
  if negb (netip.Is6 addr) then false
  else Z.land (nth 0 (netip.As16 addr) 0) 224 =? 32.

(** fc00::/7. *)
Definition isULA (addr : netip.Addr) : bool :=
  if negb (netip.Is6 addr) then false
  else Z.land (nth 0 (netip.As16 addr) 0) 254 =? 252.

Definition isLinkLocal (addr : netip.Addr) : bool := netip.IsLinkLocalUnicast addr.

Definition IsGlobalUnicastPrefix (p : netip.Prefix) : bool := isGlobalUnicast (netip.ip p).
Definition IsULAPrefix (p : netip.Prefix) : bool := isULA (netip.ip p).

(** ** Delegated prefixes ([validate.go]) *)

Inductive validate_error : Type :=
| ErrNotValid
| ErrNotIPv6 (p : netip.Prefix)
| ErrZeroLength (p : netip.Prefix)
| ErrOutOfRange (p : netip.Prefix)
| ErrNotUnicast (p : netip.Prefix)
| ErrLinkLocal (p : netip.Prefix)
| ErrUniqueLocal (p : netip.Prefix)
| ErrNotGlobal (p : netip.Prefix).

#[global] Instance validate_error_eq_dec : EqDecision validate_error.
Proof. solve_decision. Defined.

Definition ValidateDelegatedPrefix (p : netip.Prefix) (requireGlobalUnicast : bool)
    : option validate_error :=
  let a := netip.ip p in
  if negb (netip.IsValid p) then Some ErrNotValid
  else if (negb (netip.Is6 a) || netip.Is4In6 a)%bool then Some (ErrNotIPv6 p)
  else if netip.Bits p <=? 0 then Some (ErrZeroLength p)
  else if netip.BitLen a <? netip.Bits p then Some (ErrOutOfRange p)
  else if (netip.IsLoopback a || netip.IsMulticast a || netip.IsUnspecified a)%bool
  then Some (ErrNotUnicast p)
  else if netip.IsLinkLocalUnicast a then Some (ErrLinkLocal p)
  else if (requireGlobalUnicast && negb (isGlobalUnicast a))%bool
  then if isULA a then Some (ErrUniqueLocal p) else Some (ErrNotGlobal p)
  else None.

(** ** The source-agnostic policy ([policy.go]) *)

Record Policy : Type := mkPolicy {
  RequireGlobalUnicast : bool;
  MinPrefixLength : Z;
  MaxPrefixLength : Z
}.

#[global] Instance Policy_eq_dec : EqDecision Policy.
Proof. solve_decision. Defined.

Definition DefaultPolicy : Policy := mkPolicy true 0 0.

Inductive policy_error : Type :=
| ErrDelegated (e : validate_error)
| ErrTooShort (bits min : Z)
| ErrTooLong (bits max : Z).

#[global] Instance policy_error_eq_dec : EqDecision policy_error.
Proof. solve_decision. Defined.

Definition checkLength (p : Policy) (bits : Z) : option policy_error :=
  if ((0 <? MinPrefixLength p) && (bits <? MinPrefixLength p))%bool
  then Some (ErrTooShort bits (MinPrefixLength p))
  else if ((0 <? MaxPrefixLength p) && (MaxPrefixLength p <? bits))%bool
  then Some (ErrTooLong bits (MaxPrefixLength p))
  else None.

Definition Validate (p : Policy) (network : netip.Prefix) : option policy_error :=
  match ValidateDelegatedPrefix network (RequireGlobalUnicast p) with
  | Some err => Some (ErrDelegated err)
  | None => checkLength p (netip.Bits network)
  end.

Definition bool_text (b : bool) : string := if b then "true" else "false".

Definition Policy_Key (p : Policy) : string :=
  "gua=" +:+ bool_text (RequireGlobalUnicast p) +:+
  "|min=" +:+ itoa (MinPrefixLength p) +:+ "|max=" +:+ itoa (MaxPrefixLength p).

(** ** The Router Advertisement policy ([policy.go]) *)

Record RAPolicy : Type := mkRAPolicy {
  base_policy : Policy;
  TrustedRouters : list netip.Addr
}.

#[global] Instance RAPolicy_eq_dec : EqDecision RAPolicy.
Proof. solve_decision. Defined.

Definition DefaultRAPolicy : RAPolicy := mkRAPolicy DefaultPolicy [].

Definition Trusts (p : RAPolicy) (source : netip.Addr) : bool :=
  if (length (TrustedRouters p) =? 0)%nat then true
  else let source := netip.WithZone source EmptyString in
       existsb (fun trusted => bool_decide (trusted = source)) (TrustedRouters p).

(** [slices.Sort] on strings orders by bytes. *)
Definition sort_strings (l : list string) : list string := merge_sort String.le l.

Definition RAPolicy_Key (p : RAPolicy) : string :=
  if (length (TrustedRouters p) =? 0)%nat
  then Policy_Key (base_policy p) +:+ "|trusted="
  else let routers := sort_strings (netiptext.AddrString <$> TrustedRouters p) in
       Policy_Key (base_policy p) +:+ "|trusted=" +:+ join "," routers.

Inductive router_error : Type :=
| ErrRouterNotIP (value : string)
| ErrRouterZone (value : string)
| ErrRouterNotIPv6 (value : string)
| ErrRouterNotLinkLocal (value : string).

#[global] Instance router_error_eq_dec : EqDecision router_error.
Proof. solve_decision. Defined.

(** One round of the loop of [ParseTrustedRouters]. *)
Definition parseTrustedRouter (value : string) : outcome router_error netip.Addr :=
  match netiptext.ParseAddr value with
  | None => Fail (ErrRouterNotIP value)
  | Some addr =>
      if negb (bool_decide (netip.Zone addr = EmptyString)) then Fail (ErrRouterZone value)
      else if (negb (netip.Is6 addr) || netip.Is4In6 addr)%bool
      then Fail (ErrRouterNotIPv6 value)
      else if negb (netip.IsLinkLocalUnicast addr) then Fail (ErrRouterNotLinkLocal value)
      else Ret addr
  end.

Definition ParseTrustedRouters (values : list string) : outcome router_error (list netip.Addr) :=
  if (length values =? 0)%nat then Ret [] else omap_all parseTrustedRouter values.

(** * Lemmas *)

Lemma checkLength_min p bits n : checkLength p bits = None -> 0 < n <= MinPrefixLength p -> n <= bits.
Proof.
  unfold checkLength. intros H Hn. rewrite (proj2 (Z.ltb_lt 0 _)) in H by lia. cbn [andb] in H.
  destruct (Z.ltb_spec bits (MinPrefixLength p)); [done|lia].
Qed.

(** ** Address classes as number ranges *)

Lemma first_byte x : 0 <= x < 2 ^ 128 -> netip.byte_of x 0 = x / 2 ^ 120.
Proof.
  intros Hx. unfold netip.byte_of. rewrite Z.shiftr_div_pow2 by lia.
  change (8 * (15 - Z.of_nat 0)) with 120. apply Z.mod_small.
  split; [apply Z.div_pos; lia|]. apply Z.div_lt_upper_bound; lia.
Qed.

Lemma top_bits x w n v :
  0 <= x < 2 ^ w -> 0 <= n <= w ->
  Z.land x (high_mask w n) = v * 2 ^ (w - n) <-> x / 2 ^ (w - n) = v.
Proof.
  intros Hx Hn. rewrite land_high_mask by done. pose proof (pow2_pos (w - n) ltac:(lia)).
  split; [|by intros ->]. intros H'. by apply Z.mul_reg_r in H'; [|lia].
Qed.

Lemma first_byte_class x n v :
  0 <= x < 2 ^ 128 -> 0 <= n <= 8 ->
  (Z.land (netip.byte_of x 0) (high_mask 8 n) =? v * 2 ^ (8 - n)) = true <->
  x / 2 ^ (128 - n) = v.
Proof.
  intros Hx Hn. rewrite Z.eqb_eq, top_bits by (done || apply byte_of_ok).
  rewrite first_byte, Z.div_div by (done || lia). rewrite <- Z.pow_add_r by lia.
  by replace (120 + (8 - n)) with (128 - n) by lia.
Qed.

Lemma isGlobalUnicast_spec a :
  netip.addr_wf a -> isGlobalUnicast a = true <-> netip.Is6 a = true /\ netip.addr a / 2 ^ 125 = 1.
Proof.
  intros (Ha & _). unfold isGlobalUnicast. destruct (netip.Is6 a); cbn [negb]; [|by split; [|intros []]].
  change 224 with (high_mask 8 3). change 32 with (1 * 2 ^ (8 - 3)).
  change (nth 0 (netip.As16 a) 0) with (netip.byte_of (netip.addr a) 0).
  rewrite (first_byte_class _ 3 1) by (done || lia). tauto.
Qed.

Lemma isULA_spec a :
  netip.addr_wf a -> isULA a = true <-> netip.Is6 a = true /\ netip.addr a / 2 ^ 121 = 126.
Proof.
  intros (Ha & _). unfold isULA. destruct (netip.Is6 a); cbn [negb]; [|by split; [|intros []]].
  change 254 with (high_mask 8 7). change 252 with (126 * 2 ^ (8 - 7)).
  change (nth 0 (netip.As16 a) 0) with (netip.byte_of (netip.addr a) 0).
  rewrite (first_byte_class _ 7 126) by (done || lia). tauto.
Qed.

(** Between 2000:: and fdff:ffff:... there is no address of a special class. *)
Lemma middle_not_special x zone :
  2 ^ 125 <= x < 254 * 2 ^ 120 ->
  let a := netip.mkAddr x (netip.z6 zone) in
  netip.Is4In6 a = false /\ netip.IsLoopback a = false /\ netip.IsMulticast a = false /\
  netip.IsUnspecified a = false /\ netip.IsLinkLocalUnicast a = false.
Proof.
  intros Hr a.
  assert (netip.Is4In6 a = false) as H46.
  { unfold netip.Is4In6. cbn [netip.addr a]. rewrite Z.shiftr_div_pow2 by lia.
    apply andb_false_intro2, Z.eqb_neq. intros He.
    pose proof (Z.div_mod x (2 ^ 32) ltac:(lia)). pose proof (Z.mod_pos_bound x (2 ^ 32)). lia. }
  assert (netip.Unmap a = a) as Hu by (unfold netip.Unmap; by rewrite H46).
  split; [done|]. unfold netip.IsLoopback, netip.IsMulticast, netip.IsLinkLocalUnicast, netip.v6u16_0.
  rewrite Hu. cbn [netip.addr netip.z a]. rewrite !Z.shiftr_div_pow2 by lia.
  split; [apply Z.eqb_neq; lia|]. split; [|split].
  - apply Z.eqb_neq. intros He.
    pose proof (Z.div_mod x (2 ^ 120) ltac:(lia)). pose proof (Z.mod_pos_bound x (2 ^ 120)). lia.
  - unfold netip.IsUnspecified. rewrite !bool_decide_false; [done| |];
      unfold a, netip.IPv6Unspecified, netip.IPv4Unspecified; [intros [= -> ->]; lia|discriminate].
  - apply Z.eqb_neq. intros He. change 65472 with (high_mask 16 10) in He.
    change 65152 with (1018 * 2 ^ (16 - 10)) in He. rewrite top_bits in He.
    + rewrite Z.div_div in He by lia. change (2 ^ 112 * 2 ^ (16 - 10)) with (2 ^ 118) in He.
      pose proof (Z.div_mod x (2 ^ 118) ltac:(lia)). pose proof (Z.mod_pos_bound x (2 ^ 118)). lia.
    + split; [apply Z.div_pos; lia|apply Z.div_lt_upper_bound; lia].
    + lia.
Qed.

(** Global unicast addresses are there, and unique-local ones. *)
Lemma class_middle a : netip.addr_wf a -> (isGlobalUnicast a || isULA a)%bool = true ->
  2 ^ 125 <= netip.addr a < 254 * 2 ^ 120.
Proof.
  intros Ha [H|H]%orb_true_iff; [apply (isGlobalUnicast_spec a Ha) in H as [_ H]|apply (isULA_spec a Ha) in H as [_ H]].
  - pose proof (Z.div_mod (netip.addr a) (2 ^ 125) ltac:(lia)). pose proof (Z.mod_pos_bound (netip.addr a) (2 ^ 125)). lia.
  - pose proof (Z.div_mod (netip.addr a) (2 ^ 121) ltac:(lia)). pose proof (Z.mod_pos_bound (netip.addr a) (2 ^ 121)). lia.
Qed.

(** ** Keys *)

Lemma Policy_Key_inj p q s t :
  Policy_Key p +:+ String "|"%char s = Policy_Key q +:+ String "|"%char t -> p = q /\ s = t.
Proof.
  unfold Policy_Key. rewrite !append_assoc. intros H. apply append_inj_l in H.
  change ("|min=" +:+ ?x) with (String "|"%char ("min=" +:+ x)) in H.
  apply append_sep_inj in H as [Hb H]; [|by destruct (RequireGlobalUnicast p)|by destruct (RequireGlobalUnicast q)].
  apply append_inj_l in H.
  change ("|max=" +:+ ?x) with (String "|"%char ("max=" +:+ x)) in H.
  apply append_sep_inj in H as [Hmin H]; [|by apply itoa_all..].
  apply append_inj_l in H.
  apply append_sep_inj in H as [Hmax H]; [|by apply itoa_all..].
  apply itoa_inj in Hmin. apply itoa_inj in Hmax. split; [|done].
  destruct p as [[] ? ?], q as [[] ? ?]; cbn in *; congruence.
Qed.

(** Routers as [ParseTrustedRouters] returns them. *)
Definition router_ok (a : netip.Addr) : Prop :=
  netip.addr_wf a /\ netip.IsValidAddr a = true /\ netip.Zone a = EmptyString /\
  netip.Is6 a = true /\ netip.IsLinkLocalUnicast a = true.

Definition routers_ok (p : RAPolicy) : Prop := Forall router_ok (TrustedRouters p).

Lemma parseTrustedRouter_ok value a : parseTrustedRouter value = Ret a -> router_ok a.
Proof.
  unfold parseTrustedRouter. destruct (netiptext.ParseAddr value) as [b|] eqn:Hp; [|done].
  apply ParseAddr_wf in Hp as [Hwf Hv].
  destruct (bool_decide (netip.Zone b = EmptyString)) eqn:Hz; cbn [negb]; [|done].
  apply bool_decide_eq_true in Hz.
  destruct (netip.Is6 b) eqn:H6; cbn [negb orb]; [|done].
  destruct (netip.Is4In6 b); [done|].
  destruct (netip.IsLinkLocalUnicast b) eqn:Hl; cbn [negb]; [|done].
  intros [= <-]. done.
Qed.

Lemma join_routers_inj l1 l2 :
  Forall router_ok l1 -> Forall router_ok l2 -> l1 <> [] -> l2 <> [] ->
  join "," (sort_strings (netiptext.AddrString <$> l1)) =
  join "," (sort_strings (netiptext.AddrString <$> l2)) -> l1 ≡ₚ l2.
Proof.
  intros H1 H2 N1 N2 H. apply (f_equal (split_on ","%char)) in H.
  assert (forall l, Forall router_ok l -> l <> [] ->
    split_on ","%char (join "," (sort_strings (netiptext.AddrString <$> l))) =
    sort_strings (netiptext.AddrString <$> l)) as Hsplit.
  { intros l Hl Hne. apply split_join.
    - intros He. pose proof (merge_sort_Permutation String.le (netiptext.AddrString <$> l)) as Hp.
      unfold sort_strings in He. rewrite He in Hp. apply Permutation_nil_l in Hp.
      by destruct l.
    - unfold sort_strings. rewrite merge_sort_Permutation. apply Forall_fmap.
      eapply Forall_impl; [done|]. intros a (_ & Hv & Hz & _). cbn.
      eapply str_all_impl; [|by apply AddrString_bytes]. intros c. by apply addr_byte_not. }
  rewrite !Hsplit in H by done.
  assert (netiptext.AddrString <$> l1 ≡ₚ netiptext.AddrString <$> l2) as Hp.
  { rewrite <- (merge_sort_Permutation String.le (netiptext.AddrString <$> l1)).
    unfold sort_strings in H. rewrite H. apply merge_sort_Permutation. }
  apply (fmap_Permutation addr_of_string) in Hp.
  assert (forall l, Forall router_ok l ->
    addr_of_string <$> (netiptext.AddrString <$> l) = l) as Hback.
  { intros l Hl. rewrite <- list_fmap_compose. rewrite <- (list_fmap_id l) at 2.
    apply list_fmap_ext. intros i a Ha.
    rewrite Forall_lookup in Hl. destruct (Hl i a Ha) as (Hwf & Hv & _).
    unfold addr_of_string. cbn. by rewrite ParseAddr_String. }
  by rewrite !Hback in Hp.
Qed.

Lemma sort_strings_nil_inv l : join "," (sort_strings (netiptext.AddrString <$> l)) = EmptyString ->
  Forall router_ok l -> l = [].
Proof.
  intros H Hl. destruct l as [|a l]; [done|]. exfalso.
  unfold sort_strings in H.
  pose proof (merge_sort_Permutation String.le (netiptext.AddrString <$> a :: l)) as Hp.
  destruct (merge_sort String.le (netiptext.AddrString <$> a :: l)) as [|x [|y r]] eqn:E.
  - by apply Permutation_nil_l in Hp.
  - cbn in H. subst x. assert (EmptyString ∈ netiptext.AddrString <$> a :: l) as Hin
      by (rewrite <- Hp; set_solver).
    apply list_elem_of_fmap in Hin as (b & Hb & Hin). rewrite Forall_forall in Hl.
    destruct (Hl b Hin) as (Hwf & Hv & _). apply (f_equal netiptext.ParseAddr) in Hb.
    rewrite ParseAddr_String in Hb by done. done.
  - change (x +:+ String ","%char (join "," (y :: r)) = EmptyString) in H. by destruct x.
Qed.

(** Equal keys: the same policy and the same trusted routers, up to order. *)
Lemma RAPolicy_Key_inj p q :
  routers_ok p -> routers_ok q -> RAPolicy_Key p = RAPolicy_Key q ->
  base_policy p = base_policy q /\ TrustedRouters p ≡ₚ TrustedRouters q.
Proof.
  unfold routers_ok, RAPolicy_Key. destruct p as [bp tp], q as [bq tq]. cbn [base_policy TrustedRouters].
  intros Hp Hq H.
  change ("|trusted=" +:+ ?x) with (String "|"%char ("trusted=" +:+ x)) in H.
  change "|trusted=" with (String "|"%char "trusted=") in H.
  destruct tp as [|a tp], tq as [|b tq]; cbn [length Nat.eqb] in H;
    apply Policy_Key_inj in H as [-> H]; (split; [done|]).
  - done.
  - rewrite <- (append_nil_r "trusted=") in H at 1. apply append_inj_l in H. symmetry in H.
    by apply sort_strings_nil_inv in H.
  - rewrite <- (append_nil_r "trusted=") in H at 2. apply append_inj_l in H.
    by apply sort_strings_nil_inv in H.
  - apply append_inj_l in H. by apply join_routers_inj.
Qed.

Lemma Trusts_perm p q source :
  TrustedRouters p ≡ₚ TrustedRouters q -> Trusts p source = Trusts q source.
Proof.
  intros H. unfold Trusts. rewrite (Permutation_length H). destruct (_ =? _)%nat; [done|].
  apply eq_true_iff_eq. rewrite !existsb_exists.
  split; intros (x & Hx & E); exists x; (split; [|done]).
  - apply list_elem_of_In. rewrite <- H. by apply list_elem_of_In.
  - apply list_elem_of_In. rewrite H. by apply list_elem_of_In.
Qed.

Lemma no_pipe_key_tail l :
  Forall router_ok l ->
  str_all (not_byte "|"%char) (join "," (sort_strings (netiptext.AddrString <$> l))) = true.
Proof.
  intros Hl. apply str_all_join; [done|]. unfold sort_strings. rewrite merge_sort_Permutation.
  apply Forall_fmap. eapply Forall_impl; [done|]. intros a (_ & Hv & Hz & _). cbn.
  eapply str_all_impl; [|by apply AddrString_bytes]. intros c. by apply addr_byte_not.
Qed.

Lemma RAPolicy_Key_shape p :
  RAPolicy_Key p = Policy_Key (base_policy p) +:+
    String "|"%char ("trusted=" +:+ join "," (sort_strings (netiptext.AddrString <$> TrustedRouters p))).
Proof. unfold RAPolicy_Key. by destruct (TrustedRouters p). Qed.

(** An interface name and a key determine each other's text whatever bytes the
    interface name has: the key's own bars are its last four. *)
Lemma iface_key_inj i1 i2 p q :
  routers_ok p -> routers_ok q ->
  i1 +:+ "|" +:+ RAPolicy_Key p = i2 +:+ "|" +:+ RAPolicy_Key q ->
  i1 = i2 /\ RAPolicy_Key p = RAPolicy_Key q.
Proof.
  intros Hp Hq H. rewrite !RAPolicy_Key_shape in *.
  unfold Policy_Key in H. rewrite !append_assoc in H.
  assert (forall i b mi ma t,
    i +:+ "|" +:+ "gua=" +:+ b +:+ "|min=" +:+ mi +:+ "|max=" +:+ ma +:+ String "|"%char ("trusted=" +:+ t) =
    (((i +:+ String "|"%char ("gua=" +:+ b)) +:+ String "|"%char ("min=" +:+ mi)) +:+
      String "|"%char ("max=" +:+ ma)) +:+ String "|"%char ("trusted=" +:+ t)) as Hassoc.
  { intros. by rewrite !append_assoc. }
  rewrite !Hassoc in H. clear Hassoc.
  apply append_sep_inj_r in H as [H Ht];
    [|rewrite str_all_app, no_pipe_key_tail by done; done..].
  apply append_sep_inj_r in H as [H Hmax]; [|rewrite str_all_app, itoa_all by done; done..].
  apply append_sep_inj_r in H as [H Hmin]; [|rewrite str_all_app, itoa_all by done; done..].
  apply append_sep_inj_r in H as [H Hgua];
    [|by destruct (RequireGlobalUnicast (base_policy p))|by destruct (RequireGlobalUnicast (base_policy q))].
  split; [done|]. unfold Policy_Key.
  apply append_inj_l in Hgua, Hmin, Hmax, Ht. by rewrite Hgua, Hmin, Hmax, Ht.
Qed.

(** ** Global prefixes *)

(** A masked prefix in 2000::/3 is at least three bits long, so all of it is
    there. *)
Lemma gua_prefix_covers p :
  netip.prefix6 p -> netip.addr (netip.ip p) = netip.first_num p ->
  netip.first_num p / 2 ^ 125 = 1 ->
  forall x, netip.in_prefix p x -> x / 2 ^ 125 = 1.
Proof.
  intros Hp Hfirst Hg x Hx. pose proof (prefix6_bits p Hp) as Hb.
  pose proof (prefix6_addr p Hp) as Ha. rewrite <- Hfirst in Hg.
  apply in_prefix_block in Hx; [|done].
  unfold netip.first_num in Hfirst. set (h := 128 - netip.Bits p) in *.
  pose proof (Z.div_mod (netip.addr (netip.ip p)) (2 ^ 125) ltac:(lia)).
  pose proof (Z.mod_pos_bound (netip.addr (netip.ip p)) (2 ^ 125) ltac:(lia)).
  assert (h <= 125) as Hh.
  { destruct (decide (h <= 125)); [done|]. exfalso.
    assert (h = 126 \/ h = 127 \/ h = 128) as [E|[E|E]] by lia; rewrite E in Hfirst;
      [change (2 ^ 126) with (2 * 2 ^ 125) in Hfirst
      |change (2 ^ 127) with (4 * 2 ^ 125) in Hfirst
      |change (2 ^ 128) with (8 * 2 ^ 125) in Hfirst]; lia. }
  assert (forall y, y / 2 ^ 125 = y / 2 ^ h / 2 ^ (125 - h)) as Hdiv.
  { intros y. rewrite Z.div_div, <- Z.pow_add_r by (pose proof (pow2_pos h); pose proof (pow2_pos (125 - h)); lia).
    by replace (h + (125 - h)) with 125 by lia. }
  by rewrite Hdiv, Hx, <- Hdiv.
Qed.

(** An accepted prefix has passed the global-unicast test, so all of it is
    global. *)
Lemma accepted_covers_gua p :
  netip.prefix6 p -> netip.Masked p = p -> ValidateDelegatedPrefix p true = None ->
  forall x, netip.in_prefix p x -> x / 2 ^ 125 = 1.
Proof.
  intros Hp Hm. pose proof Hp as ((Hwf & _) & Hv & H6).
  assert (netip.addr (netip.ip p) = netip.first_num p) as Hfirst.
  { rewrite <- Hm at 1. by rewrite Masked6. }
  unfold ValidateDelegatedPrefix. rewrite Hv, H6. cbn [negb orb andb]. intros H.
  destruct (isGlobalUnicast (netip.ip p)) eqn:Hg; [|by repeat case_match].
  apply isGlobalUnicast_spec in Hg as [_ Hg]; [|done]. rewrite Hfirst in Hg.
  by apply gua_prefix_covers.
Qed.

(** Conversely every check accepts a non-empty prefix whose address is none of a
    special class, and global when that is required. *)
Lemma middle_prefix_accepted p req :
  netip.prefix6 p -> 2 ^ 125 <= netip.addr (netip.ip p) < 254 * 2 ^ 120 -> 0 < netip.Bits p ->
  (req = true -> netip.addr (netip.ip p) / 2 ^ 125 = 1) -> ValidateDelegatedPrefix p req = None.
Proof.
  intros Hp Hm Hpos Hg. pose proof (prefix6_bits p Hp) as Hb.
  pose proof (prefix6_z p Hp) as Hz. pose proof Hp as ((Hwf & _) & Hv & H6).
  unfold ValidateDelegatedPrefix. rewrite Hv, H6. cbn [negb orb andb].
  destruct (netip.ip p) as [x zk] eqn:Hip. cbn [netip.addr netip.z] in *. subst zk.
  destruct (middle_not_special x EmptyString Hm) as (-> & -> & -> & -> & ->).
  destruct (Z.leb_spec (netip.Bits p) 0); [lia|].
  destruct (Z.ltb_spec (netip.BitLen (netip.mkAddr x (netip.z6 EmptyString))) (netip.Bits p)) as [Hlt|_];
    [cbn in Hlt; lia|].
  cbn [orb]. destruct req; [|done]. by rewrite (proj2 (isGlobalUnicast_spec _ Hwf)) by auto.
Qed.

Lemma gua_prefix_accepted p :
  netip.prefix6 p -> netip.addr (netip.ip p) / 2 ^ 125 = 1 -> 0 < netip.Bits p ->
  ValidateDelegatedPrefix p true = None.
Proof.
  intros Hp Hg Hpos. apply middle_prefix_accepted; try done.
  pose proof (Z.div_mod (netip.addr (netip.ip p)) (2 ^ 125) ltac:(lia)).
  pose proof (Z.mod_pos_bound (netip.addr (netip.ip p)) (2 ^ 125)). lia.
Qed.

(** * Properties *)

(** A prefix, masked as every receive path masks it, is accepted under
    [requireGlobalUnicast] exactly when every address it covers lies in 2000::/3:
    no error branch rejects a global prefix, and no accepted prefix covers a
    loopback, multicast, link-local, unique-local or unspecified address. *)
Theorem ValidateDelegatedPrefix_global (p : netip.Prefix) :
  netip.prefix6 p -> netip.Masked p = p ->
  ValidateDelegatedPrefix p true = None <->
  (forall x, netip.in_prefix p x -> x / 2 ^ 125 = 1).
Proof.
  intros Hp Hm. pose proof (first_num_le_last p Hp) as Hle. pose proof Hp as ((Hwf & _) & Hv & H6).
  pose proof (prefix6_bits p Hp) as Hb.
  assert (netip.addr (netip.ip p) = netip.first_num p) as Hfirst.
  { rewrite <- Hm at 1. by rewrite Masked6. }
  split.
  - by apply accepted_covers_gua.
  - intros Hall.
    assert (netip.addr (netip.ip p) / 2 ^ 125 = 1) as Hg.
    { apply Hall. unfold netip.in_prefix. lia. }
    apply gua_prefix_accepted; [done..|].
    destruct (decide (netip.Bits p = 0)) as [Hb0|]; [exfalso|lia].
    assert (netip.first_num p = 0) as Hf0.
    { unfold netip.first_num. rewrite Hb0. by rewrite Z.div_small by (apply prefix6_addr, Hp). }
    rewrite Hfirst, Hf0 in Hg. done.
Qed.

(** The ISP prefix of the README. *)
Lemma ValidateDelegatedPrefix_global_witness :
  netip.prefix6 (prefix_of_string "2001:db8:1234::/48") /\
  ValidateDelegatedPrefix (prefix_of_string "2001:db8:1234::/48") true = None /\
  (forall x, netip.in_prefix (prefix_of_string "2001:db8:1234::/48") x -> x / 2 ^ 125 = 1).
Proof.
  split; [by apply prefix6_of_string|]. split; [reflexivity|].
  apply (ValidateDelegatedPrefix_global (prefix_of_string "2001:db8:1234::/48"));
    [by apply prefix6_of_string|reflexivity|reflexivity].
Defined.

(** [ParseTrustedRouters] either refuses the list or returns one address per
    entry, each a link-local IPv6 address without a zone; so a policy built from
    a non-empty list never believes a source that is not link-local. *)
Theorem ParseTrustedRouters_link_local (values : list string) (rs : list netip.Addr) (bp : Policy) :
  ParseTrustedRouters values = Ret rs ->
  length rs = length values /\ routers_ok (mkRAPolicy bp rs) /\
  (values <> [] -> forall source, netip.Is6 source = true ->
     Trusts (mkRAPolicy bp rs) source = true -> netip.IsLinkLocalUnicast source = true).
Proof.
  intros H.
  assert (Forall2 (fun v a => parseTrustedRouter v = Ret a) values rs) as Hall.
  { unfold ParseTrustedRouters in H. destruct values as [|v vs]; cbn [length Nat.eqb] in H.
    - injection H as <-. constructor.
    - by apply omap_all_ret. }
  assert (Forall router_ok rs) as Hok.
  { induction Hall as [|v a vs rs' Hva Hall IH]; constructor; [by eapply parseTrustedRouter_ok|].
    apply IH. destruct vs; [by inversion Hall|]. unfold ParseTrustedRouters. cbn [length Nat.eqb].
    by apply omap_all_ret. }
  split; [symmetry; by eapply Forall2_length|]. split; [done|].
  intros Hne source H6 Ht. unfold Trusts in Ht. cbn [TrustedRouters] in Ht.
  destruct rs as [|r rs]; [by inversion Hall; subst|]. cbn [length Nat.eqb] in Ht.
  apply existsb_exists in Ht as (t & Hin & Heq). apply bool_decide_eq_true in Heq. subst t.
  rewrite Forall_forall in Hok. apply list_elem_of_In in Hin.
  destruct (Hok _ Hin) as (_ & _ & _ & _ & Hl).
  destruct source as [x [| |zn]]; [done|done|].
  unfold netip.IsLinkLocalUnicast, netip.Unmap, netip.Is4In6, netip.v6u16_0 in *. cbn in *.
  destruct (_ =? 65535); cbn in *; done.
Qed.

Lemma ParseTrustedRouters_link_local_witness :
  Trusts (mkRAPolicy DefaultPolicy [addr_of_string "fe80::1"]) (addr_of_string "2001:db8::1") = false /\
  routers_ok (mkRAPolicy DefaultPolicy [addr_of_string "fe80::1"]).
Proof.
  split; [reflexivity|].
  apply (ParseTrustedRouters_link_local ["fe80::1"] [addr_of_string "fe80::1"] DefaultPolicy).
  vm_compute. reflexivity.
Defined.
