(* ===== verification/Subnet.v ===== *)
(** * Subnets of a delegated prefix

    [internal/prefix/subnet.go]: carving the n-th subnet of a given length out
    of a base prefix.  [big.Int] values are unbounded integers; [FillBytes]
    panics when a value does not fit its buffer, which is the [Panic] outcome
    here. *)

From S2P Require Import Prelude GoStrings Netip NetipText.

Record SubnetConfig : Type := mkSubnetConfig {
  SC_Name : string;
  SC_Offset : Z;          (* int64 *)
  SC_PrefixLength : Z     (* int *)
}.

Record Subnet : Type := mkSubnet { S_Name : string; S_CIDR : netip.Prefix }.

#[global] Instance Subnet_eq_dec : EqDecision Subnet.
Proof. solve_decision. Defined.

Inductive subnet_error : Type :=
| ErrBaseNotIPv6 (base : netip.Prefix)
| ErrCalculateSubnet (name : string) (e : subnet_error)
| ErrShorterThanBase (len bits : Z)
| ErrLengthExceeds128 (len : Z)
| ErrOffsetOutOfRange (off len : Z) (base : netip.Prefix) (maxSubnets : Z)
| ErrSubnetPrefix (e : netip.prefix_error)
| ErrOutsideBase (name : string) (cidr base : netip.Prefix).

#[global] Instance subnet_error_eq_dec : EqDecision subnet_error.
Proof. solve_decision. Defined.

(** [big.Int.FillBytes] into sixteen bytes: the absolute value, big-endian. *)
Definition FillBytes16 (x : Z) : option (list Z) :=
  if Z.abs x <? 2 ^ 128 then Some (netip.byte_of (Z.abs x) <$> seq 0 16) else None.

(** The conversion [uint(n)] of an [int]. *)
Definition to_uint (n : Z) : Z := wrapu64 n.

Definition CalculateSubnet (basePrefix : netip.Prefix) (cfg : SubnetConfig)
    : outcome subnet_error Subnet :=
  let len := SC_PrefixLength cfg in
  let off := SC_Offset cfg in
  if len <? netip.Bits basePrefix then Fail (ErrShorterThanBase len (netip.Bits basePrefix))
  else if 128 <? len then Fail (ErrLengthExceeds128 len)
  else
    let maxSubnets := Z.shiftl 1 (to_uint (len - netip.Bits basePrefix)) in
    if ((off <? 0) || (maxSubnets <=? off))%bool
    then Fail (ErrOffsetOutOfRange off len basePrefix maxSubnets)
    else
      let baseBytes := netip.As16 (netip.ip (netip.Masked basePrefix)) in
      let baseInt := netip.be_value baseBytes in
      let hostBits := to_uint (128 - len) in
      let subnetSize := Z.shiftl 1 hostBits in
      let subnetInt := baseInt + off * subnetSize in
      match FillBytes16 subnetInt with
      | None => Panic
      | Some subnetBytes =>
          match netip.AddrPrefix (netip.AddrFrom16 subnetBytes) len with
          | Ret subnetPrefix => Ret (mkSubnet (SC_Name cfg) subnetPrefix)
          | Fail e => Fail (ErrSubnetPrefix e)
          | Panic => Panic
          end
      end.

Definition CalculateSubnets (basePrefix : netip.Prefix) (configs : list SubnetConfig)
    : outcome subnet_error (list Subnet) :=
  if negb (netip.Is6 (netip.ip basePrefix)) then Fail (ErrBaseNotIPv6 basePrefix)
  else omap_all (fun cfg =>
         wrap_err (ErrCalculateSubnet (SC_Name cfg)) (CalculateSubnet basePrefix cfg)) configs.

Definition ValidateSubnetFitsInPrefix (basePrefix : netip.Prefix) (cfg : SubnetConfig)
    : outcome subnet_error unit :=
  match CalculateSubnet basePrefix cfg with
  | Fail e => Fail e
  | Panic => Panic
  | Ret subnet =>
      if netip.Contains basePrefix (netip.ip (S_CIDR subnet)) then Ret tt
      else Fail (ErrOutsideBase (SC_Name cfg) (S_CIDR subnet) basePrefix)
  end.

(** [ParsePrefix] normalises to the network address. *)
Definition ParsePrefix (cidr : string) : option netip.Prefix :=
  netip.Masked <$> netiptext.ParsePrefix cidr.

(** * Lemmas *)

(** The configurations the code accepts. *)
Definition fits (base : netip.Prefix) (cfg : SubnetConfig) : Prop :=
  netip.Bits base <= SC_PrefixLength cfg <= 128 /\
  0 <= SC_Offset cfg < 2 ^ (SC_PrefixLength cfg - netip.Bits base).

#[global] Instance fits_dec base cfg : Decision (fits base cfg).
Proof. unfold fits. apply _. Defined.

(** First address of the subnet a configuration selects. *)
Definition subnet_first (base : netip.Prefix) (cfg : SubnetConfig) : Z :=
  netip.first_num base + SC_Offset cfg * 2 ^ (128 - SC_PrefixLength cfg).

(** The [n]-th block of an aligned base stays inside it. *)
Lemma subnet_first_bounds base cfg :
  netip.prefix6 base -> fits base cfg ->
  netip.first_num base <= subnet_first base cfg /\
  subnet_first base cfg + (2 ^ (128 - SC_PrefixLength cfg) - 1) <= netip.last_num base.
Proof.
  intros Hp [Hl Ho]. pose proof (prefix6_bits base Hp). unfold subnet_first, netip.last_num.
  set (n := SC_PrefixLength cfg - netip.Bits base) in *.
  assert (2 ^ (128 - netip.Bits base) = 2 ^ n * 2 ^ (128 - SC_PrefixLength cfg)) as ->.
  { rewrite <- Z.pow_add_r by lia. f_equal. lia. }
  pose proof (pow2_pos (128 - SC_PrefixLength cfg) ltac:(lia)). nia.
Qed.

(** It is aligned to its own length. *)
Lemma subnet_first_aligned base cfg :
  netip.prefix6 base -> fits base cfg ->
  subnet_first base cfg / 2 ^ (128 - SC_PrefixLength cfg) * 2 ^ (128 - SC_PrefixLength cfg) =
  subnet_first base cfg.
Proof.
  intros Hp [Hl Ho]. pose proof (prefix6_bits base Hp). unfold subnet_first, netip.first_num.
  set (h := 128 - SC_PrefixLength cfg).
  assert (2 ^ (128 - netip.Bits base) = 2 ^ (SC_PrefixLength cfg - netip.Bits base) * 2 ^ h) as ->.
  { rewrite <- Z.pow_add_r by lia. f_equal. lia. }
  pose proof (pow2_pos h ltac:(lia)).
  rewrite Z.mul_assoc, <- Z.mul_add_distr_r, Z.div_mul by lia. done.
Qed.

Lemma FillBytes16_value x :
  0 <= x < 2 ^ 128 ->
  FillBytes16 x = Some (netip.As16 (netip.mkAddr x (netip.z6 EmptyString))).
Proof.
  intros Hx. unfold FillBytes16. rewrite Z.abs_eq by lia.
  by rewrite (proj2 (Z.ltb_lt _ _)) by lia.
Qed.

Lemma AddrFrom16_As16 x :
  0 <= x < 2 ^ 128 ->
  netip.AddrFrom16 (netip.As16 (netip.mkAddr x (netip.z6 EmptyString))) =
  netip.mkAddr x (netip.z6 EmptyString).
Proof. intros Hx. unfold netip.AddrFrom16. by rewrite be_value_As16. Qed.

Lemma AddrPrefix6 x b :
  0 <= x < 2 ^ 128 -> 0 <= b <= 128 ->
  netip.AddrPrefix (netip.mkAddr x (netip.z6 EmptyString)) b =
  Ret (netip.mkPrefix (netip.mkAddr (x / 2 ^ (128 - b) * 2 ^ (128 - b)) (netip.z6 EmptyString)) (b + 1)).
Proof.
  intros Hx Hb. unfold netip.AddrPrefix. cbn [netip.z netip.addr].
  rewrite (proj2 (Z.ltb_ge b 0)), (proj2 (Z.ltb_ge 128 b)) by lia.
  unfold netip.PrefixFrom. cbn [netip.IsValidAddr netip.z netip.BitLen].
  rewrite (proj2 (Z.leb_le 0 b)), (proj2 (Z.leb_le b 128)) by lia.
  unfold netip.withoutZone, netip.WithZone, netip.mask6. cbn [netip.z netip.addr].
  by rewrite land_high_mask.
Qed.

(** The subnet of an accepted configuration. *)
Definition subnet_prefix (base : netip.Prefix) (cfg : SubnetConfig) : netip.Prefix :=
  netip.mkPrefix (netip.mkAddr (subnet_first base cfg) (netip.z6 EmptyString))
    (SC_PrefixLength cfg + 1).

(** What [CalculateSubnet] does on every branch, for an IPv6 base. *)
Lemma CalculateSubnet_fits base cfg :
  netip.prefix6 base -> fits base cfg ->
  CalculateSubnet base cfg = Ret (mkSubnet (SC_Name cfg) (subnet_prefix base cfg)).
Proof.
  intros Hp Hf. pose proof Hf as [Hl Ho]. pose proof (prefix6_bits base Hp) as Hb.
  pose proof (subnet_first_bounds base cfg Hp Hf) as [Hlo Hhi].
  pose proof (first_num_bounds base Hp) as [Hn0 Hn1].
  pose proof (pow2_pos (128 - SC_PrefixLength cfg) ltac:(lia)).
  unfold CalculateSubnet, to_uint. cbv zeta.
  rewrite (proj2 (Z.ltb_ge _ _)), (proj2 (Z.ltb_ge 128 _)) by lia.
  rewrite !wrapu64_id by lia. rewrite !Z.shiftl_1_l.
  rewrite (proj2 (Z.ltb_ge _ 0)), (proj2 (Z.leb_gt _ _)) by lia. cbn [orb].
  rewrite Masked6 by done. cbn [netip.ip].
  rewrite be_value_As16 by (cbn [netip.addr]; pose proof (first_num_le_last base Hp); lia).
  cbn [netip.addr]. fold (subnet_first base cfg).
  rewrite FillBytes16_value by lia. rewrite AddrFrom16_As16 by lia.
  rewrite AddrPrefix6 by lia. by rewrite subnet_first_aligned.
Qed.

Lemma CalculateSubnet_not_fits base cfg :
  netip.prefix6 base -> ~ fits base cfg ->
  exists e, CalculateSubnet base cfg = Fail e /\
    (e = ErrShorterThanBase (SC_PrefixLength cfg) (netip.Bits base) \/
     e = ErrLengthExceeds128 (SC_PrefixLength cfg) \/
     exists m, e = ErrOffsetOutOfRange (SC_Offset cfg) (SC_PrefixLength cfg) base m).
Proof.
  intros Hp Hf. pose proof (prefix6_bits base Hp) as Hb. unfold CalculateSubnet. cbv zeta.
  destruct (Z.ltb_spec (SC_PrefixLength cfg) (netip.Bits base)); [by eauto 10|].
  destruct (Z.ltb_spec 128 (SC_PrefixLength cfg)); [by eauto 10|].
  unfold to_uint at 1. rewrite wrapu64_id, Z.shiftl_1_l by lia.
  destruct (Z.ltb_spec (SC_Offset cfg) 0); cbn [orb]; [by eauto 10|].
  destruct (Z.leb_spec (2 ^ (SC_PrefixLength cfg - netip.Bits base)) (SC_Offset cfg)); [by eauto 10|].
  exfalso. apply Hf. split; lia.
Qed.

Lemma subnet_prefix6 base cfg :
  netip.prefix6 base -> fits base cfg -> netip.prefix6 (subnet_prefix base cfg).
Proof.
  intros Hp Hf. pose proof Hf as [Hl Ho]. pose proof (prefix6_bits base Hp) as Hb.
  pose proof (subnet_first_bounds base cfg Hp Hf) as [Hlo Hhi].
  pose proof (first_num_bounds base Hp) as [Hn0 Hn1].
  pose proof (pow2_pos (128 - SC_PrefixLength cfg) ltac:(lia)).
  unfold subnet_prefix, netip.prefix6, netip.prefix_wf, netip.addr_wf, netip.IsValid, netip.IsValidAddr,
    netip.Bits, netip.Is6; cbn [netip.ip netip.bitsPlusOne netip.addr netip.z netip.Zone netip.BitLen].
  rewrite Z.ltb_lt. repeat split; intros; done || lia.
Qed.

Lemma subnet_prefix_first base cfg :
  netip.prefix6 base -> fits base cfg ->
  netip.first_num (subnet_prefix base cfg) = subnet_first base cfg /\
  netip.Bits (subnet_prefix base cfg) = SC_PrefixLength cfg.
Proof.
  intros Hp Hf. unfold netip.first_num, netip.Bits, subnet_prefix.
  cbn [netip.ip netip.addr netip.bitsPlusOne].
  replace (SC_PrefixLength cfg + 1 - 1) with (SC_PrefixLength cfg) by lia.
  by rewrite subnet_first_aligned.
Qed.

(** A subnet covers the block of its size at its first address. *)
Lemma subnet_prefix_in base cfg x :
  netip.prefix6 base -> fits base cfg ->
  netip.in_prefix (subnet_prefix base cfg) x <->
  subnet_first base cfg <= x <= subnet_first base cfg + (2 ^ (128 - SC_PrefixLength cfg) - 1).
Proof.
  intros Hp Hf. destruct (subnet_prefix_first base cfg Hp Hf) as [Hfirst Hbits].
  unfold netip.in_prefix, netip.last_num. by rewrite Hfirst, Hbits.
Qed.

(** [CalculateSubnets] is all or nothing: one subnet per configuration in order,
    or the error of the first configuration that does not fit. *)
Lemma CalculateSubnets_cases (base : netip.Prefix) (configs : list SubnetConfig) :
  netip.prefix6 base ->
  CalculateSubnets base configs =
  match list_find (fun cfg => ~ fits base cfg) configs with
  | None => Ret ((fun cfg => mkSubnet (SC_Name cfg) (subnet_prefix base cfg)) <$> configs)
  | Some (_, cfg) =>
      match CalculateSubnet base cfg with
      | Fail e => Fail (ErrCalculateSubnet (SC_Name cfg) e)
      | _ => Panic
      end
  end.
Proof.
  intros Hp. unfold CalculateSubnets. pose proof Hp as (_ & _ & ->). cbn [negb].
  induction configs as [|cfg configs IH]; [done|].
  cbn [omap_all list_find fmap list_fmap]. destruct (decide (~ fits base cfg)) as [Hn|Hf].
  - destruct (CalculateSubnet_not_fits base cfg Hp Hn) as (e & -> & _). done.
  - apply dec_stable in Hf. rewrite CalculateSubnet_fits by done. cbn [wrap_err].
    rewrite IH. destruct (list_find _ configs) as [[i c]|]; cbn; [|done].
    by destruct (CalculateSubnet base c).
Qed.

(** * Properties *)

(** C17 [CalculateSubnet] succeeds exactly on the configurations whose subnet
    exists inside the base, and then returns the masked prefix of the requested
    length at base + offset * 2^(128 - length); otherwise it returns one of its
    three errors.  It never panics for an IPv6 base: the sum always fits the
    sixteen bytes. *)
Theorem CalculateSubnet_total (base : netip.Prefix) (cfg : SubnetConfig) :
  netip.prefix6 base ->
  CalculateSubnet base cfg <> Panic /\
  (is_ret (CalculateSubnet base cfg) = true <-> fits base cfg) /\
  (forall s, CalculateSubnet base cfg = Ret s ->
     S_Name s = SC_Name cfg /\ netip.prefix6 (S_CIDR s) /\ netip.Masked (S_CIDR s) = S_CIDR s /\
     netip.Bits (S_CIDR s) = SC_PrefixLength cfg /\
     netip.addr (netip.ip (S_CIDR s)) =
       netip.first_num base + SC_Offset cfg * 2 ^ (128 - SC_PrefixLength cfg)).
Proof.
  intros Hp. destruct (decide (fits base cfg)) as [Hf|Hf].
  - rewrite CalculateSubnet_fits by done. split; [done|]. split; [done|]. intros s [= <-].
    pose proof (subnet_prefix6 base cfg Hp Hf) as H6.
    destruct (subnet_prefix_first base cfg Hp Hf) as [Hfirst Hbits].
    do 2 (split; [done|]). split; [|done]. apply Masked6_id; [done|]. exact (eq_sym Hfirst).
  - destruct (CalculateSubnet_not_fits base cfg Hp Hf) as (e & -> & _).
    split; [done|]. split; [|done]. split; [done|]. intros. contradiction.
Qed.

Lemma CalculateSubnet_total_witness :
  CalculateSubnet (prefix_of_string "2001:db8::/48") (mkSubnetConfig "lb" 5 64) =
    Ret (mkSubnet "lb" (prefix_of_string "2001:db8:0:5::/64")) /\
  CalculateSubnet (prefix_of_string "2001:db8::/48") (mkSubnetConfig "lb" 65536 64) <> Panic.
Proof.
  split; [vm_compute; reflexivity|].
  apply (CalculateSubnet_total (prefix_of_string "2001:db8::/48") (mkSubnetConfig "lb" 65536 64)).
  by apply prefix6_of_string.
Defined.

(** Every subnet lies inside the base prefix, so [ValidateSubnetFitsInPrefix]
    never reports a subnet outside it. *)
Theorem subnet_inside_base (base : netip.Prefix) (cfg : SubnetConfig) :
  netip.prefix6 base ->
  (forall s x, CalculateSubnet base cfg = Ret s ->
     netip.in_prefix (S_CIDR s) x -> netip.in_prefix base x) /\
  (ValidateSubnetFitsInPrefix base cfg = Ret tt <-> is_ret (CalculateSubnet base cfg) = true) /\
  (forall n c b, ValidateSubnetFitsInPrefix base cfg <> Fail (ErrOutsideBase n c b)).
Proof.
  intros Hp. unfold ValidateSubnetFitsInPrefix. destruct (decide (fits base cfg)) as [Hf|Hf].
  - rewrite CalculateSubnet_fits by done.
    pose proof (subnet_first_bounds base cfg Hp Hf) as [Hlo Hhi]. cbn [S_CIDR].
    assert (netip.Contains base (netip.ip (subnet_prefix base cfg)) = true) as ->.
    { pose proof Hf as [Hl _]. pose proof (prefix6_bits base Hp).
      apply Contains6; [done|apply (subnet_prefix6 base cfg Hp Hf)|done|].
      unfold netip.in_prefix. cbn [netip.ip netip.addr subnet_prefix].
      pose proof (pow2_pos (128 - SC_PrefixLength cfg) ltac:(lia)). lia. }
    split; [|done]. intros s x [= <-]. cbn [S_CIDR]. rewrite subnet_prefix_in by done.
    unfold netip.in_prefix. lia.
  - destruct (CalculateSubnet_not_fits base cfg Hp Hf) as (e & -> & He).
    split; [done|]. split; [done|]. intros n c b [= ->]. destruct He as [?|[?|[? ?]]]; done.
Qed.

Lemma subnet_inside_base_witness :
  ValidateSubnetFitsInPrefix (prefix_of_string "2001:db8::/48") (mkSubnetConfig "lb" 65535 64) = Ret tt.
Proof.
  apply (subnet_inside_base (prefix_of_string "2001:db8::/48") (mkSubnetConfig "lb" 65535 64));
    [by apply prefix6_of_string|vm_compute; reflexivity].
Defined.

(** Two subnets of the same length at different offsets never share an
    address, and equal subnets come from equal offsets. *)
Theorem subnets_disjoint (base : netip.Prefix) (c1 c2 : SubnetConfig) (s1 s2 : Subnet) :
  netip.prefix6 base ->
  CalculateSubnet base c1 = Ret s1 -> CalculateSubnet base c2 = Ret s2 ->
  SC_PrefixLength c1 = SC_PrefixLength c2 -> SC_Offset c1 <> SC_Offset c2 ->
  S_CIDR s1 <> S_CIDR s2 /\
  (forall x, netip.in_prefix (S_CIDR s1) x -> ~ netip.in_prefix (S_CIDR s2) x).
Proof.
  intros Hp H1 H2 Hl Ho.
  assert (forall c s, CalculateSubnet base c = Ret s -> fits base c) as Hfit.
  { intros c s H. destruct (decide (fits base c)) as [|Hn]; [done|].
    destruct (CalculateSubnet_not_fits base c Hp Hn) as (e & E & _). congruence. }
  pose proof (Hfit _ _ H1) as F1. pose proof (Hfit _ _ H2) as F2.
  rewrite CalculateSubnet_fits in H1, H2 by done. injection H1 as <-. injection H2 as <-.
  cbn [S_CIDR].
  assert (forall x, netip.in_prefix (subnet_prefix base c1) x ->
    ~ netip.in_prefix (subnet_prefix base c2) x) as Hdis.
  { intros x. rewrite !subnet_prefix_in by done. unfold subnet_first. rewrite <- Hl.
    pose proof F1 as [Hl1 _]. pose proof (prefix6_bits base Hp).
    pose proof (pow2_pos (128 - SC_PrefixLength c1) ltac:(lia)). nia. }
  split; [|done]. intros E. apply (Hdis (subnet_first base c1)).
  - rewrite subnet_prefix_in by done. pose proof F1 as [Hl1 _].
    pose proof (prefix6_bits base Hp). pose proof (pow2_pos (128 - SC_PrefixLength c1) ltac:(lia)). lia.
  - rewrite <- E, subnet_prefix_in by done. pose proof F1 as [Hl1 _].
    pose proof (prefix6_bits base Hp). pose proof (pow2_pos (128 - SC_PrefixLength c1) ltac:(lia)). lia.
Qed.

Lemma subnets_disjoint_witness :
  prefix_of_string "2001:db8:0:1::/64" <> prefix_of_string "2001:db8:0:2::/64" /\
  (forall x, netip.in_prefix (prefix_of_string "2001:db8:0:1::/64") x ->
     ~ netip.in_prefix (prefix_of_string "2001:db8:0:2::/64") x).
Proof.
  apply (subnets_disjoint (prefix_of_string "2001:db8::/48")
    (mkSubnetConfig "a" 1 64) (mkSubnetConfig "b" 2 64)
    (mkSubnet "a" (prefix_of_string "2001:db8:0:1::/64"))
    (mkSubnet "b" (prefix_of_string "2001:db8:0:2::/64")));
    [by apply prefix6_of_string|vm_compute; reflexivity|vm_compute; reflexivity|done|done].
Defined.

(** Reading back a printed prefix gives its network prefix, and a prefix that
    was read is already masked: what goes into status as text comes back as the
    same prefix. *)
Theorem ParsePrefix_roundtrip (p : netip.Prefix) (cidr : string) :
  (netip.prefix_wf p -> netip.IsValid p = true ->
   ParsePrefix (netiptext.PrefixString p) = Some (netip.Masked p)) /\
  (forall q, ParsePrefix cidr = Some q -> netip.Is6 (netip.ip q) = true ->
   netip.Masked q = q /\ ParsePrefix (netiptext.PrefixString q) = Some q).
Proof.
  unfold ParsePrefix. split.
  - intros Hwf Hv. by rewrite ParsePrefix_String.
  - intros q Hq H6. destruct (netiptext.ParsePrefix cidr) as [r|] eqn:Hr; [|done].
    cbn in Hq. injection Hq as <-. apply ParsePrefix_wf in Hr as [Hwf Hv].
    assert (netip.prefix6 r) as Hr6.
    { split; [done|]. split; [done|]. unfold netip.Masked, netip.AddrPrefix in H6.
      unfold netip.Is6 in *. destruct (netip.z (netip.ip r)) eqn:E; [| |done].
      - destruct (_ <? 0); done.
      - destruct (_ <? 0); [done|]. destruct (32 <? _); [done|]. cbn in H6. done. }
    pose proof (Masked6_wf r Hr6) as (Hmwf & Hmv & _).
    rewrite ParsePrefix_String by done. cbn. by rewrite Masked6_idem.
Qed.

Lemma ParsePrefix_roundtrip_witness :
  ParsePrefix "2001:db8:1:2:3::/48" = Some (prefix_of_string "2001:db8:1::/48") /\
  ParsePrefix (netiptext.PrefixString (prefix_of_string "2001:db8:1::/48")) =
    Some (prefix_of_string "2001:db8:1::/48").
Proof.
  split; [vm_compute; reflexivity|].
  apply (ParsePrefix_roundtrip (prefix_of_string "2001:db8:1::/48") "2001:db8:1:2:3::/48");
    vm_compute; reflexivity.
Defined.
