(* ===== verification/AddressRange.v ===== *)
(** * Address ranges of a delegated prefix

    [internal/prefix/addressrange.go]: a range is configured by two suffixes
    ("::f000:0:0:0"), each combined byte by byte with the network part of the
    base prefix; [RangeToCIDR] and [AddressCount] describe the result. *)

From S2P Require Import Prelude GoStrings Netip NetipText.

Record AddressRangeConfig : Type := mkAddressRangeConfig {
  RC_Name : string;
  RC_Start : string;
  RC_End : string
}.

Record AddressRange : Type := mkAddressRange {
  AR_Name : string;
  AR_Start : netip.Addr;
  AR_End : netip.Addr
}.

#[global] Instance AddressRange_eq_dec : EqDecision AddressRange.
Proof. solve_decision. Defined.

Inductive range_error : Type :=
| ErrRangesNotIPv6
| ErrCalculateRange (name : string) (e : range_error)
| ErrInvalidStart (suffix : string) (e : range_error)
| ErrInvalidEnd (suffix : string) (e : range_error)
| ErrStartAfterEnd (s e : netip.Addr)
| ErrStartOutside (s : netip.Addr) (base : netip.Prefix)
| ErrEndOutside (e : netip.Addr) (base : netip.Prefix)
| ErrSuffixAddress
| ErrSuffixNotIPv6.

(** [for i := lo; i < hi; i++ { dst[i] = src[i] }] on [16]byte arrays: [n]
    iterations from [i]. *)
Fixpoint copy_bytes (n i : nat) (src dst : list Z) : outcome range_error (list Z) :=
  match n with
  | O => Ret dst
  | S n' =>
      if (i <? 16)%nat then copy_bytes n' (S i) src (<[i := nth i src 0]> dst) else Panic
  end.

(** [byte(0xFF << (8 - remainingBits))]. *)
Definition partial_mask (remainingBits : Z) : Z := Z.shiftl 255 (8 - remainingBits) mod 256.

(** Network bytes from the base, the boundary byte mixed, the rest from the
    suffix. *)
Definition combine_bytes (prefixBits : Z) (baseBytes suffixBytes : list Z)
    : outcome range_error (list Z) :=
  let fullBytes := Z.quot prefixBits 8 in
  let remainingBits := Z.rem prefixBits 8 in
  (let* r1 := copy_bytes (Z.to_nat fullBytes) 0 baseBytes (replicate 16 0) in
   let boundary := ((0 <? remainingBits) && (fullBytes <? 16))%bool in
   let k := Z.to_nat fullBytes in
   let mask := partial_mask remainingBits in
   let r2 := if boundary
             then <[k := Z.lor (Z.land (nth k baseBytes 0) mask)
                              (Z.land (nth k suffixBytes 0) (Z.lxor mask 255))]> r1
             else r1 in
   let first := if boundary then S k else k in
   copy_bytes (16 - first) first suffixBytes r2)%go.

Definition parseOffsetSuffix (basePrefix : netip.Prefix) (suffix : string)
    : outcome range_error netip.Addr :=
  match netiptext.ParseAddr suffix with
  | None => Fail ErrSuffixAddress
  | Some suffixAddr =>
      if negb (netip.Is6 suffixAddr) then Fail ErrSuffixNotIPv6
      else
        let baseBytes := netip.As16 (netip.ip (netip.Masked basePrefix)) in
        let suffixBytes := netip.As16 suffixAddr in
        (let* resultBytes := combine_bytes (netip.Bits basePrefix) baseBytes suffixBytes in
         Ret (netip.AddrFrom16 resultBytes))%go
  end.

Definition CalculateAddressRange (basePrefix : netip.Prefix) (cfg : AddressRangeConfig)
    : outcome range_error AddressRange :=
  (let* startAddr := wrap_err (ErrInvalidStart (RC_Start cfg))
                       (parseOffsetSuffix basePrefix (RC_Start cfg)) in
   let* endAddr := wrap_err (ErrInvalidEnd (RC_End cfg))
                     (parseOffsetSuffix basePrefix (RC_End cfg)) in
   if 0 <? netip.Compare startAddr endAddr then Fail (ErrStartAfterEnd startAddr endAddr)
   else if negb (netip.Contains basePrefix startAddr) then Fail (ErrStartOutside startAddr basePrefix)
   else if negb (netip.Contains basePrefix endAddr) then Fail (ErrEndOutside endAddr basePrefix)
   else Ret (mkAddressRange (RC_Name cfg) startAddr endAddr))%go.

Definition CalculateAddressRanges (basePrefix : netip.Prefix) (configs : list AddressRangeConfig)
    : outcome range_error (list AddressRange) :=
  if negb (netip.Is6 (netip.ip basePrefix)) then Fail ErrRangesNotIPv6
  else omap_all (fun cfg =>
         wrap_err (ErrCalculateRange (RC_Name cfg)) (CalculateAddressRange basePrefix cfg)) configs.

(** The inner loop of [RangeToCIDR]: from bit [n - 1] of [diff] down to the first
    bit set. *)
Fixpoint leading_zeros (n : nat) (diff commonBits : Z) : Z :=
  match n with
  | O => commonBits
  | S bit =>
      if negb (Z.land diff (Z.shiftl 1 (Z.of_nat bit)) =? 0) then commonBits
      else leading_zeros bit diff (commonBits + 1)
  end.

(** The outer loop: [n] bytes left, at byte [i]. *)
Fixpoint common_bits (n i : nat) (startBytes endBytes : list Z) (commonBits : Z) : Z :=
  match n with
  | O => commonBits
  | S n' =>
      let s := nth i startBytes 0 in
      let e := nth i endBytes 0 in
      if s =? e then common_bits n' (S i) startBytes endBytes (commonBits + 8)
      else leading_zeros 8 (Z.lxor s e) commonBits
  end.

Definition RangeToCIDR (start end_ : netip.Addr) : netip.Prefix :=
  let commonBits := common_bits 16 0 (netip.As16 start) (netip.As16 end_) 0 in
  match netip.AddrPrefix start commonBits with
  | Ret p => netip.Masked p
  | _ => netip.zero_prefix
  end.

(** [uint64] accumulation of the bytes from 8 on. *)
Definition low_word (bs : list Z) (n : nat) : Z :=
  foldl (fun low i => Z.lor (wrapu64 (Z.shiftl low 8)) (nth i bs 0)) 0 (seq 8 n).

Definition AddressCount (start end_ : netip.Addr) : Z :=
  let startBytes := netip.As16 start in
  let endBytes := netip.As16 end_ in
  if existsb (fun i => negb (nth i startBytes 0 =? nth i endBytes 0)) (seq 0 8) then 0
  else
    let startLow := low_word startBytes 8 in
    let endLow := low_word endBytes 8 in
    if endLow <? startLow then 0 else wrapu64 (wrapu64 (endLow - startLow) + 1).

(** * Lemmas *)

(** ** The byte loop of [parseOffsetSuffix] *)

Lemma nth_insert (l : list Z) i v j d :
  (i < length l)%nat -> nth j (<[i := v]> l) d = if (j =? i)%nat then v else nth j l d.
Proof.
  intros Hi. rewrite !nth_lookup. destruct (Nat.eqb_spec j i) as [->|].
  - by rewrite list_lookup_insert_eq.
  - by rewrite list_lookup_insert_ne.
Qed.

Lemma nth_As16 a i : (i < 16)%nat -> nth i (netip.As16 a) 0 = netip.byte_of (netip.addr a) i.
Proof. intros. unfold netip.As16. by rewrite nth_fmap_seq. Qed.

Lemma copy_bytes_spec n i src dst :
  (i + n <= 16)%nat -> length dst = 16%nat ->
  exists r, copy_bytes n i src dst = Ret r /\ length r = 16%nat /\
    forall j, nth j r 0 = if ((i <=? j) && (j <? i + n))%nat then nth j src 0 else nth j dst 0.
Proof.
  revert i dst. induction n as [|n IH]; intros i dst Hn Hl; cbn [copy_bytes].
  - exists dst. repeat split; [done|]. intros j.
    destruct (Nat.leb_spec i j), (Nat.ltb_spec j (i + 0)); cbn; (done || lia).
  - destruct (Nat.ltb_spec i 16); [|lia].
    destruct (IH (S i) (<[i := nth i src 0]> dst)) as (r & -> & Hr & Hj);
      [lia|by rewrite length_insert|].
    exists r. repeat split; [done|]. intros j. rewrite Hj, nth_insert by lia.
    destruct (Nat.leb_spec (S i) j), (Nat.ltb_spec j (S i + n)), (Nat.leb_spec i j),
      (Nat.ltb_spec j (i + S n)), (Nat.eqb_spec j i); subst; cbn; (done || lia).
Qed.

Lemma partial_mask_testbit rem r :
  0 < rem < 8 -> 0 <= r < 8 -> Z.testbit (partial_mask rem) r = bool_decide (8 - rem <= r).
Proof.
  intros Hrem Hr. unfold partial_mask. change 256 with (2 ^ 8).
  rewrite Z.mod_pow2_bits_low, Z.shiftl_spec by lia. change 255 with (Z.ones 8).
  case_bool_decide.
  - apply Z.ones_spec_low. lia.
  - apply Z.testbit_neg_r. lia.
Qed.

Lemma mix_byte_ok b s mask : byte_ok b -> byte_ok s -> 0 <= mask < 256 ->
  byte_ok (Z.lor (Z.land b mask) (Z.land s (Z.lxor mask 255))).
Proof.
  unfold byte_ok. intros Hb Hs Hm.
  assert (0 <= Z.lor (Z.land b mask) (Z.land s (Z.lxor mask 255))) as H0.
  { apply Z.lor_nonneg. split; apply Z.land_nonneg; lia. }
  split; [done|]. change 256 with (2 ^ 8). apply bits_bounded; [done..|]. intros i Hi.
  autorewrite with go_bits. rewrite (testbit_high b 8), (testbit_high s 8) by lia. done.
Qed.

(** The three writes: base bytes below [k], a mixed byte at [k] when the prefix
    ends inside it, suffix bytes from there on. *)
Lemma three_writes (k : nat) (bnd : bool) (base suffix : list Z) mix :
  (k <= 16)%nat -> (bnd = true -> (k < 16)%nat) ->
  let first := if bnd then S k else k in
  exists r1 r, copy_bytes k 0 base (replicate 16 0) = Ret r1 /\
    copy_bytes (16 - first) first suffix (if bnd then <[k := mix]> r1 else r1) = Ret r /\
    length r = 16%nat /\
    forall j, (j < 16)%nat -> nth j r 0 =
      if (j <? k)%nat then nth j base 0
      else if ((j =? k)%nat && bnd)%bool then mix else nth j suffix 0.
Proof.
  intros Hk Hbnd first.
  destruct (copy_bytes_spec k 0 base (replicate 16 0)) as (r1 & H1 & Hl1 & Hj1); [lia|done|].
  destruct (copy_bytes_spec (16 - first) first suffix (if bnd then <[k := mix]> r1 else r1))
    as (r & H2 & Hl2 & Hj2).
  { destruct bnd; [specialize (Hbnd eq_refl)|]; unfold first; lia. }
  { destruct bnd; [by rewrite length_insert|done]. }
  exists r1, r. do 3 (split; [done|]). intros j Hj. rewrite Hj2.
  destruct (Nat.leb_spec first j), (Nat.ltb_spec j (first + (16 - first))),
    (Nat.ltb_spec j k), (Nat.eqb_spec j k), bnd; cbn [andb]; unfold first in *;
    try lia; try done; rewrite ?nth_insert by lia;
    rewrite ?(proj2 (Nat.eqb_eq j k)), ?(proj2 (Nat.eqb_neq j k)) by lia; try done;
    rewrite Hj1, (proj2 (Nat.ltb_lt j (0 + k))) by lia; done.
Qed.

(** Byte [j] of the combination. *)
Definition combined_byte (bits : Z) (base suffix : netip.Addr) (j : nat) : Z :=
  if Z.of_nat j <? bits / 8 then netip.byte_of (netip.addr base) j
  else if (Z.of_nat j =? bits / 8) && (0 <? bits mod 8) then
    Z.lor (Z.land (netip.byte_of (netip.addr base) j) (partial_mask (bits mod 8)))
          (Z.land (netip.byte_of (netip.addr suffix) j) (Z.lxor (partial_mask (bits mod 8)) 255))
  else netip.byte_of (netip.addr suffix) j.

Lemma combined_byte_ok bits base suffix j : byte_ok (combined_byte bits base suffix j).
Proof.
  unfold combined_byte. case_match; [apply byte_of_ok|]. case_match; [|apply byte_of_ok].
  apply mix_byte_ok; [apply byte_of_ok..|]. by apply Z.mod_pos_bound.
Qed.

Lemma combine_bytes_spec bits base suffix :
  0 <= bits <= 128 ->
  combine_bytes bits (netip.As16 base) (netip.As16 suffix) =
  Ret (combined_byte bits base suffix <$> seq 0 16).
Proof.
  intros Hb. unfold combine_bytes. cbv zeta.
  rewrite Z.quot_div_nonneg, Z.rem_mod_nonneg by lia.
  pose proof (Z.div_mod bits 8 ltac:(lia)) as Hdm. pose proof (Z.mod_pos_bound bits 8 ltac:(lia)) as Hmod.
  set (k := Z.to_nat (bits / 8)). set (bnd := ((0 <? bits mod 8) && (bits / 8 <? 16))%bool).
  set (mix := Z.lor _ _).
  destruct (three_writes k bnd (netip.As16 base) (netip.As16 suffix) mix)
    as (r1 & r & H1 & H2 & Hl & Hj); [lia|unfold bnd; intros; zbool; lia|].
  rewrite H1. cbn [obind]. rewrite H2. f_equal.
  apply (nth_ext _ _ 0 0); [done|]. intros j Hlt. rewrite Hl in Hlt.
  rewrite Hj, nth_fmap_seq by done. unfold combined_byte.
  destruct (Nat.ltb_spec j k), (Z.ltb_spec (Z.of_nat j) (bits / 8)); try lia.
  { by rewrite nth_As16. }
  destruct (Z.eqb_spec (Z.of_nat j) (bits / 8)), (Nat.eqb_spec j k) as [->|]; try lia; cbn [andb].
  2: { by rewrite nth_As16. }
  unfold bnd. rewrite (proj2 (Z.ltb_lt (bits / 8) 16)), andb_true_r by lia.
  unfold mix. by rewrite !nth_As16 by done.
Qed.

(** The combination as a number: the first address of the base plus the host
    part of the suffix. *)
Lemma combined_value bits base suffix :
  0 <= bits <= 128 -> 0 <= netip.addr base < 2 ^ 128 -> 0 <= netip.addr suffix < 2 ^ 128 ->
  let h := 128 - bits in
  netip.be_value (combined_byte bits base suffix <$> seq 0 16) =
  netip.addr base / 2 ^ h * 2 ^ h + netip.addr suffix mod 2 ^ h.
Proof.
  intros Hb Hba Hsu h. set (v := netip.be_value _).
  assert (forall i, 0 <= i < 128 -> Z.testbit v i =
    if h <=? i then Z.testbit (netip.addr base) i else Z.testbit (netip.addr suffix) i) as Hbit.
  { intros i Hi. unfold v. rewrite be_value_bytes_testbit by (intros; done || apply combined_byte_ok).
    pose proof (Z.div_mod i 8 ltac:(lia)). pose proof (Z.mod_pos_bound i 8 ltac:(lia)).
    pose proof (Z.div_mod bits 8 ltac:(lia)). pose proof (Z.mod_pos_bound bits 8 ltac:(lia)).
    set (j := (15 - Z.to_nat (i / 8))%nat). assert (Z.of_nat j = 15 - i / 8) as Hj by lia.
    assert (i mod 8 + 8 * (15 - Z.of_nat j) = i) as Hi' by lia.
    unfold combined_byte. destruct (Z.ltb_spec (Z.of_nat j) (bits / 8)).
    { rewrite byte_of_testbit, Hi' by lia. by rewrite (proj2 (Z.leb_le h i)) by lia. }
    destruct (Z.eqb_spec (Z.of_nat j) (bits / 8)), (Z.ltb_spec 0 (bits mod 8)); cbn [andb];
      try (rewrite byte_of_testbit, Hi' by lia; by rewrite (proj2 (Z.leb_gt h i)) by lia).
    autorewrite with go_bits. rewrite !byte_of_testbit, Hi', partial_mask_testbit by lia.
    change 255 with (Z.ones 8). rewrite Z.ones_spec_low by lia.
    case_bool_decide; destruct (Z.leb_spec h i); try lia; cbn [xorb];
      by rewrite ?andb_true_r, ?andb_false_r, ?orb_false_r. }
  assert (0 <= v < 2 ^ 128) as Hv.
  { apply be_value_bound16; [|done]. apply Forall_fmap, Forall_true. intros. apply combined_byte_ok. }
  pose proof (pow2_pos h ltac:(lia)).
  rewrite (Z.div_mod v (2 ^ h)) at 1 by lia. rewrite (Z.mul_comm (2 ^ h)). f_equal; [f_equal|];
    [rewrite <- !Z.shiftr_div_pow2 by lia|rewrite <- !Z.land_ones by lia];
    apply Z.bits_inj'; intros i Hi.
  - rewrite !Z.shiftr_spec by lia. destruct (decide (i + h < 128)).
    + by rewrite Hbit, (proj2 (Z.leb_le h (i + h))) by lia.
    + by rewrite !(testbit_high _ 128) by lia.
  - rewrite !Z.land_spec. destruct (decide (i < h)).
    + by rewrite Hbit, (proj2 (Z.leb_gt h i)) by lia.
    + by rewrite Z.ones_spec_high, !andb_false_r by lia.
Qed.

(** The host part a suffix selects under a base; [None] when the suffix is not
    an IPv6 address. *)
Definition suffix_offset (base : netip.Prefix) (suffix : string) : option Z :=
  match netiptext.ParseAddr suffix with
  | Some a => if netip.Is6 a then Some (netip.addr a mod 2 ^ (128 - netip.Bits base)) else None
  | None => None
  end.

Lemma parseOffsetSuffix_spec base suffix :
  netip.prefix6 base ->
  match suffix_offset base suffix with
  | Some o => parseOffsetSuffix base suffix =
                Ret (netip.mkAddr (netip.first_num base + o) (netip.z6 EmptyString)) /\
              0 <= o < 2 ^ (128 - netip.Bits base)
  | None => exists e, parseOffsetSuffix base suffix = Fail e /\
              (e = ErrSuffixAddress \/ e = ErrSuffixNotIPv6)
  end.
Proof.
  intros Hp. unfold suffix_offset, parseOffsetSuffix.
  destruct (netiptext.ParseAddr suffix) as [a|] eqn:Ha; [|by eauto].
  destruct (netip.Is6 a); cbn [negb]; [|by eauto].
  apply ParseAddr_wf in Ha as [(Hr & _) _]. pose proof (prefix6_bits base Hp) as Hb.
  pose proof (first_num_bounds base Hp). pose proof (first_num_le_last base Hp).
  rewrite combine_bytes_spec by done. cbn [obind].
  split; [|apply Z.mod_pos_bound, pow2_pos; lia].
  unfold netip.AddrFrom16. rewrite combined_value by (try done; rewrite Masked6 by done; cbn; lia).
  do 2 f_equal. rewrite Masked6 by done. cbn [netip.ip netip.addr]. f_equal.
  unfold netip.first_num at 1. rewrite Z.div_mul by (pose proof (pow2_pos (128 - netip.Bits base)); lia).
  done.
Qed.

(** ** The bit scan of [RangeToCIDR] *)

Lemma land_shiftl_1 d b : 0 <= b ->
  Z.land d (Z.shiftl 1 b) = (if Z.testbit d b then 2 ^ b else 0).
Proof.
  intros Hb. rewrite Z.shiftl_1_l. apply Z.bits_inj'. intros i Hi.
  rewrite Z.land_spec, Z.pow2_bits_eqb by done. destruct (Z.eqb_spec b i) as [->|].
  - rewrite andb_true_r. destruct (Z.testbit d i); [by rewrite Z.pow2_bits_true|by rewrite Z.bits_0].
  - rewrite andb_false_r. destruct (Z.testbit d b); [by rewrite Z.pow2_bits_false|by rewrite Z.bits_0].
Qed.

Lemma land_shiftl_1_zero d b : 0 <= b ->
  (Z.land d (Z.shiftl 1 b) =? 0) = negb (Z.testbit d b).
Proof.
  intros Hb. rewrite land_shiftl_1 by done. pose proof (pow2_pos b Hb).
  destruct (Z.testbit d b); [|done]. apply Z.eqb_neq. lia.
Qed.

(** A quotient by [2^n] and bit [n] make up the quotient by [2^(n+1)]. *)
Lemma div_pow2_step u n : 0 <= n ->
  u / 2 ^ n = 2 * (u / 2 ^ (n + 1)) + Z.b2z (Z.testbit u n).
Proof.
  intros Hn. rewrite Z.testbit_spec', Z.pow_add_r, <- Z.div_div by (pose proof (pow2_pos n); lia).
  change (2 ^ 1) with 2. apply Z.div_mod. lia.
Qed.

Lemma leading_zeros_spec u v diff n c :
  (forall k, 0 <= k < Z.of_nat n -> Z.testbit diff k = xorb (Z.testbit u k) (Z.testbit v k)) ->
  u <> v -> u / 2 ^ Z.of_nat n = v / 2 ^ Z.of_nat n ->
  exists k, 0 <= k < Z.of_nat n /\ leading_zeros n diff c = c + k /\
    u / 2 ^ (Z.of_nat n - k) = v / 2 ^ (Z.of_nat n - k) /\
    u / 2 ^ (Z.of_nat n - k - 1) <> v / 2 ^ (Z.of_nat n - k - 1).
Proof.
  revert c. induction n as [|n IH]; intros c Hd Hne Hq.
  { rewrite !Z.div_1_r in Hq. done. }
  cbn [leading_zeros]. rewrite land_shiftl_1_zero, Hd by lia.
  rewrite Nat2Z.inj_succ, <- Z.add_1_r in *.
  pose proof (div_pow2_step u (Z.of_nat n) ltac:(lia)) as Hu.
  pose proof (div_pow2_step v (Z.of_nat n) ltac:(lia)) as Hv.
  destruct (xorb (Z.testbit u (Z.of_nat n)) (Z.testbit v (Z.of_nat n))) eqn:Hx; cbn [negb].
  - exists 0. split; [lia|]. split; [lia|]. rewrite Z.sub_0_r. split; [done|].
    replace (Z.of_nat n + 1 - 1) with (Z.of_nat n) by lia.
    rewrite Hu, Hv, Hq. destruct (Z.testbit u _), (Z.testbit v _); cbn in *; (done || lia).
  - apply xorb_eq in Hx. destruct (IH (c + 1)) as (k & Hk & -> & H1 & H2).
    { intros k Hk. apply Hd. lia. } { done. } { rewrite Hu, Hv, Hq, Hx. done. }
    exists (k + 1). replace (Z.of_nat n + 1 - (k + 1)) with (Z.of_nat n - k) by lia.
    repeat split; (done || lia).
Qed.

(** Dropping one byte less. *)
Lemma div_byte_step x i : (i < 16)%nat ->
  x / 2 ^ (128 - 8 * Z.of_nat (S i)) = 256 * (x / 2 ^ (128 - 8 * Z.of_nat i)) + netip.byte_of x i.
Proof.
  intros Hi. unfold netip.byte_of. rewrite Z.shiftr_div_pow2 by lia.
  replace (8 * (15 - Z.of_nat i)) with (128 - 8 * Z.of_nat (S i)) by lia.
  replace (128 - 8 * Z.of_nat i) with (128 - 8 * Z.of_nat (S i) + 8) by lia.
  rewrite Z.pow_add_r, <- Z.div_div by (pose proof (pow2_pos (128 - 8 * Z.of_nat (S i))); lia).
  change (2 ^ 8) with 256. apply Z.div_mod. lia.
Qed.

(** [c] leading bits agree, and no more. *)
Definition agree_exactly (x y c : Z) : Prop :=
  0 <= c <= 128 /\ x / 2 ^ (128 - c) = y / 2 ^ (128 - c) /\
  (c < 128 -> x / 2 ^ (127 - c) <> y / 2 ^ (127 - c)).

Lemma common_bits_spec a b n i :
  (n + i = 16)%nat ->
  netip.addr a / 2 ^ (128 - 8 * Z.of_nat i) = netip.addr b / 2 ^ (128 - 8 * Z.of_nat i) ->
  agree_exactly (netip.addr a) (netip.addr b)
    (common_bits n i (netip.As16 a) (netip.As16 b) (8 * Z.of_nat i)).
Proof.
  revert i. induction n as [|n IH]; intros i Hn Hq; cbn [common_bits].
  { replace i with 16%nat in * by lia. repeat split; try done. }
  rewrite !nth_As16 by lia.
  pose proof (div_byte_step (netip.addr a) i ltac:(lia)) as Ha.
  pose proof (div_byte_step (netip.addr b) i ltac:(lia)) as Hb.
  destruct (Z.eqb_spec (netip.byte_of (netip.addr a) i) (netip.byte_of (netip.addr b) i)) as [He|Hne].
  - replace (8 * Z.of_nat i + 8) with (8 * Z.of_nat (S i)) by lia. apply IH; [lia|]. lia.
  - set (u := netip.addr a / 2 ^ (128 - 8 * Z.of_nat (S i))) in *.
    set (v := netip.addr b / 2 ^ (128 - 8 * Z.of_nat (S i))) in *.
    assert (forall x k, 0 <= k < 128 -> x / 2 ^ (128 - 8 * Z.of_nat (S i)) / 2 ^ k =
      x / 2 ^ (128 - 8 * Z.of_nat (S i) + k)) as Hdiv.
    { intros x k Hk. rewrite Z.div_div, <- Z.pow_add_r;
        (done || lia || (pose proof (pow2_pos k); pose proof (pow2_pos (128 - 8 * Z.of_nat (S i))); lia)). }
    destruct (leading_zeros_spec u v
      (Z.lxor (netip.byte_of (netip.addr a) i) (netip.byte_of (netip.addr b) i)) 8 (8 * Z.of_nat i))
      as (k & Hk & -> & H1 & H2).
    + intros k Hk. rewrite Z.lxor_spec, !byte_of_testbit by lia. unfold u, v.
      rewrite <- !Z.shiftr_div_pow2, !Z.shiftr_spec by lia. f_equal; f_equal; lia.
    + lia.
    + unfold u, v. rewrite !Hdiv by done.
      by replace (128 - 8 * Z.of_nat (S i) + Z.of_nat 8) with (128 - 8 * Z.of_nat i) by lia.
    + unfold u, v in H1, H2. rewrite !Hdiv in H1, H2 by lia. split; [lia|]. split.
      * replace (128 - (8 * Z.of_nat i + k)) with (128 - 8 * Z.of_nat (S i) + (Z.of_nat 8 - k)) by lia. done.
      * intros _. replace (127 - (8 * Z.of_nat i + k)) with (128 - 8 * Z.of_nat (S i) + (Z.of_nat 8 - k - 1)) by lia.
        done.
Qed.

Lemma common_bits_agree a b :
  0 <= netip.addr a < 2 ^ 128 -> 0 <= netip.addr b < 2 ^ 128 ->
  agree_exactly (netip.addr a) (netip.addr b) (common_bits 16 0 (netip.As16 a) (netip.As16 b) 0).
Proof.
  intros Ha Hb. apply (common_bits_spec a b 16 0); [done|]. cbn.
  by rewrite !Z.div_small.
Qed.

(** The prefix [RangeToCIDR] returns for an IPv6 start. *)
Lemma RangeToCIDR_6 start end_ :
  netip.addr_wf start -> netip.addr_wf end_ -> netip.Is6 start = true ->
  exists c, agree_exactly (netip.addr start) (netip.addr end_) c /\
    RangeToCIDR start end_ =
    netip.mkPrefix (netip.mkAddr (netip.addr start / 2 ^ (128 - c) * 2 ^ (128 - c))
                                 (netip.z6 EmptyString)) (c + 1).
Proof.
  intros (Hs & _) (He & _) H6. pose proof (common_bits_agree start end_ Hs He) as Hagree.
  unfold RangeToCIDR. set (c := common_bits _ _ _ _ _) in *. exists c. split; [done|].
  destruct Hagree as (Hc & _). unfold netip.Is6 in H6. unfold netip.AddrPrefix.
  destruct (netip.z start) as [| |zn]; [done..|].
  rewrite (proj2 (Z.ltb_ge c 0)), (proj2 (Z.ltb_ge 128 c)) by lia.
  unfold netip.PrefixFrom. cbn [netip.IsValidAddr netip.z netip.BitLen].
  rewrite (proj2 (Z.leb_le 0 c)), (proj2 (Z.leb_le c 128)) by lia.
  unfold netip.withoutZone, netip.WithZone, netip.mask6. cbn [netip.z netip.addr andb negb].
  rewrite land_high_mask by (done || lia). set (x := netip.addr start / _ * _).
  pose proof (pow2_pos (128 - c) ltac:(lia)).
  assert (0 <= x < 2 ^ 128) as Hx.
  { unfold x. pose proof (Z.mul_div_le (netip.addr start) (2 ^ (128 - c)) ltac:(lia)).
    pose proof (Z.div_pos (netip.addr start) (2 ^ (128 - c))). nia. }
  apply Masked6_id.
  - unfold netip.prefix6, netip.prefix_wf, netip.IsValid, netip.Bits, netip.Is6, netip.IsValidAddr, netip.BitLen.
    cbn [netip.ip netip.z netip.bitsPlusOne netip.Zone]. rewrite Z.ltb_lt.
    repeat split; intros; (done || lia || idtac); cbn [netip.addr]; lia.
  - unfold netip.first_num, netip.Bits. cbn [netip.ip netip.addr netip.bitsPlusOne].
    replace (c + 1 - 1) with c by lia. unfold x. by rewrite Z.div_mul by lia.
Qed.

(** ** Counting *)

Lemma low_word_spec a n : (n <= 8)%nat -> 0 <= netip.addr a < 2 ^ 128 ->
  low_word (netip.As16 a) n = netip.addr a / 2 ^ (64 - 8 * Z.of_nat n) mod 2 ^ (8 * Z.of_nat n).
Proof.
  intros Hn Ha. unfold low_word. induction n as [|n IH].
  { cbn. by rewrite Z.mod_1_r. }
  rewrite seq_S, foldl_app, IH by lia. cbn [foldl].
  rewrite nth_As16 by lia.
  set (q := netip.addr a / 2 ^ (64 - 8 * Z.of_nat (S n))).
  assert (netip.addr a / 2 ^ (64 - 8 * Z.of_nat n) = q / 2 ^ 8) as ->.
  { unfold q. rewrite Z.div_div, <- Z.pow_add_r by (done || lia || (pose proof (pow2_pos (64 - 8 * Z.of_nat (S n))); lia)).
    do 2 f_equal. lia. }
  assert (netip.byte_of (netip.addr a) (8 + n) = q mod 2 ^ 8) as ->.
  { unfold netip.byte_of, q. rewrite Z.shiftr_div_pow2 by lia. do 3 f_equal. lia. }
  apply Z.bits_inj'. intros i Hi. unfold wrapu64.
  rewrite Z.lor_spec. destruct (decide (i < 8 * Z.of_nat (S n))).
  - rewrite (Z.mod_pow2_bits_low q (8 * Z.of_nat (S n))), (Z.mod_pow2_bits_low _ 64), Z.shiftl_spec by lia.
    destruct (decide (i < 8)).
    + rewrite Z.testbit_neg_r, Z.mod_pow2_bits_low by lia. done.
    + rewrite (Z.mod_pow2_bits_high q), orb_false_r, Z.mod_pow2_bits_low by lia.
      rewrite <- Z.shiftr_div_pow2, Z.shiftr_spec by lia. f_equal. lia.
  - rewrite (Z.mod_pow2_bits_high q (8 * Z.of_nat (S n))), (Z.mod_pow2_bits_high q 8), orb_false_r by lia.
    destruct (decide (i < 64)); [|apply Z.mod_pow2_bits_high; lia].
    rewrite Z.mod_pow2_bits_low, Z.shiftl_spec by lia. apply Z.mod_pow2_bits_high. lia.
Qed.

Lemma high_words_equal a b n : (n <= 16)%nat ->
  0 <= netip.addr a < 2 ^ 128 -> 0 <= netip.addr b < 2 ^ 128 ->
  existsb (fun i => negb (nth i (netip.As16 a) 0 =? nth i (netip.As16 b) 0)) (seq 0 n) =
  negb (netip.addr a / 2 ^ (128 - 8 * Z.of_nat n) =? netip.addr b / 2 ^ (128 - 8 * Z.of_nat n)).
Proof.
  intros Hn Ha Hb. induction n as [|n IH].
  { cbn. by rewrite !Z.div_small. }
  rewrite seq_S, existsb_app, IH by lia. cbn [existsb Nat.add]. rewrite orb_false_r.
  rewrite !nth_As16 by lia.
  rewrite !div_byte_step by lia. pose proof (byte_of_ok (netip.addr a) n). pose proof (byte_of_ok (netip.addr b) n).
  unfold byte_ok in *.
  repeat match goal with |- context [?x =? ?y] => destruct (Z.eqb_spec x y) end; cbn; (done || lia).
Qed.

(** [AddressCount] in numbers. *)
Lemma AddressCount_spec start end_ :
  netip.addr_wf start -> netip.addr_wf end_ ->
  AddressCount start end_ =
  if (netip.addr start / 2 ^ 64 =? netip.addr end_ / 2 ^ 64) &&
     (netip.addr start <=? netip.addr end_)
  then wrapu64 (netip.addr end_ - netip.addr start + 1) else 0.
Proof.
  intros (Hs & _) (He & _). unfold AddressCount. rewrite high_words_equal by (done || lia).
  change (128 - 8 * Z.of_nat 8) with 64.
  destruct (Z.eqb_spec (netip.addr start / 2 ^ 64) (netip.addr end_ / 2 ^ 64)) as [Hq|]; [|done].
  cbn [negb andb]. rewrite !low_word_spec by (done || lia).
  change (64 - 8 * Z.of_nat 8) with 0. change (8 * Z.of_nat 8) with 64. rewrite !Z.div_1_r.
  pose proof (Z.div_mod (netip.addr start) (2 ^ 64) ltac:(lia)).
  pose proof (Z.div_mod (netip.addr end_) (2 ^ 64) ltac:(lia)).
  pose proof (Z.mod_pos_bound (netip.addr start) (2 ^ 64) ltac:(lia)).
  pose proof (Z.mod_pos_bound (netip.addr end_) (2 ^ 64) ltac:(lia)).
  destruct (Z.ltb_spec (netip.addr end_ mod 2 ^ 64) (netip.addr start mod 2 ^ 64)),
    (Z.leb_spec (netip.addr start) (netip.addr end_)); try lia; try done.
  rewrite (wrapu64_id (_ - _)) by lia. f_equal. lia.
Qed.

(** What [CalculateAddressRange] does on every branch. *)
Lemma CalculateAddressRange_cases (base : netip.Prefix) (cfg : AddressRangeConfig) :
  netip.prefix6 base ->
  CalculateAddressRange base cfg <> Panic /\
  (forall a, CalculateAddressRange base cfg <> Fail (ErrStartOutside a base) /\
             CalculateAddressRange base cfg <> Fail (ErrEndOutside a base)) /\
  (forall ar, CalculateAddressRange base cfg = Ret ar <->
     exists so eo, suffix_offset base (RC_Start cfg) = Some so /\
       suffix_offset base (RC_End cfg) = Some eo /\ so <= eo /\
       ar = mkAddressRange (RC_Name cfg)
              (netip.mkAddr (netip.first_num base + so) (netip.z6 EmptyString))
              (netip.mkAddr (netip.first_num base + eo) (netip.z6 EmptyString))) /\
  (forall ar, CalculateAddressRange base cfg = Ret ar ->
     netip.in_prefix base (netip.addr (AR_Start ar)) /\
     netip.in_prefix base (netip.addr (AR_End ar)) /\
     netip.addr (AR_Start ar) <= netip.addr (AR_End ar)).
Proof.
  intros Hp. pose proof (first_num_bounds base Hp). unfold CalculateAddressRange.
  pose proof (parseOffsetSuffix_spec base (RC_Start cfg) Hp) as Hs.
  pose proof (parseOffsetSuffix_spec base (RC_End cfg) Hp) as He.
  destruct (suffix_offset base (RC_Start cfg)) as [so|].
  2: { destruct Hs as (e & -> & _). cbn. repeat split; try done. by intros (? & ? & ? & ? & _). }
  destruct Hs as [-> Hso]. cbn [wrap_err obind].
  destruct (suffix_offset base (RC_End cfg)) as [eo|].
  2: { destruct He as (e & -> & _). cbn. repeat split; try done. by intros (? & ? & ? & ? & _). }
  destruct He as [-> Heo]. cbn [wrap_err obind]. rewrite Compare6.
  assert (forall o, 0 <= o < 2 ^ (128 - netip.Bits base) ->
    netip.in_prefix base (netip.first_num base + o) /\
    netip.Contains base (netip.mkAddr (netip.first_num base + o) (netip.z6 EmptyString)) = true) as Hin.
  { intros o Ho. assert (netip.in_prefix base (netip.first_num base + o)) as Hi
      by (unfold netip.in_prefix, netip.last_num in *; lia).
    split; [done|]. apply Contains6; [done| |done|done]. apply addr6_wf.
    unfold netip.in_prefix, netip.last_num in *. lia. }
  destruct (Hin so Hso) as [Hi1 ->], (Hin eo Heo) as [Hi2 ->]. cbn [negb].
  destruct (Z.compare_spec (netip.first_num base + so) (netip.first_num base + eo)); cbn [Z.ltb Z.compare];
    (split; [done|]); (split; [done|]).
  3: { split; [|done]. intros ar. split; [done|]. intros (? & ? & [= <-] & [= <-] & ? & _). lia. }
  all: split; [|intros ar [= <-]; cbn; repeat split; (apply Hi1 || apply Hi2 || lia)];
    intros ar; split; [intros [= <-]; exists so, eo; repeat split; lia
                      |by intros (? & ? & [= <-] & [= <-] & _ & ->)].
Qed.

(** The prefix of a range, for the code that prints it. *)
Lemma RangeToCIDR_spec (start end_ : netip.Addr) :
  netip.addr_wf start -> netip.addr_wf end_ -> netip.Is6 start = true ->
  let p := RangeToCIDR start end_ in
  netip.prefix6 p /\ netip.Masked p = p /\
  netip.in_prefix p (netip.addr start) /\ netip.in_prefix p (netip.addr end_) /\
  (forall q, netip.prefix6 q ->
     netip.in_prefix q (netip.addr start) -> netip.in_prefix q (netip.addr end_) ->
     netip.Bits q <= netip.Bits p /\ forall x, netip.in_prefix p x -> netip.in_prefix q x).
Proof.
  intros Hs He H6 p. destruct (RangeToCIDR_6 start end_ Hs He H6) as (c & (Hc & Hagree & Hmax) & Hpc).
  fold p in Hpc. destruct Hs as (Hs & _), He as (He & _). set (h := 128 - c) in *.
  pose proof (pow2_pos h ltac:(lia)).
  assert (0 <= netip.addr start / 2 ^ h * 2 ^ h < 2 ^ 128) as Hx.
  { pose proof (Z.mul_div_le (netip.addr start) (2 ^ h) ltac:(lia)).
    pose proof (Z.div_pos (netip.addr start) (2 ^ h)). nia. }
  assert (netip.prefix6 p) as Hp.
  { rewrite Hpc. unfold netip.prefix6, netip.prefix_wf, netip.IsValid, netip.Bits, netip.Is6,
      netip.IsValidAddr, netip.BitLen; cbn [netip.ip netip.z netip.bitsPlusOne netip.Zone].
    rewrite Z.ltb_lt. repeat split; intros; (done || lia || idtac); cbn [netip.addr]; lia. }
  assert (netip.Bits p = c) as Hbits by (rewrite Hpc; unfold netip.Bits; cbn; lia).
  assert (forall x, netip.in_prefix p x <-> x / 2 ^ h = netip.addr start / 2 ^ h) as Hin.
  { intros x. rewrite in_prefix_block, Hbits by done. fold h. rewrite Hpc. cbn [netip.ip netip.addr].
    by rewrite Z.div_mul by lia. }
  split; [done|]. split.
  { apply Masked6_id; [done|]. unfold netip.first_num. rewrite Hbits. fold h. rewrite Hpc.
    cbn [netip.ip netip.addr]. by rewrite Z.div_mul by lia. }
  split; [by apply Hin|]. split; [by apply Hin|].
  intros q Hq Hqs Hqe. apply in_prefix_block in Hqs, Hqe; [|done..].
  pose proof (prefix6_bits q Hq) as Hqb.
  assert (netip.Bits q <= c) as Hle.
  { destruct (decide (netip.Bits q <= c)); [done|]. exfalso. apply Hmax; [lia|].
    apply (agree_mono _ _ (128 - netip.Bits q)); [lia|congruence]. }
  split; [lia|]. intros x Hx'. apply Hin in Hx'. apply in_prefix_block; [done|].
  rewrite <- Hqs. apply (agree_mono _ _ h); [lia|done].
Qed.

(** * Properties *)

(** C18 For an IPv6 base [CalculateAddressRange] succeeds exactly when both
    suffixes are IPv6 addresses whose host parts are in order; the range is then
    the base's first address plus the two host parts, so it lies inside the base.
    It never panics and its two containment checks never fire: the byte
    combination cannot leave the base, whatever network bits a suffix carries. *)
Theorem CalculateAddressRange_total (base : netip.Prefix) (cfg : AddressRangeConfig) :
  netip.prefix6 base ->
  CalculateAddressRange base cfg <> Panic /\
  (forall a, CalculateAddressRange base cfg <> Fail (ErrStartOutside a base) /\
             CalculateAddressRange base cfg <> Fail (ErrEndOutside a base)) /\
  (forall ar, CalculateAddressRange base cfg = Ret ar <->
     exists so eo, suffix_offset base (RC_Start cfg) = Some so /\
       suffix_offset base (RC_End cfg) = Some eo /\ so <= eo /\
       ar = mkAddressRange (RC_Name cfg)
              (netip.mkAddr (netip.first_num base + so) (netip.z6 EmptyString))
              (netip.mkAddr (netip.first_num base + eo) (netip.z6 EmptyString))) /\
  (forall ar, CalculateAddressRange base cfg = Ret ar ->
     netip.in_prefix base (netip.addr (AR_Start ar)) /\
     netip.in_prefix base (netip.addr (AR_End ar)) /\
     netip.addr (AR_Start ar) <= netip.addr (AR_End ar)).
Proof. exact (CalculateAddressRange_cases base cfg). Qed.

(** The range of the README, on a /64: and a suffix that carries network bits of
    its own. *)
Lemma CalculateAddressRange_total_witness :
  CalculateAddressRange (prefix_of_string "2001:db8:0:1::/64")
    (mkAddressRangeConfig "lb" "::f000:0:0:0" "::ffff:ffff:ffff:ffff") =
  Ret (mkAddressRange "lb" (addr_of_string "2001:db8:0:1:f000::")
         (addr_of_string "2001:db8:0:1:ffff:ffff:ffff:ffff")) /\
  CalculateAddressRange (prefix_of_string "2001:db8:0:1::/64")
    (mkAddressRangeConfig "lb" "fe80:1::5" "::6") <>
  Fail (ErrStartOutside (addr_of_string "fe80:1::5") (prefix_of_string "2001:db8:0:1::/64")).
Proof.
  split; [vm_compute; reflexivity|].
  apply (CalculateAddressRange_total (prefix_of_string "2001:db8:0:1::/64")
    (mkAddressRangeConfig "lb" "fe80:1::5" "::6")).
  by apply prefix6_of_string.
Defined.

(** [RangeToCIDR] of two IPv6 addresses is a masked prefix that contains both,
    and the smallest such: every prefix containing both contains it. *)
Theorem RangeToCIDR_smallest (start end_ : netip.Addr) :
  netip.addr_wf start -> netip.addr_wf end_ -> netip.Is6 start = true ->
  let p := RangeToCIDR start end_ in
  netip.prefix6 p /\ netip.Masked p = p /\
  netip.in_prefix p (netip.addr start) /\ netip.in_prefix p (netip.addr end_) /\
  (forall q, netip.prefix6 q ->
     netip.in_prefix q (netip.addr start) -> netip.in_prefix q (netip.addr end_) ->
     netip.Bits q <= netip.Bits p /\ forall x, netip.in_prefix p x -> netip.in_prefix q x).
Proof. exact (RangeToCIDR_spec start end_). Qed.

Lemma RangeToCIDR_smallest_witness :
  RangeToCIDR (addr_of_string "2001:db8::f000") (addr_of_string "2001:db8::f8ff") =
    prefix_of_string "2001:db8::f000/116" /\
  netip.in_prefix (RangeToCIDR (addr_of_string "2001:db8::f000") (addr_of_string "2001:db8::f8ff"))
    (netip.addr (addr_of_string "2001:db8::f8ff")).
Proof.
  split; [vm_compute; reflexivity|].
  destruct (RangeToCIDR_smallest (addr_of_string "2001:db8::f000") (addr_of_string "2001:db8::f8ff"))
    as (_ & _ & _ & H & _); [apply addr_of_string_wf..|vm_compute; reflexivity|exact H].
Defined.

(** [AddressCount] is the exact number of addresses of a range that stays
    within one aligned block of 2^64 and does not fill it; in every other case
    it is 0: a reversed range, one that crosses such a block - two neighbouring
    addresses can - and the whole block. It never overflows to another value. *)
Theorem AddressCount_exact (start end_ : netip.Addr) :
  netip.addr_wf start -> netip.addr_wf end_ ->
  let s := netip.addr start in let e := netip.addr end_ in
  0 <= AddressCount start end_ < 2 ^ 64 /\
  (AddressCount start end_ <> 0 -> AddressCount start end_ = e - s + 1) /\
  (AddressCount start end_ = 0 <->
     e < s \/ s / 2 ^ 64 <> e / 2 ^ 64 \/ e - s + 1 = 2 ^ 64).
Proof.
  intros Hs He s e. rewrite AddressCount_spec by done. fold s e.
  destruct Hs as (Hs & _), He as (He & _). fold s in Hs. fold e in He.
  pose proof (Z.div_mod s (2 ^ 64) ltac:(lia)). pose proof (Z.div_mod e (2 ^ 64) ltac:(lia)).
  pose proof (Z.mod_pos_bound s (2 ^ 64) ltac:(lia)). pose proof (Z.mod_pos_bound e (2 ^ 64) ltac:(lia)).
  destruct (Z.eqb_spec (s / 2 ^ 64) (e / 2 ^ 64)); cbn [andb]; [|split; [lia|split; [lia|tauto]]].
  destruct (Z.leb_spec s e); [|split; [lia|split; [lia|tauto]]].
  destruct (decide (e - s + 1 = 2 ^ 64)) as [E|].
  - rewrite E. change (wrapu64 (2 ^ 64)) with 0. split; [lia|]. split; [lia|tauto].
  - rewrite wrapu64_id by lia. lia.
Qed.

(** Two addresses on either side of a /64 boundary count as none. *)
Lemma AddressCount_exact_witness :
  AddressCount (addr_of_string "2001:db8::f000:0:0:0") (addr_of_string "2001:db8::f000:0:0:ff") = 256 /\
  AddressCount (addr_of_string "2001:db8:0:1:ffff:ffff:ffff:ffff") (addr_of_string "2001:db8:0:2::") = 0.
Proof.
  split; [vm_compute; reflexivity|].
  destruct (AddressCount_exact (addr_of_string "2001:db8:0:1:ffff:ffff:ffff:ffff")
    (addr_of_string "2001:db8:0:2::")) as (_ & _ & H); [apply addr_of_string_wf..|].
  apply H. right. left. vm_compute. discriminate.
Defined.
