(* ===== verification/Receivers.v ===== *)
(** * Prefixes, events and the receiver interface

    [internal/prefix/types.go], [health.go] and [mock_receiver.go]: what a
    receiver reports (prefixes with their lease, events on a bounded channel, the
    last failure), and what it promises to the code that owns it.  [ReceiverOps]
    is Go's [Receiver] interface over an explicit state, [ReceiverLaws] what every
    implementation guarantees; the composite receiver and the controller are
    verified against the laws, and each receiver proves them. *)

From S2P Require Import Prelude GoStrings Netip.

(** ** Errors

    An error is a text, possibly wrapping another: [fmt.Errorf("...: %w", err)];
    [ErrorfLease] keeps the arguments of the one message that prints a prefix, a
    duration and an instant, rather than their text, and [ErrorfQuoted] the value
    that a message prints with %q. *)
Inductive error : Type :=
| errors_New (text : string)
| Errorf (text : string) (wrapped : error)
| ErrorfLease (text : string) (network : netip.Prefix) (lifetime seen : Z)
| ErrorfQuoted (text value : string).

#[global] Instance error_eq_dec : EqDecision error.
Proof. solve_decision. Defined.

(** [errors.Is]. *)
Fixpoint errors_Is (err target : error) : bool :=
  bool_decide (err = target) ||
  match err with
  | errors_New _ | ErrorfLease _ _ _ _ | ErrorfQuoted _ _ => false
  | Errorf _ e => errors_Is e target
  end.

(** ** Data of [types.go] *)

Inductive Source : Type :=
| SourceDHCPv6PD
| SourceRouterAdvertisement
| SourceStatic
| SourceUnknown.

#[global] Instance Source_eq_dec : EqDecision Source.
Proof. solve_decision. Defined.

(** Durations and instants are nanoseconds. *)
Record Prefix : Type := mkPrefix {
  Network : netip.Prefix;
  ValidLifetime : Z;
  PreferredLifetime : Z;
  PrefixSource : Source;
  ReceivedAt : Z
}.

#[global] Instance Prefix_eq_dec : EqDecision Prefix.
Proof. solve_decision. Defined.

Inductive EventType : Type :=
| EventTypeAcquired
| EventTypeRenewed
| EventTypeChanged
| EventTypeExpired
| EventTypeFailed.

#[global] Instance EventType_eq_dec : EqDecision EventType.
Proof. solve_decision. Defined.

Record Event : Type := mkEvent {
  E_Type : EventType;
  E_Prefix : option Prefix;
  E_Error : option error
}.

#[global] Instance Event_eq_dec : EqDecision Event.
Proof. solve_decision. Defined.

(** ** The event channel

    [make(chan Event, 10)], written with a [select] that drops when full. *)
Definition event_cap : nat := 10.

Definition chan_send (ch : list Event) (e : Event) : list Event :=
  if (length ch <? event_cap)%nat then ch ++ [e] else ch.

Definition chan_recv (ch : list Event) : option (Event * list Event) :=
  match ch with [] => None | e :: ch' => Some (e, ch') end.

(** A send without [select] blocks on a full channel: [None]. *)
Definition chan_send_blocking (ch : list Event) (e : Event) : option (list Event) :=
  if (length ch <? event_cap)%nat then Some (ch ++ [e]) else None.

(** ** Health tracker *)

Record healthTracker : Type := mkHealth { h_err : option error }.

#[global] Instance healthTracker_eq_dec : EqDecision healthTracker.
Proof. solve_decision. Defined.

Definition recordFailure (err : error) (h : healthTracker) : healthTracker := mkHealth (Some err).
Definition recordSuccess (h : healthTracker) : healthTracker := mkHealth None.
Definition LastError (h : healthTracker) : option error := h_err h.

(** The event type of a prefix that follows [old], as every receiver chooses it. *)
Definition event_type_for (old : option Prefix) (network : netip.Prefix) : EventType :=
  match old with
  | None => EventTypeAcquired
  | Some p => if bool_decide (Network p = network) then EventTypeRenewed else EventTypeChanged
  end.

(** ** Goroutine control

    What every receiver keeps to run and stop its goroutines: the [started]
    flag, whether its current stop channel has been closed, and how many contexts
    it derived that are not cancelled. *)
Record control : Type := mkControl {
  started : bool;
  stop_closed : bool;
  live_ctx : nat
}.

#[global] Instance control_eq_dec : EqDecision control.
Proof. solve_decision. Defined.

Definition new_control : control := mkControl false false 0.

(** [context.WithCancel], a fresh stop channel, [started = true]. *)
Definition control_start (c : control) : control := mkControl true false (S (live_ctx c)).

(** [started = false], [cancel()], [close(stopCh)]: closing a closed channel
    panics. *)
Definition control_stop (c : control) : option control :=
  if stop_closed c then None else Some (mkControl false true (Nat.pred (live_ctx c))).

(** A running receiver has an open stop channel and one live context. *)
Definition control_ok (c : control) : Prop :=
  if started c then stop_closed c = false /\ live_ctx c = 1%nat else live_ctx c = 0%nat.

Lemma control_start_ok c : control_ok c -> started c = false -> control_ok (control_start c).
Proof. unfold control_ok. intros H Hs. rewrite Hs in H. cbn. by rewrite H. Qed.

Lemma control_stop_ok c :
  control_ok c -> started c = true ->
  exists c', control_stop c = Some c' /\ control_ok c' /\ started c' = false.
Proof.
  unfold control_ok, control_stop. intros H Hs. rewrite Hs in H. destruct H as [-> ->]. by eexists.
Qed.

(** ** The interface *)

(** [Env] is what the outside world answers to one call (sockets, interfaces).
    [rStop] returns [None] on a run-time panic. *)
Class ReceiverOps (Env St : Type) : Type := {
  rStart : Env -> St -> St * option error;
  rStop : Env -> St -> option (St * option error);
  rEvents : St -> list Event;
  rRecv : St -> St;
  rCurrentPrefix : St -> option Prefix;
  rSource : St -> Source;
  rRunning : St -> bool
}.

Class ReceiverLaws (Env St : Type) `{!ReceiverOps Env St} : Type := {
  rOk : St -> Prop;
  law_start_ok : forall env s, rOk s -> rOk (rStart env s).1;
  law_stop_ok : forall env s, rOk s ->
    exists s' e, rStop env s = Some (s', e) /\ rOk s' /\ rRunning s' = false;
  law_recv_ok : forall s, rOk s -> rOk (rRecv s);
  law_recv : forall s, rEvents (rRecv s) = tail (rEvents s) /\
    rCurrentPrefix (rRecv s) = rCurrentPrefix s /\ rRunning (rRecv s) = rRunning s;
  law_start_running : forall env s s' e, rOk s -> rStart env s = (s', e) ->
    rRunning s' = bool_decide (e = None);
  law_start_twice : forall env env' s s', rStart env s = (s', None) -> rStart env' s' = (s', None);
  law_stop_twice : forall env env' s s' e, rOk s -> rStop env s = Some (s', e) ->
    rStop env' s' = Some (s', None);
  law_capacity : forall s, rOk s -> (length (rEvents s) <= event_cap)%nat
}.

(** ** Lemmas *)

Lemma chan_send_cap ch e :
  (length ch <= event_cap)%nat -> (length (chan_send ch e) <= event_cap)%nat.
Proof.
  unfold chan_send. intros H. destruct (Nat.ltb_spec (length ch) event_cap); [|done].
  rewrite length_app. cbn. lia.
Qed.

Lemma chan_send_room ch e : (length ch < event_cap)%nat -> chan_send ch e = ch ++ [e].
Proof. intros H. unfold chan_send. by rewrite (proj2 (Nat.ltb_lt _ _) H). Qed.

Lemma tail_cap (ch : list Event) :
  (length ch <= event_cap)%nat -> (length (tail ch) <= event_cap)%nat.
Proof. destruct ch; cbn; lia. Qed.

Create HintDb receiver.
#[export] Hint Resolve chan_send_cap tail_cap control_start_ok : receiver.

(** ** The mock receiver *)

Record MockReceiver : Type := mkMock {
  m_source : Source;
  m_currentPrefix : option Prefix;
  m_events : list Event;
  m_started : bool;
  m_stop_closed : bool
}.

#[global] Instance MockReceiver_eq_dec : EqDecision MockReceiver.
Proof. solve_decision. Defined.

Definition NewMockReceiver (source : Source) : MockReceiver := mkMock source None [] false false.

Definition Mock_Start (m : MockReceiver) : MockReceiver :=
  mkMock (m_source m) (m_currentPrefix m) (m_events m) true
    (if m_started m then m_stop_closed m else false).

Definition Mock_Stop (m : MockReceiver) : option (MockReceiver * option error) :=
  if negb (m_started m) then Some (m, None)
  else if m_stop_closed m then None
  else Some (mkMock (m_source m) (m_currentPrefix m) (m_events m) false true, None).

Definition set_mock_events (m : MockReceiver) (evs : list Event) : MockReceiver :=
  mkMock (m_source m) (m_currentPrefix m) evs (m_started m) (m_stop_closed m).

Definition set_mock_prefix (m : MockReceiver) (p : option Prefix) : MockReceiver :=
  mkMock (m_source m) p (m_events m) (m_started m) (m_stop_closed m).

(** The simulations send without [select]: [None] is a blocked caller. *)
Definition SimulatePrefix (now : Z) (network : netip.Prefix) (validLifetime : Z)
    (m : MockReceiver) : option MockReceiver :=
  let p := mkPrefix network validLifetime validLifetime (m_source m) now in
  let ev := mkEvent (event_type_for (m_currentPrefix m) network) (Some p) None in
  set_mock_events (set_mock_prefix m (Some p)) <$> chan_send_blocking (m_events m) ev.

Definition SimulatePrefixExpiry (m : MockReceiver) : option MockReceiver :=
  match m_currentPrefix m with
  | None => Some m
  | Some old =>
      set_mock_events (set_mock_prefix m None) <$>
        chan_send_blocking (m_events m) (mkEvent EventTypeExpired (Some old) None)
  end.

Definition SimulateError (err : error) (m : MockReceiver) : option MockReceiver :=
  set_mock_events m <$> chan_send_blocking (m_events m) (mkEvent EventTypeFailed None (Some err)).

#[global] Instance MockReceiver_ops : ReceiverOps unit MockReceiver := {
  rStart _ m := (Mock_Start m, None);
  rStop _ m := Mock_Stop m;
  rEvents := m_events;
  rRecv m := set_mock_events m (tail (m_events m));
  rCurrentPrefix := m_currentPrefix;
  rSource := m_source;
  rRunning := m_started
}.

Definition mock_ok (m : MockReceiver) : Prop :=
  (m_started m = true -> m_stop_closed m = false) /\ (length (m_events m) <= event_cap)%nat.

#[global] Program Instance MockReceiver_laws : ReceiverLaws unit MockReceiver := {
  rOk := mock_ok
}.
Next Obligation. intros [] m [Hs Hc]. split; cbn; [|done]. intros _. by destruct (m_started m); auto. Qed.
Next Obligation.
  intros [] m [Hs Hc]. cbn. unfold Mock_Stop. destruct (m_started m) eqn:E; cbn [negb].
  - rewrite Hs by done. eexists _, _. split; [done|]. by split.
  - eexists _, _. split; [done|]. split; [|done]. split; [by rewrite E|done].
Qed.
Next Obligation. intros m [Hs Hc]. split; [done|]. cbn. by apply tail_cap. Qed.
Next Obligation. by intros m. Qed.
Next Obligation. by intros ? m s' e _ [= <- <-]. Qed.
Next Obligation. intros ? ? m s' [= <-]. cbn. by unfold Mock_Start; cbn. Qed.
Next Obligation.
  intros ? ? m s' e _. cbn. unfold Mock_Stop. destruct (m_started m) eqn:E; cbn [negb].
  - destruct (m_stop_closed m); [done|]. by intros [= <- <-].
  - intros [= <- <-]. by rewrite E.
Qed.
Next Obligation. by intros m [_ ?]. Qed.
