(* ===== verification/Composite.v ===== *)
(** * The composite receiver

    [internal/prefix/composite_receiver.go]: DHCPv6-PD as primary, Router
    Advertisements as fallback.  It is written over two receivers of any kind, so
    its theorems use the interface of Receivers.v only, and end with the composite
    satisfying that interface itself. *)

From S2P Require Import Prelude GoStrings Netip Receivers.

Section Composite.
Context {EP P EF F : Type} `{HPo : !ReceiverOps EP P} `{HFo : !ReceiverOps EF F}.

(** [active == fallback] is [c_fallback_active]: the two are distinct objects. *)
Record CompositeReceiver : Type := mkComposite {
  c_primary : P;
  c_fallback : F;
  c_fallback_active : bool;
  c_events : list Event;
  c_control : control;
  c_consecutiveFailures : Z;
  c_maxFailures : Z
}.

Definition NewCompositeReceiver (primary : P) (fallback : F) : CompositeReceiver :=
  mkComposite primary fallback false [] new_control 0 3.

Definition set_children (c : CompositeReceiver) (p : P) (f : F) (k : control) : CompositeReceiver :=
  mkComposite p f (c_fallback_active c) (c_events c) k (c_consecutiveFailures c) (c_maxFailures c).

(** A failed start cancels the context it derived; [c.ctx] was taken first. *)
Definition cancel_ctx (k : control) : control :=
  mkControl (started k) (stop_closed k) (Nat.pred (live_ctx k)).

Definition with_cancel (k : control) : control :=
  mkControl (started k) (stop_closed k) (S (live_ctx k)).

(** The fallback fails after the primary has started: the primary is stopped
    again and its error ignored.  A stop that panics there would end the process;
    by [law_stop_ok] no receiver's does, so that branch is never taken. *)
Definition Composite_Start (env : EP * EF) (c : CompositeReceiver)
    : CompositeReceiver * option error :=
  if started (c_control c) then (c, None)
  else
    let k := with_cancel (c_control c) in
    match rStart env.1 (c_primary c) with
    | (p, Some err) => (set_children c p (c_fallback c) (cancel_ctx k), Some err)
    | (p, None) =>
        match rStart env.2 (c_fallback c) with
        | (f, Some err) =>
            match rStop env.1 p with
            | Some (p', _) => (set_children c p' f (cancel_ctx k), Some err)
            | None => (set_children c p f (cancel_ctx k), Some err)
            end
        | (f, None) => (set_children c p f (mkControl true false (live_ctx k)), None)
        end
    end.

Definition first_error (primaryErr fallbackErr : option error) : option error :=
  match primaryErr with Some e => Some e | None => fallbackErr end.

Definition Composite_Stop (env : EP * EF) (c : CompositeReceiver)
    : option (CompositeReceiver * option error) :=
  if negb (started (c_control c)) then
    p ← rStop env.1 (c_primary c); f ← rStop env.2 (c_fallback c);
    Some (set_children c p.1 f.1 (c_control c), None)
  else
    k ← control_stop (c_control c);
    p ← rStop env.1 (c_primary c); f ← rStop env.2 (c_fallback c);
    Some (set_children c p.1 f.1 k, first_error p.2 f.2).

Definition Composite_CurrentPrefix (c : CompositeReceiver) : option Prefix :=
  match rCurrentPrefix (c_primary c) with
  | Some p => Some p
  | None => rCurrentPrefix (c_fallback c)
  end.

Definition Composite_Source (c : CompositeReceiver) : Source :=
  match rCurrentPrefix (c_primary c) with
  | Some _ => rSource (c_primary c)
  | None => match rCurrentPrefix (c_fallback c) with
            | Some _ => rSource (c_fallback c)
            | None => rSource (c_primary c)
            end
  end.

(** [AcquisitionHealth] and [RARejectionStats] are optional interfaces: a child
    that does not implement one answers [None] to the type assertion. *)
Definition Composite_LastError (primaryHealth fallbackHealth : option (option error)) : option error :=
  match primaryHealth with
  | Some (Some err) => Some err
  | _ => match fallbackHealth with Some e => e | None => None end
  end.

Definition Composite_RARejections (fallbackStats : option (Z * string)) : Z * string :=
  match fallbackStats with Some st => st | None => (0, EmptyString) end.

Definition IsUsingFallback (c : CompositeReceiver) : bool := c_fallback_active c.

Definition sendEvent (e : Event) (c : CompositeReceiver) : CompositeReceiver :=
  mkComposite (c_primary c) (c_fallback c) (c_fallback_active c) (chan_send (c_events c) e)
    (c_control c) (c_consecutiveFailures c) (c_maxFailures c).

Definition set_failover (active : bool) (failures : Z) (c : CompositeReceiver) : CompositeReceiver :=
  mkComposite (c_primary c) (c_fallback c) active (c_events c) (c_control c) failures (c_maxFailures c).

Definition acquired (p : Prefix) : Event := mkEvent EventTypeAcquired (Some p) None.

Definition handlePrimaryEvent (event : Event) (c : CompositeReceiver) : CompositeReceiver :=
  match E_Type event with
  | EventTypeFailed =>
      let failures := wrap64 (c_consecutiveFailures c + 1) in
      let c1 :=
        if c_maxFailures c <=? failures then
          let c2 := set_failover true failures c in
          match rCurrentPrefix (c_fallback c) with
          | Some fallbackPrefix => sendEvent (acquired fallbackPrefix) c2
          | None => c2
          end
        else set_failover (c_fallback_active c) failures c in
      sendEvent event c1
  | EventTypeAcquired | EventTypeRenewed | EventTypeChanged =>
      sendEvent event (set_failover false 0 c)
  | EventTypeExpired =>
      match rCurrentPrefix (c_fallback c) with
      | Some fallbackPrefix =>
          sendEvent (acquired fallbackPrefix) (set_failover true (c_consecutiveFailures c) c)
      | None => sendEvent event c
      end
  end.

Definition handleFallbackEvent (event : Event) (c : CompositeReceiver) : CompositeReceiver :=
  if negb (c_fallback_active c) then c else sendEvent event c.

(** One turn of the [mergeEvents] loop that reads from a child's channel; an
    empty channel gives no turn. *)
Definition merge_primary (c : CompositeReceiver) : option CompositeReceiver :=
  match rEvents (c_primary c) with
  | [] => None
  | e :: _ => Some (handlePrimaryEvent e (set_children c (rRecv (c_primary c)) (c_fallback c) (c_control c)))
  end.

Definition merge_fallback (c : CompositeReceiver) : option CompositeReceiver :=
  match rEvents (c_fallback c) with
  | [] => None
  | e :: _ => Some (handleFallbackEvent e (set_children c (c_primary c) (rRecv (c_fallback c)) (c_control c)))
  end.

(** Everything that can happen to a composite, in any order: its own calls, a
    turn of its merge loop, the consumer reading an event, and its receivers
    changing on their own ([PStep], [FStep]). *)
Inductive label : Type :=
| LStart (env : EP * EF)
| LStop (env : EP * EF)
| LMergePrimary
| LMergeFallback
| LConsume
| LPrimaryChanges (p : P)
| LFallbackChanges (f : F).

Definition consume (c : CompositeReceiver) : CompositeReceiver :=
  mkComposite (c_primary c) (c_fallback c) (c_fallback_active c) (tail (c_events c))
    (c_control c) (c_consecutiveFailures c) (c_maxFailures c).

(** [None]: the step is not possible, or panics. *)
Definition composite_step (l : label) (c : CompositeReceiver) : option CompositeReceiver :=
  match l with
  | LStart env => Some (Composite_Start env c).1
  | LStop env => fst <$> Composite_Stop env c
  | LMergePrimary => merge_primary c
  | LMergeFallback => merge_fallback c
  | LConsume => Some (consume c)
  | LPrimaryChanges p => Some (set_children c p (c_fallback c) (c_control c))
  | LFallbackChanges f => Some (set_children c (c_primary c) f (c_control c))
  end.

Fixpoint composite_run (ls : list label) (c : CompositeReceiver) : option CompositeReceiver :=
  match ls with
  | [] => Some c
  | l :: ls' => c' ← composite_step l c; composite_run ls' c'
  end.

(** ** Specification of the failover

    What a primary event says, with whether the fallback held a prefix when it
    was handled; the history is latest first. *)
Definition observation : Type := EventType * bool.

Definition is_success (t : EventType) : bool :=
  match t with EventTypeAcquired | EventTypeRenewed | EventTypeChanged => true | _ => false end.

(** Failures since the last success. *)
Fixpoint failures_since_success (h : list observation) : Z :=
  match h with
  | [] => 0
  | (t, _) :: h' =>
      if is_success t then 0
      else if bool_decide (t = EventTypeFailed) then 1 + failures_since_success h'
      else failures_since_success h'
  end.

(** On the fallback: since the last success of the primary there were three
    failures, or its lease expired while the fallback held a prefix. *)
Fixpoint on_fallback (h : list observation) : bool :=
  match h with
  | [] => false
  | (t, has) :: h' =>
      if is_success t then false
      else on_fallback h' ||
           match t with
           | EventTypeFailed => 3 <=? failures_since_success ((t, has) :: h')
           | EventTypeExpired => has
           | _ => false
           end
  end.

(** The observations a run makes. *)
Definition observe (l : label) (c : CompositeReceiver) : list observation :=
  match l, rEvents (c_primary c) with
  | LMergePrimary, e :: _ => [(E_Type e, bool_decide (is_Some (rCurrentPrefix (c_fallback c))))]
  | _, _ => []
  end.

Fixpoint history (ls : list label) (c : CompositeReceiver) (h : list observation) : list observation :=
  match ls with
  | [] => h
  | l :: ls' =>
      match composite_step l c with
      | Some c' => history ls' c' (observe l c ++ h)
      | None => h
      end
  end.

(** * Lemmas *)

Definition follows (c : CompositeReceiver) (h : list observation) : Prop :=
  c_maxFailures c = 3 /\
  c_consecutiveFailures c = failures_since_success h /\ c_fallback_active c = on_fallback h.

Lemma failures_nonneg h : 0 <= failures_since_success h <= Z.of_nat (length h).
Proof.
  induction h as [|[t b] h IH]; cbn [failures_since_success length]; [lia|].
  destruct (is_success t); [lia|]. case_bool_decide; lia.
Qed.

Lemma handlePrimaryEvent_follows c h e :
  follows c h -> Z.of_nat (length h) < 2 ^ 62 ->
  follows (handlePrimaryEvent e c)
    ((E_Type e, bool_decide (is_Some (rCurrentPrefix (c_fallback c)))) :: h).
Proof.
  intros (Hm & Hf & Ha) Hlen. pose proof (failures_nonneg h).
  unfold handlePrimaryEvent, follows.
  destruct (E_Type e) eqn:Ht; cbn [failures_since_success on_fallback is_success];
    rewrite ?(bool_decide_true (EventTypeFailed = EventTypeFailed)),
            ?(bool_decide_false (EventTypeExpired = EventTypeFailed)) by done; try done.
  - destruct (rCurrentPrefix (c_fallback c)); cbn; rewrite ?Ha; repeat split; try done;
      by rewrite ?orb_true_r, ?orb_false_r.
  - rewrite wrap64_id by lia. rewrite Hm, Hf. rewrite (Z.add_comm _ 1).
    destruct (3 <=? 1 + failures_since_success h);
      [destruct (rCurrentPrefix (c_fallback c))|]; cbn; rewrite ?Hm, ?Ha; repeat split; try done;
      by rewrite ?orb_true_r, ?orb_false_r.
Qed.

Lemma Composite_Start_follows env c h : follows c h -> follows (Composite_Start env c).1 h.
Proof.
  unfold Composite_Start. intros H. destruct (started _); [done|].
  destruct (rStart env.1 _) as [p [e|]]; [done|].
  destruct (rStart env.2 _) as [f [e|]]; [|done]. by destruct (rStop _ _) as [[? ?]|].
Qed.

Lemma Composite_Stop_inv env c c' e :
  Composite_Stop env c = Some (c', e) ->
  exists p f k ep ef, rStop env.1 (c_primary c) = Some (p, ep) /\
    rStop env.2 (c_fallback c) = Some (f, ef) /\ c' = set_children c p f k /\
    (if started (c_control c) then control_stop (c_control c) = Some k /\ e = first_error ep ef
     else k = c_control c /\ e = None).
Proof.
  unfold Composite_Stop. intros H.
  destruct (started (c_control c)); cbn [negb] in H.
  - destruct (control_stop _) as [k|] eqn:Hk; [|done]. cbn in H.
    destruct (rStop env.1 _) as [[p ep]|]; [|done]. cbn in H.
    destruct (rStop env.2 _) as [[f ef]|]; [|done]. cbn in H. injection H as <- <-.
    by exists p, f, k, ep, ef.
  - destruct (rStop env.1 _) as [[p ep]|]; [|done]. cbn in H.
    destruct (rStop env.2 _) as [[f ef]|]; [|done]. cbn in H. injection H as <- <-.
    by exists p, f, (c_control c), ep, ef.
Qed.

Lemma composite_step_follows l c c' h :
  composite_step l c = Some c' -> follows c h -> Z.of_nat (length h) < 2 ^ 62 ->
  follows c' (observe l c ++ h).
Proof.
  intros Hs H Hlen. destruct l; cbn [observe composite_step] in *.
  - injection Hs as <-. by apply Composite_Start_follows.
  - apply fmap_Some in Hs as ([c2 e] & Hs & ->).
    apply Composite_Stop_inv in Hs as (p & f & k & ep & ef & _ & _ & -> & _). done.
  - unfold merge_primary in Hs. destruct (rEvents (c_primary c)) as [|e evs]; [done|].
    injection Hs as <-. cbn [app].
    apply (handlePrimaryEvent_follows (set_children c _ _ _) h e); done.
  - unfold merge_fallback in Hs. destruct (rEvents (c_fallback c)) as [|e evs]; [done|].
    injection Hs as <-. unfold handleFallbackEvent. by destruct (negb _).
  - by injection Hs as <-.
  - by injection Hs as <-.
  - by injection Hs as <-.
Qed.

Lemma composite_run_follows ls c c' h :
  composite_run ls c = Some c' -> follows c h ->
  Z.of_nat (length h + length ls) < 2 ^ 62 -> follows c' (history ls c h).
Proof.
  revert c h. induction ls as [|l ls IH]; intros c h; cbn [composite_run history].
  - by intros [= <-].
  - destruct (composite_step l c) as [c1|] eqn:Hs; cbn; [|done]. intros Hr Hf Hlen.
    assert (length (observe l c) <= 1)%nat by (unfold observe; repeat case_match; cbn; lia).
    apply IH; [done| |rewrite length_app; lia].
    by apply composite_step_follows; [..|lia].
Qed.

Lemma handlePrimaryEvent_children e c :
  c_primary (handlePrimaryEvent e c) = c_primary c /\
  c_fallback (handlePrimaryEvent e c) = c_fallback c /\
  c_control (handlePrimaryEvent e c) = c_control c.
Proof. unfold handlePrimaryEvent. by repeat case_match. Qed.

Lemma handlePrimaryEvent_cap e c :
  (length (c_events c) <= event_cap)%nat ->
  (length (c_events (handlePrimaryEvent e c)) <= event_cap)%nat.
Proof. intros H. unfold handlePrimaryEvent. repeat case_match; cbn; auto with receiver. Qed.
End Composite.

Arguments CompositeReceiver : clear implicits.
Arguments label : clear implicits.

(** ** The composite as a receiver *)

Section Laws.
Context {EP P EF F : Type} `{HPo : !ReceiverOps EP P} `{HFo : !ReceiverOps EF F}.
Context `{HP : !ReceiverLaws EP P} `{HF : !ReceiverLaws EF F}.

#[global] Instance CompositeReceiver_ops : ReceiverOps (EP * EF) (CompositeReceiver P F) := {
  rStart := Composite_Start;
  rStop := Composite_Stop;
  rEvents := c_events;
  rRecv := consume;
  rCurrentPrefix := Composite_CurrentPrefix;
  rSource := Composite_Source;
  rRunning c := started (c_control c)
}.

Definition composite_ok (c : CompositeReceiver P F) : Prop :=
  rOk (c_primary c) /\ rOk (c_fallback c) /\ control_ok (c_control c) /\
  (length (c_events c) <= event_cap)%nat.

(** What a start does, on each of its paths. *)
Lemma Composite_Start_cases env (c : CompositeReceiver P F) :
  composite_ok c -> started (c_control c) = false ->
  let (c', e) := Composite_Start env c in
  composite_ok c' /\ started (c_control c') = bool_decide (e = None) /\
  match e with
  | None => rRunning (c_primary c') = true /\ rRunning (c_fallback c') = true
  | Some _ => rRunning (c_primary c') = false /\
      (rRunning (c_fallback c) = false -> rRunning (c_fallback c') = false) /\
      c_control c' = c_control c
  end.
Proof.
  intros (Hp & Hf & Hk & Hc) Hs. unfold Composite_Start. rewrite Hs.
  assert (live_ctx (c_control c) = 0%nat) as Hlive by (unfold control_ok in Hk; by rewrite Hs in Hk).
  assert (cancel_ctx (with_cancel (c_control c)) = c_control c) as Hcc
    by (unfold cancel_ctx, with_cancel; cbn; by destruct (c_control c)).
  destruct (rStart env.1 (c_primary c)) as [p ep] eqn:Ep.
  pose proof (law_start_ok env.1 _ Hp) as Hp'. rewrite Ep in Hp'. cbn in Hp'.
  pose proof (law_start_running env.1 _ _ _ Hp Ep) as Hpr.
  destruct ep as [err|].
  { rewrite Hcc. cbn. rewrite Hs. by repeat split. }
  destruct (rStart env.2 (c_fallback c)) as [f ef] eqn:Ef.
  pose proof (law_start_ok env.2 _ Hf) as Hf'. rewrite Ef in Hf'. cbn in Hf'.
  pose proof (law_start_running env.2 _ _ _ Hf Ef) as Hfr.
  destruct ef as [err|].
  - destruct (law_stop_ok env.1 p Hp') as (p' & e' & -> & Hp'' & Hpr').
    rewrite Hcc. cbn. rewrite Hs. by repeat split.
  - cbn. repeat split; try done. unfold control_ok. cbn. by rewrite Hlive.
Qed.

Lemma Composite_Start_started env (c : CompositeReceiver P F) :
  started (c_control c) = true -> Composite_Start env c = (c, None).
Proof. intros H. unfold Composite_Start. by rewrite H. Qed.

Lemma Composite_Stop_ok env (c : CompositeReceiver P F) :
  composite_ok c ->
  exists c' e, Composite_Stop env c = Some (c', e) /\ composite_ok c' /\
    started (c_control c') = false /\
    rRunning (c_primary c') = false /\ rRunning (c_fallback c') = false.
Proof.
  intros (Hp & Hf & Hk & Hc). unfold Composite_Stop.
  destruct (law_stop_ok env.1 _ Hp) as (p & ep & -> & Hp' & Hpr).
  destruct (law_stop_ok env.2 _ Hf) as (f & ef & -> & Hf' & Hfr).
  destruct (started (c_control c)) eqn:Hs; cbn [negb].
  - destruct (control_stop_ok _ Hk Hs) as (k & -> & Hk' & Hs'). eexists _, _. by split.
  - eexists _, _. split; [done|]. by repeat split.
Qed.

#[global] Program Instance CompositeReceiver_laws : ReceiverLaws (EP * EF) (CompositeReceiver P F) := {
  rOk := composite_ok
}.
Next Obligation.
  intros env c Hc. cbn [rStart CompositeReceiver_ops]. destruct (started (c_control c)) eqn:Hs.
  - by rewrite Composite_Start_started.
  - pose proof (Composite_Start_cases env c Hc Hs) as H. destruct (Composite_Start env c). apply H.
Qed.
Next Obligation.
  intros env c Hc. destruct (Composite_Stop_ok env c Hc) as (c' & e & H & Hok & Hs & _).
  by exists c', e.
Qed.
Next Obligation. intros c (? & ? & ? & ?). repeat split; try done. by apply tail_cap. Qed.
Next Obligation. by intros c. Qed.
Next Obligation.
  intros env c c' e Hc H. cbn in *. destruct (started (c_control c)) eqn:Hs.
  - rewrite Composite_Start_started in H by done. injection H as <- <-. by rewrite Hs.
  - pose proof (Composite_Start_cases env c Hc Hs) as Hcase. rewrite H in Hcase. apply Hcase.
Qed.
Next Obligation.
  intros env env' c c' H. cbn in *. apply Composite_Start_started. revert H. unfold Composite_Start.
  destruct (started (c_control c)) eqn:Hs; [by intros [= <-]|].
  destruct (rStart env.1 _) as [p [?|]]; [done|]. destruct (rStart env.2 _) as [f [?|]].
  - by destruct (rStop _ _) as [[? ?]|].
  - by intros [= <-].
Qed.
Next Obligation.
  intros env env' c c' e Hc H. cbn in *.
  destruct (Composite_Stop_ok env c Hc) as (c2 & e2 & H2 & _ & Hs2 & _). rewrite H in H2. simplify_eq.
  apply Composite_Stop_inv in H as (p & f & k & ep & ef & H1 & H2 & -> & _).
  destruct Hc as (Hp & Hf & _). cbn in Hs2. unfold Composite_Stop. cbn. rewrite Hs2. cbn.
  rewrite (law_stop_twice _ env'.1 _ _ _ Hp H1). cbn.
  by rewrite (law_stop_twice _ env'.2 _ _ _ Hf H2).
Qed.
Next Obligation. by intros c (_ & _ & _ & ?). Qed.
End Laws.

(** * Properties *)

Section Properties.
Context {EP P EF F : Type} `{HPo : !ReceiverOps EP P} `{HFo : !ReceiverOps EF F}.

(** C36 Whatever happens to a composite - starts, stops, events of either
    receiver, receivers changing on their own, in any order - it uses the
    fallback exactly when, since the last success of the primary, the primary
    failed three times (an expiry in between does not reset the count) or its
    lease expired while the fallback held a prefix.  A success of the primary
    always takes it back. *)
Theorem composite_failover (p : P) (f : F) (ls : list (label EP P EF F)) (c : CompositeReceiver P F) :
  composite_run ls (NewCompositeReceiver p f) = Some c ->
  Z.of_nat (length ls) < 2 ^ 62 ->
  IsUsingFallback c = on_fallback (history ls (NewCompositeReceiver p f) []) /\
  (forall e, is_success (E_Type e) = true -> IsUsingFallback (handlePrimaryEvent e c) = false).
Proof.
  intros Hr Hlen. split.
  - apply (composite_run_follows ls (NewCompositeReceiver p f) c []); done.
  - intros e He. unfold handlePrimaryEvent. by destruct (E_Type e).
Qed.

(** Events of the fallback that arrive while the primary is active are
    discarded. After the primary's lease expired with no fallback prefix at
    hand, the primary stays active: the prefix the fallback acquires next is
    what [CurrentPrefix] reports, and no event ever announces it. *)
Theorem fallback_acquisition_unannounced (c : CompositeReceiver P F) (f' : F) (expired ev : Event)
    (q : Prefix) (rest : list Event) :
  IsUsingFallback c = false -> E_Type expired = EventTypeExpired ->
  rCurrentPrefix (c_fallback c) = None -> rCurrentPrefix (c_primary c) = None ->
  rEvents f' = ev :: rest -> rCurrentPrefix f' = Some q ->
  let c1 := handlePrimaryEvent expired c in
  let c2 := set_children c1 (c_primary c1) f' (c_control c1) in
  exists c3, merge_fallback c2 = Some c3 /\ Composite_CurrentPrefix c2 = Some q /\
    IsUsingFallback c3 = false /\ c_events c3 = chan_send (c_events c) expired.
Proof.
  intros Ha He Hf Hp Hev Hq c1 c2.
  assert (c1 = sendEvent expired c) as Hc1 by (unfold c1, handlePrimaryEvent; by rewrite He, Hf).
  unfold merge_fallback. cbn [c_fallback set_children c2]. rewrite Hev. eexists. split; [done|].
  unfold handleFallbackEvent, Composite_CurrentPrefix, c2, IsUsingFallback in *. rewrite Hc1. cbn.
  by rewrite Ha, Hp, Hq.
Qed.

Context `{HP : !ReceiverLaws EP P} `{HF : !ReceiverLaws EF F}.

(** What happens to a composite that owns its receivers: calls, turns of its merge
    loop, and receivers that change lawfully meanwhile but are started and stopped
    by it alone. *)
Inductive owned_step : CompositeReceiver P F -> CompositeReceiver P F -> Prop :=
| owned_start env c : owned_step c (Composite_Start env c).1
| owned_stop env c c' e : Composite_Stop env c = Some (c', e) -> owned_step c c'
| owned_merge_primary c c' : merge_primary c = Some c' -> owned_step c c'
| owned_merge_fallback c c' : merge_fallback c = Some c' -> owned_step c c'
| owned_consume c : owned_step c (consume c)
| owned_primary p c : rOk p -> rRunning p = rRunning (c_primary c) ->
    owned_step c (set_children c p (c_fallback c) (c_control c))
| owned_fallback f c : rOk f -> rRunning f = rRunning (c_fallback c) ->
    owned_step c (set_children c (c_primary c) f (c_control c)).

(** Both receivers run, or neither, as the composite does. *)
Definition in_step (c : CompositeReceiver P F) : Prop :=
  rRunning (c_primary c) = started (c_control c) /\ rRunning (c_fallback c) = started (c_control c).

Definition owned (c : CompositeReceiver P F) : Prop := composite_ok c /\ in_step c.

Lemma owned_started env c : owned c -> let (c', e) := Composite_Start env c in
  owned c' /\ started (c_control c') = (started (c_control c) || bool_decide (e = None))%bool.
Proof.
  intros [Hok [Hp Hf]]. destruct (started (c_control c)) eqn:Hs.
  { rewrite Composite_Start_started by done. split; [|done]. by split; [|split; rewrite Hs]. }
  pose proof (Composite_Start_cases env c Hok Hs) as H. destruct (Composite_Start env c) as [c' e].
  destruct H as (Hok' & Hst & He). split; [|done]. split; [done|]. unfold in_step. rewrite Hst.
  destruct e; [|done]. destruct He as (? & Hf' & _). split; [done|]. by apply Hf'.
Qed.

Lemma merge_primary_owned c c' : merge_primary c = Some c' -> owned c -> owned c'.
Proof.
  unfold merge_primary. destruct (rEvents (c_primary c)) as [|e evs]; [done|]. intros [= <-] [(Hp & Hf & Hk & Hc) [Hrp Hrf]].
  destruct (law_recv (c_primary c)) as (_ & _ & Hrun).
  destruct (handlePrimaryEvent_children e (set_children c (rRecv (c_primary c)) (c_fallback c) (c_control c))) as (E1 & E2 & E3).
  split; [split_and!|split]; rewrite ?E1, ?E2, ?E3; cbn; rewrite ?Hrun; try done; [by apply law_recv_ok|].
  by apply handlePrimaryEvent_cap.
Qed.

Lemma merge_fallback_owned c c' : merge_fallback c = Some c' -> owned c -> owned c'.
Proof.
  unfold merge_fallback, handleFallbackEvent. destruct (rEvents (c_fallback c)) as [|e evs]; [done|].
  intros [= <-] [(Hp & Hf & Hk & Hc) [Hrp Hrf]]. destruct (law_recv (c_fallback c)) as (_ & _ & Hrun).
  destruct (negb _); (split; [split_and!|split]); cbn; rewrite ?Hrun; try done;
    (by apply law_recv_ok) || auto with receiver.
Qed.

Lemma owned_step_owned c c' : owned c -> owned_step c c' -> owned c'.
Proof.
  intros Ho Hstep. pose proof Ho as [(Hp & Hf & Hk & Hc) [Hrp Hrf]].
  destruct Hstep as [env c|env c c' e Hs|c c' Hm|c c' Hm|c|p c Hp' Hr|f c Hf' Hr].
  - pose proof (owned_started env c Ho) as H. destruct (Composite_Start env c). apply H.
  - destruct (Composite_Stop_ok env c (proj1 Ho)) as (c2 & e2 & Hs2 & Hok & Hst & Hp2 & Hf2).
    rewrite Hs in Hs2. injection Hs2 as <- <-. split; [done|]. by split; rewrite Hst.
  - by eapply merge_primary_owned.
  - by eapply merge_fallback_owned.
  - split; [|done]. by split_and!; try apply tail_cap.
  - split; [done|]. split; [|done]. cbn. congruence.
  - split; [done|]. split; [done|]. cbn. congruence.
Qed.

(** C35 Start and Stop in any order, any number of times, with starts failing or
    not, between turns of the merge loop and whatever the receivers do meanwhile:
    at every moment both receivers run and one context lives, or neither runs and
    there is none; a start that returns an error leaves both stopped, one that does
    not leaves both running, also when they already were; a stop does
    not panic (no stop channel is closed twice) and leaves both stopped. *)
Theorem composite_lifecycle (p : P) (f : F) (c : CompositeReceiver P F) :
  rOk p -> rOk f -> rRunning p = false -> rRunning f = false ->
  run owned_step (NewCompositeReceiver p f) c ->
  in_step c /\ live_ctx (c_control c) = (if started (c_control c) then 1%nat else 0%nat) /\
  (forall env c' e, Composite_Start env c = (c', e) ->
     in_step c' /\ started (c_control c') = bool_decide (e = None) /\
     live_ctx (c_control c') = (if started (c_control c') then 1%nat else 0%nat)) /\
  (forall env, exists c' e, Composite_Stop env c = Some (c', e) /\
     in_step c' /\ started (c_control c') = false /\ live_ctx (c_control c') = 0%nat).
Proof.
  intros Hp Hf Hrp Hrf Hrun.
  assert (forall c, owned c -> live_ctx (c_control c) = (if started (c_control c) then 1%nat else 0%nat)) as Hlive.
  { intros c1 [(_ & _ & Hk & _) _]. unfold control_ok in Hk. destruct (started (c_control c1)); [apply Hk|done]. }
  assert (owned c) as Ho.
  { eapply (run_invariant owned_step owned owned_step_owned); [done|]. by split; [repeat split; cbn; (done || lia)|split]. }
  split; [apply Ho|]. split; [by apply Hlive|]. split.
  - intros env c' e H. pose proof (owned_started env c Ho) as Hs. rewrite H in Hs. destruct Hs as [Ho' Hs].
    split; [apply Ho'|]. split; [|by apply Hlive].
    rewrite Hs. unfold Composite_Start in H. by destruct (started (c_control c)); [injection H as <- <-|].
  - intros env. destruct (Composite_Stop_ok env c (proj1 Ho)) as (c' & e & Hs & Hok & Hst & Hp' & Hf').
    exists c', e. split; [done|]. assert (owned c') as Ho' by (split; [done|]; by split; rewrite Hst).
    split; [apply Ho'|]. split; [done|]. by rewrite (Hlive c' Ho'), Hst.
Qed.
End Properties.

(** Two mock receivers: a primary that fails three times. *)
Definition mock_pd : MockReceiver := NewMockReceiver SourceDHCPv6PD.
Definition mock_ra : MockReceiver := NewMockReceiver SourceRouterAdvertisement.
Definition failed_event : Event := mkEvent EventTypeFailed None (Some (errors_New "no server answered")).
Definition failing_pd : MockReceiver := set_mock_events mock_pd [failed_event; failed_event; failed_event].
Definition mock_label : Type := label unit MockReceiver unit MockReceiver.
Definition failing_run : list mock_label :=
  [LStart (tt, tt); LPrimaryChanges failing_pd; LMergePrimary; LMergePrimary; LMergePrimary].

Lemma composite_failover_witness :
  IsUsingFallback <$> composite_run failing_run (NewCompositeReceiver mock_pd mock_ra) = Some true /\
  IsUsingFallback (default (NewCompositeReceiver mock_pd mock_ra)
    (composite_run failing_run (NewCompositeReceiver mock_pd mock_ra))) = true.
Proof.
  split; [vm_compute; reflexivity|].
  destruct (composite_failover mock_pd mock_ra failing_run
    (default (NewCompositeReceiver mock_pd mock_ra)
      (composite_run failing_run (NewCompositeReceiver mock_pd mock_ra)))) as [H _];
    [vm_compute; reflexivity|vm_compute; reflexivity|].
  rewrite H. vm_compute. reflexivity.
Defined.

Definition ra_lease : Prefix :=
  mkPrefix netip.zero_prefix 3600000000000 3600000000000 SourceRouterAdvertisement 0.
Definition ra_acquired : Event := mkEvent EventTypeAcquired (Some ra_lease) None.
Definition expired_event : Event := mkEvent EventTypeExpired None None.

Lemma fallback_acquisition_unannounced_witness :
  let c := NewCompositeReceiver mock_pd mock_ra in
  let c1 := handlePrimaryEvent expired_event c in
  let f' := set_mock_events (set_mock_prefix mock_ra (Some ra_lease)) [ra_acquired] in
  exists c3, merge_fallback (set_children c1 (c_primary c1) f' (c_control c1)) = Some c3 /\
    Composite_CurrentPrefix (set_children c1 (c_primary c1) f' (c_control c1)) = Some ra_lease /\
    IsUsingFallback c3 = false /\ c_events c3 = [expired_event].
Proof.
  apply (fallback_acquisition_unannounced (NewCompositeReceiver mock_pd mock_ra)
    (set_mock_events (set_mock_prefix mock_ra (Some ra_lease)) [ra_acquired])
    expired_event ra_acquired ra_lease []); reflexivity.
Defined.

(** A start, a failure of the primary that is merged, a stop and another start. *)
Lemma composite_lifecycle_witness :
  exists c, run owned_step (NewCompositeReceiver mock_pd mock_ra) c /\ c_events c = [failed_event] /\
    in_step c /\ live_ctx (c_control c) = 1%nat.
Proof.
  set (c := mkComposite (rStart tt (set_mock_events mock_pd [])).1 (rStart tt mock_ra).1 false [failed_event]
              (mkControl true false 1) 1 3).
  assert (run owned_step (NewCompositeReceiver mock_pd mock_ra) c) as Hrun.
  { eapply run_step; [apply (owned_start (tt, tt))|]. cbn.
    eapply run_step; [apply (owned_primary (set_mock_events (rStart tt mock_pd).1 [failed_event])); [split; [done|cbn; unfold event_cap; lia]|reflexivity]|].
    cbn. eapply run_step; [apply owned_merge_primary; cbn; reflexivity|].
    eapply run_step; [eapply (owned_stop (tt, tt)); vm_compute; reflexivity|].
    eapply run_step; [apply (owned_start (tt, tt))|]. vm_compute. apply run_refl. }
  exists c. split; [exact Hrun|]. split; [reflexivity|].
  destruct (composite_lifecycle mock_pd mock_ra c) as (H1 & H2 & _);
    [split; cbn; (done || lia)..|reflexivity|reflexivity|exact Hrun|]. by split.
Defined.
