(* ===== verification/RAReceiver.v ===== *)
(** * The Router Advertisement receiver

    [internal/prefix/ra_receiver.go].  The state is one record; a receiver is
    driven by what its socket reads ([receive_step], one turn of [receiveLoop]),
    by the expiry ticker ([expireLeaseIfStale]) and by Start and Stop.  Messages
    and control messages are the data the ndp and ipv6 packages hand over. *)

From S2P Require Import Prelude GoStrings Netip NetipText Policy Receivers.

(** ** Messages *)

(** [ndp.PrefixInformation]; the length is the wire's byte. *)
Record PrefixInformation : Type := mkPIO {
  PI_PrefixLength : Z;
  PI_OnLink : bool;
  PI_ValidLifetime : Z;
  PI_PreferredLifetime : Z;
  PI_Prefix : netip.Addr
}.

Inductive ndp_option : Type :=
| OptPrefixInformation (pi : PrefixInformation)
| OptOther.

(** What one turn of the receive loop reads. *)
Inductive read_result : Type :=
| ReadDeadlineError (err : error)
| ReadTimeout
| ReadError (err : error)
| ReadOtherMessage
| ReadRA (from : netip.Addr) (cm : option Z) (options : list ndp_option).

(** ** State *)

Record RAReceiver : Type := mkRA {
  ra_iface : string;
  ra_policy : RAPolicy;
  ra_health : healthTracker;
  ra_conn : bool;                  (* conn != nil *)
  ra_currentPrefix : option Prefix;
  ra_events : list Event;
  ra_control : control;
  ra_verifyHopLimit : bool;
  ra_rejected : Z;                 (* uint64 *)
  ra_lastReason : string;
  ra_onReject : bool;              (* an observer is set *)
  ra_observed : list string;       (* the reasons it was told, latest first *)
  ra_maxRouterSolicitations : Z;
  ra_routerSolicitationInterval : Z
}.

Definition time_Second : Z := 1000000000.
Definition defaultMaxRouterSolicitations : Z := 3.
Definition defaultRouterSolicitationInterval : Z := 4 * time_Second.
Definition raErrorBackoff : Z := time_Second.
Definition raLeaseExpiryCheckInterval : Z := 30 * time_Second.

(** [ndp.HopLimit]. *)
Definition ndp_HopLimit : Z := 255.

Definition NewRAReceiverWithPolicy (iface : string) (policy : RAPolicy) (observer : bool) : RAReceiver :=
  mkRA iface policy (mkHealth None) false None [] new_control false 0 EmptyString observer []
    defaultMaxRouterSolicitations defaultRouterSolicitationInterval.

Definition NewRAReceiver (iface : string) : RAReceiver :=
  NewRAReceiverWithPolicy iface DefaultRAPolicy false.

(** ** Start and Stop *)

(** What the system answers: the interface lookup, the listener, hop-limit
    reporting, and closing the socket. *)
Record ra_env : Type := mkRAEnv {
  env_interface : option error;
  env_listen : option error;
  env_setControlMessage : option error;
  env_close : option error
}.

Definition set_run (r : RAReceiver) (k : control) (conn verify : bool) : RAReceiver :=
  mkRA (ra_iface r) (ra_policy r) (ra_health r) conn (ra_currentPrefix r) (ra_events r) k verify
    (ra_rejected r) (ra_lastReason r) (ra_onReject r) (ra_observed r)
    (ra_maxRouterSolicitations r) (ra_routerSolicitationInterval r).

Definition RA_Start (env : ra_env) (r : RAReceiver) : RAReceiver * option error :=
  if started (ra_control r) then (r, None)
  else match env_interface env with
       | Some err => (r, Some (Errorf ("failed to get interface " +:+ ra_iface r) err))
       | None =>
           match env_listen env with
           | Some err => (r, Some (Errorf ("failed to create NDP listener on " +:+ ra_iface r) err))
           | None =>
               let verify := bool_decide (env_setControlMessage env = None) in
               (set_run r (control_start (ra_control r)) true verify, None)
           end
       end.

Definition RA_Stop (env : ra_env) (r : RAReceiver) : option (RAReceiver * option error) :=
  if negb (started (ra_control r)) then Some (r, None)
  else
    k ← control_stop (ra_control r);
    Some (set_run r k (ra_conn r) (ra_verifyHopLimit r),
          if ra_conn r then env_close env else None).

(** ** Validation of advertisements *)

Definition rejectReasonNotLinkLocal : string := "source-not-link-local".
Definition rejectReasonHopLimitUnknown : string := "hop-limit-unreported".
Definition rejectReasonForwarded : string := "forwarded-hop-limit".
Definition rejectReasonUntrustedSource : string := "untrusted-source".
Definition rejectReasonPrefixLength : string := "prefix-length-out-of-bounds".

(** The reason and its description, or two empty strings. *)
Definition rejectRouterAdvertisement (r : RAReceiver) (from : netip.Addr) (cm : option Z)
    (verifyHopLimit : bool) : string * string :=
  if negb (isLinkLocal from) then (rejectReasonNotLinkLocal, "source address is not link-local")
  else if negb (Trusts (ra_policy r) from)
  then (rejectReasonUntrustedSource, "source is not one of the trusted routers")
  else if negb verifyHopLimit then (EmptyString, EmptyString)
  else match cm with
       | None => (rejectReasonHopLimitUnknown, "hop limit was not reported for this packet")
       | Some hopLimit =>
           if negb (hopLimit =? ndp_HopLimit)
           then (rejectReasonForwarded,
                 "hop limit is " +:+ itoa hopLimit +:+ ", not " +:+ itoa ndp_HopLimit +:+
                 ", so the packet was forwarded")
           else (EmptyString, EmptyString)
       end.

Definition recordRejection (reason : string) (r : RAReceiver) : RAReceiver :=
  mkRA (ra_iface r) (ra_policy r) (ra_health r) (ra_conn r) (ra_currentPrefix r) (ra_events r)
    (ra_control r) (ra_verifyHopLimit r) (wrapu64 (ra_rejected r + 1)) reason (ra_onReject r)
    (if ra_onReject r then reason :: ra_observed r else ra_observed r)
    (ra_maxRouterSolicitations r) (ra_routerSolicitationInterval r).

Definition RARejections (r : RAReceiver) : Z * string := (ra_rejected r, ra_lastReason r).

(** ** The prefix *)

Definition set_lease (r : RAReceiver) (p : option Prefix) (h : healthTracker) (evs : list Event)
    : RAReceiver :=
  mkRA (ra_iface r) (ra_policy r) h (ra_conn r) p evs (ra_control r) (ra_verifyHopLimit r)
    (ra_rejected r) (ra_lastReason r) (ra_onReject r) (ra_observed r)
    (ra_maxRouterSolicitations r) (ra_routerSolicitationInterval r).

Definition updatePrefix (now : Z) (prefix : netip.Prefix) (validLifetime preferredLifetime : Z)
    (r : RAReceiver) : RAReceiver :=
  let newPrefix := mkPrefix prefix validLifetime preferredLifetime SourceRouterAdvertisement now in
  let eventType := event_type_for (ra_currentPrefix r) prefix in
  set_lease r (Some newPrefix) (recordSuccess (ra_health r))
    (chan_send (ra_events r) (mkEvent eventType (Some newPrefix) None)).

(** The loop over the options: the receiver (rejections are counted in it) and
    [bestPrefix]. *)
Definition select_prefix (acc : RAReceiver * option PrefixInformation) (opt : ndp_option)
    : RAReceiver * option PrefixInformation :=
  let (r, bestPrefix) := acc in
  match opt with
  | OptOther => acc
  | OptPrefixInformation pi =>
      if negb (PI_OnLink pi) then acc
      else if PI_ValidLifetime pi =? 0 then acc
      else match checkLength (base_policy (ra_policy r)) (PI_PrefixLength pi) with
           | Some _ => (recordRejection rejectReasonPrefixLength r, bestPrefix)
           | None =>
               let addr := PI_Prefix pi in
               if isGlobalUnicast addr then
                 match bestPrefix with
                 | None => (r, Some pi)
                 | Some b => if negb (isGlobalUnicast (PI_Prefix b)) then (r, Some pi) else acc
                 end
               else if isULA addr then
                 if RequireGlobalUnicast (base_policy (ra_policy r)) then acc
                 else match bestPrefix with None => (r, Some pi) | Some _ => acc end
               else acc
           end
  end.

Definition handleRouterAdvertisement (now : Z) (options : list ndp_option) (r : RAReceiver)
    : RAReceiver :=
  let (r1, bestPrefix) := foldl select_prefix (r, None) options in
  match bestPrefix with
  | None => r1
  | Some b =>
      if 128 <? PI_PrefixLength b then r1
      else updatePrefix now (netip.Masked (netip.PrefixFrom (PI_Prefix b) (PI_PrefixLength b)))
             (PI_ValidLifetime b) (PI_PreferredLifetime b) r1
  end.

Definition expireLeaseIfStale (now : Z) (r : RAReceiver) : RAReceiver :=
  match ra_currentPrefix r with
  | None => r
  | Some current =>
      if ValidLifetime current <=? 0 then r
      else
        let expiresAt := ReceivedAt current + ValidLifetime current in
        if negb (expiresAt <? now) then r
        else
          let err := ErrorfLease "no Router Advertisement renewed the prefix within its valid lifetime"
                       (Network current) (ValidLifetime current) (ReceivedAt current) in
          set_lease r None (recordFailure err (ra_health r))
            (chan_send (ra_events r) (mkEvent EventTypeExpired None None))
  end.

Definition sendError (err : error) (r : RAReceiver) : RAReceiver :=
  set_lease r (ra_currentPrefix r) (recordFailure err (ra_health r))
    (chan_send (ra_events r) (mkEvent EventTypeFailed None (Some err))).

(** How the loop goes on: at once - the read itself waited, or consumed a packet -
    or after [waitAfterError]. *)
Inductive loop_next : Type := NextTurn | WaitAfterError.

(** One turn of [receiveLoop]. *)
Definition receive_step (now : Z) (verifyHopLimit : bool) (res : read_result) (r : RAReceiver)
    : RAReceiver * loop_next :=
  match res with
  | ReadDeadlineError err => (sendError (Errorf "failed to set read deadline" err) r, WaitAfterError)
  | ReadTimeout => (r, NextTurn)
  | ReadError err => (sendError (Errorf "failed to read NDP message" err) r, WaitAfterError)
  | ReadOtherMessage => (r, NextTurn)
  | ReadRA from cm options =>
      let (reason, _) := rejectRouterAdvertisement r from cm verifyHopLimit in
      if negb (bool_decide (reason = EmptyString)) then (recordRejection reason r, NextTurn)
      else (handleRouterAdvertisement now options r, NextTurn)
  end.

(** ** Router Solicitations *)

Inductive solicit_error : Type :=
| ErrConnNil
| ErrSetWriteDeadline (err : error)
| ErrWrite (err : error).

(** The source link-layer option is attached when the interface has a hardware
    address. *)
Definition solicitation_options (hwAddr : list Z) : list (list Z) :=
  if (0 <? length hwAddr)%nat then [hwAddr] else [].

(** The options sent to ff02::2, or the error. *)
Definition sendRouterSolicitation (hwAddr : list Z) (deadlineErr writeErr : option error)
    (r : RAReceiver) : outcome solicit_error (list (list Z)) :=
  if negb (ra_conn r) then Fail ErrConnNil
  else match deadlineErr with
       | Some e => Fail (ErrSetWriteDeadline e)
       | None => match writeErr with
                 | Some e => Fail (ErrWrite e)
                 | None => Ret (solicitation_options hwAddr)
                 end
       end.

(** What attempt [n] of the solicitation loop finds: the receiver, whether it was
    stopped before sending or during the pause, and the socket's answers. *)
Record attempt : Type := mkAttempt {
  at_receiver : RAReceiver;
  at_stopped : bool;
  at_deadlineErr : option error;
  at_writeErr : option error;
  at_stoppedWaiting : bool
}.

(** The attempts made, each with what [sendRouterSolicitation] returned. *)
Fixpoint solicit_loop (left : nat) (n maxSolicitations : Z) (hwAddr : list Z) (env : Z -> attempt)
    : list (outcome solicit_error (list (list Z))) :=
  match left with
  | O => []
  | S left' =>
      let a := env n in
      match ra_currentPrefix (at_receiver a) with
      | Some _ => []
      | None =>
          if at_stopped a then []
          else
            sendRouterSolicitation hwAddr (at_deadlineErr a) (at_writeErr a) (at_receiver a) ::
            (if n =? maxSolicitations then []
             else if at_stoppedWaiting a then []
             else solicit_loop left' (n + 1) maxSolicitations hwAddr env)
      end
  end.

Definition sendInitialRouterSolicitations (r : RAReceiver) (hwAddr : list Z) (env : Z -> attempt)
    : list (outcome solicit_error (list (list Z))) :=
  let maxSolicitations := if ra_maxRouterSolicitations r <=? 0 then defaultMaxRouterSolicitations
                          else ra_maxRouterSolicitations r in
  solicit_loop (Z.to_nat maxSolicitations) 1 maxSolicitations hwAddr env.

(** ** The receiver interface *)

Definition RA_recv (r : RAReceiver) : RAReceiver :=
  set_lease r (ra_currentPrefix r) (ra_health r) (tail (ra_events r)).

#[global] Instance RAReceiver_ops : ReceiverOps ra_env RAReceiver := {
  rStart := RA_Start;
  rStop := RA_Stop;
  rEvents := ra_events;
  rRecv := RA_recv;
  rCurrentPrefix := ra_currentPrefix;
  rSource _ := SourceRouterAdvertisement;
  rRunning r := started (ra_control r)
}.

Definition ra_ok (r : RAReceiver) : Prop :=
  control_ok (ra_control r) /\ (length (ra_events r) <= event_cap)%nat.

#[global] Program Instance RAReceiver_laws : ReceiverLaws ra_env RAReceiver := { rOk := ra_ok }.
Next Obligation.
  intros env r [Hk Hc]. cbn. unfold RA_Start. destruct (started (ra_control r)) eqn:Hs; [done|].
  destruct (env_interface env); [done|]. destruct (env_listen env); [done|].
  split; cbn; [by apply control_start_ok|done].
Qed.
Next Obligation.
  intros env r [Hk Hc]. cbn. unfold RA_Stop. destruct (started (ra_control r)) eqn:Hs; cbn [negb].
  - destruct (control_stop_ok _ Hk Hs) as (k & -> & Hk' & Hs'). cbn. eexists _, _. by split.
  - eexists _, _. by split.
Qed.
Next Obligation. intros r [Hk Hc]. split; [done|]. by apply tail_cap. Qed.
Next Obligation. by intros r. Qed.
Next Obligation.
  intros env r s' e _. cbn. unfold RA_Start. destruct (started (ra_control r)) eqn:Hs.
  - by intros [= <- <-].
  - destruct (env_interface env); [by intros [= <- <-]|].
    destruct (env_listen env); [by intros [= <- <-]|]. by intros [= <- <-].
Qed.
Next Obligation.
  intros env env' r s'. cbn. unfold RA_Start. destruct (started (ra_control r)) eqn:Hs.
  - intros [= <-]. by rewrite Hs.
  - destruct (env_interface env); [done|]. destruct (env_listen env); [done|]. by intros [= <-].
Qed.
Next Obligation.
  intros env env' r s' e [Hk Hc]. cbn. unfold RA_Stop. destruct (started (ra_control r)) eqn:Hs; cbn [negb].
  - destruct (control_stop_ok _ Hk Hs) as (k & -> & Hk' & Hs'). cbn. intros [= <- <-]. cbn. by rewrite Hs'.
  - intros [= <- <-]. by rewrite Hs.
Qed.
Next Obligation. by intros r [_ ?]. Qed.

(** ** Runs

    Everything that happens to a receiver, each with the time it happens at: a
    turn of a receive loop, which has the hop-limit policy it was started with (Stop
    does not wait for the last generation to leave its read), the expiry ticker,
    Start, Stop, the consumer reading an event. *)
Inductive ra_input : Type :=
| InRead (verifyHopLimit : bool) (res : read_result)
| InTick
| InStart (env : ra_env)
| InStop (env : ra_env)
| InConsume.

(** [None]: a panic. *)
Definition ra_step (now : Z) (i : ra_input) (r : RAReceiver) : option RAReceiver :=
  match i with
  | InRead verifyHopLimit res => Some (receive_step now verifyHopLimit res r).1
  | InTick => Some (expireLeaseIfStale now r)
  | InStart env => Some (RA_Start env r).1
  | InStop env => fst <$> RA_Stop env r
  | InConsume => Some (RA_recv r)
  end.

Fixpoint ra_run (ins : list (Z * ra_input)) (r : RAReceiver) : option RAReceiver :=
  match ins with
  | [] => Some r
  | (now, i) :: ins' => r' ← ra_step now i r; ra_run ins' r'
  end.

(** * Lemmas *)

(** ** Selection *)

(** The options that pass the screens of the loop, and those its length bounds
    reject. *)
Definition usable (p : Policy) (pi : PrefixInformation) : bool :=
  PI_OnLink pi && negb (PI_ValidLifetime pi =? 0) &&
  bool_decide (checkLength p (PI_PrefixLength pi) = None).

Definition out_of_bounds (p : Policy) (opt : ndp_option) : bool :=
  match opt with
  | OptOther => false
  | OptPrefixInformation pi =>
      PI_OnLink pi && negb (PI_ValidLifetime pi =? 0) &&
      negb (bool_decide (checkLength p (PI_PrefixLength pi) = None))
  end.

Definition find_option (f : PrefixInformation -> bool) (opts : list ndp_option) : option PrefixInformation :=
  foldr (fun o acc => match o with
                      | OptPrefixInformation pi => if f pi then Some pi else acc
                      | OptOther => acc
                      end) None opts.

Definition global_option (p : Policy) (pi : PrefixInformation) : bool :=
  usable p pi && isGlobalUnicast (PI_Prefix pi).
Definition local_option (p : Policy) (pi : PrefixInformation) : bool :=
  usable p pi && negb (isGlobalUnicast (PI_Prefix pi)) && isULA (PI_Prefix pi).

(** The specification: the first usable global prefix, or, when global prefixes
    are not required, the first usable unique-local one. *)
Definition preferred (p : Policy) (opts : list ndp_option) : option PrefixInformation :=
  match find_option (global_option p) opts with
  | Some pi => Some pi
  | None => if RequireGlobalUnicast p then None else find_option (local_option p) opts
  end.

Definition count_out_of_bounds (p : Policy) (opts : list ndp_option) : nat :=
  length (filter (fun o => out_of_bounds p o = true) opts).

(** What the loop holds after more options, from any [bestPrefix]. *)
Definition continue_from (p : Policy) (best : option PrefixInformation) (opts : list ndp_option)
    : option PrefixInformation :=
  match best with
  | None => preferred p opts
  | Some b =>
      if isGlobalUnicast (PI_Prefix b) then Some b
      else match find_option (global_option p) opts with Some pi => Some pi | None => Some b end
  end.

Lemma recordRejection_fields reason r :
  ra_policy (recordRejection reason r) = ra_policy r /\
  ra_currentPrefix (recordRejection reason r) = ra_currentPrefix r /\
  ra_events (recordRejection reason r) = ra_events r /\
  ra_health (recordRejection reason r) = ra_health r /\
  ra_control (recordRejection reason r) = ra_control r.
Proof. done. Qed.

Lemma select_prefix_fields r b o :
  let r' := (select_prefix (r, b) o).1 in
  ra_policy r' = ra_policy r /\ ra_currentPrefix r' = ra_currentPrefix r /\
  ra_events r' = ra_events r /\ ra_health r' = ra_health r /\ ra_control r' = ra_control r /\
  ra_verifyHopLimit r' = ra_verifyHopLimit r.
Proof. unfold select_prefix. by repeat case_match. Qed.

Lemma select_prefix_step r b o opts :
  (forall x, b = Some x -> isGlobalUnicast (PI_Prefix x) = false ->
     RequireGlobalUnicast (base_policy (ra_policy r)) = false) ->
  let p := base_policy (ra_policy r) in
  continue_from p (select_prefix (r, b) o).2 opts = continue_from p b (o :: opts) /\
  (forall x, (select_prefix (r, b) o).2 = Some x -> isGlobalUnicast (PI_Prefix x) = false ->
     RequireGlobalUnicast (base_policy (ra_policy r)) = false).
Proof.
  intros Hb p. subst p. unfold select_prefix. destruct o as [pi|]; [|by destruct b].
  unfold continue_from, preferred, find_option. cbn [foldr]. unfold global_option, local_option, usable.
  destruct (PI_OnLink pi); cbn [negb andb]; [|by destruct b].
  destruct (PI_ValidLifetime pi =? 0); cbn [negb andb]; [by destruct b|].
  destruct (checkLength _ _) eqn:Hl; [by rewrite bool_decide_false by done; destruct b|].
  rewrite bool_decide_true by done. cbn [andb].
  destruct (isGlobalUnicast (PI_Prefix pi)) eqn:Hg; cbn [andb negb].
  - destruct b as [x|]; cbn [snd].
    + destruct (isGlobalUnicast (PI_Prefix x)) eqn:Hx; cbn [negb snd]; rewrite ?Hg, ?Hx;
        (split; [done|]); intros y [= <-]; congruence.
    + rewrite Hg. split; [done|]. intros y [= <-]. congruence.
  - destruct (isULA (PI_Prefix pi)) eqn:Hu; cbn [snd]; [|by destruct b].
    destruct (RequireGlobalUnicast _) eqn:Hr; cbn [snd]; [by destruct b|].
    destruct b as [x|]; cbn [snd]; [done|]. rewrite Hg. by destruct (foldr _ _ opts).
Qed.

Lemma wrapu64_add_1 z k : wrapu64 (wrapu64 (z + 1) + k) = wrapu64 (z + (1 + k)).
Proof. unfold wrapu64. rewrite Zplus_mod_idemp_l. f_equal. lia. Qed.

Lemma select_loop opts r b :
  0 <= ra_rejected r < 2 ^ 64 ->
  (forall x, b = Some x -> isGlobalUnicast (PI_Prefix x) = false ->
     RequireGlobalUnicast (base_policy (ra_policy r)) = false) ->
  let p := base_policy (ra_policy r) in
  let res := foldl select_prefix (r, b) opts in
  res.2 = continue_from p b opts /\
  ra_rejected res.1 = wrapu64 (ra_rejected r + Z.of_nat (count_out_of_bounds p opts)) /\
  ra_policy res.1 = ra_policy r /\ ra_currentPrefix res.1 = ra_currentPrefix r /\
  ra_events res.1 = ra_events r /\ ra_health res.1 = ra_health r /\ ra_control res.1 = ra_control r /\
  ra_verifyHopLimit res.1 = ra_verifyHopLimit r.
Proof.
  revert r b. induction opts as [|o opts IH]; intros r b Hrej Hb p res; subst p res; cbn [foldl].
  { repeat split; cbn.
    - unfold continue_from, preferred, find_option. cbn. destruct b as [x|]; [by case_match|]. by case_match.
    - rewrite Z.add_0_r, wrapu64_id; [done|lia]. }
  destruct (select_prefix_step r b o opts Hb) as [Hc Hb'].
  destruct (select_prefix_fields r b o) as (Hpol & Hcur & Hev & Hh & Hk & Hv).
  assert (ra_rejected (select_prefix (r, b) o).1 =
    if out_of_bounds (base_policy (ra_policy r)) o then wrapu64 (ra_rejected r + 1) else ra_rejected r) as Hrej'.
  { unfold select_prefix, out_of_bounds. destruct o as [pi|]; [|done].
    destruct (PI_OnLink pi); [|done]. destruct (PI_ValidLifetime pi =? 0); [done|]. cbn [negb andb].
    destruct (checkLength _ _); [by rewrite bool_decide_false|]. rewrite bool_decide_true by done.
    by repeat case_match. }
  destruct (select_prefix (r, b) o) as [r1 b1]. cbn [fst snd] in *.
  destruct (IH r1 b1) as (H1 & H2 & H3 & H4 & H5 & H6 & H7 & H8).
  { rewrite Hrej'. destruct (out_of_bounds _ o); [|done]. unfold wrapu64. by apply Z.mod_pos_bound. }
  { by rewrite Hpol. }
  rewrite Hpol in H1, H2, H3. split; [by rewrite H1|]. split.
  - rewrite H2, Hrej'. unfold count_out_of_bounds.
    destruct (out_of_bounds (base_policy (ra_policy r)) o) eqn:Ho.
    + rewrite filter_cons_True by done. cbn [length]. rewrite wrapu64_add_1. f_equal. lia.
    + by rewrite filter_cons_False by congruence.
  - by rewrite H3, H4, H5, H6, H7, H8.
Qed.

(** [handleRouterAdvertisement] in terms of the specification. *)
Lemma handleRouterAdvertisement_spec now opts r :
  0 <= ra_rejected r < 2 ^ 64 ->
  let p := base_policy (ra_policy r) in
  exists r1, handleRouterAdvertisement now opts r =
    match preferred p opts with
    | Some b => if 128 <? PI_PrefixLength b then r1
                else updatePrefix now (netip.Masked (netip.PrefixFrom (PI_Prefix b) (PI_PrefixLength b)))
                       (PI_ValidLifetime b) (PI_PreferredLifetime b) r1
    | None => r1
    end /\
    ra_rejected r1 = wrapu64 (ra_rejected r + Z.of_nat (count_out_of_bounds p opts)) /\
    ra_policy r1 = ra_policy r /\ ra_currentPrefix r1 = ra_currentPrefix r /\
    ra_events r1 = ra_events r /\ ra_health r1 = ra_health r /\ ra_control r1 = ra_control r /\
    ra_verifyHopLimit r1 = ra_verifyHopLimit r.
Proof.
  intros Hr p. unfold handleRouterAdvertisement.
  destruct (select_loop opts r None Hr) as (H1 & H2); [done|].
  destruct (foldl select_prefix (r, None) opts) as [r1 best]. cbn [fst snd] in *.
  exists r1. split; [|done]. by rewrite H1.
Qed.

Lemma find_option_some f opts pi : find_option f opts = Some pi ->
  OptPrefixInformation pi ∈ opts /\ f pi = true.
Proof.
  unfold find_option. induction opts as [|[x|] opts IH]; cbn; [done| |].
  - destruct (f x) eqn:Hf; [intros [= ->]; split; [by left|done]|].
    intros H. apply IH in H as [? ?]. split; [by right|done].
  - intros H. apply IH in H as [? ?]. split; [by right|done].
Qed.

Lemma preferred_some p opts pi : preferred p opts = Some pi ->
  OptPrefixInformation pi ∈ opts /\ usable p pi = true /\
  (RequireGlobalUnicast p = true -> isGlobalUnicast (PI_Prefix pi) = true).
Proof.
  unfold preferred. destruct (find_option (global_option p) opts) as [x|] eqn:Hg.
  - intros [= <-]. apply find_option_some in Hg as [? Hx]. unfold global_option in Hx.
    by apply andb_true_iff in Hx as [? ?].
  - destruct (RequireGlobalUnicast p); [done|]. intros H. apply find_option_some in H as [? Hx].
    unfold local_option in Hx. apply andb_true_iff in Hx as [[? ?]%andb_true_iff ?]. done.
Qed.

(** ** The lease held *)

Definition option_wf (o : ndp_option) : Prop :=
  match o with
  | OptPrefixInformation pi => netip.addr_wf (PI_Prefix pi) /\ 0 <= PI_PrefixLength pi < 256
  | OptOther => True
  end.

Definition input_wf (i : ra_input) : Prop :=
  match i with InRead _ (ReadRA _ _ opts) => Forall option_wf opts | _ => True end.

(** What a held lease comes from: an option the policy accepts. *)
Definition lease_from (p : Policy) (l : Prefix) : Prop :=
  exists pi, usable p pi = true /\ netip.addr_wf (PI_Prefix pi) /\ 0 <= PI_PrefixLength pi <= 128 /\
    (isGlobalUnicast (PI_Prefix pi) || isULA (PI_Prefix pi))%bool = true /\
    (RequireGlobalUnicast p = true -> isGlobalUnicast (PI_Prefix pi) = true) /\
    Network l = netip.Masked (netip.PrefixFrom (PI_Prefix pi) (PI_PrefixLength pi)) /\
    ValidLifetime l = PI_ValidLifetime pi /\ PrefixSource l = SourceRouterAdvertisement.

Lemma class_is6 a : isGlobalUnicast a || isULA a = true -> netip.Is6 a = true.
Proof. unfold isGlobalUnicast, isULA. by destruct (netip.Is6 a). Qed.

Lemma preferred_class p opts pi : preferred p opts = Some pi ->
  isGlobalUnicast (PI_Prefix pi) || isULA (PI_Prefix pi) = true.
Proof.
  unfold preferred. destruct (find_option (global_option p) opts) as [x|] eqn:Hg.
  - intros [= <-]. apply find_option_some in Hg as [_ Hx]. unfold global_option in Hx.
    apply andb_true_iff in Hx as [_ ->]. done.
  - destruct (RequireGlobalUnicast p); [done|]. intros H. apply find_option_some in H as [_ Hx].
    unfold local_option in Hx. apply andb_true_iff in Hx as [_ ->]. apply orb_true_r.
Qed.

Lemma preferred_lease p opts pi now :
  Forall option_wf opts -> preferred p opts = Some pi -> PI_PrefixLength pi <= 128 ->
  lease_from p (mkPrefix (netip.Masked (netip.PrefixFrom (PI_Prefix pi) (PI_PrefixLength pi)))
    (PI_ValidLifetime pi) (PI_PreferredLifetime pi) SourceRouterAdvertisement now).
Proof.
  intros Hwf Hp Hl. pose proof (preferred_class p opts pi Hp) as Hc.
  apply preferred_some in Hp as (Hin & Hu & Hg). rewrite Forall_forall in Hwf.
  destruct (Hwf _ Hin) as [Hw Hl0]. exists pi. do 2 (split; [done|]). split; [lia|].
  done.
Qed.

(** The first address of the block an option names. *)
Definition PI_Prefix_block (pi : PrefixInformation) : Z :=
  netip.addr (PI_Prefix pi) / 2 ^ (128 - PI_PrefixLength pi) * 2 ^ (128 - PI_PrefixLength pi).

(** The network of a held lease is a masked IPv6 prefix. *)
Lemma lease_network p l : lease_from p l ->
  netip.prefix6 (Network l) /\ netip.Masked (Network l) = Network l /\
  checkLength p (netip.Bits (Network l)) = None /\
  (RequireGlobalUnicast p = true -> 3 <= netip.Bits (Network l) ->
   netip.first_num (Network l) / 2 ^ 125 = 1).
Proof.
  intros (pi & Hu & Hw & Hl & H6%class_is6 & Hg & Hn & _).
  assert (netip.prefix6 (netip.PrefixFrom (PI_Prefix pi) (PI_PrefixLength pi))) as Hp.
  { apply PrefixFrom6; done. }
  assert (netip.Bits (netip.PrefixFrom (PI_Prefix pi) (PI_PrefixLength pi)) = PI_PrefixLength pi) as Hb.
  { apply PrefixFrom6_bits; done. }
  rewrite Hn. split; [by apply Masked6_wf|]. split; [by apply Masked6_idem|].
  rewrite Masked6_Bits, Hb by done. split.
  { unfold usable in Hu. apply andb_true_iff in Hu as [_ Hu]. by apply bool_decide_eq_true in Hu. }
  intros Hr H3. rewrite Masked6_first by done. unfold netip.first_num. rewrite Hb.
  rewrite div_block_div by lia. rewrite PrefixFrom_addr.
  by apply isGlobalUnicast_spec in Hg as [_ ?].
Qed.

(** From /3 on it is accepted by the whole policy. *)
Lemma lease_validated p l : lease_from p l -> 3 <= netip.Bits (Network l) -> Validate p (Network l) = None.
Proof.
  intros Hl H3. destruct (lease_network p l Hl) as (Hp & Hm & Hlen & Hg).
  destruct Hl as (pi & _ & Hw & Hl & Hclass & _ & Hn & _). pose proof (class_is6 _ Hclass) as H6.
  pose proof (class_middle _ Hw Hclass) as Hmid.
  assert (netip.prefix6 (netip.PrefixFrom (PI_Prefix pi) (PI_PrefixLength pi))) as Hp0 by (by apply PrefixFrom6).
  assert (netip.Bits (netip.PrefixFrom (PI_Prefix pi) (PI_PrefixLength pi)) = PI_PrefixLength pi) as Hb by (by apply PrefixFrom6_bits).
  assert (netip.addr (netip.ip (Network l)) = netip.first_num (Network l)) as Hfirst
    by (rewrite <- Hm at 1; by rewrite Masked6).
  assert (netip.first_num (Network l) = PI_Prefix_block pi) as Hblock.
  { rewrite Hn, Masked6_first by done. unfold netip.first_num. by rewrite Hb, PrefixFrom_addr. }
  rewrite Hn, Masked6_Bits, Hb in H3 by done.
  unfold Validate. rewrite middle_prefix_accepted; [done|done| | |].
  - rewrite Hfirst, Hblock. unfold PI_Prefix_block. set (h := 128 - PI_PrefixLength pi).
    pose proof (pow2_pos h ltac:(lia)). pose proof (Z.mul_div_le (netip.addr (PI_Prefix pi)) (2 ^ h) ltac:(lia)).
    pose proof (div_block_div (netip.addr (PI_Prefix pi)) h 125 ltac:(lia)) as Hd.
    assert (1 <= netip.addr (PI_Prefix pi) / 2 ^ 125) by (apply Z.div_le_lower_bound; lia).
    set (b := netip.addr (PI_Prefix pi) / 2 ^ h * 2 ^ h) in *.
    pose proof (Z.mul_div_le b (2 ^ 125) ltac:(lia)). lia.
  - rewrite Hn, Masked6_Bits, Hb by done. lia.
  - intros Hr. rewrite Hfirst. apply Hg; [done|]. by rewrite Hn, Masked6_Bits, Hb.
Qed.

(** ** Invariants of a run *)

Definition ra_inv (pol : RAPolicy) (r : RAReceiver) : Prop :=
  ra_ok r /\ 0 <= ra_rejected r < 2 ^ 64 /\ ra_policy r = pol /\
  (forall l, ra_currentPrefix r = Some l -> lease_from (base_policy pol) l).

Lemma wrapu64_range z : 0 <= wrapu64 z < 2 ^ 64.
Proof. by apply Z.mod_pos_bound. Qed.

Lemma updatePrefix_inv pol now l r :
  ra_inv pol r -> lease_from (base_policy pol) (mkPrefix (Network l) (ValidLifetime l)
    (PreferredLifetime l) SourceRouterAdvertisement now) ->
  ra_inv pol (updatePrefix now (Network l) (ValidLifetime l) (PreferredLifetime l) r).
Proof.
  intros ((Hk & Hc) & Hr & Hp & Hl) Hfrom. split; [split; cbn; [done|by apply chan_send_cap]|].
  split; [done|]. split; [done|]. by intros ? [= <-].
Qed.

Lemma handleRA_inv pol now opts r :
  Forall option_wf opts -> ra_inv pol r -> ra_inv pol (handleRouterAdvertisement now opts r).
Proof.
  intros Hwf Hinv. pose proof Hinv as ((Hk & Hc) & Hr & Hp & Hl).
  destruct (handleRouterAdvertisement_spec now opts r Hr)
    as (r1 & -> & Hrej & Hp1 & Hcur & Hev & Hh & Hk1 & Hv).
  assert (ra_inv pol r1) as Hinv1.
  { split; [split; [by rewrite Hk1|by rewrite Hev]|]. split; [rewrite Hrej; apply wrapu64_range|].
    split; [congruence|]. by rewrite Hcur. }
  rewrite Hp. destruct (preferred (base_policy pol) opts) as [pi|] eqn:Hpi; [|done].
  destruct (Z.ltb_spec 128 (PI_PrefixLength pi)); [done|].
  apply (updatePrefix_inv pol now (mkPrefix _ _ _ SourceRouterAdvertisement now)); [done|].
  by eapply preferred_lease.
Qed.

Lemma ra_step_inv pol now i r :
  input_wf i -> ra_inv pol r -> exists r', ra_step now i r = Some r' /\ ra_inv pol r'.
Proof.
  intros Hi Hinv. pose proof Hinv as ((Hk & Hc) & Hr & Hp & Hl). destruct i; cbn [ra_step].
  - eexists. split; [done|]. destruct res; cbn [receive_step fst]; try done.
    1,2: split; [split; [done|by apply chan_send_cap]|done].
    destruct (rejectRouterAdvertisement _ _ _ _) as [reason detail].
    destruct (negb _); cbn [fst]; [|by apply handleRA_inv].
    split; [done|]. split; [apply wrapu64_range|done].
  - eexists. split; [done|]. unfold expireLeaseIfStale.
    destruct (ra_currentPrefix r) as [l|]; [|done]. destruct (_ <=? 0); [done|].
    destruct (negb _); [done|]. split; [split; [done|by apply chan_send_cap]|done].
  - eexists. split; [done|]. pose proof (@law_start_ok _ _ _ RAReceiver_laws env r (conj Hk Hc)) as Hok.
    split; [exact Hok|]. unfold RA_Start. destruct (started _); [done|].
    destruct (env_interface env); [done|]. by destruct (env_listen env).
  - destruct (@law_stop_ok _ _ _ RAReceiver_laws env r (conj Hk Hc)) as (r' & e & Hs & Hok & _). cbn in Hs. rewrite Hs.
    exists r'. split; [done|]. split; [done|]. unfold RA_Stop in Hs. destruct (negb _); [by simplify_eq|].
    destruct (control_stop _); cbn in Hs; by simplify_eq.
  - eexists. split; [done|]. split; [|done]. split; [done|]. by apply tail_cap.
Qed.

(** Only Start and Stop start and stop the receiver. *)
Lemma ra_turn_control pol now i r r' : ra_inv pol r -> ra_step now i r = Some r' ->
  match i with InStart _ | InStop _ => False | _ => True end -> ra_control r' = ra_control r.
Proof.
  intros (_ & Hr & _). destruct i; try done; cbn [ra_step]; intros [= <-] _.
  - destruct res; cbn [receive_step fst]; try done. destruct (rejectRouterAdvertisement _ _ _ _) as [reason detail].
    destruct (negb _); [done|]. cbn [fst].
    destruct (handleRouterAdvertisement_spec now options r Hr) as (r1 & -> & _ & _ & _ & _ & _ & Hk & _).
    destruct (preferred _ _); [|done]. by destruct (_ <? _).
  - unfold expireLeaseIfStale. destruct (ra_currentPrefix r); [|done]. destruct (_ <=? 0); [done|]. by destruct (negb _).
  - done.
Qed.

Lemma ra_run_inv pol ins r :
  Forall (fun i => input_wf i.2) ins -> ra_inv pol r ->
  exists r', ra_run ins r = Some r' /\ ra_inv pol r'.
Proof.
  intros Hwf. revert r. induction Hwf as [|[now i] ins Hi Hwf IH]; intros r Hinv; cbn [ra_run].
  - by exists r.
  - destruct (ra_step_inv pol now i r Hi Hinv) as (r' & -> & Hinv'). cbn. by apply IH.
Qed.

Lemma new_ra_inv iface pol obs : ra_inv pol (NewRAReceiverWithPolicy iface pol obs).
Proof. unfold ra_inv, ra_ok, control_ok. cbn. repeat split; (lia || done). Qed.

(** ** Where a lease came from *)

(** An advertisement in the run that a receiver with this policy accepts. *)
Definition accepted_advert (pol : RAPolicy) (ins : list (Z * ra_input)) (l : Prefix) : Prop :=
  exists verifyHopLimit from cm opts pi, (ReceivedAt l, InRead verifyHopLimit (ReadRA from cm opts)) ∈ ins /\
    isLinkLocal from = true /\ Trusts pol from = true /\ (verifyHopLimit = true -> cm = Some 255) /\
    preferred (base_policy pol) opts = Some pi /\
    Network l = netip.Masked (netip.PrefixFrom (PI_Prefix pi) (PI_PrefixLength pi)) /\
    ValidLifetime l = PI_ValidLifetime pi.

Lemma reject_accepts r from cm verify :
  (rejectRouterAdvertisement r from cm verify).1 = EmptyString <->
  isLinkLocal from = true /\ Trusts (ra_policy r) from = true /\ (verify = true -> cm = Some 255).
Proof.
  unfold rejectRouterAdvertisement. destruct (isLinkLocal from); cbn [negb]; [|split; [done|by intros (? & _)]].
  destruct (Trusts _ _); cbn [negb]; [|split; [done|by intros (_ & ? & _)]].
  destruct verify; cbn [negb]; [|done]. destruct cm as [h|]; [|split; [done|intros (_ & _ & H); by specialize (H eq_refl)]].
  unfold ndp_HopLimit. destruct (Z.eqb_spec h 255) as [->|]; cbn [negb]; split; try done.
  intros (_ & _ & H). by injection (H eq_refl).
Qed.

Lemma ra_step_lease pol now i r r' l :
  ra_inv pol r -> ra_step now i r = Some r' -> ra_currentPrefix r' = Some l ->
  ra_currentPrefix r = Some l \/ accepted_advert pol [(now, i)] l.
Proof.
  intros ((Hk & Hc) & Hr & Hp & Hl) Hs Hcur. destruct i; cbn [ra_step] in Hs.
  - injection Hs as <-. destruct res; cbn [receive_step fst] in Hcur; try by left.
    destruct (rejectRouterAdvertisement r from cm verifyHopLimit) as [reason detail] eqn:Hrej.
    destruct (bool_decide (reason = EmptyString)) eqn:Hd; cbn [negb fst] in Hcur; [|by left].
    apply bool_decide_eq_true in Hd. subst reason.
    pose proof (proj1 (reject_accepts r from cm verifyHopLimit)) as Hacc. rewrite Hrej in Hacc.
    destruct (Hacc eq_refl) as (Hll & Htr & Hhop).
    destruct (handleRouterAdvertisement_spec now options r Hr)
      as (r1 & Heq & _ & _ & Hcur1 & _). rewrite Heq, Hp in Hcur.
    destruct (preferred (base_policy pol) options) as [pi|] eqn:Hpi; [|left; congruence].
    destruct (128 <? PI_PrefixLength pi); [left; congruence|]. right.
    cbn in Hcur. injection Hcur as <-. exists verifyHopLimit, from, cm, options, pi.
    split; [by left|]. rewrite <- Hp. rewrite Hp. rewrite Hp in Htr. done.
  - injection Hs as <-. left. revert Hcur. unfold expireLeaseIfStale.
    destruct (ra_currentPrefix r) as [l'|] eqn:Hcr; [|congruence].
    destruct (_ <=? 0); [by rewrite Hcr|]. destruct (negb _); [by rewrite Hcr|done].
  - injection Hs as <-. left. revert Hcur. unfold RA_Start. destruct (started _); [done|].
    destruct (env_interface env); [done|]. by destruct (env_listen env).
  - left. apply fmap_Some in Hs as ([r2 e] & Hs & ->). unfold RA_Stop in Hs.
    destruct (negb _); [by simplify_eq|]. destruct (control_stop _); cbn in Hs; by simplify_eq.
  - injection Hs as <-. by left.
Qed.

Lemma ra_run_lease pol ins r r' l :
  Forall (fun i => input_wf i.2) ins -> ra_inv pol r ->
  ra_run ins r = Some r' -> ra_currentPrefix r' = Some l ->
  ra_currentPrefix r = Some l \/ accepted_advert pol ins l.
Proof.
  intros Hwf. revert r. induction Hwf as [|[now i] ins Hi Hwf IH]; intros r Hinv; cbn [ra_run].
  - intros [= <-]. by left.
  - destruct (ra_step_inv pol now i r Hi Hinv) as (r1 & Hs & Hinv1). rewrite Hs. cbn.
    intros Hr Hl. destruct (IH r1 Hinv1 Hr Hl) as [Hl1|(v & from & cm & opts & pi & Hin & Hrest)].
    + destruct (ra_step_lease pol now i r r1 l Hinv Hs Hl1) as [?|(v & from & cm & opts & pi & Hin & Hrest)];
        [by left|]. right. exists v, from, cm, opts, pi. split; [|done].
      apply list_elem_of_singleton in Hin. rewrite Hin. by left.
    + right. exists v, from, cm, opts, pi. split; [by right|done].
Qed.

Lemma ra_run_app ins ins' r : ra_run (ins ++ ins') r = (r1 ← ra_run ins r; ra_run ins' r1).
Proof.
  revert r. induction ins as [|[now i] ins IH]; intros r; cbn [ra_run app]; [done|].
  destruct (ra_step now i r); cbn; [apply IH|done].
Qed.

(** ** Rejection counting *)

Definition counted (r : RAReceiver) : Prop :=
  ra_onReject r = true /\ ra_rejected r = wrapu64 (Z.of_nat (length (ra_observed r))) /\
  ra_lastReason r = default EmptyString (head (ra_observed r)).

Lemma recordRejection_counted reason r : counted r -> counted (recordRejection reason r).
Proof.
  intros (Ho & Hr & Hl). split; [done|]. cbn. rewrite Ho. split; [|done]. cbn [length].
  rewrite Hr. unfold wrapu64. rewrite Zplus_mod_idemp_l. f_equal. lia.
Qed.

Lemma select_counted opts acc : counted acc.1 -> counted (foldl select_prefix acc opts).1.
Proof.
  revert acc. induction opts as [|o opts IH]; intros [r b] H; [done|]. cbn [foldl]. apply IH.
  unfold select_prefix. repeat case_match; try done. by apply recordRejection_counted.
Qed.

Lemma ra_step_counted now i r r' : counted r -> ra_step now i r = Some r' -> counted r'.
Proof.
  intros H Hs. destruct i; cbn [ra_step] in Hs.
  - injection Hs as <-. destruct res; cbn [receive_step fst]; try done.
    destruct (rejectRouterAdvertisement _ _ _ _). destruct (negb _); cbn [fst].
    + by apply recordRejection_counted.
    + unfold handleRouterAdvertisement. pose proof (select_counted options (r, None) H) as H'.
      destruct (foldl _ _ _) as [r1 b]. cbn in H'. destruct b; [|done]. by destruct (_ <? _).
  - injection Hs as <-. unfold expireLeaseIfStale. by repeat case_match.
  - injection Hs as <-. unfold RA_Start. by repeat case_match.
  - apply fmap_Some in Hs as ([r2 e] & Hs & ->). unfold RA_Stop in Hs.
    destruct (negb _); [by simplify_eq|]. destruct (control_stop _); cbn in Hs; by simplify_eq.
  - by injection Hs as <-.
Qed.

(** * Properties *)

(** C15 Whatever arrives on the link, in any order and mixed with starts, stops
    and expiry checks, a receiver never panics, its event channel stays within its
    capacity, and a prefix it holds is a masked IPv6 prefix whose length is within
    the policy's bounds and which, unless it is shorter than /3, the policy's whole
    validation accepts; then every address of it is global unicast when that is
    required.  A lower bound of 3 or more on the length excludes the exception, which
    [short_option_not_global] shows to happen without one. *)
Theorem ra_holds_accepted_prefix (iface : string) (pol : RAPolicy) (obs : bool)
    (ins : list (Z * ra_input)) :
  Forall (fun i => input_wf i.2) ins ->
  exists r, ra_run ins (NewRAReceiverWithPolicy iface pol obs) = Some r /\
    (length (ra_events r) <= event_cap)%nat /\
    forall l, ra_currentPrefix r = Some l ->
      netip.prefix6 (Network l) /\ netip.Masked (Network l) = Network l /\
      checkLength (base_policy pol) (netip.Bits (Network l)) = None /\
      (3 <= MinPrefixLength (base_policy pol) -> 3 <= netip.Bits (Network l)) /\
      (3 <= netip.Bits (Network l) ->
       Validate (base_policy pol) (Network l) = None /\
       (RequireGlobalUnicast (base_policy pol) = true -> forall x, netip.in_prefix (Network l) x -> x / 2 ^ 125 = 1)).
Proof.
  intros Hwf. destruct (ra_run_inv pol ins (NewRAReceiverWithPolicy iface pol obs) Hwf)
    as (r & Hr & (_ & Hcap) & _ & _ & Hl); [apply new_ra_inv|].
  exists r. split; [done|]. split; [done|]. intros l Hcur. pose proof (Hl l Hcur) as Hfrom.
  destruct (lease_network _ _ Hfrom) as (Hp & Hm & Hlen & Hg).
  do 3 (split; [done|]). split; [intros; eapply checkLength_min; [done|lia]|]. intros H3.
  split; [by apply lease_validated|]. intros Hreq. apply gua_prefix_covers; [done| |by apply Hg].
  rewrite <- Hm at 1. by rewrite Masked6.
Qed.

Definition wan_pio : PrefixInformation :=
  mkPIO 64 true 86400000000000 14400000000000 (addr_of_string "2001:db8:0:1::").
Definition ula_pio : PrefixInformation :=
  mkPIO 64 true 86400000000000 14400000000000 (addr_of_string "fd00::").
Definition wan_advert : ra_input :=
  InRead true (ReadRA (addr_of_string "fe80::1") (Some 255)
    [OptOther; OptPrefixInformation ula_pio; OptPrefixInformation wan_pio]).
Definition wan_receiver : RAReceiver := NewRAReceiverWithPolicy "wan0" DefaultRAPolicy true.
Definition started_env : ra_env := mkRAEnv None None None None.
Definition wan_run : list (Z * ra_input) := [(0, InStart started_env); (5, wan_advert)].

Lemma wan_run_wf : Forall (fun i => input_wf i.2) wan_run.
Proof.
  repeat constructor; cbn [option_wf wan_pio ula_pio PI_Prefix PI_PrefixLength];
    first [apply addr_of_string_wf|lia].
Qed.

Lemma ra_holds_accepted_prefix_witness :
  (Network <$> (ra_run wan_run wan_receiver ≫= ra_currentPrefix)) =
    Some (prefix_of_string "2001:db8:0:1::/64") /\
  exists r, ra_run wan_run wan_receiver = Some r /\ (length (ra_events r) <= event_cap)%nat.
Proof.
  split; [vm_compute; reflexivity|].
  destruct (ra_holds_accepted_prefix "wan0" DefaultRAPolicy true wan_run wan_run_wf)
    as (r & Hr & Hc & _). exists r. split; [exact Hr|exact Hc].
Defined.

(** C37 A lease held after a tick of the expiry watcher has not run out, and it
    comes from an advertisement of this run, received at the instant the lease
    counts from, whose source is link-local and trusted, whose hop limit is 255 where
    the socket reports it, and whose options prefer exactly that prefix. *)
Theorem ra_no_stale_lease (iface : string) (pol : RAPolicy) (obs : bool)
    (ins : list (Z * ra_input)) (T : Z) (r : RAReceiver) (l : Prefix) :
  Forall (fun i => input_wf i.2) ins ->
  ra_run (ins ++ [(T, InTick)]) (NewRAReceiverWithPolicy iface pol obs) = Some r ->
  ra_currentPrefix r = Some l ->
  (0 < ValidLifetime l -> T <= ReceivedAt l + ValidLifetime l) /\ accepted_advert pol ins l.
Proof.
  intros Hwf Hr Hl. rewrite ra_run_app in Hr.
  destruct (ra_run_inv pol ins _ Hwf (new_ra_inv iface pol obs)) as (r1 & Hr1 & Hinv1).
  rewrite Hr1 in Hr. cbn in Hr. injection Hr as <-. revert Hl. unfold expireLeaseIfStale.
  destruct (ra_currentPrefix r1) as [c|] eqn:Hc; [|congruence].
  assert (accepted_advert pol ins c) as Hacc.
  { destruct (ra_run_lease pol ins _ r1 c Hwf (new_ra_inv iface pol obs) Hr1 Hc); done. }
  destruct (Z.leb_spec (ValidLifetime c) 0).
  - rewrite Hc. intros [= <-]. split; [lia|done].
  - destruct (Z.ltb_spec (ReceivedAt c + ValidLifetime c) T); cbn [negb]; [done|].
    rewrite Hc. intros [= <-]. split; [lia|done].
Qed.

Lemma ra_no_stale_lease_witness :
  (ra_run (wan_run ++ [(86400000000006, InTick)]) wan_receiver ≫= ra_currentPrefix) = None /\
  accepted_advert DefaultRAPolicy wan_run
    (default (mkPrefix netip.zero_prefix 0 0 SourceUnknown 0) (ra_run wan_run wan_receiver ≫= ra_currentPrefix)).
Proof.
  split; [vm_compute; reflexivity|].
  destruct (ra_no_stale_lease "wan0" DefaultRAPolicy true wan_run 86400000000005
    (default wan_receiver (ra_run (wan_run ++ [(86400000000005, InTick)]) wan_receiver))
    (default (mkPrefix netip.zero_prefix 0 0 SourceUnknown 0) (ra_run wan_run wan_receiver ≫= ra_currentPrefix)))
    as [_ H]; [apply wan_run_wf|vm_compute; reflexivity|vm_compute; reflexivity|exact H].
Defined.

(** The loop over an advertisement's options selects the first usable global
    prefix wherever it stands, else - only when global prefixes are not required -
    the first usable unique-local one, and counts one rejection per on-link option
    whose length the policy excludes. *)
Theorem ra_selection (now : Z) (opts : list ndp_option) (r : RAReceiver) :
  0 <= ra_rejected r < 2 ^ 64 ->
  let p := base_policy (ra_policy r) in
  let r' := handleRouterAdvertisement now opts r in
  ra_rejected r' = wrapu64 (ra_rejected r + Z.of_nat (count_out_of_bounds p opts)) /\
  match preferred p opts with
  | Some pi =>
      if 128 <? PI_PrefixLength pi then ra_currentPrefix r' = ra_currentPrefix r
      else ra_currentPrefix r' =
             Some (mkPrefix (netip.Masked (netip.PrefixFrom (PI_Prefix pi) (PI_PrefixLength pi)))
                     (PI_ValidLifetime pi) (PI_PreferredLifetime pi) SourceRouterAdvertisement now) /\
           LastError (ra_health r') = None
  | None => ra_currentPrefix r' = ra_currentPrefix r /\ ra_events r' = ra_events r
  end.
Proof.
  intros Hr p r'. subst p r'.
  destruct (handleRouterAdvertisement_spec now opts r Hr) as (r1 & -> & Hrej & _ & Hcur & Hev & _).
  destruct (preferred _ opts) as [pi|]; [|done]. by destruct (128 <? PI_PrefixLength pi).
Qed.

Lemma ra_selection_witness :
  ra_currentPrefix (handleRouterAdvertisement 5 [OptPrefixInformation ula_pio; OptPrefixInformation wan_pio] wan_receiver) =
  Some (mkPrefix (prefix_of_string "2001:db8:0:1::/64") 86400000000000 14400000000000 SourceRouterAdvertisement 5).
Proof.
  destruct (ra_selection 5 [OptPrefixInformation ula_pio; OptPrefixInformation wan_pio] wan_receiver)
    as [_ H]; [split; [vm_compute; discriminate|vm_compute; reflexivity]|].
  revert H. vm_compute. intros [H _]. exact H.
Defined.

(** An advertisement is processed exactly when its source is link-local and
    trusted and, where the socket reports hop limits, its hop limit is 255;
    otherwise it changes nothing but the rejection count and reason, and the
    reason is one of the four constants. *)
Theorem receive_step_screens (now : Z) (verify : bool) (from : netip.Addr) (cm : option Z)
    (opts : list ndp_option) (r : RAReceiver) :
  let r' := (receive_step now verify (ReadRA from cm opts) r).1 in
  (isLinkLocal from = true /\ Trusts (ra_policy r) from = true /\ (verify = true -> cm = Some 255) ->
   r' = handleRouterAdvertisement now opts r) /\
  (~ (isLinkLocal from = true /\ Trusts (ra_policy r) from = true /\ (verify = true -> cm = Some 255)) ->
   ra_currentPrefix r' = ra_currentPrefix r /\ ra_events r' = ra_events r /\
   ra_health r' = ra_health r /\ ra_control r' = ra_control r /\
   RARejections r' = (wrapu64 (ra_rejected r + 1), ra_lastReason r') /\
   ra_lastReason r' ∈ [rejectReasonNotLinkLocal; rejectReasonUntrustedSource;
                       rejectReasonHopLimitUnknown; rejectReasonForwarded]).
Proof.
  cbv zeta. pose proof (reject_accepts r from cm verify) as Hacc.
  assert ((rejectRouterAdvertisement r from cm verify).1 ∈ [EmptyString; rejectReasonNotLinkLocal;
    rejectReasonUntrustedSource; rejectReasonHopLimitUnknown; rejectReasonForwarded]) as Hreason.
  { unfold rejectRouterAdvertisement. repeat case_match; cbn [fst]; rewrite !elem_of_cons; tauto. }
  unfold receive_step. destruct (rejectRouterAdvertisement r from cm verify) as [reason detail].
  cbn [fst] in *. destruct (decide (reason = EmptyString)) as [->|Hne].
  - rewrite bool_decide_true by done. cbn [negb fst]. split; [done|]. intros Hn. by destruct Hn; apply Hacc.
  - rewrite bool_decide_false by done. cbn [negb fst]. split; [intros Hn; by destruct Hne; apply Hacc|].
    intros _. repeat split; try done. cbn [ra_lastReason recordRejection].
    apply elem_of_cons in Hreason as [?|?]; done.
Qed.

Lemma receive_step_screens_witness :
  ra_lastReason (receive_step 5 true (ReadRA (addr_of_string "fe80::1") (Some 64) [OptPrefixInformation wan_pio]) wan_receiver).1 =
    rejectReasonForwarded /\
  ra_currentPrefix (receive_step 5 true (ReadRA (addr_of_string "fe80::1") (Some 64) [OptPrefixInformation wan_pio]) wan_receiver).1 = None.
Proof.
  split; [vm_compute; reflexivity|].
  destruct (receive_step_screens 5 true (addr_of_string "fe80::1") (Some 64)
    [OptPrefixInformation wan_pio] wan_receiver) as [_ [H _]].
  - intros (_ & _ & H). by specialize (H eq_refl).
  - exact H.
Defined.

(** The count and the reason a receiver reports always belong together, and
    match what its observer was told: the count is the number of reasons handed
    to the observer, the reason the latest of them. *)
Theorem ra_rejections_consistent (iface : string) (pol : RAPolicy) (ins : list (Z * ra_input)) (r : RAReceiver) :
  ra_run ins (NewRAReceiverWithPolicy iface pol true) = Some r ->
  RARejections r = (wrapu64 (Z.of_nat (length (ra_observed r))),
                    default EmptyString (head (ra_observed r))).
Proof.
  intros Hr. assert (counted r) as (_ & H1 & H2).
  { assert (counted (NewRAReceiverWithPolicy iface pol true)) as H0 by done. revert Hr H0.
    generalize (NewRAReceiverWithPolicy iface pol true).
    induction ins as [|[now i] ins IH]; intros r0; cbn [ra_run]; [by intros [= ->]|].
    destruct (ra_step now i r0) as [r1|] eqn:Hs; cbn; [|done]. intros Hr H0.
    apply (IH r1); [done|]. by eapply ra_step_counted. }
  unfold RARejections. by rewrite H1, H2.
Qed.

Lemma ra_rejections_consistent_witness :
  RARejections (default wan_receiver (ra_run [(0, InStart started_env);
    (1, InRead true (ReadRA (addr_of_string "2001:db8::1") (Some 255) []))] wan_receiver)) =
  (wrapu64 1, rejectReasonNotLinkLocal).
Proof.
  rewrite (ra_rejections_consistent "wan0" DefaultRAPolicy [(0, InStart started_env);
    (1, InRead true (ReadRA (addr_of_string "2001:db8::1") (Some 255) []))]) by (vm_compute; reflexivity).
  vm_compute. reflexivity.
Defined.

(** At most [maxRouterSolicitations] solicitations are sent (3 when it is not
    positive), and none once a prefix is held at the first attempt. *)
Theorem solicitations_bounded (r : RAReceiver) (hwAddr : list Z) (env : Z -> attempt) :
  let sent := sendInitialRouterSolicitations r hwAddr env in
  Z.of_nat (length sent) <=
    (if ra_maxRouterSolicitations r <=? 0 then 3 else ra_maxRouterSolicitations r) /\
  (ra_currentPrefix (at_receiver (env 1)) <> None -> sent = []).
Proof.
  cbv zeta. unfold sendInitialRouterSolicitations, defaultMaxRouterSolicitations.
  set (m := if ra_maxRouterSolicitations r <=? 0 then 3 else ra_maxRouterSolicitations r).
  assert (1 <= m) as Hm by (unfold m; destruct (Z.leb_spec (ra_maxRouterSolicitations r) 0); lia).
  split.
  - assert (forall left n, (length (solicit_loop left n m hwAddr env) <= left)%nat) as H.
    { induction left as [|left IH]; intros n; cbn [solicit_loop]; [done|].
      specialize (IH (n + 1)). repeat case_match; cbn [length]; lia. }
    specialize (H (Z.to_nat m) 1). lia.
  - intros Hc. destruct (Z.to_nat m) eqn:E; [done|]. cbn [solicit_loop].
    by destruct (ra_currentPrefix (at_receiver (env 1))).
Qed.

Lemma solicitations_bounded_witness :
  sendInitialRouterSolicitations wan_receiver [] (fun _ => mkAttempt
    (handleRouterAdvertisement 5 [OptPrefixInformation wan_pio] wan_receiver) false None None false) = [].
Proof.
  apply (solicitations_bounded wan_receiver [] (fun _ => mkAttempt
    (handleRouterAdvertisement 5 [OptPrefixInformation wan_pio] wan_receiver) false None None false)).
  vm_compute. discriminate.
Defined.

(** An advertisement with an over-long global prefix in front of a usable one:
    without a maximum length it is selected, then dropped, and nothing is held. *)
Lemma overlong_option_shadows_usable :
  ra_currentPrefix (handleRouterAdvertisement 5
    [OptPrefixInformation (mkPIO 200 true 86400000000000 14400000000000 (addr_of_string "2001:db8:0:1::"));
     OptPrefixInformation wan_pio] wan_receiver) = None.
Proof. vm_compute. reflexivity. Qed.

(** The class test reads the unmasked address: a two-bit option under 2000::/3
    is held as ::/2 although global prefixes are required. *)
Lemma short_option_not_global :
  (Network <$> ra_currentPrefix (handleRouterAdvertisement 5
    [OptPrefixInformation (mkPIO 2 true 86400000000000 14400000000000 (addr_of_string "2001:db8::"))] wan_receiver)) =
  Some (prefix_of_string "::/2").
Proof. vm_compute. reflexivity. Qed.
