(* ===== verification/DHCPv6PD.v ===== *)
(** * The DHCPv6 prefix delegation client

    [internal/prefix/dhcpv6pd_receiver.go].  Messages are what the dhcpv6 package
    decodes, one field per accessor the code uses; the network is the environment
    of a call ([pd_env]: interface lookup, dialling, one answer per message sent,
    the clock).  [run_step] is one turn of [runLoop]. *)

From S2P Require Import Prelude GoStrings Netip NetipText Policy Receivers.

(** ** Messages *)

Definition DUID : Type := list Z.

(** A status option: code and message. *)
Record OptStatusCode : Type := mkStatus { StatusCode : Z; StatusMessage : string }.

Definition StatusSuccess : Z := 0.
Definition StatusNoBinding : Z := 3.

(** [net.IPNet]. *)
Record IPNet : Type := mkIPNet { IP : list Z; Mask : list Z }.

Record OptIAPrefix : Type := mkIAPrefix {
  IA_PreferredLifetime : Z;
  IA_ValidLifetime : Z;
  IA_Prefix : option IPNet
}.

Record OptIAPD : Type := mkIAPD {
  IaId : list Z;
  IAPD_T1 : Z;
  IAPD_T2 : Z;
  IAPD_Status : option OptStatusCode;
  IAPD_Prefixes : list OptIAPrefix
}.

Inductive MessageType : Type := Solicit | Advertise | Request | Renew | Rebind | Reply.

(** The options under code IA_PD are [Some] when they decode to [OptIAPD]. *)
Record Message : Type := mkMessage {
  M_Type : MessageType;
  M_ClientID : option DUID;
  M_ElapsedTime : Z;
  M_Status : option OptStatusCode;
  M_ServerID : option DUID;
  M_IAPD : list (option OptIAPD)
}.

(** [net.Interface]. *)
Record Interface : Type := mkInterface { If_Name : string; If_Index : Z; If_HardwareAddr : list Z }.

(** ** Masks *)

(** [net.CIDRMask(ones, 128)]: nil when out of range. *)
Definition CIDRMask (ones : Z) : list Z :=
  if ((ones <? 0) || (128 <? ones))%bool then []
  else netip.byte_of (netip.mask6 ones) <$> seq 0 16.

(** [IPMask.Size]: the number of leading ones, or (0, 0) for a mask that is not
    ones followed by zeros. *)
Definition mask_ones (bytes : list Z) : Z :=
  let len := Z.of_nat (length bytes) * 8 in
  let v := netip.be_value bytes in
  len - (if v =? 0 then len else Z.log2_up (2 ^ len - v)).

Definition Mask_Size (m : list Z) : Z * Z :=
  let len := Z.of_nat (length m) * 8 in
  let ones := mask_ones m in
  if netip.be_value m =? high_mask len ones then (ones, len) else (0, 0).

(** [netip.AddrFromSlice]. *)
Definition AddrFromSlice (bs : list Z) : option netip.Addr :=
  if (length bs =? 4)%nat then Some (netip.AddrFrom4 bs)
  else if (length bs =? 16)%nat then Some (netip.AddrFrom16 bs)
  else None.

(** ** State *)

Record dhcpv6Lease : Type := mkLease {
  L_IAID : list Z;
  L_Prefix : netip.Prefix;
  L_T1 : Z;
  L_T2 : Z;
  L_ValidLifetime : Z;
  L_PreferredLifetime : Z;
  L_ReceivedAt : Z;
  L_ServerID : DUID
}.

(** [pd_releases] counts the runs of [releaseInterface]. *)
Record DHCPv6PDReceiver : Type := mkPD {
  pd_iface : string;
  pd_requestedPrefixLength : Z;
  pd_policy : Policy;
  pd_health : healthTracker;
  pd_currentPrefix : option Prefix;
  pd_lease : option dhcpv6Lease;
  pd_events : list Event;
  pd_control : control;
  pd_acquireBackoffMin : Z;
  pd_acquireBackoffMax : Z;
  pd_releaseInterface : bool;      (* releaseInterface != nil *)
  pd_releaseOnce : bool;           (* releaseOnce has run *)
  pd_releases : nat
}.

Definition time_Second : Z := 1000000000.
Definition time_Minute : Z := 60 * time_Second.
Definition defaultInitialAcquireBackoff : Z := 10 * time_Second.
Definition defaultAcquireBackoffMax : Z := 5 * time_Minute.
Definition renewRetryInterval : Z := 30 * time_Second.

Definition NewDHCPv6PDReceiverWithPolicy (iface : string) (requestedPrefixLength : Z) (policy : Policy)
    : DHCPv6PDReceiver :=
  mkPD iface (if requestedPrefixLength =? 0 then 56 else requestedPrefixLength) policy
    (mkHealth None) None None [] new_control
    defaultInitialAcquireBackoff defaultAcquireBackoffMax false false 0.

Definition NewDHCPv6PDReceiver (iface : string) (requestedPrefixLength : Z) : DHCPv6PDReceiver :=
  NewDHCPv6PDReceiverWithPolicy iface requestedPrefixLength DefaultPolicy.

(** ** Start and Stop *)

Definition set_pd_control (k : control) (r : DHCPv6PDReceiver) : DHCPv6PDReceiver :=
  mkPD (pd_iface r) (pd_requestedPrefixLength r) (pd_policy r) (pd_health r) (pd_currentPrefix r)
    (pd_lease r) (pd_events r) k (pd_acquireBackoffMin r) (pd_acquireBackoffMax r)
    (pd_releaseInterface r) (pd_releaseOnce r) (pd_releases r).

Definition PD_Start (r : DHCPv6PDReceiver) : DHCPv6PDReceiver :=
  if started (pd_control r) then r else set_pd_control (control_start (pd_control r)) r.

Definition releaseClaimedInterface (r : DHCPv6PDReceiver) : DHCPv6PDReceiver :=
  if negb (pd_releaseInterface r) then r
  else if pd_releaseOnce r then r
  else mkPD (pd_iface r) (pd_requestedPrefixLength r) (pd_policy r) (pd_health r) (pd_currentPrefix r)
         (pd_lease r) (pd_events r) (pd_control r) (pd_acquireBackoffMin r) (pd_acquireBackoffMax r)
         (pd_releaseInterface r) true (S (pd_releases r)).

Definition PD_Stop (r0 : DHCPv6PDReceiver) : option DHCPv6PDReceiver :=
  let r := releaseClaimedInterface r0 in
  if negb (started (pd_control r)) then Some r
  else k ← control_stop (pd_control r); Some (set_pd_control k r).

(** ** Pacing *)

(** Durations are int64: the division truncates, the product wraps. *)
Definition nextBackoff (cur ceiling : Z) : Z :=
  if ((ceiling <=? cur) || (Z.quot ceiling 2 <? cur))%bool then ceiling else wrap64 (cur * 2).

(** [rand] is the draw of [rand.Int64N(2*spread+1)]. *)
Definition jittered (d rand : Z) : Z :=
  if d <=? 0 then d
  else
    let spread := Z.quot d 5 in
    if spread =? 0 then d else wrap64 (d + (rand - spread)).

Record acquireBackoff : Type := mkBackoff { b_min : Z; b_max : Z; b_cur : Z }.

Definition newAcquireBackoff (minDelay maxDelay : Z) : acquireBackoff :=
  mkBackoff minDelay maxDelay minDelay.
Definition b_current (b : acquireBackoff) : Z := b_cur b.
Definition b_wait (b : acquireBackoff) (rand : Z) : Z := jittered (b_cur b) rand.
Definition b_failed (b : acquireBackoff) : acquireBackoff :=
  mkBackoff (b_min b) (b_max b) (nextBackoff (b_cur b) (b_max b)).
Definition b_succeeded (b : acquireBackoff) : acquireBackoff :=
  mkBackoff (b_min b) (b_max b) (b_min b).

(** ** Events *)

Definition set_pd_lease (p : option Prefix) (l : option dhcpv6Lease) (h : healthTracker)
    (evs : list Event) (r : DHCPv6PDReceiver) : DHCPv6PDReceiver :=
  mkPD (pd_iface r) (pd_requestedPrefixLength r) (pd_policy r) h p l evs (pd_control r)
    (pd_acquireBackoffMin r) (pd_acquireBackoffMax r)
    (pd_releaseInterface r) (pd_releaseOnce r) (pd_releases r).

Definition pd_sendEvent (t : EventType) (p : option Prefix) (r : DHCPv6PDReceiver) : DHCPv6PDReceiver :=
  set_pd_lease (pd_currentPrefix r) (pd_lease r) (pd_health r)
    (chan_send (pd_events r) (mkEvent t p None)) r.

Definition pd_sendError (err : error) (r : DHCPv6PDReceiver) : DHCPv6PDReceiver :=
  set_pd_lease (pd_currentPrefix r) (pd_lease r) (recordFailure err (pd_health r))
    (chan_send (pd_events r) (mkEvent EventTypeFailed None (Some err))) r.

Definition dropLease (r : DHCPv6PDReceiver) : DHCPv6PDReceiver :=
  pd_sendEvent EventTypeExpired None (set_pd_lease None None (pd_health r) (pd_events r) r).

(** ** Exchanges *)

(** What the world answers: looking up the interface, dialling, creating a
    message, and the reply to each message sent. *)
Record pd_env : Type := mkPDEnv {
  env_lookup : outcome error Interface;
  env_dial : option error;
  env_newMessage : option error;
  env_send : Message -> MessageType -> outcome error Message;
  env_now : Z
}.

Definition errNoBinding : error := errors_New "the server holds no binding for this delegation".

(** The library prints a status code by name; its number stands for it here. *)
Definition statusError (status : option OptStatusCode) : option error :=
  match status with
  | None => None
  | Some s =>
      if StatusCode s =? StatusSuccess then None
      else if StatusCode s =? StatusNoBinding then Some (Errorf (StatusMessage s) errNoBinding)
      else Some (errors_New ("server reported " +:+ itoa (StatusCode s) +:+ ": " +:+ StatusMessage s))
  end.

(** Four bytes, big-endian. *)
Definition iaidForInterface (ifi : Interface) : outcome error (list Z) :=
  if ((If_Index ifi <=? 0) || (2 ^ 32 - 1 <? If_Index ifi))%bool
  then Fail (errors_New ("interface " +:+ If_Name ifi +:+ " has index " +:+ itoa (If_Index ifi) +:+
                         ", which does not fit an IAID"))
  else Ret ((fun i => Z.shiftr (If_Index ifi) (8 * (3 - Z.of_nat i)) mod 256) <$> seq 0 4).

Definition openClient (env : pd_env) (r : DHCPv6PDReceiver) : outcome error Interface :=
  match env_lookup env with
  | Ret ifi =>
      match env_dial env with
      | Some err => Fail (Errorf "failed to create DHCPv6 client" err)
      | None => Ret ifi
      end
  | Fail err => Fail (Errorf ("failed to get interface " +:+ pd_iface r) err)
  | Panic => Panic
  end.

(** A DUID-LL: hardware type Ethernet (1) and the link-layer address. *)
Definition generateDUID (ifi : Interface) : DUID := 1 :: If_HardwareAddr ifi.

Definition newPDMessage (env : pd_env) (mt : MessageType) (ifi : Interface) : outcome error Message :=
  match env_newMessage env with
  | Some err => Fail (Errorf "failed to create message" err)
  | None => Ret (mkMessage mt (Some (generateDUID ifi)) 0 None None [])
  end.

Definition add_server (s : DUID) (m : Message) : Message :=
  mkMessage (M_Type m) (M_ClientID m) (M_ElapsedTime m) (M_Status m) (Some s) (M_IAPD m).
Definition add_iapd (pd : option OptIAPD) (m : Message) : Message :=
  mkMessage (M_Type m) (M_ClientID m) (M_ElapsedTime m) (M_Status m) (M_ServerID m) (M_IAPD m ++ [pd]).

Definition iaPDHint (r : DHCPv6PDReceiver) (iaid : list Z) : OptIAPD :=
  mkIAPD iaid 0 0 None
    [mkIAPrefix 0 0 (Some (mkIPNet (replicate 16 0) (CIDRMask (pd_requestedPrefixLength r))))].

Definition iaPDForLease (lease : dhcpv6Lease) : OptIAPD :=
  mkIAPD (L_IAID lease) 0 0 None
    [mkIAPrefix (L_PreferredLifetime lease) (L_ValidLifetime lease)
       (Some (mkIPNet (netip.As16 (netip.ip (L_Prefix lease))) (CIDRMask (netip.Bits (L_Prefix lease)))))].

(** [SendAndRead], with the type of message its matcher accepts. *)
Definition send_and_read (env : pd_env) (what : string) (want : MessageType) (m : Message)
    : outcome error Message :=
  match env_send env m want with
  | Ret a => Ret a
  | Fail err => Fail (Errorf ("failed to receive " +:+ what) err)
  | Panic => Panic
  end.

(** The association with the expected identifier among the ones that decode. *)
Definition find_iapd (expectedIAID : list Z) (l : list (option OptIAPD)) : option OptIAPD :=
  foldr (fun o acc => match o with
                      | Some pd => if bool_decide (IaId pd = expectedIAID) then Some pd else acc
                      | None => acc
                      end) None l.

(** The first prefix with a positive lifetime that is present. *)
Definition find_prefix (l : list OptIAPrefix) : option (OptIAPrefix * IPNet) :=
  foldr (fun p acc => match IA_Prefix p with
                      | Some n => if 0 <? IA_ValidLifetime p then Some (p, n) else acc
                      | None => acc
                      end) None l.

Inductive reply_error : Type :=
| ErrReplyRefused (e : error)
| ErrNoMatchingIAPD
| ErrIAPDRefused (e : error)
| ErrNoPrefixes
| ErrNoValidPrefix
| ErrPrefixAddress
| ErrPrefixLength
| ErrPolicy (e : policy_error).

(** The error as [runLoop] sees it: only the status errors wrap another. *)
Definition reply_error_of (e : reply_error) : error :=
  match e with
  | ErrReplyRefused err => Errorf "REPLY was refused" err
  | ErrNoMatchingIAPD => errors_New "REPLY did not contain matching IA_PD"
  | ErrIAPDRefused err => Errorf "IA_PD was refused" err
  | ErrNoPrefixes => errors_New "IA_PD did not contain any prefixes"
  | ErrNoValidPrefix => errors_New "no valid prefix in IA_PD"
  | ErrPrefixAddress => errors_New "invalid prefix address"
  | ErrPrefixLength => errors_New "invalid prefix length in IA_PD"
  | ErrPolicy _ => errors_New "rejecting delegated prefix from IA_PD"
  end.

(** [t1], [t2]: the server's, or half and four fifths of the lifetime. *)
Definition renew_times (pd : OptIAPD) (valid : Z) : Z * Z :=
  (if IAPD_T1 pd =? 0 then Z.quot valid 2 else IAPD_T1 pd,
   if IAPD_T2 pd =? 0 then Z.quot (wrap64 (valid * 4)) 5 else IAPD_T2 pd).

(** The lease a reply carries: everything [processIAPDReply] computes before it
    takes the lock. *)
Definition reply_lease (policy : Policy) (reply : Message) (expectedIAID : list Z) (serverID : DUID)
    (now : Z) : outcome reply_error dhcpv6Lease :=
  match statusError (M_Status reply) with
  | Some err => Fail (ErrReplyRefused err)
  | None =>
      match find_iapd expectedIAID (M_IAPD reply) with
      | None => Fail ErrNoMatchingIAPD
      | Some iaPD =>
          match statusError (IAPD_Status iaPD) with
          | Some err => Fail (ErrIAPDRefused err)
          | None =>
              if (length (IAPD_Prefixes iaPD) =? 0)%nat then Fail ErrNoPrefixes
              else match find_prefix (IAPD_Prefixes iaPD) with
                   | None => Fail ErrNoValidPrefix
                   | Some (best, ipnet) =>
                       match AddrFromSlice (IP ipnet) with
                       | None => Fail ErrPrefixAddress
                       | Some addr =>
                           let (ones, bits) := Mask_Size (Mask ipnet) in
                           if (negb (bits =? 128) || (ones =? 0))%bool then Fail ErrPrefixLength
                           else
                             let prefix := netip.Masked (netip.PrefixFrom addr ones) in
                             match Validate policy prefix with
                             | Some e => Fail (ErrPolicy e)
                             | None =>
                                 let (t1, t2) := renew_times iaPD (IA_ValidLifetime best) in
                                 Ret (mkLease expectedIAID prefix t1 t2 (IA_ValidLifetime best)
                                        (IA_PreferredLifetime best) now serverID)
                             end
                       end
                   end
          end
      end
  end.

Definition prefix_of_lease (l : dhcpv6Lease) : Prefix :=
  mkPrefix (L_Prefix l) (L_ValidLifetime l) (L_PreferredLifetime l) SourceDHCPv6PD (L_ReceivedAt l).

Definition processIAPDReply (env : pd_env) (reply : Message) (expectedIAID : list Z) (serverID : DUID)
    (r : DHCPv6PDReceiver) : DHCPv6PDReceiver * outcome error unit :=
  match reply_lease (pd_policy r) reply expectedIAID serverID (env_now env) with
  | Fail e => (r, Fail (reply_error_of e))
  | Panic => (r, Panic)
  | Ret newLease =>
      let oldPrefix := pd_currentPrefix r in
      let p := prefix_of_lease newLease in
      let r1 := set_pd_lease (Some p) (Some newLease) (recordSuccess (pd_health r)) (pd_events r) r in
      (pd_sendEvent (event_type_for oldPrefix (L_Prefix newLease)) (Some p) r1, Ret tt)
  end.

(** The four messages, in the order the code builds them. *)
Definition acquirePrefix (env : pd_env) (r : DHCPv6PDReceiver) : DHCPv6PDReceiver * outcome error unit :=
  let exchange :=
    (let* ifi := openClient env r in
     let* iaid := iaidForInterface ifi in
     let* solicit := newPDMessage env Solicit ifi in
     let* advertise := send_and_read env "ADVERTISE" Advertise (add_iapd (Some (iaPDHint r iaid)) solicit) in
     let* advIAPD := match head (M_IAPD advertise) with
                     | None => Fail (errors_New "ADVERTISE did not contain IA_PD")
                     | Some o => Ret o
                     end in
     let* _ := match advIAPD with
               | Some pd => guard_err (Errorf "ADVERTISE offered no delegation" <$> statusError (IAPD_Status pd))
                              (Ret tt)
               | None => Ret tt
               end in
     let* serverID := match M_ServerID advertise with
                      | None => Fail (errors_New "ADVERTISE did not contain Server ID")
                      | Some s => Ret s
                      end in
     let* request := newPDMessage env Request ifi in
     let* reply := send_and_read env "REPLY" Reply (add_iapd advIAPD (add_server serverID request)) in
     Ret (reply, iaid, serverID))%go in
  match exchange with
  | Ret (reply, iaid, serverID) => processIAPDReply env reply iaid serverID r
  | Fail e => (r, Fail e)
  | Panic => (r, Panic)
  end.

Definition renewPrefix (env : pd_env) (r : DHCPv6PDReceiver) : DHCPv6PDReceiver * outcome error unit :=
  match pd_lease r with
  | None => (r, Fail (errors_New "no lease to renew"))
  | Some lease =>
      let exchange :=
        (let* ifi := openClient env r in
         let* renew := newPDMessage env Renew ifi in
         send_and_read env "REPLY for RENEW" Reply
           (add_iapd (Some (iaPDForLease lease)) (add_server (L_ServerID lease) renew)))%go in
      match exchange with
      | Ret reply => processIAPDReply env reply (L_IAID lease) (L_ServerID lease) r
      | Fail e => (r, Fail e)
      | Panic => (r, Panic)
      end
  end.

Definition rebindPrefix (env : pd_env) (r : DHCPv6PDReceiver) : DHCPv6PDReceiver * outcome error unit :=
  match pd_lease r with
  | None => (r, Fail (errors_New "no lease to rebind"))
  | Some lease =>
      let exchange :=
        (let* ifi := openClient env r in
         let* rebind := newPDMessage env Rebind ifi in
         let* reply := send_and_read env "REPLY for REBIND" Reply
                         (add_iapd (Some (iaPDForLease lease)) rebind) in
         match M_ServerID reply with
         | None => Fail (errors_New "REPLY did not contain Server ID")
         | Some s => Ret (reply, s)
         end)%go in
      match exchange with
      | Ret (reply, serverID) => processIAPDReply env reply (L_IAID lease) serverID r
      | Fail e => (r, Fail e)
      | Panic => (r, Panic)
      end
  end.

(** ** The loop *)

(** What one turn meets: whether the receiver was stopped before or during the
    wait, the clock, the random draw, and the network for the first exchange and
    for the rebind. *)
Record turn : Type := mkTurn {
  t_stopped : bool;
  t_now : Z;
  t_rand : Z;
  t_waitInterrupted : bool;
  t_env : pd_env;
  t_rebindEnv : pd_env
}.

Inductive loop_result : Type :=
| LoopStop (r : DHCPv6PDReceiver)
| LoopContinue (r : DHCPv6PDReceiver) (b : acquireBackoff) (waited : Z)
| LoopPanic.

(** [now.Sub(t)] saturates. *)
Definition time_Sub (a b : Z) : Z := Z.max (- 2 ^ 63) (Z.min (2 ^ 63 - 1) (a - b)).

(** The turn without a lease: wait, then solicit. *)
Definition acquire_turn (t : turn) (r : DHCPv6PDReceiver) (b : acquireBackoff) : loop_result :=
  let d := b_wait b (t_rand t) in
  if t_waitInterrupted t then LoopStop r
  else match acquirePrefix (t_env t) r with
       | (r', Ret _) => LoopContinue r' (b_succeeded b) d
       | (r', Fail err) => LoopContinue (pd_sendError (Errorf "prefix acquisition failed" err) r') (b_failed b) d
       | (_, Panic) => LoopPanic
       end.

(** The turn at or after T1. *)
Definition renew_turn (t : turn) (lease : dhcpv6Lease) (elapsed : Z) (r : DHCPv6PDReceiver)
    (b : acquireBackoff) : loop_result :=
  match renewPrefix (t_env t) r with
  | (r', Ret _) => LoopContinue r' b 0
  | (_, Panic) => LoopPanic
  | (r', Fail err) =>
      let r1 := pd_sendError (Errorf "prefix renewal failed" err) r' in
      if errors_Is err errNoBinding then LoopContinue (dropLease r1) b 0
      else if L_T2 lease <=? elapsed then
        match rebindPrefix (t_rebindEnv t) r1 with
        | (r2, Ret _) => LoopContinue r2 b 0
        | (_, Panic) => LoopPanic
        | (r2, Fail err2) =>
            LoopContinue (dropLease (pd_sendError (Errorf "prefix rebind failed" err2) r2)) b 0
        end
      else if t_waitInterrupted t then LoopStop r1
      else LoopContinue r1 b renewRetryInterval
  end.

Definition run_step (t : turn) (r : DHCPv6PDReceiver) (b : acquireBackoff) : loop_result :=
  if t_stopped t then LoopStop r
  else match pd_lease r with
       | None => acquire_turn t r b
       | Some lease =>
           let elapsed := time_Sub (t_now t) (L_ReceivedAt lease) in
           if L_T1 lease <=? elapsed then renew_turn t lease elapsed r b
           else
             let sleep := wrap64 (L_T1 lease - elapsed) in
             let sleepDuration := if time_Minute <? sleep then time_Minute else sleep in
             if t_waitInterrupted t then LoopStop r else LoopContinue r b sleepDuration
       end.

(** The start of [runLoop]: the initial acquisition. *)
Definition run_start (env : pd_env) (r : DHCPv6PDReceiver) : loop_result :=
  let b := newAcquireBackoff (pd_acquireBackoffMin r) (pd_acquireBackoffMax r) in
  match acquirePrefix env r with
  | (r', Ret _) => LoopContinue r' b 0
  | (r', Fail err) => LoopContinue (pd_sendError (Errorf "initial prefix acquisition failed" err) r') (b_failed b) 0
  | (_, Panic) => LoopPanic
  end.

Fixpoint run_loop (ts : list turn) (st : loop_result) : loop_result :=
  match ts, st with
  | t :: ts', LoopContinue r b _ => run_loop ts' (run_step t r b)
  | _, _ => st
  end.

Definition runLoop (env : pd_env) (ts : list turn) (r : DHCPv6PDReceiver) : loop_result :=
  run_loop ts (run_start env r).

(** ** The receiver interface *)

Definition PD_recv (r : DHCPv6PDReceiver) : DHCPv6PDReceiver :=
  set_pd_lease (pd_currentPrefix r) (pd_lease r) (pd_health r) (tail (pd_events r)) r.

#[global] Instance DHCPv6PDReceiver_ops : ReceiverOps unit DHCPv6PDReceiver := {
  rStart _ r := (PD_Start r, None);
  rStop _ r := (fun r' => (r', None)) <$> PD_Stop r;
  rEvents := pd_events;
  rRecv := PD_recv;
  rCurrentPrefix := pd_currentPrefix;
  rSource _ := SourceDHCPv6PD;
  rRunning r := started (pd_control r)
}.

Definition pd_ok (r : DHCPv6PDReceiver) : Prop :=
  control_ok (pd_control r) /\ (length (pd_events r) <= event_cap)%nat.

Lemma releaseClaimedInterface_fields r :
  let r' := releaseClaimedInterface r in
  pd_control r' = pd_control r /\ pd_events r' = pd_events r /\ pd_policy r' = pd_policy r /\
  pd_lease r' = pd_lease r /\ pd_currentPrefix r' = pd_currentPrefix r.
Proof. unfold releaseClaimedInterface. by destruct (negb _), (pd_releaseOnce r). Qed.

Lemma releaseClaimedInterface_idem r :
  releaseClaimedInterface (releaseClaimedInterface r) = releaseClaimedInterface r.
Proof.
  unfold releaseClaimedInterface. destruct (pd_releaseInterface r) eqn:Hr; cbn [negb]; [|by rewrite Hr].
  destruct (pd_releaseOnce r) eqn:Ho; cbn; by rewrite ?Hr, ?Ho.
Qed.

Lemma release_set_control k r :
  releaseClaimedInterface (set_pd_control k r) = set_pd_control k (releaseClaimedInterface r).
Proof. unfold releaseClaimedInterface. cbn. by destruct (negb _), (pd_releaseOnce r). Qed.

Lemma PD_Stop_ok r : pd_ok r ->
  exists k, PD_Stop r = Some (set_pd_control k (releaseClaimedInterface r)) /\
    control_ok k /\ started k = false.
Proof.
  intros [Hk _]. unfold PD_Stop. destruct (releaseClaimedInterface_fields r) as (Hc & _). rewrite Hc.
  destruct (started (pd_control r)) eqn:Hs; cbn [negb].
  - destruct (control_stop_ok _ Hk Hs) as (k & -> & ? & ?). cbn. by exists k.
  - exists (pd_control r). split; [|done]. f_equal. rewrite <- Hc. by destruct (releaseClaimedInterface r).
Qed.

#[global] Program Instance DHCPv6PDReceiver_laws : ReceiverLaws unit DHCPv6PDReceiver := { rOk := pd_ok }.
Next Obligation.
  intros [] r [Hk Hc]. cbn. unfold PD_Start. destruct (started _) eqn:Hs; [done|].
  split; cbn; [by apply control_start_ok|done].
Qed.
Next Obligation.
  intros [] r Hok. destruct (PD_Stop_ok r Hok) as (k & Hs & Hk & Hst). cbn. rewrite Hs.
  eexists _, _. split; [done|]. destruct (releaseClaimedInterface_fields r) as (_ & He & _).
  split; [|done]. split; [done|]. cbn. rewrite He. apply Hok.
Qed.
Next Obligation. intros r [Hk Hc]. split; [done|]. by apply tail_cap. Qed.
Next Obligation. by intros r. Qed.
Next Obligation.
  intros [] r s' e _ [= <- <-]. cbn. unfold PD_Start. by destruct (started (pd_control r)) eqn:Hs.
Qed.
Next Obligation.
  intros [] [] r s'. cbn. intros [= <-]. unfold PD_Start. destruct (started (pd_control r)) eqn:Hs; cbn; by rewrite ?Hs.
Qed.
Next Obligation.
  intros [] [] r s' e Hok. destruct (PD_Stop_ok r Hok) as (k & Hs & Hk & Hst). cbn. rewrite Hs.
  cbn. intros [= <- <-]. unfold PD_Stop. rewrite release_set_control, releaseClaimedInterface_idem.
  cbn. by rewrite Hst.
Qed.
Next Obligation. by intros r [_ ?]. Qed.

(** * Lemmas *)

(** ** Pacing *)

Definition backoff_ok (b : acquireBackoff) : Prop :=
  0 < b_min b /\ b_min b <= b_cur b <= b_max b /\ b_max b < 2 ^ 62.

Lemma nextBackoff_spec cur ceiling : 0 < cur <= ceiling -> ceiling < 2 ^ 62 ->
  nextBackoff cur ceiling = Z.min (2 * cur) ceiling.
Proof.
  intros Hc Hm. unfold nextBackoff. rewrite Z.quot_div_nonneg by lia.
  pose proof (Z.div_mod ceiling 2 ltac:(lia)). pose proof (Z.mod_pos_bound ceiling 2 ltac:(lia)).
  destruct (Z.leb_spec ceiling cur), (Z.ltb_spec (ceiling / 2) cur); cbn [orb]; try lia.
  rewrite wrap64_id; lia.
Qed.

Lemma b_failed_ok b : backoff_ok b -> backoff_ok (b_failed b).
Proof.
  intros (H0 & Hc & Hm). unfold backoff_ok, b_failed. cbn. rewrite nextBackoff_spec by lia. lia.
Qed.

Lemma b_succeeded_ok b : backoff_ok b -> backoff_ok (b_succeeded b).
Proof. intros (H0 & Hc & Hm). unfold backoff_ok. cbn. lia. Qed.

(** The draw is at most twice the spread. *)
Lemma jittered_bounds d rand : 0 < d < 2 ^ 62 -> 0 <= rand <= 2 * (d / 5) ->
  4 * d <= 5 * jittered d rand <= 6 * d.
Proof.
  intros Hd Hr. unfold jittered. rewrite Z.quot_div_nonneg by lia.
  pose proof (Z.div_mod d 5 ltac:(lia)). pose proof (Z.mod_pos_bound d 5 ltac:(lia)).
  destruct (Z.leb_spec d 0); [lia|]. destruct (Z.eqb_spec (d / 5) 0); [lia|].
  rewrite wrap64_id; lia.
Qed.

#[export] Hint Resolve b_failed_ok b_succeeded_ok : receiver.

(** ** Replies *)

Definition second_range (d : Z) : Prop := 0 <= d <= (2 ^ 32 - 1) * time_Second.

Definition iapd_wf (pd : OptIAPD) : Prop :=
  second_range (IAPD_T1 pd) /\ second_range (IAPD_T2 pd) /\
  Forall (fun p => (IA_ValidLifetime p = 0 \/ time_Second <= IA_ValidLifetime p) /\
                   second_range (IA_ValidLifetime p) /\
                   forall n, IA_Prefix p = Some n -> Forall byte_ok (IP n)) (IAPD_Prefixes pd).

(** What the decoder gives: lifetimes are 32-bit seconds, addresses bytes. *)
Definition message_wf (m : Message) : Prop :=
  forall pd, Some pd ∈ M_IAPD m -> iapd_wf pd.

Definition env_wf (env : pd_env) : Prop :=
  (forall m k a, env_send env m k = Ret a -> message_wf a) /\
  (forall m k, env_send env m k <> Panic) /\ env_lookup env <> Panic.

Lemma find_iapd_some iaid l pd : find_iapd iaid l = Some pd -> Some pd ∈ l /\ IaId pd = iaid.
Proof.
  unfold find_iapd. induction l as [|[x|] l IH]; cbn; [done| |].
  - case_bool_decide as H; [intros [= ->]; split; [by left|done]|].
    intros Hf. apply IH in Hf as [? ?]. split; [by right|done].
  - intros Hf. apply IH in Hf as [? ?]. split; [by right|done].
Qed.

Lemma find_prefix_some l p n : find_prefix l = Some (p, n) ->
  p ∈ l /\ 0 < IA_ValidLifetime p /\ IA_Prefix p = Some n.
Proof.
  unfold find_prefix. induction l as [|x l IH]; cbn; [done|].
  destruct (IA_Prefix x) as [m|] eqn:Hx.
  - destruct (Z.ltb_spec 0 (IA_ValidLifetime x)).
    + intros [= <- <-]. split; [by left|done].
    + intros Hf. apply IH in Hf as (? & ? & ?). split; [by right|done].
  - intros Hf. apply IH in Hf as (? & ? & ?). split; [by right|done].
Qed.

(** What holds of every lease. *)
Definition lease_ok (pol : Policy) (l : dhcpv6Lease) : Prop :=
  Validate pol (L_Prefix l) = None /\ netip.Masked (L_Prefix l) = L_Prefix l /\
  netip.prefix6 (L_Prefix l) /\ time_Second <= L_ValidLifetime l /\
  second_range (L_ValidLifetime l) /\
  0 < L_T1 l <= (2 ^ 32 - 1) * time_Second.

Lemma AddrFromSlice_wf bs a : AddrFromSlice bs = Some a -> Forall byte_ok bs -> netip.Is6 a = true ->
  netip.addr_wf a.
Proof.
  unfold AddrFromSlice. destruct (Nat.eqb_spec (length bs) 4); [intros [= <-] _; done|].
  destruct (Nat.eqb_spec (length bs) 16); [|done]. intros [= <-] Hb _. by apply AddrFrom16_wf.
Qed.

Lemma Masked_is6 p : netip.Is6 (netip.ip (netip.Masked p)) = true -> netip.Is6 (netip.ip p) = true.
Proof.
  unfold netip.Masked, netip.AddrPrefix. destruct (netip.Bits p <? 0); [done|].
  unfold netip.Is6. destruct (netip.z (netip.ip p)); [done| |done]. by destruct (32 <? netip.Bits p).
Qed.

Lemma Validate_valid6 pol p : Validate pol p = None ->
  netip.IsValid p = true /\ netip.Is6 (netip.ip p) = true /\ 0 < netip.Bits p.
Proof.
  unfold Validate, ValidateDelegatedPrefix.
  destruct (netip.IsValid p); cbn [negb]; [|done].
  destruct (netip.Is6 (netip.ip p)); cbn [negb orb]; [|done].
  destruct (netip.Is4In6 (netip.ip p)); [done|].
  destruct (Z.leb_spec (netip.Bits p) 0); [done|]. done.
Qed.

Lemma Masked_valid p : netip.IsValid (netip.Masked p) = true -> 0 <= netip.Bits p.
Proof.
  unfold netip.Masked, netip.AddrPrefix. by destruct (Z.ltb_spec (netip.Bits p) 0).
Qed.

Lemma renew_times_ok pd p : iapd_wf pd -> p ∈ IAPD_Prefixes pd -> 0 < IA_ValidLifetime p ->
  0 < (renew_times pd (IA_ValidLifetime p)).1 <= (2 ^ 32 - 1) * time_Second.
Proof.
  intros (H1 & _ & Hps) Hin Hpos. rewrite Forall_forall in Hps. destruct (Hps p Hin) as (Hv & Hr & _).
  unfold renew_times, second_range, time_Second in *. cbn [fst].
  destruct (Z.eqb_spec (IAPD_T1 pd) 0); [|lia]. rewrite Z.quot_div_nonneg by lia.
  pose proof (Z.div_mod (IA_ValidLifetime p) 2 ltac:(lia)).
  pose proof (Z.mod_pos_bound (IA_ValidLifetime p) 2 ltac:(lia)). lia.
Qed.

Lemma reply_lease_ok pol reply iaid sid now l :
  message_wf reply -> reply_lease pol reply iaid sid now = Ret l ->
  lease_ok pol l /\ L_ReceivedAt l = now /\ L_IAID l = iaid /\ L_ServerID l = sid.
Proof.
  intros Hwf. unfold reply_lease. destruct (statusError (M_Status reply)); [done|].
  destruct (find_iapd iaid (M_IAPD reply)) as [pd|] eqn:Hpd; [|done].
  apply find_iapd_some in Hpd as [Hpd _]. pose proof (Hwf pd Hpd) as Hpdwf.
  destruct (statusError (IAPD_Status pd)); [done|].
  destruct (length _ =? 0)%nat; [done|]. destruct (find_prefix _) as [[best n]|] eqn:Hbest; [|done].
  apply find_prefix_some in Hbest as (Hin & Hpos & Hn).
  destruct (AddrFromSlice (IP n)) as [a|] eqn:Ha; [|done].
  destruct (Mask_Size (Mask n)) as [ones bits]. destruct (_ || _)%bool; [done|].
  set (q := netip.PrefixFrom a ones). destruct (Validate pol (netip.Masked q)) eqn:Hval; [done|].
  pose proof (renew_times_ok pd best Hpdwf Hin Hpos) as Ht1.
  destruct (renew_times pd (IA_ValidLifetime best)) as [t1 t2]. cbn [fst] in Ht1. intros [= <-].
  split; [|done]. destruct (Validate_valid6 _ _ Hval) as (Hv & H6 & _).
  apply Masked_valid in Hv. apply Masked_is6 in H6.
  destruct Hpdwf as (_ & _ & Hps). rewrite Forall_forall in Hps. destruct (Hps best Hin) as (Hl & Hr & Hb).
  assert (netip.Is6 a = true) as Ha6.
  { revert H6. unfold q, netip.PrefixFrom, netip.withoutZone, netip.WithZone, netip.Is6. by destruct a as [x []]. }
  assert (netip.prefix6 q) as Hq.
  { pose proof (AddrFromSlice_wf _ _ Ha (Hb n Hn) Ha6) as Hwfa. apply PrefixFrom6; [done|done|].
    revert Hv. unfold q, netip.PrefixFrom, netip.Bits, netip.IsValidAddr, netip.BitLen.
    unfold netip.Is6 in Ha6. destruct (netip.z a); try done. cbn [netip.bitsPlusOne andb].
    rewrite bool_decide_false by done. cbn [negb andb].
    destruct (Z.leb_spec 0 ones), (Z.leb_spec ones 128); cbn [andb]; lia. }
  split; [done|]. split; [by apply Masked6_idem|]. split; [by apply Masked6_wf|].
  cbn [L_ValidLifetime L_T1]. split; [|done]. destruct Hl; lia.
Qed.

(** ** The invariant of the loop *)

Definition pd_inv (pol : Policy) (r : DHCPv6PDReceiver) : Prop :=
  pd_policy r = pol /\ pd_ok r /\
  match pd_lease r with
  | None => pd_currentPrefix r = None
  | Some l => pd_currentPrefix r = Some (prefix_of_lease l) /\ lease_ok pol l
  end.

(** An exchange either installs a lease received now or leaves the receiver as it
    was. *)
Definition exchange_ok (pol : Policy) (env : pd_env) (r : DHCPv6PDReceiver)
    (res : DHCPv6PDReceiver * outcome error unit) : Prop :=
  match res.2 with
  | Ret _ => pd_inv pol res.1 /\ exists l, pd_lease res.1 = Some l /\ L_ReceivedAt l = env_now env
  | Fail _ => res.1 = r
  | Panic => False
  end.

Lemma process_ok pol env reply iaid sid r :
  message_wf reply -> pd_inv pol r -> exchange_ok pol env r (processIAPDReply env reply iaid sid r).
Proof.
  intros Hwf (Hp & (Hk & Hc) & _). unfold processIAPDReply, exchange_ok.
  destruct (reply_lease _ _ _ _ _) as [l|e|] eqn:Hl; cbn [fst snd]; [|done|].
  - rewrite Hp in Hl. apply reply_lease_ok in Hl as (Hok & Hnow & _); [|done]. split.
    + split; [done|]. split; [split; [done|by apply chan_send_cap]|]. by split.
    + by exists l.
  - unfold reply_lease in Hl. by repeat case_match.
Qed.

Lemma iaid_no_panic ifi : iaidForInterface ifi <> Panic.
Proof. unfold iaidForInterface. by destruct (_ || _)%bool. Qed.

Lemma openClient_no_panic env r : env_wf env -> openClient env r <> Panic.
Proof.
  intros (_ & _ & Hl). unfold openClient. destruct (env_lookup env); [|done|done]. by destruct (env_dial env).
Qed.

Lemma newPDMessage_no_panic env mt ifi : newPDMessage env mt ifi <> Panic.
Proof. unfold newPDMessage. by destruct (env_newMessage env). Qed.

Lemma send_and_read_wf env what want m : env_wf env ->
  send_and_read env what want m <> Panic /\
  forall a, send_and_read env what want m = Ret a -> message_wf a.
Proof.
  intros (Hs & Hn & _). unfold send_and_read. specialize (Hn m want).
  destruct (env_send env m want) eqn:E; try done. split; [done|]. intros a' [= <-]. by eapply Hs.
Qed.

(** Case on the next call of an exchange. *)
Ltac next_call H :=
  match goal with
  | |- context [obind ?m _] => destruct m eqn:H; cbn [obind]; [|done|try (exfalso; done)]
  end.

Lemma acquire_ok pol env r : env_wf env -> pd_inv pol r -> exchange_ok pol env r (acquirePrefix env r).
Proof.
  intros Hwf Hinv. unfold acquirePrefix.
  next_call Ho; [|by apply openClient_no_panic in Ho].
  next_call Hi; [|by apply iaid_no_panic in Hi].
  next_call Hm; [|by apply newPDMessage_no_panic in Hm].
  destruct (send_and_read_wf env "ADVERTISE" Advertise (add_iapd (Some (iaPDHint r a0)) a1) Hwf) as [Hp _].
  next_call Ha.
  next_call Hh; [|by destruct (head (M_IAPD a2))].
  next_call Hst; [|destruct a3 as [pd|]; [|done]; by destruct (statusError (IAPD_Status pd))].
  next_call Hsid; [|by destruct (M_ServerID a2)].
  next_call Hm2; [|by apply newPDMessage_no_panic in Hm2].
  destruct (send_and_read_wf env "REPLY" Reply (add_iapd a3 (add_server a5 a6)) Hwf) as [Hp2 Hw].
  next_call Hr. by apply process_ok; [apply Hw|].
Qed.

Lemma renew_ok pol env r : env_wf env -> pd_inv pol r -> exchange_ok pol env r (renewPrefix env r).
Proof.
  intros Hwf Hinv. unfold renewPrefix. destruct (pd_lease r) as [l|]; [|done].
  next_call Ho; [|by apply openClient_no_panic in Ho].
  next_call Hm; [|by apply newPDMessage_no_panic in Hm].
  destruct (send_and_read_wf env "REPLY for RENEW" Reply
    (add_iapd (Some (iaPDForLease l)) (add_server (L_ServerID l) a0)) Hwf) as [Hp Hw].
  destruct (send_and_read _ _ _ _) eqn:Hr; [|done|done]. by apply process_ok; [apply Hw|].
Qed.

Lemma rebind_ok pol env r : env_wf env -> pd_inv pol r -> exchange_ok pol env r (rebindPrefix env r).
Proof.
  intros Hwf Hinv. unfold rebindPrefix. destruct (pd_lease r) as [l|]; [|done].
  next_call Ho; [|by apply openClient_no_panic in Ho].
  next_call Hm; [|by apply newPDMessage_no_panic in Hm].
  destruct (send_and_read_wf env "REPLY for REBIND" Reply (add_iapd (Some (iaPDForLease l)) a0) Hwf) as [Hp Hw].
  next_call Hr. destruct (M_ServerID a1); [|done]. by apply process_ok; [apply Hw|].
Qed.

Lemma sendError_inv pol err r : pd_inv pol r -> pd_inv pol (pd_sendError err r).
Proof. intros (? & (? & ?) & ?). split; [done|]. split; [split; [done|by apply chan_send_cap]|done]. Qed.

Lemma dropLease_inv pol r : pd_inv pol r -> pd_inv pol (dropLease r).
Proof. intros (? & (? & ?) & ?). split; [done|]. split; [split; [done|by apply chan_send_cap]|done]. Qed.

#[export] Hint Resolve sendError_inv dropLease_inv : receiver.

Definition turn_wf (t : turn) : Prop := env_wf (t_env t) /\ env_wf (t_rebindEnv t).

(** What a turn does, on every path. [waited] is what paces the loop. *)
Definition turn_post (pol : Policy) (t : turn) (r : DHCPv6PDReceiver) (res : loop_result) : Prop :=
  match res with
  | LoopPanic => False
  | LoopStop r' => pd_inv pol r'
  | LoopContinue r' b' waited =>
      pd_inv pol r' /\ backoff_ok b' /\
      (0 < waited \/
       (exists l, pd_lease r' = Some l /\
          (L_ReceivedAt l = env_now (t_env t) \/ L_ReceivedAt l = env_now (t_rebindEnv t))) \/
       (pd_lease r <> None /\ pd_lease r' = None))
  end.

Lemma acquire_turn_post pol t r b :
  turn_wf t -> pd_inv pol r -> backoff_ok b -> 0 <= t_rand t <= 2 * (b_cur b / 5) ->
  turn_post pol t r (acquire_turn t r b).
Proof.
  intros (Hw & _) Hinv Hb Hr. unfold acquire_turn. destruct (t_waitInterrupted t); [done|].
  assert (0 < b_wait b (t_rand t)) as Hpos.
  { unfold b_wait. destruct Hb as (? & ? & ?).
    pose proof (jittered_bounds (b_cur b) (t_rand t) ltac:(lia) Hr). lia. }
  pose proof (acquire_ok pol (t_env t) r Hw Hinv) as Hex. unfold exchange_ok in Hex.
  destruct (acquirePrefix (t_env t) r) as [r' [u|e|]]; cbn [fst snd] in Hex; [| |done].
  - destruct Hex as [? _]. cbn. auto with receiver.
  - subst r'. cbn. auto with receiver.
Qed.

Lemma renew_turn_post pol t l elapsed r b :
  turn_wf t -> pd_inv pol r -> backoff_ok b -> pd_lease r = Some l ->
  turn_post pol t r (renew_turn t l elapsed r b).
Proof.
  intros (Hw & Hw2) Hinv Hb Hl. unfold renew_turn.
  pose proof (renew_ok pol (t_env t) r Hw Hinv) as Hex. unfold exchange_ok in Hex.
  destruct (renewPrefix (t_env t) r) as [r' [u|e|]]; cbn [fst snd] in Hex; [| |done].
  { destruct Hex as [? (l' & ? & ?)]. cbn. do 2 (split; [done|]). right. left. eauto. }
  subst r'. set (r1 := pd_sendError _ r).
  assert (pd_inv pol r1) as Hinv1 by (by apply sendError_inv).
  destruct (errors_Is e errNoBinding).
  { cbn. split; [by apply dropLease_inv|]. split; [done|]. right. right. by rewrite Hl. }
  destruct (L_T2 l <=? elapsed).
  - pose proof (rebind_ok pol (t_rebindEnv t) r1 Hw2 Hinv1) as Hex2. unfold exchange_ok in Hex2.
    destruct (rebindPrefix (t_rebindEnv t) r1) as [r2 [u|e2|]]; cbn [fst snd] in Hex2; [| |done].
    + destruct Hex2 as [? (l' & ? & ?)]. cbn. do 2 (split; [done|]). right. left. eauto.
    + subst r2. cbn. split; [by apply dropLease_inv, sendError_inv|]. split; [done|]. right. right. by rewrite Hl.
  - destruct (t_waitInterrupted t); [done|]. cbn. do 2 (split; [done|]). by left.
Qed.

Lemma run_step_post pol t r b :
  turn_wf t -> pd_inv pol r -> backoff_ok b -> 0 <= t_rand t <= 2 * (b_cur b / 5) ->
  (forall l, pd_lease r = Some l -> L_ReceivedAt l <= t_now t) ->
  turn_post pol t r (run_step t r b).
Proof.
  intros Hw Hinv Hb Hr Hclock. unfold run_step. destruct (t_stopped t); [done|].
  destruct (pd_lease r) as [l|] eqn:Hl; [|by apply acquire_turn_post].
  destruct (Z.leb_spec (L_T1 l) (time_Sub (t_now t) (L_ReceivedAt l))); [by apply renew_turn_post|].
  destruct (t_waitInterrupted t); [done|]. cbn. do 2 (split; [done|]). left.
  pose proof Hinv as (_ & _ & Hlease). rewrite Hl in Hlease. destruct Hlease as [_ (_ & _ & _ & _ & _ & Ht1)].
  specialize (Hclock l eq_refl). unfold time_Sub, time_Second, time_Minute in *.
  rewrite wrap64_id by lia. case_match; zbool; unfold time_Second in *; lia.
Qed.

Lemma new_pd_inv iface len pol : pd_inv pol (NewDHCPv6PDReceiverWithPolicy iface len pol).
Proof. unfold pd_inv, pd_ok, control_ok. cbn. repeat split; (done || lia). Qed.

Lemma run_start_post pol env r :
  env_wf env -> pd_inv pol r ->
  0 < pd_acquireBackoffMin r <= pd_acquireBackoffMax r -> pd_acquireBackoffMax r < 2 ^ 62 ->
  exists r' b, run_start env r = LoopContinue r' b 0 /\ pd_inv pol r' /\ backoff_ok b.
Proof.
  intros Hw Hinv Hb Hm. unfold run_start.
  assert (backoff_ok (newAcquireBackoff (pd_acquireBackoffMin r) (pd_acquireBackoffMax r))) as Hok
    by (unfold backoff_ok, newAcquireBackoff; cbn; lia).
  pose proof (acquire_ok pol env r Hw Hinv) as Hex. unfold exchange_ok in Hex.
  destruct (acquirePrefix env r) as [r' [u|e|]]; cbn [fst snd] in Hex; [| |done].
  - destruct Hex as [? _]. eexists _, _. split; [reflexivity|]. by split.
  - subst r'. eexists _, _. split; [done|]. auto with receiver.
Qed.

(** The environment of a run: well-formed answers, draws within their range, and
    a clock that does not run backwards past the lease. *)
Fixpoint turns_ok (ts : list turn) (st : loop_result) : Prop :=
  match ts, st with
  | t :: ts', LoopContinue r b _ =>
      turn_wf t /\ 0 <= t_rand t <= 2 * (b_cur b / 5) /\
      (forall l, pd_lease r = Some l -> L_ReceivedAt l <= t_now t) /\
      turns_ok ts' (run_step t r b)
  | _, _ => True
  end.

Definition state_of (st : loop_result) : option DHCPv6PDReceiver :=
  match st with LoopStop r | LoopContinue r _ _ => Some r | LoopPanic => None end.

Lemma run_loop_inv pol ts st :
  match st with
  | LoopContinue r b _ => pd_inv pol r /\ backoff_ok b
  | LoopStop r => pd_inv pol r
  | LoopPanic => False
  end -> turns_ok ts st ->
  exists r, state_of (run_loop ts st) = Some r /\ pd_inv pol r.
Proof.
  revert st. induction ts as [|t ts IH]; intros st Hst Hts; cbn [run_loop].
  - destruct st; [by eexists| |done]. destruct Hst. by eexists.
  - destruct st as [r|r b w|]; [by eexists| |done]. destruct Hst as [Hinv Hb].
    destruct Hts as (Hw & Hr & Hc & Hts). pose proof (run_step_post pol t r b Hw Hinv Hb Hr Hc) as Hpost.
    apply IH; [|done]. unfold turn_post in Hpost. destruct (run_step t r b); [done| |done].
    by destruct Hpost as (? & ? & _).
Qed.

(** The loop leaves alone what Start, Stop and the factory keep. *)
Definition pd_frame (r : DHCPv6PDReceiver) : string * control * bool * bool * nat :=
  (pd_iface r, pd_control r, pd_releaseInterface r, pd_releaseOnce r, pd_releases r).

Lemma process_frame env reply iaid sid r : pd_frame (processIAPDReply env reply iaid sid r).1 = pd_frame r.
Proof. unfold processIAPDReply. by destruct (reply_lease _ _ _ _ _). Qed.

Lemma acquire_frame env r : pd_frame (acquirePrefix env r).1 = pd_frame r.
Proof. unfold acquirePrefix. cbv zeta. set (ex := obind _ _). destruct ex as [[[? ?] ?]|?|]; [apply process_frame|done..]. Qed.

Lemma renew_frame env r : pd_frame (renewPrefix env r).1 = pd_frame r.
Proof.
  unfold renewPrefix. destruct (pd_lease r); [|done]. cbv zeta.
  set (ex := obind _ _). destruct ex; [apply process_frame|done..].
Qed.

Lemma rebind_frame env r : pd_frame (rebindPrefix env r).1 = pd_frame r.
Proof.
  unfold rebindPrefix. destruct (pd_lease r); [|done]. cbv zeta.
  set (ex := obind _ _). destruct ex as [[? ?]|?|]; [apply process_frame|done..].
Qed.

Lemma run_step_frame t r b r' : state_of (run_step t r b) = Some r' -> pd_frame r' = pd_frame r.
Proof.
  unfold run_step. destruct (t_stopped t); [by intros [= <-]|]. destruct (pd_lease r) as [l|].
  - cbv zeta. destruct (_ <=? _); [|destruct (t_waitInterrupted t); by intros [= <-]]. unfold renew_turn.
    pose proof (renew_frame (t_env t) r) as Hr. destruct (renewPrefix (t_env t) r) as [r1 [u|e|]]; cbn [fst] in Hr; [by intros [= <-]| |done].
    destruct (errors_Is e errNoBinding); [by intros [= <-]|].
    destruct (_ <=? _); [|destruct (t_waitInterrupted t); by intros [= <-]].
    set (r1' := pd_sendError _ r1). pose proof (rebind_frame (t_rebindEnv t) r1') as Hr2.
    destruct (rebindPrefix (t_rebindEnv t) r1') as [r2 [u|e2|]]; cbn [fst] in Hr2; [| |done];
      intros [= <-]; exact (eq_trans Hr2 Hr).
  - unfold acquire_turn. cbv zeta. destruct (t_waitInterrupted t); [by intros [= <-]|].
    pose proof (acquire_frame (t_env t) r) as Ha. destruct (acquirePrefix (t_env t) r) as [r1 [u|e|]]; by intros [= <-].
Qed.

Lemma run_start_frame env r r' : state_of (run_start env r) = Some r' -> pd_frame r' = pd_frame r.
Proof.
  unfold run_start. cbv zeta. pose proof (acquire_frame env r) as Ha.
  destruct (acquirePrefix env r) as [r1 [u|e|]]; by intros [= <-].
Qed.

(** * Properties *)

(** C16 Through any run of the client loop - any servers, refusals, timeouts,
    renewals and rebinds - it never panics, holds a prefix exactly when it holds a
    lease and then the lease's, and that prefix is masked and has passed the
    policy; with global prefixes required, every address of it is global
    unicast. *)
Theorem pd_holds_validated (iface : string) (len : Z) (pol : Policy) (env : pd_env) (ts : list turn) :
  let r0 := NewDHCPv6PDReceiverWithPolicy iface len pol in
  env_wf env -> turns_ok ts (run_start env r0) ->
  exists r, state_of (runLoop env ts r0) = Some r /\
    (length (pd_events r) <= event_cap)%nat /\
    pd_currentPrefix r = prefix_of_lease <$> pd_lease r /\
    forall p, pd_currentPrefix r = Some p ->
      Validate pol (Network p) = None /\ netip.Masked (Network p) = Network p /\
      0 < ValidLifetime p /\
      (RequireGlobalUnicast pol = true -> forall x, netip.in_prefix (Network p) x -> x / 2 ^ 125 = 1).
Proof.
  intros r0 Hw Hts. pose proof (new_pd_inv iface len pol) as Hinv. fold r0 in Hinv.
  destruct (run_start_post pol env r0 Hw Hinv) as (r1 & b & Hs & Hinv1 & Hb); [done..|].
  unfold runLoop. rewrite Hs in *.
  destruct (run_loop_inv pol ts (LoopContinue r1 b 0)) as (r & Hr & (_ & (_ & Hcap) & Hl)); [done|done|].
  exists r. split; [done|]. split; [done|].
  destruct (pd_lease r) as [l|]; [|by rewrite Hl].
  destruct Hl as [Hp (Hval & Hm & H6 & Hvl & _)]. rewrite Hp. split; [done|]. intros p [= <-].
  split; [done|]. split; [done|]. split; [cbn; unfold time_Second in *; lia|]. intros Hreq.
  apply accepted_covers_gua; [done|done|]. unfold Validate in Hval. rewrite Hreq in Hval.
  cbn [Network prefix_of_lease]. by destruct (ValidateDelegatedPrefix _ _).
Qed.

(** A server that delegates 2001:db8:100::/56 for two hours, and one that does
    not answer. *)
Definition wan_iface : Interface := mkInterface "wan0" 2 [2; 0; 0; 0; 0; 1].
Definition delegated : OptIAPrefix :=
  mkIAPrefix (3600 * time_Second) (7200 * time_Second)
    (Some (mkIPNet (netip.As16 (addr_of_string "2001:db8:100::42")) (CIDRMask 56))).
Definition wan_iapd : OptIAPD := mkIAPD [0; 0; 0; 2] 0 0 None [delegated].
Definition server_answer (want : MessageType) : Message :=
  mkMessage want None 0 None (Some [1; 2; 3]) [Some wan_iapd].
Definition serving_env (now : Z) : pd_env :=
  mkPDEnv (Ret wan_iface) None None (fun _ want => Ret (server_answer want)) now.
Definition silent_env (now : Z) : pd_env :=
  mkPDEnv (Ret wan_iface) None None (fun _ _ => Fail (errors_New "timeout")) now.

Lemma byte_list_ok l : forallb (fun b => (0 <=? b) && (b <? 256)) l = true -> Forall byte_ok l.
Proof.
  intros H. apply Forall_forall. intros x Hx. rewrite forallb_forall in H.
  specialize (H x (proj1 (list_elem_of_In _ _) Hx)). unfold byte_ok. zbool. lia.
Qed.

Lemma serving_env_wf now : env_wf (serving_env now).
Proof.
  split; [|done]. intros m k a [= <-] pd Hpd. cbn [M_IAPD server_answer] in Hpd.
  apply list_elem_of_singleton in Hpd. injection Hpd as ->.
  unfold iapd_wf, second_range, time_Second. cbn [IAPD_T1 IAPD_T2 IAPD_Prefixes wan_iapd].
  repeat (split; [lia|]). constructor; [|constructor].
  cbn [IA_ValidLifetime IA_Prefix delegated]. unfold time_Second. split; [lia|]. split; [lia|].
  intros n [= <-]. apply byte_list_ok. vm_compute. reflexivity.
Qed.

Lemma silent_env_wf now : env_wf (silent_env now).
Proof. split; [|done]. done. Qed.

Lemma pd_holds_validated_witness :
  (Network <$> (state_of (runLoop (serving_env 7) [] (NewDHCPv6PDReceiver "wan0" 56)) ≫= pd_currentPrefix)) =
    Some (prefix_of_string "2001:db8:100::/56") /\
  exists r, state_of (runLoop (serving_env 7) [] (NewDHCPv6PDReceiver "wan0" 56)) = Some r /\
    pd_currentPrefix r = prefix_of_lease <$> pd_lease r.
Proof.
  split; [vm_compute; reflexivity|].
  destruct (pd_holds_validated "wan0" 56 DefaultPolicy (serving_env 7) [] (serving_env_wf 7) I)
    as (r & Hr & _ & Hp & _). exists r. split; [exact Hr|exact Hp].
Defined.

(** C39 No turn of the loop spins: one that goes on without a pause has just
    received a lease, or has just given one up - and then the next turn pauses
    between four fifths and six fifths of the current backoff before it solicits. *)
Theorem pd_no_busy_loop (pol : Policy) (t : turn) (r : DHCPv6PDReceiver) (b : acquireBackoff) :
  turn_wf t -> pd_inv pol r -> backoff_ok b -> 0 <= t_rand t <= 2 * (b_cur b / 5) ->
  (forall l, pd_lease r = Some l -> L_ReceivedAt l <= t_now t) ->
  match run_step t r b with
  | LoopPanic => False
  | LoopStop _ => t_stopped t = true \/ t_waitInterrupted t = true
  | LoopContinue r' b' waited =>
      (0 < waited \/
       (exists l, pd_lease r' = Some l /\
          (L_ReceivedAt l = env_now (t_env t) \/ L_ReceivedAt l = env_now (t_rebindEnv t))) \/
       (pd_lease r <> None /\ pd_lease r' = None)) /\
      (pd_lease r = None -> 4 * b_cur b <= 5 * waited <= 6 * b_cur b)
  end.
Proof.
  intros Hw Hinv Hb Hr Hc. pose proof (run_step_post pol t r b Hw Hinv Hb Hr Hc) as Hpost.
  destruct (run_step t r b) as [r'|r' b' waited|] eqn:Hs; [| |done].
  - revert Hs. unfold run_step, acquire_turn, renew_turn. destruct (t_stopped t); [by left|].
    destruct (t_waitInterrupted t); [by right|]. by repeat case_match.
  - destruct Hpost as (_ & _ & Hpace). split; [done|]. intros Hl.
    revert Hs. unfold run_step. destruct (t_stopped t); [done|]. rewrite Hl. unfold acquire_turn.
    destruct (t_waitInterrupted t); [done|]. destruct Hb as (? & ? & ?).
    pose proof (jittered_bounds (b_cur b) (t_rand t) ltac:(lia) Hr).
    destruct (acquirePrefix (t_env t) r) as [? [| |]]; [intros [= _ _ <-]; done| |done].
    by intros [= _ _ <-].
Qed.

Definition quiet_turn (now : Z) : turn := mkTurn false now 0 false (silent_env now) (silent_env now).
Definition initial_backoff : acquireBackoff := newAcquireBackoff defaultInitialAcquireBackoff defaultAcquireBackoffMax.

Lemma quiet_turn_wf now : turn_wf (quiet_turn now).
Proof. split; apply silent_env_wf. Qed.

(** The earliest draw: eight seconds of the ten. *)
Lemma pd_no_busy_loop_witness :
  match run_step (quiet_turn 5) (NewDHCPv6PDReceiver "wan0" 56) initial_backoff with
  | LoopContinue _ _ waited => waited = 8 * time_Second /\ 4 * (10 * time_Second) <= 5 * waited <= 6 * (10 * time_Second)
  | _ => False
  end.
Proof.
  pose proof (pd_no_busy_loop DefaultPolicy (quiet_turn 5) (NewDHCPv6PDReceiver "wan0" 56) initial_backoff
    (quiet_turn_wf 5) (new_pd_inv "wan0" 56 DefaultPolicy)) as H.
  specialize (H ltac:(unfold backoff_ok; vm_compute; repeat split; congruence)
                ltac:(split; [vm_compute; discriminate|vm_compute; discriminate]) ltac:(discriminate)).
  destruct (run_step (quiet_turn 5) (NewDHCPv6PDReceiver "wan0" 56) initial_backoff) as [r|r b w|] eqn:E.
  - exfalso. vm_compute in E. discriminate.
  - split; [|apply H; reflexivity]. vm_compute in E. injection E as _ _ <-. reflexivity.
  - exact H.
Defined.

(** Once the last of T1 and T2 has passed and neither renewal nor rebind
    succeeds, the lease and its prefix are given up in that turn; a server that
    disowns the binding ends it already at T1; any other failure before T2 keeps
    the lease and pauses 30 s. *)
Theorem pd_gives_up_lease (pol : Policy) (t : turn) (r : DHCPv6PDReceiver) (b : acquireBackoff)
    (l : dhcpv6Lease) (err : error) :
  env_wf (t_rebindEnv t) -> pd_inv pol r -> pd_lease r = Some l -> t_stopped t = false ->
  L_T1 l <= time_Sub (t_now t) (L_ReceivedAt l) ->
  renewPrefix (t_env t) r = (r, Fail err) ->
  let gone r' := pd_lease r' = None /\ pd_currentPrefix r' = None /\ LastError (pd_health r') <> None in
  (errors_Is err errNoBinding = true -> exists r', run_step t r b = LoopContinue r' b 0 /\ gone r') /\
  (errors_Is err errNoBinding = false -> L_T2 l <= time_Sub (t_now t) (L_ReceivedAt l) ->
     (exists l' r', run_step t r b = LoopContinue r' b 0 /\ pd_lease r' = Some l' /\
        L_ReceivedAt l' = env_now (t_rebindEnv t)) \/
     (exists r', run_step t r b = LoopContinue r' b 0 /\ gone r')) /\
  (errors_Is err errNoBinding = false -> time_Sub (t_now t) (L_ReceivedAt l) < L_T2 l ->
     t_waitInterrupted t = false ->
     exists r', run_step t r b = LoopContinue r' b renewRetryInterval /\ pd_lease r' = Some l /\
       pd_currentPrefix r' = pd_currentPrefix r).
Proof.
  intros Hw Hinv Hl Hstop Ht1 Hren gone. unfold run_step. rewrite Hstop, Hl.
  rewrite (proj2 (Z.leb_le _ _)) by done. unfold renew_turn. rewrite Hren.
  set (r1 := pd_sendError _ r). assert (pd_inv pol r1) as Hinv1 by (by apply sendError_inv).
  split; [|split]; intros Hno; rewrite Hno.
  - eexists. by split.
  - intros Ht2. rewrite (proj2 (Z.leb_le _ _)) by done.
    pose proof (rebind_ok pol (t_rebindEnv t) r1 Hw Hinv1) as Hex. unfold exchange_ok in Hex.
    destruct (rebindPrefix (t_rebindEnv t) r1) as [r2 [u|e|]]; cbn [fst snd] in Hex; [| |done].
    + left. destruct Hex as [_ (l' & ? & ?)]. by exists l', r2.
    + right. subst r2. eexists. by split.
  - intros Ht2 Hwait. rewrite (proj2 (Z.leb_gt _ _)) by done. rewrite Hwait. eexists. by split.
Qed.

Definition serving_receiver : DHCPv6PDReceiver :=
  default (NewDHCPv6PDReceiver "wan0" 56) (state_of (runLoop (serving_env 0) [] (NewDHCPv6PDReceiver "wan0" 56))).
Definition serving_lease : dhcpv6Lease :=
  default (mkLease [] netip.zero_prefix 0 0 0 0 0 []) (pd_lease serving_receiver).

Lemma serving_receiver_inv : pd_inv DefaultPolicy serving_receiver.
Proof.
  destruct (run_start_post DefaultPolicy (serving_env 0) (NewDHCPv6PDReceiver "wan0" 56))
    as (r & b & Hs & Hinv & _); [apply serving_env_wf|apply new_pd_inv| |vm_compute; reflexivity|].
  { vm_compute. split; congruence. }
  unfold serving_receiver, runLoop. cbn [run_loop]. rewrite Hs. exact Hinv.
Qed.

Lemma pd_gives_up_lease_witness :
  exists r', run_step (quiet_turn (3600 * time_Second)) serving_receiver initial_backoff =
      LoopContinue r' initial_backoff renewRetryInterval /\ pd_lease r' = Some serving_lease /\
    pd_currentPrefix r' = pd_currentPrefix serving_receiver.
Proof.
  apply (pd_gives_up_lease DefaultPolicy (quiet_turn (3600 * time_Second)) serving_receiver initial_backoff
    serving_lease (Errorf "failed to receive REPLY for RENEW" (errors_New "timeout")));
    [apply silent_env_wf|apply serving_receiver_inv|vm_compute; reflexivity|reflexivity
    |vm_compute; congruence|vm_compute; reflexivity|vm_compute; reflexivity|vm_compute; reflexivity|reflexivity].
Defined.

(** After [n] failed attempts in a row the pause is min * 2^n, capped at the
    maximum, never beyond it and never negative; one success returns it to the
    minimum; jitter keeps the actual pause within a fifth of it. *)
Theorem backoff_growth (minDelay maxDelay rand : Z) (n : nat) :
  0 < minDelay <= maxDelay -> maxDelay < 2 ^ 62 ->
  let b := Nat.iter n b_failed (newAcquireBackoff minDelay maxDelay) in
  b_current b = Z.min (minDelay * 2 ^ Z.of_nat n) maxDelay /\
  b_current (b_succeeded b) = minDelay /\
  (0 <= rand <= 2 * (b_current b / 5) -> 4 * b_current b <= 5 * b_wait b rand <= 6 * b_current b).
Proof.
  intros Hmin Hmax b.
  assert (b_min b = minDelay /\ b_max b = maxDelay /\ b_cur b = Z.min (minDelay * 2 ^ Z.of_nat n) maxDelay)
    as (H1 & H2 & H3).
  { subst b. induction n as [|n (H1 & H2 & H3)]; [cbn; lia|].
    rewrite Nat.iter_succ. unfold b_failed at 1 3 5. cbn [b_min b_max b_cur]. rewrite H1, H2. do 2 (split; [done|]).
    rewrite H3. pose proof (pow2_pos (Z.of_nat n) ltac:(lia)).
    rewrite nextBackoff_spec by lia. rewrite Nat2Z.inj_succ, Z.pow_succ_r by lia. lia. }
  split; [done|]. split; [cbn; exact H1|]. intros Hr. unfold b_current, b_wait in *.
  pose proof (pow2_pos (Z.of_nat n) ltac:(lia)). apply jittered_bounds; [lia|done].
Qed.

(** The default pauses: 20 s after the first failure, capped at five minutes from
    the fifth on. *)
Lemma backoff_growth_witness :
  b_current (Nat.iter 1 b_failed initial_backoff) = 20 * time_Second /\
  b_current (Nat.iter 5 b_failed initial_backoff) = 5 * time_Minute.
Proof.
  split; [vm_compute; reflexivity|].
  destruct (backoff_growth defaultInitialAcquireBackoff defaultAcquireBackoffMax 0 5) as [H _];
    [vm_compute; split; congruence|vm_compute; reflexivity|].
  exact (eq_trans H ltac:(vm_compute; reflexivity)).
Defined.

(** C40 The renewal times a lease gets when the server leaves them to the client:
    half and four fifths of the lifetime, in order and within it, for every
    lifetime up to 2^61 ns (73 years); a longer lifetime - the infinite one of
    2^32 - 1 seconds is - overflows the product and gives a negative T2, so the
    rebind time has passed from the start. *)
Theorem renew_times_bounds (pd : OptIAPD) (valid : Z) :
  IAPD_T1 pd = 0 -> IAPD_T2 pd = 0 ->
  (0 < valid < 2 ^ 61 ->
     renew_times pd valid = (valid / 2, 4 * valid / 5) /\ valid / 2 <= 4 * valid / 5 < valid) /\
  (2 ^ 61 <= valid <= (2 ^ 32 - 1) * time_Second ->
     (renew_times pd valid).2 <= 0 < (renew_times pd valid).1).
Proof.
  intros H1 H2. unfold renew_times. rewrite H1, H2. cbn [Z.eqb fst snd]. split; intros Hv.
  - rewrite wrap64_id, !Z.quot_div_nonneg by lia. rewrite (Z.mul_comm valid).
    pose proof (Z.div_mod valid 2 ltac:(lia)). pose proof (Z.mod_pos_bound valid 2 ltac:(lia)).
    pose proof (Z.div_mod (4 * valid) 5 ltac:(lia)). pose proof (Z.mod_pos_bound (4 * valid) 5 ltac:(lia)).
    split; [done|]. lia.
  - unfold time_Second in Hv.
    assert (wrap64 (valid * 4) = valid * 4 - 2 ^ 64) as ->.
    { unfold wrap64. replace (valid * 4 + 2 ^ 63) with (valid * 4 - 2 ^ 63 + 1 * 2 ^ 64) by lia.
      rewrite Z.mod_add, Z.mod_small by lia. lia. }
    split.
    + replace (valid * 4 - 2 ^ 64) with (- (2 ^ 64 - valid * 4)) by lia.
      rewrite Z.quot_opp_l, Z.quot_div_nonneg by lia.
      pose proof (Z.div_pos (2 ^ 64 - valid * 4) 5). lia.
    + rewrite Z.quot_div_nonneg by lia. pose proof (Z.div_mod valid 2 ltac:(lia)).
      pose proof (Z.mod_pos_bound valid 2 ltac:(lia)). lia.
Qed.

Lemma renew_times_bounds_witness :
  (renew_times wan_iapd ((2 ^ 32 - 1) * time_Second)).2 <= 0 < (renew_times wan_iapd ((2 ^ 32 - 1) * time_Second)).1.
Proof.
  apply (renew_times_bounds wan_iapd ((2 ^ 32 - 1) * time_Second)); [reflexivity|reflexivity|].
  vm_compute. split; discriminate.
Defined.

(** A reply is taken whole or not at all: on success the receiver holds the
    reply's lease, reports its prefix, has no error recorded and announces the
    prefix as acquired, renewed or changed according to the one it held; on any
    error nothing has changed, and the error counts as a lost binding exactly
    when the server said NoBinding. *)
Theorem pd_reply_all_or_nothing (env : pd_env) (reply : Message) (iaid : list Z) (sid : DUID)
    (r : DHCPv6PDReceiver) :
  match processIAPDReply env reply iaid sid r with
  | (r', Ret _) =>
      exists l, reply_lease (pd_policy r) reply iaid sid (env_now env) = Ret l /\
        pd_lease r' = Some l /\ pd_currentPrefix r' = Some (prefix_of_lease l) /\
        LastError (pd_health r') = None /\
        pd_events r' = chan_send (pd_events r)
          (mkEvent (match pd_currentPrefix r with
                    | None => EventTypeAcquired
                    | Some p => if decide (Network p = L_Prefix l) then EventTypeRenewed
                                else EventTypeChanged
                    end) (Some (prefix_of_lease l)) None)
  | (r', Fail e) =>
      r' = r /\
      (errors_Is e errNoBinding = true <->
       (exists m, M_Status reply = Some (mkStatus 3 m)) \/
       (statusError (M_Status reply) = None /\
        exists pd m, find_iapd iaid (M_IAPD reply) = Some pd /\ IAPD_Status pd = Some (mkStatus 3 m)))
  | (_, Panic) => False
  end.
Proof.
  assert (forall s err, statusError s = Some err ->
    (errors_Is err errNoBinding = true <-> exists m, s = Some (mkStatus 3 m))) as Hstatus.
  { intros [[code m]|] err; cbn; [|done]. unfold StatusSuccess, StatusNoBinding.
    destruct (Z.eqb_spec code 0); [done|]. destruct (Z.eqb_spec code 3) as [->|Hne]; intros [= <-].
    - split; [by eauto|done].
    - cbn. split; [|by intros (? & [= ? ?])]. by destruct (bool_decide _) eqn:E. }
  unfold processIAPDReply.
  destruct (reply_lease (pd_policy r) reply iaid sid (env_now env)) as [l|e|] eqn:Hl.
  - exists l. do 4 (split; [done|]). cbn. unfold event_type_for. destruct (pd_currentPrefix r) as [p|]; [|done].
    by destruct (decide (Network p = L_Prefix l)); [rewrite bool_decide_true|rewrite bool_decide_false].
  - split; [done|]. revert Hl. unfold reply_lease.
    destruct (statusError (M_Status reply)) as [err|] eqn:Hs.
    { intros [= <-]. cbn [reply_error_of errors_Is]. rewrite bool_decide_false by done. cbn [orb].
      rewrite (Hstatus _ _ Hs). split; [by left|]. intros [?|[? _]]; done. }
    assert (~ exists m, M_Status reply = Some (mkStatus 3 m)) as Hno by (intros (m & E); by rewrite E in Hs).
    destruct (find_iapd iaid (M_IAPD reply)) as [pd|] eqn:Hpd.
    2: { intros [= <-]. cbn. split; [done|]. intros [?|(_ & ? & ? & ? & _)]; done. }
    destruct (statusError (IAPD_Status pd)) as [err|] eqn:Hs2.
    { intros [= <-]. cbn [reply_error_of errors_Is]. rewrite bool_decide_false by done. cbn [orb].
      rewrite (Hstatus _ _ Hs2). split; [intros (m & ?); right; by eauto|].
      intros [?|(_ & pd' & m & [= <-] & ?)]; [done|by exists m]. }
    intros Hl. split.
    + intros He. exfalso. revert Hl. repeat case_match; intros [= <-]; cbn in He; done.
    + intros [?|(_ & pd' & m & [= <-] & E)]; [done|]. by rewrite E in Hs2.
  - unfold reply_lease in Hl. by repeat case_match.
Qed.

(** However often a receiver is started and stopped, in any order, it never
    panics and hands its interface back exactly once, at the first stop - also
    when it was never started. *)
Theorem pd_releases_once (r : DHCPv6PDReceiver) (calls : list bool) :
  pd_ok r -> pd_releaseInterface r = true -> pd_releaseOnce r = false -> pd_releases r = 0%nat ->
  exists r', foldl (fun acc (stop : bool) => acc ≫= fun x => if stop then PD_Stop x else Some (PD_Start x))
      (Some r) calls = Some r' /\
    pd_releases r' = (if existsb id calls then 1%nat else 0%nat) /\
    live_ctx (pd_control r') = (if started (pd_control r') then 1%nat else 0%nat).
Proof.
  intros Hok Hi Ho Hn.
  enough (forall r, pd_ok r -> pd_releaseInterface r = true ->
    pd_releases r = (if pd_releaseOnce r then 1%nat else 0%nat) ->
    exists r', foldl (fun acc (stop : bool) => acc ≫= fun x => if stop then PD_Stop x else Some (PD_Start x))
        (Some r) calls = Some r' /\ pd_ok r' /\
      pd_releases r' = (if pd_releaseOnce r || existsb id calls then 1%nat else 0%nat)) as H.
  { destruct (H r Hok Hi) as (r' & Hr & [Hk _] & Hrel); [by rewrite Ho, Hn|].
    exists r'. rewrite Ho in Hrel. split; [done|]. split; [done|]. unfold control_ok in Hk.
    destruct (started _); [apply Hk|done]. }
  clear. induction calls as [|[] calls IH]; intros r Hok Hi Hrel; cbn [foldl existsb id].
  - exists r. by rewrite orb_false_r.
  - destruct (PD_Stop_ok r Hok) as (k & Hs & Hk & _). cbn [mbind option_bind]. rewrite Hs.
    assert (pd_releaseOnce (releaseClaimedInterface r) = true /\ pd_releases (releaseClaimedInterface r) = 1%nat /\
      pd_releaseInterface (releaseClaimedInterface r) = true) as (H1 & H2 & H3).
    { unfold releaseClaimedInterface. rewrite Hi. cbn [negb].
      destruct (pd_releaseOnce r) eqn:E; [by rewrite E|]. cbn. by rewrite Hrel. }
    destruct (IH (set_pd_control k (releaseClaimedInterface r))) as (r' & -> & Hok' & Hrel').
    + split; [done|]. cbn. destruct (releaseClaimedInterface_fields r) as (_ & -> & _). apply Hok.
    + done.
    + cbn. by rewrite H1, H2.
    + exists r'. split; [done|]. split; [done|]. rewrite Hrel'. cbn. rewrite H1. by rewrite orb_true_r.
  - cbn [mbind option_bind]. destruct (IH (PD_Start r)) as (r' & -> & Hok' & Hrel').
    + exact (@law_start_ok _ _ _ DHCPv6PDReceiver_laws tt r Hok).
    + unfold PD_Start. by destruct (started _).
    + unfold PD_Start. by destruct (started _).
    + exists r'. split; [done|]. split; [done|]. rewrite Hrel'. unfold PD_Start. by destruct (started _).
Qed.

Definition claimed_receiver : DHCPv6PDReceiver :=
  mkPD "wan0" 56 DefaultPolicy (mkHealth None) None None [] new_control
    defaultInitialAcquireBackoff defaultAcquireBackoffMax true false 0.

Lemma pd_releases_once_witness :
  exists r', foldl (fun acc (stop : bool) => acc ≫= fun x => if stop then PD_Stop x else Some (PD_Start x))
      (Some claimed_receiver) [true; false; true; true] = Some r' /\
    pd_releases r' = 1%nat /\
    live_ctx (pd_control r') = (if started (pd_control r') then 1%nat else 0%nat).
Proof.
  apply (pd_releases_once claimed_receiver [true; false; true; true]); [|reflexivity..].
  split; cbn; [done|lia].
Defined.
