(* ===== verification/SharedRA.v ===== *)
(** * Shared Router Advertisement receivers

    [internal/prefix/shared_ra_receiver.go]: one receiver per interface and
    policy, shared by subscriptions.  Entries and subscriptions are shared objects
    with identity, so the pool is a store: entries and subscriptions live in maps
    from identifiers, [p_entries] is the Go map from keys to entries, and a
    subscription keeps the entry it was made for even when the map has moved on.
    The methods are split where they release a lock, so that they can be run as a
    whole ([Sub_Start], [Sub_Stop]) or interleaved ([pool_step]). *)

From S2P Require Import Prelude GoStrings Netip NetipText Policy Receivers.
From stdpp Require Import gmap fin_maps.

Section SharedRA.
Context {Env R : Type} `{HRo : !ReceiverOps Env R}.
Context (newReceiver : string -> RAPolicy -> R).

Record sharedRAReceiverEntry : Type := mkEntry {
  e_iface : string;
  e_key : string;
  e_receiver : R;
  e_subscribers : gset nat;
  e_control : control
}.

Record sharedRAReceiverSubscription : Type := mkSub {
  s_entry : nat;
  s_iface : string;
  s_key : string;
  s_events : list Event;
  s_started : bool
}.

Record sharedRAReceiverPool : Type := mkPool {
  p_entries : gmap string nat;
  p_heap : gmap nat sharedRAReceiverEntry;
  p_subs : gmap nat sharedRAReceiverSubscription
}.

Definition newSharedRAReceiverPool : sharedRAReceiverPool := mkPool empty empty empty.

Definition poolKey (iface : string) (policy : RAPolicy) : string :=
  iface +:+ "|" +:+ RAPolicy_Key policy.

Definition set_entry (id : nat) (e : sharedRAReceiverEntry) (p : sharedRAReceiverPool) : sharedRAReceiverPool :=
  mkPool (p_entries p) (<[id := e]> (p_heap p)) (p_subs p).
Definition set_sub (id : nat) (s : sharedRAReceiverSubscription) (p : sharedRAReceiverPool) : sharedRAReceiverPool :=
  mkPool (p_entries p) (p_heap p) (<[id := s]> (p_subs p)).

(** Allocation takes an identifier not yet in use. *)
Definition fresh_id {A} (m : gmap nat A) : nat := fresh (dom m).

Definition subscribe (iface : string) (policy : RAPolicy) (p : sharedRAReceiverPool)
    : sharedRAReceiverPool * nat :=
  let key := poolKey iface policy in
  let '(p1, entry) :=
    match p_entries p !! key with
    | Some id => (p, id)
    | None =>
        let id := fresh_id (p_heap p) in
        let e := mkEntry iface key (newReceiver iface policy) empty new_control in
        (mkPool (<[key := id]> (p_entries p)) (<[id := e]> (p_heap p)) (p_subs p), id)
    end in
  let sub := fresh_id (p_subs p1) in
  (set_sub sub (mkSub entry iface key [] false) p1, sub).

(** ** Entries *)

Definition addSubscriber (env : Env) (sub : nat) (e : sharedRAReceiverEntry)
    : sharedRAReceiverEntry * option error :=
  if decide (sub ∈ e_subscribers e) then (e, None)
  else if negb (started (e_control e)) then
    match rStart env (e_receiver e) with
    | (r, Some err) =>
        (mkEntry (e_iface e) (e_key e) r (e_subscribers e) (e_control e), Some err)
    | (r, None) =>
        (mkEntry (e_iface e) (e_key e) r ({[sub]} ∪ e_subscribers e) (control_start (e_control e)), None)
    end
  else (mkEntry (e_iface e) (e_key e) (e_receiver e) ({[sub]} ∪ e_subscribers e) (e_control e), None).

Definition removeSubscriber (sub : nat) (e : sharedRAReceiverEntry) : sharedRAReceiverEntry * bool :=
  let subs := e_subscribers e ∖ {[sub]} in
  (mkEntry (e_iface e) (e_key e) (e_receiver e) subs (e_control e),
   bool_decide (subs = empty) && started (e_control e)).

(** [None]: a panic. *)
Definition entry_stop (env : Env) (e : sharedRAReceiverEntry) : option (sharedRAReceiverEntry * option error) :=
  if negb (started (e_control e)) then Some (e, None)
  else
    k ← control_stop (e_control e);
    r ← rStop env (e_receiver e);
    Some (mkEntry (e_iface e) (e_key e) r.1 (e_subscribers e) k, r.2).

(** ** The pool's methods, lock section by lock section *)

(** [Start] up to its first unlock: [None] when it has nothing left to do. *)
Definition start_flag (sub : nat) (p : sharedRAReceiverPool) : option sharedRAReceiverPool :=
  s ← p_subs p !! sub;
  if s_started s then None
  else Some (set_sub sub (mkSub (s_entry s) (s_iface s) (s_key s) (s_events s) true) p).

Definition clear_flag (sub : nat) (p : sharedRAReceiverPool) : sharedRAReceiverPool :=
  match p_subs p !! sub with
  | Some s => set_sub sub (mkSub (s_entry s) (s_iface s) (s_key s) (s_events s) false) p
  | None => p
  end.

(** The rest of [Start]: join the entry; on an error take the flag back. *)
Definition start_join (env : Env) (sub : nat) (p : sharedRAReceiverPool)
    : sharedRAReceiverPool * option error :=
  match p_subs p !! sub with
  | None => (p, None)
  | Some s =>
      match p_heap p !! s_entry s with
      | None => (p, None)
      | Some e =>
          let '(e', err) := addSubscriber env sub e in
          let p1 := set_entry (s_entry s) e' p in
          match err with
          | Some _ => (clear_flag sub p1, err)
          | None => (p1, None)
          end
      end
  end.

Definition Sub_Start (env : Env) (sub : nat) (p : sharedRAReceiverPool)
    : sharedRAReceiverPool * option error :=
  match start_flag sub p with
  | None => (p, None)
  | Some p1 => start_join env sub p1
  end.

(** [Stop] up to its first unlock. *)
Definition stop_flag (sub : nat) (p : sharedRAReceiverPool) : option sharedRAReceiverPool :=
  s ← p_subs p !! sub;
  if negb (s_started s) then None else Some (clear_flag sub p).

(** [unsubscribe] under the pool's lock: the entry to stop, if any. *)
Definition unsubscribe_locked (sub : nat) (p : sharedRAReceiverPool)
    : sharedRAReceiverPool * option nat :=
  match p_subs p !! sub with
  | None => (p, None)
  | Some s =>
      match p_heap p !! s_entry s with
      | None => (p, None)
      | Some e =>
          let current := bool_decide (p_entries p !! s_key s = Some (s_entry s)) in
          let '(e', shouldStop) := removeSubscriber sub e in
          let entries := if shouldStop && current then delete (s_key s) (p_entries p) else p_entries p in
          (mkPool entries (<[s_entry s := e']> (p_heap p)) (p_subs p),
           if shouldStop then Some (s_entry s) else None)
      end
  end.

(** [entry.stop()], after the pool's lock was released. *)
Definition stop_entry (env : Env) (id : nat) (p : sharedRAReceiverPool)
    : option (sharedRAReceiverPool * option error) :=
  match p_heap p !! id with
  | None => Some (p, None)
  | Some e => r ← entry_stop env e; Some (set_entry id r.1 p, r.2)
  end.

Definition Sub_Stop (env : Env) (sub : nat) (p : sharedRAReceiverPool)
    : option (sharedRAReceiverPool * option error) :=
  match stop_flag sub p with
  | None => Some (p, None)
  | Some p1 =>
      let '(p2, toStop) := unsubscribe_locked sub p1 in
      match toStop with
      | Some id => stop_entry env id p2
      | None => Some (p2, None)
      end
  end.

(** ** Delivery *)

Definition sub_send (event : Event) (s : sharedRAReceiverSubscription) : sharedRAReceiverSubscription :=
  mkSub (s_entry s) (s_iface s) (s_key s) (chan_send (s_events s) event) (s_started s).

(** [broadcast] to the entry's subscribers; the order of Go's map iteration does
    not matter, each has its own channel. *)
Definition broadcast (id : nat) (event : Event) (p : sharedRAReceiverPool) : sharedRAReceiverPool :=
  match p_heap p !! id with
  | None => p
  | Some e =>
      mkPool (p_entries p) (p_heap p)
        (map_imap (fun sub s => Some (if decide (sub ∈ e_subscribers e) then sub_send event s else s))
           (p_subs p))
  end.

(** One turn of [fanOut]. *)
Definition fanOut (id : nat) (p : sharedRAReceiverPool) : option sharedRAReceiverPool :=
  e ← p_heap p !! id;
  match rEvents (e_receiver e) with
  | [] => None
  | ev :: _ =>
      let e' := mkEntry (e_iface e) (e_key e) (rRecv (e_receiver e)) (e_subscribers e) (e_control e) in
      Some (broadcast id ev (set_entry id e' p))
  end.

Definition Sub_CurrentPrefix (sub : nat) (p : sharedRAReceiverPool) : option Prefix :=
  s ← p_subs p !! sub; e ← p_heap p !! s_entry s; rCurrentPrefix (e_receiver e).

(** ** Runs of whole calls *)

Inductive pool_call : Type :=
| CallSubscribe (iface : string) (policy : RAPolicy)
| CallStart (env : Env) (sub : nat)
| CallStop (env : Env) (sub : nat)
| CallFanOut (entry : nat).

Definition pool_call_step (c : pool_call) (p : sharedRAReceiverPool) : option sharedRAReceiverPool :=
  match c with
  | CallSubscribe iface policy => Some (subscribe iface policy p).1
  | CallStart env sub => Some (Sub_Start env sub p).1
  | CallStop env sub => fst <$> Sub_Stop env sub p
  | CallFanOut id => Some (default p (fanOut id p))
  end.

Fixpoint pool_run (cs : list pool_call) (p : sharedRAReceiverPool) : option sharedRAReceiverPool :=
  match cs with
  | [] => Some p
  | c :: cs' => p' ← pool_call_step c p; pool_run cs' p'
  end.

(** * Lemmas *)

Context `{HR : !ReceiverLaws Env R}.
Hypothesis newReceiver_ok : forall iface policy,
  rOk (newReceiver iface policy) /\ rRunning (newReceiver iface policy) = false.

(** An entry runs its receiver exactly while it has subscribers. *)
Definition entry_ok (e : sharedRAReceiverEntry) : Prop :=
  rOk (e_receiver e) /\ control_ok (e_control e) /\
  rRunning (e_receiver e) = started (e_control e) /\
  (e_subscribers e = empty <-> started (e_control e) = false).

(** Subscriptions are in their entry's set exactly while they are started; the
    map leads to entries of its own keys; a map entry with the key is where a
    started one lives. *)
Record pool_ok (p : sharedRAReceiverPool) : Prop := {
  ok_entries : forall id e, p_heap p !! id = Some e -> entry_ok e;
  ok_subs : forall sub s, p_subs p !! sub = Some s ->
    exists e, p_heap p !! s_entry s = Some e /\ e_key e = s_key s /\
      (sub ∈ e_subscribers e <-> s_started s = true);
  ok_members : forall id e sub, p_heap p !! id = Some e -> sub ∈ e_subscribers e ->
    exists s, p_subs p !! sub = Some s /\ s_entry s = id;
  ok_keys : forall key id, p_entries p !! key = Some id ->
    exists e, p_heap p !! id = Some e /\ e_key e = key
}.

Lemma fresh_id_none {A} (m : gmap nat A) : m !! fresh_id m = None.
Proof. apply not_elem_of_dom, is_fresh. Qed.

Lemma new_pool_ok : pool_ok newSharedRAReceiverPool.
Proof. split; cbn; intros *; by rewrite lookup_empty. Qed.

Lemma new_entry_ok iface policy : entry_ok (mkEntry iface (poolKey iface policy)
  (newReceiver iface policy) empty new_control).
Proof. destruct (newReceiver_ok iface policy) as [Hok Hrun]. by repeat split. Qed.

Lemma add_sub_ok p sub entry key iface e :
  pool_ok p -> p_subs p !! sub = None -> p_heap p !! entry = Some e -> e_key e = key ->
  pool_ok (set_sub sub (mkSub entry iface key [] false) p).
Proof.
  intros [H1 H2 H3 H4] Hn He Hk. split; cbn; try done.
  - intros sub' s. destruct (decide (sub = sub')) as [<-|].
    + rewrite lookup_insert_eq. intros [= <-]. exists e. split; [done|]. split; [done|]. cbn.
      split; [|done]. intros Hin. destruct (H3 _ _ _ He Hin) as (s & Hs & _). congruence.
    + rewrite lookup_insert_ne by done. apply H2.
  - intros id e' sub' He' Hin. destruct (H3 _ _ _ He' Hin) as (s & Hs & ?). exists s.
    rewrite lookup_insert_ne; [done|]. intros ->. congruence.
Qed.

Lemma subscribe_ok iface policy p : pool_ok p -> pool_ok (subscribe iface policy p).1.
Proof.
  intros Hok. pose proof Hok as [H1 H2 H3 H4]. unfold subscribe.
  destruct (p_entries p !! poolKey iface policy) as [id|] eqn:Hk.
  - destruct (H4 _ _ Hk) as (e & He & Hek). eapply add_sub_ok; [done|apply fresh_id_none|done|done].
  - pose proof (fresh_id_none (p_heap p)) as Hfresh. set (id := fresh_id (p_heap p)) in *.
    set (e := mkEntry _ _ _ _ _). cbn [fst].
    eapply (add_sub_ok (mkPool _ _ _) _ id _ _ e); [|apply fresh_id_none|apply lookup_insert_eq|done].
    split; cbn.
    + intros id' e'. destruct (decide (id = id')) as [<-|].
      * rewrite lookup_insert_eq. intros [= <-]. apply new_entry_ok.
      * rewrite lookup_insert_ne by done. apply H1.
    + intros sub s Hs. destruct (H2 _ _ Hs) as (e' & He' & ?). exists e'.
      rewrite lookup_insert_ne; [done|]. intros Heq. rewrite <- Heq in He'. congruence.
    + intros id' e' sub. destruct (decide (id = id')) as [<-|].
      * rewrite lookup_insert_eq. intros [= <-]. cbn. set_solver.
      * rewrite lookup_insert_ne by done. apply H3.
    + intros key id'. destruct (decide (poolKey iface policy = key)) as [<-|].
      * rewrite lookup_insert_eq. intros [= <-]. exists e. by rewrite lookup_insert_eq.
      * rewrite lookup_insert_ne by done. intros Hkey. destruct (H4 _ _ Hkey) as (e' & He' & ?).
        exists e'. rewrite lookup_insert_ne; [done|]. intros Heq. rewrite <- Heq in He'. congruence.
Qed.

(** Changing one subscription's flag together with its membership. *)
Lemma update_member_ok p sub s e e' (flag : bool) entries :
  pool_ok p -> p_subs p !! sub = Some s -> p_heap p !! s_entry s = Some e ->
  entry_ok e' -> e_key e' = e_key e ->
  (forall x, x ∈ e_subscribers e' <-> if decide (x = sub) then flag = true else x ∈ e_subscribers e) ->
  (forall k id, entries !! k = Some id -> p_entries p !! k = Some id) ->
  pool_ok (mkPool entries (<[s_entry s := e']> (p_heap p))
    (<[sub := mkSub (s_entry s) (s_iface s) (s_key s) (s_events s) flag]> (p_subs p))).
Proof.
  intros [H1 H2 H3 H4] Hs He He' Hk Hmem Hent. split; cbn.
  - intros id x. destruct (decide (s_entry s = id)) as [<-|].
    + rewrite lookup_insert_eq. by intros [= <-].
    + rewrite lookup_insert_ne by done. apply H1.
  - intros sub' s'. destruct (H2 _ _ Hs) as (e0 & He0 & Hk0 & _). simplify_eq.
    destruct (decide (sub = sub')) as [<-|Hne].
    + rewrite lookup_insert_eq. intros [= <-]. exists e'. cbn. rewrite lookup_insert_eq.
      split; [done|]. split; [congruence|]. rewrite Hmem. by rewrite decide_True.
    + rewrite lookup_insert_ne by done. intros Hs'. destruct (H2 _ _ Hs') as (x & Hx & Hkx & Hm).
      destruct (decide (s_entry s = s_entry s')) as [E|].
      * exists e'. rewrite E, lookup_insert_eq. split; [done|]. rewrite E in *. simplify_eq.
        split; [congruence|]. rewrite Hmem. rewrite decide_False by done. done.
      * exists x. by rewrite lookup_insert_ne.
  - intros id x sub'. destruct (decide (s_entry s = id)) as [<-|].
    + rewrite lookup_insert_eq. intros [= <-]. rewrite Hmem. destruct (decide (sub' = sub)) as [->|].
      * intros _. eexists. by rewrite lookup_insert_eq.
      * intros Hin. rewrite lookup_insert_ne by done. by apply (H3 _ e).
    + rewrite lookup_insert_ne by done. intros Hx Hin. destruct (H3 _ _ _ Hx Hin) as (s' & Hs' & ?).
      destruct (decide (sub = sub')) as [<-|]; [simplify_eq|]. exists s'. by rewrite lookup_insert_ne.
  - intros k id Hkid. destruct (H4 _ _ (Hent _ _ Hkid)) as (x & Hx & ?).
    destruct (decide (s_entry s = id)) as [E|].
    + exists e'. rewrite E, lookup_insert_eq. split; [done|]. rewrite E in He. congruence.
    + exists x. by rewrite lookup_insert_ne.
Qed.

(** What Start and Stop do to the subscriptions. *)
Definition set_flag (b : bool) (s : sharedRAReceiverSubscription) : sharedRAReceiverSubscription :=
  mkSub (s_entry s) (s_iface s) (s_key s) (s_events s) b.

Lemma flag_insert b sub s (m : gmap nat sharedRAReceiverSubscription) : m !! sub = Some s ->
  <[sub := set_flag b s]> m = alter (set_flag b) sub m.
Proof.
  intros Hs. apply map_eq. intros i. destruct (decide (sub = i)) as [<-|].
  - by rewrite lookup_insert_eq, lookup_alter_eq, Hs.
  - by rewrite lookup_insert_ne, lookup_alter_ne.
Qed.

Lemma flag_same sub s (m : gmap nat sharedRAReceiverSubscription) : m !! sub = Some s ->
  m = alter (set_flag (s_started s)) sub m.
Proof.
  intros Hs. rewrite <- (flag_insert _ _ s _ Hs). apply map_eq. intros i. destruct (decide (sub = i)) as [<-|].
  - rewrite lookup_insert_eq, Hs. by destruct s.
  - by rewrite lookup_insert_ne.
Qed.

Lemma flag_missing b sub (m : gmap nat sharedRAReceiverSubscription) : m !! sub = None -> m = alter (set_flag b) sub m.
Proof.
  intros Hs. apply map_eq. intros i. destruct (decide (sub = i)) as [<-|].
  - by rewrite lookup_alter_eq, Hs.
  - by rewrite lookup_alter_ne.
Qed.

Lemma subscribe_subs iface policy p :
  p_subs p !! (subscribe iface policy p).2 = None /\
  exists s, p_subs (subscribe iface policy p).1 = <[(subscribe iface policy p).2 := s]> (p_subs p) /\
    s_started s = false /\ s_events s = [].
Proof.
  unfold subscribe. destruct (p_entries p !! poolKey iface policy) as [id|]; cbn;
    (split; [apply fresh_id_none|]); eexists; (split; [reflexivity|]); done.
Qed.

Lemma start_ok env sub p : pool_ok p ->
  pool_ok (Sub_Start env sub p).1 /\
  p_subs (Sub_Start env sub p).1 = alter (set_flag (bool_decide ((Sub_Start env sub p).2 = None))) sub (p_subs p).
Proof.
  intros Hok. pose proof Hok as [H1 H2 H3 H4]. unfold Sub_Start, start_flag.
  destruct (p_subs p !! sub) as [s|] eqn:Hs; [|split; [done|by apply flag_missing]]. cbn [mbind option_bind].
  destruct (s_started s) eqn:Hst; [split; [done|]; cbn [snd fst]; rewrite bool_decide_true by done; rewrite <- Hst; by apply flag_same|].
  destruct (H2 _ _ Hs) as (e & He & Hk & Hm).
  unfold start_join, set_sub. cbn [p_subs]. rewrite lookup_insert_eq. cbn [s_entry p_heap]. rewrite He.
  unfold addSubscriber. destruct (H1 _ _ He) as (Hrok & Hctl & Hrun & Hemp).
  destruct (decide (sub ∈ e_subscribers e)) as [Hin|Hnin]; [apply Hm in Hin; congruence|].
  destruct (started (e_control e)) eqn:Hstart; cbn [negb].
  - cbn [fst snd]. unfold set_entry, set_sub. cbn [p_entries p_heap p_subs].
    split; [|by apply (flag_insert true)]. apply (update_member_ok p sub s e); try done.
    + split; [done|]. split; [done|]. split; [cbn; congruence|]. cbn. rewrite Hstart. split; [intros E; by apply union_single_nonempty in E|done].
    + intros x. apply elem_union_single.
  - destruct (rStart env (e_receiver e)) as [r [err|]] eqn:Hstartr;
      pose proof (law_start_ok env _ Hrok) as Hrok'; rewrite Hstartr in Hrok'; cbn in Hrok';
      pose proof (law_start_running env _ _ _ Hrok Hstartr) as Hrun'.
    + cbn [fst snd]. unfold clear_flag, set_entry, set_sub. cbn [p_entries p_heap p_subs].
      rewrite lookup_insert_eq. cbn [s_entry s_iface s_key s_events]. rewrite insert_insert_eq.
      split; [|by apply (flag_insert false)]. apply (update_member_ok p sub s e); try done.
      * split; [done|]. split; [done|]. cbn. rewrite Hrun', Hstart. split; [done|]. split; [done|]. intros _. apply Hemp. congruence.
      * intros x. cbn. destruct (decide (x = sub)) as [->|]; [|done]. by split.
    + cbn [fst snd]. unfold set_entry, set_sub. cbn [p_entries p_heap p_subs].
      split; [|by apply (flag_insert true)]. apply (update_member_ok p sub s e); try done.
      * split; [done|]. split; [by apply control_start_ok|]. cbn. split; [done|]. split; [intros E; by apply union_single_nonempty in E|done].
      * intros x. apply elem_union_single.
Qed.

Lemma entry_stop_ok env e :
  rOk (e_receiver e) -> control_ok (e_control e) -> e_subscribers e = empty ->
  started (e_control e) = true ->
  exists e' err, entry_stop env e = Some (e', err) /\ entry_ok e' /\ e_key e' = e_key e /\
    e_subscribers e' = e_subscribers e.
Proof.
  intros Hr Hc Hemp Hst. unfold entry_stop. rewrite Hst. cbn [negb].
  destruct (control_stop_ok _ Hc Hst) as (k & -> & Hk & Hks). cbn.
  destruct (law_stop_ok env _ Hr) as (r & err & -> & Hr' & Hrun). cbn.
  eexists _, _. split; [done|]. split; [|done]. split; [done|]. split; [done|]. cbn. by rewrite Hrun, Hks.
Qed.

Lemma stop_ok env sub p : pool_ok p ->
  exists p' err, Sub_Stop env sub p = Some (p', err) /\ pool_ok p' /\
    p_subs p' = alter (set_flag false) sub (p_subs p).
Proof.
  intros Hok. pose proof Hok as [H1 H2 H3 H4]. unfold Sub_Stop, stop_flag.
  destruct (p_subs p !! sub) as [s|] eqn:Hs; cbn [mbind option_bind];
    [|eexists _, _; split; [done|]; split; [done|]; by apply flag_missing].
  destruct (s_started s) eqn:Hst; cbn [negb];
    [|eexists _, _; split; [done|]; split; [done|]; rewrite <- Hst; by apply flag_same].
  destruct (H2 _ _ Hs) as (e & He & Hk & Hm). unfold clear_flag. rewrite Hs.
  unfold unsubscribe_locked, set_sub. cbn [p_subs]. rewrite lookup_insert_eq. cbn [s_entry p_heap s_key p_entries].
  rewrite He. unfold removeSubscriber.
  destruct (H1 _ _ He) as (Hrok & Hctl & Hrun & Hemp).
  assert (started (e_control e) = true) as Hstart.
  { destruct (started (e_control e)) eqn:E; [done|]. exfalso.
    assert (sub ∈ e_subscribers e) as Hin by (by apply Hm).
    rewrite (proj2 Hemp) in Hin by done. by apply not_elem_of_empty in Hin. }
  rewrite Hstart, andb_true_r.
  set (e1 := mkEntry _ _ _ (e_subscribers e ∖ {[sub]}) _).
  assert (forall (b : bool) k id,
    (if b then delete (s_key s) (p_entries p) else p_entries p) !! k = Some id -> p_entries p !! k = Some id) as Hdel.
  { intros [] k id; [|done]. intros Hd. apply lookup_delete_Some in Hd. apply Hd. }
  destruct (bool_decide (e_subscribers e ∖ {[sub]} = empty)) eqn:Hlast; cbn [andb].
  - apply bool_decide_eq_true in Hlast.
    destruct (entry_stop_ok env e1 Hrok Hctl Hlast Hstart) as (e2 & err & Hstop & He2 & Hk2 & Hsub2).
    unfold stop_entry. cbn [p_heap]. rewrite lookup_insert_eq, Hstop. cbn. eexists _, _. split; [done|].
    unfold set_entry. cbn [p_entries p_heap p_subs]. rewrite insert_insert_eq.
    split; [|by apply (flag_insert false)].
    apply (update_member_ok p sub s e); try done.
    + intros x. rewrite Hsub2. apply elem_diff_single.
    + apply Hdel.
  - apply bool_decide_eq_false in Hlast. eexists _, _. split; [done|]. split; [|by apply (flag_insert false)].
    apply (update_member_ok p sub s e); try done.
    + split; [done|]. split; [done|]. split; [cbn; congruence|]. cbn. by rewrite Hstart.
    + intros x. apply elem_diff_single.
Qed.

Lemma broadcast_lookup id ev p e sub :
  p_heap p !! id = Some e ->
  p_subs (broadcast id ev p) !! sub =
    (fun s => if decide (sub ∈ e_subscribers e) then sub_send ev s else s) <$> p_subs p !! sub.
Proof.
  intros He. unfold broadcast. rewrite He. cbn. rewrite map_lookup_imap. by destruct (p_subs p !! sub).
Qed.

Lemma broadcast_fields id ev p :
  p_entries (broadcast id ev p) = p_entries p /\ p_heap (broadcast id ev p) = p_heap p.
Proof. unfold broadcast. by destruct (p_heap p !! id). Qed.

(** A receiver may change on its own, as long as it goes on running or not. *)
Definition with_receiver (r : R) (e : sharedRAReceiverEntry) : sharedRAReceiverEntry :=
  mkEntry (e_iface e) (e_key e) r (e_subscribers e) (e_control e).

Lemma receiver_changes_ok id e r p : pool_ok p -> p_heap p !! id = Some e ->
  rOk r -> rRunning r = rRunning (e_receiver e) -> pool_ok (set_entry id (with_receiver r e) p).
Proof.
  intros [H1 H2 H3 H4] He Hr Hrun.
  assert (forall i x, <[id := with_receiver r e]> (p_heap p) !! i = Some x -> exists y, p_heap p !! i = Some y /\
    e_key x = e_key y /\ e_subscribers x = e_subscribers y /\ (entry_ok y -> entry_ok x)) as Hheap.
  { intros i x. destruct (decide (id = i)) as [<-|].
    - rewrite lookup_insert_eq. intros [= <-]. exists e. do 3 (split; [done|]). intros (_ & Hc & Hrun' & Hemp).
      split; [done|]. split; [done|]. split; [cbn; congruence|done].
    - rewrite lookup_insert_ne by done. intros Hx. by exists x. }
  assert (forall i y, p_heap p !! i = Some y -> exists x, <[id := with_receiver r e]> (p_heap p) !! i = Some x /\
    e_key x = e_key y /\ e_subscribers x = e_subscribers y) as Hfwd.
  { intros i y Hy. destruct (decide (id = i)) as [<-|].
    - eexists. rewrite lookup_insert_eq. split; [done|]. by simplify_eq.
    - exists y. by rewrite lookup_insert_ne. }
  split; cbn.
  - intros i x Hx. destruct (Hheap _ _ Hx) as (y & Hy & _ & _ & Hyx). apply Hyx. by eapply H1.
  - intros sub s Hs. destruct (H2 _ _ Hs) as (y & Hy & Hk & Hm). destruct (Hfwd _ _ Hy) as (x & Hx & Ek & Es).
    exists x. rewrite Ek, Es. by split.
  - intros i x sub Hx Hin. destruct (Hheap _ _ Hx) as (y & Hy & _ & Es & _). rewrite Es in Hin. by eapply H3.
  - intros k i Hki. destruct (H4 _ _ Hki) as (y & Hy & Hk). destruct (Hfwd _ _ Hy) as (x & Hx & Ek & _).
    exists x. split; [done|congruence].
Qed.

(** What the pool's bookkeeping sees of a subscription: not its events. *)
Definition sub_view (s : sharedRAReceiverSubscription) : nat * string * bool := (s_entry s, s_key s, s_started s).
Definition same_subs (p p' : sharedRAReceiverPool) : Prop :=
  forall sub, sub_view <$> p_subs p' !! sub = sub_view <$> p_subs p !! sub.

Lemma subs_change_ok p p' : pool_ok p -> p_entries p' = p_entries p -> p_heap p' = p_heap p -> same_subs p p' ->
  pool_ok p'.
Proof.
  intros [H1 H2 H3 H4] Ee Eh Hs. split; rewrite ?Ee, ?Eh; try done.
  - intros sub s' Hs'. specialize (Hs sub). rewrite Hs' in Hs. symmetry in Hs.
    apply fmap_Some in Hs as (s & Hsub & [= E1 E2 E3]). rewrite E1, E2, E3. by apply H2.
  - intros id e sub He Hin. destruct (H3 _ _ _ He Hin) as (s & Hsub & Hid). specialize (Hs sub). rewrite Hsub in Hs.
    apply fmap_Some in Hs as (s' & Hs' & [= E1 E2 E3]). exists s'. split; [done|congruence].
Qed.

Lemma fanOut_ok id p p' : pool_ok p -> fanOut id p = Some p' -> pool_ok p' /\ same_subs p p'.
Proof.
  intros Hok H. unfold fanOut in H. destruct (p_heap p !! id) as [e|] eqn:He; [|done].
  cbn [mbind option_bind] in H. destruct (rEvents (e_receiver e)) as [|ev evs]; [done|]. injection H as <-.
  pose proof (law_recv (e_receiver e)) as (_ & _ & Hr).
  assert (rOk (e_receiver e)) as Hrok by (destruct (ok_entries p Hok id e He); done).
  set (q := set_entry id (with_receiver (rRecv (e_receiver e)) e) p).
  assert (same_subs q (broadcast id ev q)) as Hs.
  { intros sub. rewrite (broadcast_lookup id ev q (with_receiver (rRecv (e_receiver e)) e)) by apply lookup_insert_eq.
    cbn [p_subs q set_entry]. destruct (p_subs p !! sub); cbn; [by destruct (decide _)|done]. }
  split; [|exact Hs]. apply (subs_change_ok q); [|by apply (broadcast_fields id ev q)..|done].
  apply receiver_changes_ok; [done..|by apply law_recv_ok|done].
Qed.

(** Entries are made by [subscribe] and only started, stopped and joined after. *)
Definition entry_from (e e' : sharedRAReceiverEntry) : Prop :=
  e_iface e' = e_iface e /\ e_key e' = e_key e /\
  (e_receiver e' = e_receiver e \/
   (exists env, e_receiver e' = (rStart env (e_receiver e)).1) \/
   (exists env r err, rStop env (e_receiver e) = Some (r, err) /\ e_receiver e' = r)).

Lemma entry_from_refl e : entry_from e e.
Proof. split; [done|]. split; [done|]. by left. Qed.

Definition heap_from (p p' : sharedRAReceiverPool) : Prop :=
  forall i e', p_heap p' !! i = Some e' -> exists e, p_heap p !! i = Some e /\ entry_from e e'.

Lemma heap_from_same p p' : p_heap p' = p_heap p -> heap_from p p'.
Proof. intros E i e He. rewrite E in He. exists e. split; [done|apply entry_from_refl]. Qed.

Lemma heap_from_insert p p' i e e' : p_heap p !! i = Some e -> entry_from e e' ->
  p_heap p' = <[i := e']> (p_heap p) -> heap_from p p'.
Proof.
  intros He Hf Hh j x. rewrite Hh. destruct (decide (i = j)) as [<-|].
  - rewrite lookup_insert_eq. intros [= <-]. by exists e.
  - rewrite lookup_insert_ne by done. intros Hx. exists x. split; [done|apply entry_from_refl].
Qed.

Lemma subscribe_heap iface policy p i e : p_heap (subscribe iface policy p).1 !! i = Some e ->
  p_heap p !! i = Some e \/
  e = mkEntry iface (poolKey iface policy) (newReceiver iface policy) empty new_control.
Proof.
  unfold subscribe. destruct (p_entries p !! poolKey iface policy); cbn; [by left|].
  intros [[<- <-]|[_ ?]]%lookup_insert_Some; [by right|by left].
Qed.

Lemma subscribe_key iface policy p :
  s_key <$> p_subs (subscribe iface policy p).1 !! (subscribe iface policy p).2 = Some (poolKey iface policy).
Proof. unfold subscribe. destruct (p_entries p !! poolKey iface policy); cbn; by rewrite lookup_insert_eq. Qed.

Lemma addSubscriber_from env sub e : entry_from e (addSubscriber env sub e).1.
Proof.
  unfold addSubscriber. destruct (decide _); [apply entry_from_refl|].
  destruct (negb _); [|split; [done|split; [done|by left]]].
  destruct (rStart env (e_receiver e)) as [r [err|]] eqn:E;
    (split; [done|]); (split; [done|]); right; left; exists env; by rewrite E.
Qed.

Lemma start_heap env sub p : heap_from p (Sub_Start env sub p).1.
Proof.
  unfold Sub_Start, start_flag. destruct (p_subs p !! sub) as [s|]; [|by apply heap_from_same].
  cbn. destruct (s_started s); [by apply heap_from_same|]. unfold start_join, set_sub. cbn. rewrite lookup_insert_eq. cbn.
  destruct (p_heap p !! s_entry s) as [e|] eqn:He; [|by apply heap_from_same].
  pose proof (addSubscriber_from env sub e) as Hf. destruct (addSubscriber env sub e) as [e' [err|]]; cbn [fst] in *.
  - eapply heap_from_insert; [exact He|exact Hf|]. unfold clear_flag. by destruct (p_subs _ !! sub).
  - by eapply heap_from_insert.
Qed.

Lemma stop_heap env sub p p' err : Sub_Stop env sub p = Some (p', err) -> heap_from p p'.
Proof.
  unfold Sub_Stop, stop_flag. destruct (p_subs p !! sub) as [s|] eqn:Hs; [|intros [= <- <-]; by apply heap_from_same].
  cbn. destruct (s_started s); cbn [negb]; [|intros [= <- <-]; by apply heap_from_same].
  unfold clear_flag. rewrite Hs. unfold unsubscribe_locked, set_sub. cbn. rewrite lookup_insert_eq. cbn.
  destruct (p_heap p !! s_entry s) as [e|] eqn:He; [|intros [= <- <-]; by apply heap_from_same].
  destruct (_ && _)%bool; [|intros [= <- <-]; eapply heap_from_insert; [exact He| |done]; split; [done|split; [done|by left]]].
  unfold stop_entry. cbn. rewrite lookup_insert_eq. unfold entry_stop. cbn.
  destruct (started _); cbn; [|intros [= <- <-]; cbn; eapply heap_from_insert; [exact He| |cbn; by rewrite insert_insert_eq];
    split; [done|split; [done|by left]]].
  destruct (control_stop _); [|done]. cbn. destruct (rStop env (e_receiver e)) as [[r er]|] eqn:E; [|done]. cbn.
  intros [= <- <-]. eapply heap_from_insert; [exact He| |cbn; by rewrite insert_insert_eq].
  split; [done|]. split; [done|]. right. right. by exists env, r, er.
Qed.

Lemma pool_call_ok c p : pool_ok p -> exists p', pool_call_step c p = Some p' /\ pool_ok p'.
Proof.
  intros Hok. destruct c; cbn [pool_call_step].
  - eexists. split; [done|]. by apply subscribe_ok.
  - eexists. split; [done|]. by apply start_ok.
  - destruct (stop_ok env sub p Hok) as (p' & err & -> & Hok' & _). by exists p'.
  - eexists. split; [done|]. destruct (fanOut entry p) eqn:H; [|done]. by apply (fanOut_ok entry p).
Qed.

Lemma pool_run_ok cs p : pool_ok p -> exists p', pool_run cs p = Some p' /\ pool_ok p'.
Proof.
  revert p. induction cs as [|c cs IH]; intros p Hok; cbn [pool_run]; [by exists p|].
  destruct (pool_call_ok c p Hok) as (p1 & -> & Hok1). cbn. by apply IH.
Qed.
End SharedRA.

Arguments sharedRAReceiverPool : clear implicits.
Arguments sharedRAReceiverEntry : clear implicits.
Arguments pool_call : clear implicits.

(** ** A subscription as a receiver

    The subscription's methods work on the pool it belongs to, so its state as a
    receiver is the pool with its own identifier. *)

Section Subscription.
Context {Env R : Type} `{HRo : !ReceiverOps Env R}.

Definition Sub_Source (sub : nat) (p : sharedRAReceiverPool R) : Source :=
  match (s ← p_subs p !! sub; p_heap p !! s_entry s) with
  | Some e => rSource (e_receiver e)
  | None => SourceUnknown
  end.

Definition Sub_Events (sub : nat) (p : sharedRAReceiverPool R) : list Event :=
  match p_subs p !! sub with Some s => s_events s | None => [] end.

(** The consumer takes an event. *)
Definition drop_event (s : sharedRAReceiverSubscription) : sharedRAReceiverSubscription :=
  mkSub (s_entry s) (s_iface s) (s_key s) (tail (s_events s)) (s_started s).

Definition sub_recv (sub : nat) (p : sharedRAReceiverPool R) : sharedRAReceiverPool R :=
  mkPool (p_entries p) (p_heap p) (alter drop_event sub (p_subs p)).

Definition Sub_Running (sub : nat) (p : sharedRAReceiverPool R) : bool :=
  match p_subs p !! sub with Some s => s_started s | None => false end.

#[export] Instance Subscription_ops : ReceiverOps Env (sharedRAReceiverPool R * nat) := {
  rStart env ps := let (p, e) := Sub_Start env ps.2 ps.1 in ((p, ps.2), e);
  rStop env ps := (fun r => ((r.1, ps.2), r.2)) <$> Sub_Stop env ps.2 ps.1;
  rEvents ps := Sub_Events ps.2 ps.1;
  rRecv ps := (sub_recv ps.2 ps.1, ps.2);
  rCurrentPrefix ps := Sub_CurrentPrefix ps.2 ps.1;
  rSource ps := Sub_Source ps.2 ps.1;
  rRunning ps := Sub_Running ps.2 ps.1
}.

Context `{HR : !ReceiverLaws Env R}.

Definition subscription_ok (ps : sharedRAReceiverPool R * nat) : Prop :=
  pool_ok ps.1 /\ is_Some (p_subs ps.1 !! ps.2) /\ (length (Sub_Events ps.2 ps.1) <= event_cap)%nat.

Lemma alter_sub_ok (f : sharedRAReceiverSubscription -> sharedRAReceiverSubscription) sub (p p' : sharedRAReceiverPool R) :
  (forall s, s_events (f s) = s_events s) -> pool_ok p' -> p_subs p' = alter f sub (p_subs p) ->
  subscription_ok (p, sub) -> subscription_ok (p', sub).
Proof.
  intros Hf Hok Hs (_ & [s Hsub] & Hcap). split; [done|]. unfold Sub_Events in *. cbn in *.
  rewrite Hs, lookup_alter_eq. rewrite Hsub in *. cbn. by rewrite Hf.
Qed.

Lemma recv_same_subs sub (p : sharedRAReceiverPool R) : same_subs p (sub_recv sub p).
Proof.
  intros i. cbn. destruct (decide (sub = i)) as [<-|]; [|by rewrite lookup_alter_ne].
  rewrite lookup_alter_eq. by destruct (p_subs p !! sub).
Qed.

#[export] Program Instance Subscription_laws : ReceiverLaws Env (sharedRAReceiverPool R * nat) := {
  rOk := subscription_ok
}.
Next Obligation.
  intros env [p sub] Hok. cbn. destruct (start_ok env sub p (proj1 Hok)) as [Hp Hs].
  destruct (Sub_Start env sub p) as [p' e]. by apply (alter_sub_ok _ sub p p') in Hs.
Qed.
Next Obligation.
  intros env [p sub] Hok. cbn. destruct (stop_ok env sub p (proj1 Hok)) as (p' & e & -> & Hp & Hs).
  eexists _, _. split; [done|]. split; [by apply (alter_sub_ok _ sub p p') in Hs|].
  destruct Hok as (_ & [s Hsub] & _). unfold Sub_Running. cbn in *. by rewrite Hs, lookup_alter_eq, Hsub.
Qed.
Next Obligation.
  intros [p sub] (Hp & [s Hs] & Hcap). split; [|split]; cbn.
  - by apply (subs_change_ok p); [..|apply recv_same_subs].
  - cbn in Hs. rewrite lookup_alter_eq, Hs. by eexists.
  - unfold Sub_Events in *. cbn in *. rewrite lookup_alter_eq. rewrite Hs in *. cbn. by apply tail_cap.
Qed.
Next Obligation.
  intros [p sub]. cbn. unfold Sub_Events, Sub_CurrentPrefix, Sub_Running, sub_recv. cbn.
  rewrite lookup_alter_eq. by destruct (p_subs p !! sub).
Qed.
Next Obligation.
  intros env [p sub] s' e (Hp & [s Hsub] & _). cbn in *. destruct (start_ok env sub p Hp) as [_ Hs].
  destruct (Sub_Start env sub p) as [p' e']. intros [= <- <-]. unfold Sub_Running. cbn in *.
  by rewrite Hs, lookup_alter_eq, Hsub.
Qed.
Next Obligation.
  intros env env' [p sub] s'. cbn. destruct (Sub_Start env sub p) as [p1 e] eqn:E. intros [= <- ->]. cbn.
  unfold Sub_Start in *. destruct (start_flag sub p1) as [p2|] eqn:E2; [exfalso|done]. revert E E2.
  unfold start_flag. destruct (p_subs p !! sub) as [s|] eqn:Hs; cbn; [|by intros [= ->]; rewrite Hs].
  destruct (s_started s) eqn:Hst; [by intros [= ->]; rewrite Hs; cbn; rewrite Hst|].
  unfold start_join, set_sub. cbn. rewrite lookup_insert_eq. cbn.
  destruct (p_heap p !! s_entry s) as [e|].
  - destruct (addSubscriber env sub e) as [e' [err|]]; [done|]. intros [= <-]. cbn. by rewrite lookup_insert_eq.
  - intros [= <-]. cbn. by rewrite lookup_insert_eq.
Qed.
Next Obligation.
  intros env env' [p sub] s' e (Hp & [s Hsub] & _). cbn in *. destruct (stop_ok env sub p Hp) as (p' & e' & -> & _ & Hs).
  intros [= <- <-]. cbn. unfold Sub_Stop, stop_flag. by rewrite Hs, lookup_alter_eq, Hsub.
Qed.
Next Obligation. by intros [p sub] (_ & _ & ?). Qed.
End Subscription.

(** * Properties *)

(** A pool key stands for exactly one interface and one policy, up to the
    order of the trusted routers: subscriptions that share a receiver watch the
    same interface, accept the same prefixes and trust the same sources.  No
    interface name can be crafted to collide with another's key. *)
Theorem poolKey_identifies (i1 i2 : string) (p q : RAPolicy) :
  routers_ok p -> routers_ok q ->
  poolKey i1 p = poolKey i2 q ->
  i1 = i2 /\ base_policy p = base_policy q /\ TrustedRouters p ≡ₚ TrustedRouters q /\
  (forall source, Trusts p source = Trusts q source).
Proof.
  intros Hp Hq H. apply iface_key_inj in H as [-> Hkey]; [|done..].
  apply RAPolicy_Key_inj in Hkey as [Hb Hperm]; [|done..].
  repeat split; try done. intros source. by apply Trusts_perm.
Qed.

(** Routers listed in another order share a receiver. *)
Lemma poolKey_identifies_witness :
  let p := mkRAPolicy DefaultPolicy [addr_of_string "fe80::1"; addr_of_string "fe80::2"] in
  let q := mkRAPolicy DefaultPolicy [addr_of_string "fe80::2"; addr_of_string "fe80::1"] in
  poolKey "wan0" p = poolKey "wan0" q /\ TrustedRouters p ≡ₚ TrustedRouters q.
Proof.
  intros p q. split; [vm_compute; reflexivity|].
  destruct (poolKey_identifies "wan0" "wan0" p q) as (_ & _ & H & _);
    [| |vm_compute; reflexivity|exact H];
    (repeat constructor; try apply addr_of_string_wf; vm_compute; reflexivity).
Defined.

Section Properties.
Context {Env R : Type} `{HRo : !ReceiverOps Env R} `{HR : !ReceiverLaws Env R}.
Context (newReceiver : string -> RAPolicy -> R).

(** C19 Over any sequence of subscribing, starting, stopping and delivering - in
    any order, repeated, with failing starts - nothing panics, a shared receiver
    runs exactly while some subscription of it is started, and a subscription
    still started is served by a running receiver of its own key, also after the
    map has moved on to a newer entry. *)
Theorem shared_receiver_runs (cs : list (pool_call Env)) :
  (forall iface policy, rOk (newReceiver iface policy) /\ rRunning (newReceiver iface policy) = false) ->
  exists p, pool_run newReceiver cs newSharedRAReceiverPool = Some p /\
    (forall id e, p_heap p !! id = Some e ->
       (rRunning (e_receiver e) = true <->
        exists sub s, p_subs p !! sub = Some s /\ s_entry s = id /\ s_started s = true)) /\
    (forall sub s, p_subs p !! sub = Some s -> s_started s = true ->
       exists e, p_heap p !! s_entry s = Some e /\ rRunning (e_receiver e) = true /\ e_key e = s_key s).
Proof.
  intros Hnew.
  destruct (pool_run_ok newReceiver Hnew cs newSharedRAReceiverPool new_pool_ok) as (p & Hr & [H1 H2 H3 H4]).
  exists p. split; [done|].
  assert (forall sub s, p_subs p !! sub = Some s -> s_started s = true ->
    exists e, p_heap p !! s_entry s = Some e /\ rRunning (e_receiver e) = true /\ e_key e = s_key s) as Hserved.
  { intros sub s Hs Hst. destruct (H2 _ _ Hs) as (e & He & Hk & Hm). exists e. split; [done|]. split; [|done].
    destruct (H1 _ _ He) as (_ & _ & -> & Hemp). apply not_false_is_true. intros Hf. apply Hemp in Hf.
    apply Hm in Hst. rewrite Hf in Hst. by apply not_elem_of_empty in Hst. }
  split; [|done]. intros id e He. destruct (H1 _ _ He) as (_ & _ & Hrun & Hemp). split.
  - intros Ht. destruct (set_choose_or_empty (e_subscribers e)) as [[sub Hin]|Hnone].
    + destruct (H3 _ _ _ He Hin) as (s & Hs & <-). exists sub, s. split; [done|]. split; [done|].
      destruct (H2 _ _ Hs) as (e' & He' & _ & Hm). simplify_eq. by apply Hm.
    + apply leibniz_equiv in Hnone. apply Hemp in Hnone. congruence.
  - intros (sub & s & Hs & <- & Hst). destruct (Hserved _ _ Hs Hst) as (e' & He' & ? & _). by simplify_eq.
Qed.

(** One delivery takes one event from the receiver and appends it to the
    channel of every subscriber with room; a full channel loses it without
    affecting anyone else, and subscriptions of other receivers see nothing. *)
Theorem fanOut_delivers (id : nat) (p p' : sharedRAReceiverPool R) (e : sharedRAReceiverEntry R)
    (ev : Event) (rest : list Event) :
  p_heap p !! id = Some e -> rEvents (e_receiver e) = ev :: rest ->
  fanOut id p = Some p' ->
  (forall sub s, p_subs p !! sub = Some s ->
     exists s', p_subs p' !! sub = Some s' /\
       s_events s' = (if decide (sub ∈ e_subscribers e /\ (length (s_events s) < event_cap)%nat)
                      then s_events s ++ [ev] else s_events s)) /\
  (exists e', p_heap p' !! id = Some e' /\ rEvents (e_receiver e') = rest /\
     rCurrentPrefix (e_receiver e') = rCurrentPrefix (e_receiver e)).
Proof.
  intros He Hev H. unfold fanOut in H. rewrite He in H. cbn [mbind option_bind] in H. rewrite Hev in H.
  injection H as <-. set (e' := mkEntry _ _ _ _ _). split.
  - intros sub s Hs. rewrite (broadcast_lookup id ev _ e' sub) by (apply lookup_insert_eq).
    change (p_subs (set_entry id e' p)) with (p_subs p). rewrite Hs. cbn. eexists. split; [done|].
    unfold sub_send, chan_send. cbn [s_events].
    destruct (decide (sub ∈ e_subscribers e)), (Nat.ltb_spec (length (s_events s)) event_cap);
      cbn [s_events]; destruct (decide _) as [[? ?]|Hn]; (done || lia || (exfalso; by apply Hn)).
  - exists e'. unfold broadcast. cbn. rewrite lookup_insert_eq. cbn. rewrite lookup_insert_eq.
    destruct (law_recv (e_receiver e)) as (Hr & Hc & _). by rewrite Hr, Hev, Hc.
Qed.
End Properties.

(** ** Witnesses: a pool of mock receivers *)

Definition mock_new (iface : string) (policy : RAPolicy) : MockReceiver :=
  NewMockReceiver SourceRouterAdvertisement.

Lemma mock_new_ok iface policy : rOk (mock_new iface policy) /\ rRunning (mock_new iface policy) = false.
Proof. split; [|done]. split; cbn; [done|lia]. Qed.

Definition two_subscribers : list (pool_call unit) :=
  [CallSubscribe "wan0" DefaultRAPolicy; CallSubscribe "wan0" DefaultRAPolicy; CallStart tt 0;
   CallStart tt 1; CallStop tt 0].

Lemma shared_receiver_runs_witness :
  exists p, pool_run mock_new two_subscribers newSharedRAReceiverPool = Some p /\
    (forall id e, p_heap p !! id = Some e ->
       (rRunning (e_receiver e) = true <->
        exists sub s, p_subs p !! sub = Some s /\ s_entry s = id /\ s_started s = true)) /\
    (forall sub s, p_subs p !! sub = Some s -> s_started s = true ->
       exists e, p_heap p !! s_entry s = Some e /\ rRunning (e_receiver e) = true /\ e_key e = s_key s).
Proof. apply (shared_receiver_runs mock_new two_subscribers mock_new_ok). Defined.

Definition served_entry : sharedRAReceiverEntry MockReceiver :=
  mkEntry "wan0" (poolKey "wan0" DefaultRAPolicy)
    (set_mock_events (mock_new "wan0" DefaultRAPolicy) [mkEvent EventTypeExpired None None]) {[1%nat]} new_control.
Definition served_pool : sharedRAReceiverPool MockReceiver :=
  mkPool empty {[0%nat := served_entry]}
    {[1%nat := mkSub 0 "wan0" (poolKey "wan0" DefaultRAPolicy) [] true]}.

Lemma fanOut_delivers_witness :
  exists s', p_subs (default served_pool (fanOut 0 served_pool)) !! 1%nat = Some s' /\
    s_events s' = [mkEvent EventTypeExpired None None].
Proof.
  destruct (fanOut_delivers 0 served_pool (default served_pool (fanOut 0 served_pool)) served_entry
    (mkEvent EventTypeExpired None None) []) as [H _]; [reflexivity|reflexivity|reflexivity|].
  exact (H 1%nat (mkSub 0 "wan0" (poolKey "wan0" DefaultRAPolicy) [] true) eq_refl).
Defined.

(** ** The window in [unsubscribe]

    The pool's lock is released before [entry.stop()] takes the entry's: another
    subscription of the entry that starts in between joins an entry still marked
    started, and is then stopped with it. *)
Definition race_window (p : sharedRAReceiverPool MockReceiver) : option (sharedRAReceiverPool MockReceiver) :=
  p1 ← stop_flag 0 p;
  let '(p2, toStop) := unsubscribe_locked 0 p1 in
  let p3 := (Sub_Start tt 1 p2).1 in
  id ← toStop; fst <$> stop_entry tt id p3.

Definition race_start : sharedRAReceiverPool MockReceiver :=
  default newSharedRAReceiverPool (pool_run mock_new
    [CallSubscribe "wan0" DefaultRAPolicy; CallSubscribe "wan0" DefaultRAPolicy; CallStart tt 0]
    newSharedRAReceiverPool).

(** Interleaved at the lock sections, a stop of the last started subscription
    and a start of another can leave the second started, registered with its
    entry, and served by a receiver that does not run - which whole calls never
    do. *)
Theorem unsubscribe_race :
  exists p s e, race_window race_start = Some p /\ p_subs p !! 1%nat = Some s /\ s_started s = true /\
    p_heap p !! s_entry s = Some e /\ 1%nat ∈ e_subscribers e /\ rRunning (e_receiver e) = false.
Proof.
  destruct (race_window race_start) as [p|] eqn:H; [|vm_compute in H; discriminate].
  vm_compute in H. injection H as <-. eexists _, _, _. repeat split; try (vm_compute; reflexivity).
Qed.
