(* ===== verification/Factory.v ===== *)
(** * Creating receivers

    [internal/prefix/factory.go] and the parts of [api/v1alpha1] it reads: the
    acquisition spec, its defaults, and the factory's two shared resources - the
    pool of Router Advertisement receivers and the set of interfaces that already
    run a DHCPv6-PD client. *)

From S2P Require Import Prelude GoStrings Netip NetipText Policy Receivers RAReceiver DHCPv6PD SharedRA.

(** ** The acquisition spec; pointers are options. *)

Record DHCPv6PDSpec : Type := mkDHCPv6PDSpec {
  pds_Interface : string;
  pds_RequestedPrefixLength : option Z
}.

Record RouterAdvertisementSpec : Type := mkRASpec {
  ras_Interface : string;
  ras_Enabled : option bool;
  ras_TrustedRouters : list string
}.

Record PrefixFilterSpec : Type := mkFilter {
  pf_RequireGlobalUnicast : option bool;
  pf_MinPrefixLength : option Z;
  pf_MaxPrefixLength : option Z
}.

Record AcquisitionSpec : Type := mkAcquisition {
  acq_DHCPv6PD : option DHCPv6PDSpec;
  acq_RouterAdvertisement : option RouterAdvertisementSpec;
  acq_PrefixFilter : option PrefixFilterSpec
}.

#[global] Instance AcquisitionSpec_eq_dec : EqDecision AcquisitionSpec.
Proof.
  assert (EqDecision DHCPv6PDSpec) by solve_decision.
  assert (EqDecision RouterAdvertisementSpec) by solve_decision.
  assert (EqDecision PrefixFilterSpec) by solve_decision.
  solve_decision.
Defined.

Definition RAEnabled (s : option RouterAdvertisementSpec) : bool :=
  match s with
  | None => false
  | Some ra => match ras_Enabled ra with None => true | Some b => b end
  end.

Definition PrefixLengthBounds (spec : AcquisitionSpec) : Z * Z :=
  match acq_PrefixFilter spec with
  | None => (0, 0)
  | Some f => (default 0 (pf_MinPrefixLength f), default 0 (pf_MaxPrefixLength f))
  end.

Definition spec_RequireGlobalUnicast (spec : AcquisitionSpec) : bool :=
  match acq_PrefixFilter spec with
  | None => true
  | Some f => match pf_RequireGlobalUnicast f with None => true | Some b => b end
  end.

(** The controller's policy for a resource. *)
Definition prefixPolicyFor (spec : AcquisitionSpec) : Policy :=
  let (minBits, maxBits) := PrefixLengthBounds spec in
  mkPolicy (spec_RequireGlobalUnicast spec) minBits maxBits.

(** The receivers' policy, field by field over the default. *)
Definition policyFromSpec (spec : AcquisitionSpec) : Policy :=
  let policy := DefaultPolicy in
  match acq_PrefixFilter spec with
  | None => policy
  | Some filter =>
      let p1 := match pf_RequireGlobalUnicast filter with
                | Some b => mkPolicy b (MinPrefixLength policy) (MaxPrefixLength policy)
                | None => policy
                end in
      let p2 := match pf_MinPrefixLength filter with
                | Some n => mkPolicy (RequireGlobalUnicast p1) n (MaxPrefixLength p1)
                | None => p1
                end in
      match pf_MaxPrefixLength filter with
      | Some n => mkPolicy (RequireGlobalUnicast p2) (MinPrefixLength p2) n
      | None => p2
      end
  end.

Definition raPolicyFromSpec (spec : AcquisitionSpec) : outcome router_error RAPolicy :=
  match acq_RouterAdvertisement spec with
  | None => Ret (mkRAPolicy (policyFromSpec spec) [])
  | Some ra => (let* routers := ParseTrustedRouters (ras_TrustedRouters ra) in
                Ret (mkRAPolicy (policyFromSpec spec) routers))%go
  end.

(** ** The factory *)

Record DefaultReceiverFactory : Type := mkFactory {
  f_raReceivers : sharedRAReceiverPool RAReceiver;
  f_onRAReject : bool;
  f_pdInterfaces : gset string
}.

Definition NewReceiverFactory (onRAReject : bool) : DefaultReceiverFactory :=
  mkFactory newSharedRAReceiverPool onRAReject empty.

Definition newRAReceiver (f : DefaultReceiverFactory) (iface : string) (policy : RAPolicy) : RAReceiver :=
  NewRAReceiverWithPolicy iface policy (f_onRAReject f).

Inductive factory_error : Type :=
| ErrInterfaceBusy (iface : string)
| ErrPDInterfaceRequired
| ErrRAInterfaceRequired
| ErrTrustedRouters (e : router_error)
| ErrNoAcquisition
| ErrPrimary (e : factory_error)
| ErrFallback (e : factory_error).

(** A created receiver: the Router Advertisement half is a subscription of the
    pool. *)
Inductive receiver : Type :=
| RcvPD (pd : DHCPv6PDReceiver)
| RcvRA (sub : nat)
| RcvComposite (pd : DHCPv6PDReceiver) (sub : nat).

Definition set_claims (claims : gset string) (f : DefaultReceiverFactory) : DefaultReceiverFactory :=
  mkFactory (f_raReceivers f) (f_onRAReject f) claims.

Definition claimPDInterface (iface : string) (f : DefaultReceiverFactory)
    : DefaultReceiverFactory * outcome factory_error unit :=
  if decide (iface ∈ f_pdInterfaces f) then (f, Fail (ErrInterfaceBusy iface))
  else (set_claims ({[iface]} ∪ f_pdInterfaces f) f, Ret tt).

(** The function [claimPDInterface] returns. *)
Definition releasePDInterface (iface : string) (f : DefaultReceiverFactory) : DefaultReceiverFactory :=
  set_claims (f_pdInterfaces f ∖ {[iface]}) f.

Definition with_release (r : DHCPv6PDReceiver) : DHCPv6PDReceiver :=
  mkPD (pd_iface r) (pd_requestedPrefixLength r) (pd_policy r) (pd_health r) (pd_currentPrefix r)
    (pd_lease r) (pd_events r) (pd_control r) (pd_acquireBackoffMin r) (pd_acquireBackoffMax r)
    true false 0.

Definition createDHCPv6PDReceiver (spec : DHCPv6PDSpec) (policy : Policy) (f : DefaultReceiverFactory)
    : DefaultReceiverFactory * outcome factory_error DHCPv6PDReceiver :=
  if decide (pds_Interface spec = EmptyString) then (f, Fail ErrPDInterfaceRequired)
  else
    let prefixLength := match pds_RequestedPrefixLength spec with Some n => n | None => 56 end in
    match claimPDInterface (pds_Interface spec) f with
    | (f', Ret _) =>
        (f', Ret (with_release (NewDHCPv6PDReceiverWithPolicy (pds_Interface spec) prefixLength policy)))
    | (f', Fail e) => (f', Fail e)
    | (f', Panic) => (f', Panic)
    end.

Definition createRAReceiver (spec : RouterAdvertisementSpec) (policy : RAPolicy) (f : DefaultReceiverFactory)
    : DefaultReceiverFactory * outcome factory_error nat :=
  if decide (ras_Interface spec = EmptyString) then (f, Fail ErrRAInterfaceRequired)
  else
    let (pool, sub) := subscribe (newRAReceiver f) (ras_Interface spec) policy (f_raReceivers f) in
    (mkFactory pool (f_onRAReject f) (f_pdInterfaces f), Ret sub).

(** Stopping a created PD half: its release function runs when the receiver runs
    it. *)
Definition release_once (pd : DHCPv6PDReceiver) (f : DefaultReceiverFactory)
    : DefaultReceiverFactory * DHCPv6PDReceiver :=
  let pd' := releaseClaimedInterface pd in
  (if (pd_releases pd <? pd_releases pd')%nat then releasePDInterface (pd_iface pd) f else f, pd').

Definition createCompositeReceiver (pdSpec : DHCPv6PDSpec) (raSpec : RouterAdvertisementSpec)
    (spec : AcquisitionSpec) (f : DefaultReceiverFactory)
    : DefaultReceiverFactory * outcome factory_error receiver :=
  match raPolicyFromSpec spec with
  | Fail e => (f, Fail (ErrTrustedRouters e))
  | Panic => (f, Panic)
  | Ret raPolicy =>
      match createDHCPv6PDReceiver pdSpec (base_policy raPolicy) f with
      | (f1, Fail e) => (f1, Fail (ErrPrimary e))
      | (f1, Panic) => (f1, Panic)
      | (f1, Ret primary) =>
          match createRAReceiver raSpec raPolicy f1 with
          | (f2, Fail e) => ((release_once primary f2).1, Fail (ErrFallback e))
          | (f2, Panic) => (f2, Panic)
          | (f2, Ret fallback) => (f2, Ret (RcvComposite primary fallback))
          end
      end
  end.

Definition CreateReceiver (spec : AcquisitionSpec) (f : DefaultReceiverFactory)
    : DefaultReceiverFactory * outcome factory_error receiver :=
  let hasRA := RAEnabled (acq_RouterAdvertisement spec) in
  match acq_DHCPv6PD spec, acq_RouterAdvertisement spec with
  | Some pd, Some ra =>
      if hasRA then createCompositeReceiver pd ra spec f
      else match createDHCPv6PDReceiver pd (policyFromSpec spec) f with
           | (f', Ret r) => (f', Ret (RcvPD r))
           | (f', Fail e) => (f', Fail e)
           | (f', Panic) => (f', Panic)
           end
  | Some pd, None =>
      match createDHCPv6PDReceiver pd (policyFromSpec spec) f with
      | (f', Ret r) => (f', Ret (RcvPD r))
      | (f', Fail e) => (f', Fail e)
      | (f', Panic) => (f', Panic)
      end
  | None, Some ra =>
      if hasRA then
        match raPolicyFromSpec spec with
        | Fail e => (f, Fail (ErrTrustedRouters e))
        | Panic => (f, Panic)
        | Ret raPolicy =>
            match createRAReceiver ra raPolicy f with
            | (f', Ret sub) => (f', Ret (RcvRA sub))
            | (f', Fail e) => (f', Fail e)
            | (f', Panic) => (f', Panic)
            end
        end
      else (f, Fail ErrNoAcquisition)
  | None, None => (f, Fail ErrNoAcquisition)
  end.

(** ** Runs: receivers created and stopped through one factory *)

Record world : Type := mkWorld {
  w_factory : DefaultReceiverFactory;
  w_receivers : gmap nat receiver
}.

Inductive world_call : Type :=
| WCreate (spec : AcquisitionSpec)
| WStartPD (id : nat)
| WStopPD (id : nat).

Definition pd_of (r : receiver) : option DHCPv6PDReceiver :=
  match r with RcvPD pd | RcvComposite pd _ => Some pd | RcvRA _ => None end.

Definition with_pd (pd : DHCPv6PDReceiver) (r : receiver) : receiver :=
  match r with
  | RcvPD _ => RcvPD pd
  | RcvComposite _ sub => RcvComposite pd sub
  | RcvRA sub => RcvRA sub
  end.

(** Stop of the DHCPv6-PD half: the claim goes back, then the client stops. *)
Definition stop_pd (pd : DHCPv6PDReceiver) (f : DefaultReceiverFactory)
    : option (DefaultReceiverFactory * DHCPv6PDReceiver) :=
  pd' ← PD_Stop pd;
  Some (if (pd_releases pd <? pd_releases pd')%nat then releasePDInterface (pd_iface pd) f else f, pd').

(** [None]: a panic. *)
Definition world_step (c : world_call) (w : world) : option world :=
  match c with
  | WCreate spec =>
      match CreateReceiver spec (w_factory w) with
      | (f, Ret r) => Some (mkWorld f (<[fresh_id (w_receivers w) := r]> (w_receivers w)))
      | (f, Fail _) => Some (mkWorld f (w_receivers w))
      | (_, Panic) => None
      end
  | WStartPD id =>
      match w_receivers w !! id with
      | None => Some w
      | Some r =>
          match pd_of r with
          | None => Some w
          | Some pd => Some (mkWorld (w_factory w) (<[id := with_pd (PD_Start pd) r]> (w_receivers w)))
          end
      end
  | WStopPD id =>
      match w_receivers w !! id with
      | None => Some w
      | Some r =>
          match pd_of r with
          | None => Some w
          | Some pd =>
              fp ← stop_pd pd (w_factory w);
              Some (mkWorld fp.1 (<[id := with_pd fp.2 r]> (w_receivers w)))
          end
      end
  end.

Fixpoint world_run (cs : list world_call) (w : world) : option world :=
  match cs with
  | [] => Some w
  | c :: cs' => w' ← world_step c w; world_run cs' w'
  end.

(** * Lemmas *)

(** What creating does to the claims. *)
Definition claims_change (spec : AcquisitionSpec) (f f' : DefaultReceiverFactory) (r : receiver) : Prop :=
  match acq_DHCPv6PD spec, pd_of r with
  | Some pds, Some pd =>
      pd_iface pd = pds_Interface pds /\ (pds_Interface pds ∉ f_pdInterfaces f) /\
      f_pdInterfaces f' = ({[pds_Interface pds]} ∪ f_pdInterfaces f) /\
      pd_ok pd /\ pd_releaseInterface pd = true /\ pd_releaseOnce pd = false /\ pd_releases pd = 0%nat
  | _, None => f_pdInterfaces f' = f_pdInterfaces f
  | None, Some _ => False
  end.

Lemma createDHCPv6PD_cases spec policy f :
  match createDHCPv6PDReceiver spec policy f with
  | (f', Ret pd) =>
      pd_iface pd = pds_Interface spec /\ (pds_Interface spec ∉ f_pdInterfaces f) /\
      f' = set_claims ({[pds_Interface spec]} ∪ f_pdInterfaces f) f /\
      pd_ok pd /\ pd_releaseInterface pd = true /\ pd_releaseOnce pd = false /\ pd_releases pd = 0%nat
  | (f', Fail _) => f' = f
  | (_, Panic) => False
  end.
Proof.
  unfold createDHCPv6PDReceiver. destruct (decide (pds_Interface spec = EmptyString)); [done|].
  unfold claimPDInterface. destruct (decide (pds_Interface spec ∈ f_pdInterfaces f)); [done|].
  repeat split; try done. cbn. lia.
Qed.

Lemma createRA_claims spec policy f :
  match createRAReceiver spec policy f with
  | (f', Ret _) => f_pdInterfaces f' = f_pdInterfaces f
  | (f', Fail _) => f' = f
  | (_, Panic) => False
  end.
Proof.
  unfold createRAReceiver. destruct (decide (ras_Interface spec = EmptyString)); [done|].
  by destruct (subscribe _ _ _ _).
Qed.

Lemma release_undoes_claim iface f : iface ∉ f_pdInterfaces f ->
  releasePDInterface iface (set_claims ({[iface]} ∪ f_pdInterfaces f) f) = f.
Proof.
  intros Hn. unfold releasePDInterface, set_claims. cbn.
  assert (({[iface]} ∪ f_pdInterfaces f) ∖ {[iface]} = f_pdInterfaces f) as ->; [|by destruct f].
  apply set_eq. intros x. rewrite elem_of_difference, elem_of_union, elem_of_singleton.
  destruct (decide (x = iface)) as [->|]; tauto.
Qed.

Lemma raPolicy_no_panic spec : raPolicyFromSpec spec <> Panic.
Proof.
  unfold raPolicyFromSpec. destruct (acq_RouterAdvertisement spec) as [ra|]; [|done].
  assert (ParseTrustedRouters (ras_TrustedRouters ra) <> Panic) as H.
  { unfold ParseTrustedRouters. destruct (_ =? _)%nat; [done|]. apply omap_all_no_panic. intros v _.
    unfold parseTrustedRouter. by repeat case_match. }
  by destruct (ParseTrustedRouters _).
Qed.

Lemma createComposite_claims pds ras spec f :
  acq_DHCPv6PD spec = Some pds ->
  match createCompositeReceiver pds ras spec f with
  | (f', Ret r) => claims_change spec f f' r
  | (f', Fail _) => f' = f
  | (_, Panic) => False
  end.
Proof.
  intros Hs. unfold createCompositeReceiver. pose proof (raPolicy_no_panic spec) as Hnp.
  destruct (raPolicyFromSpec spec) as [raPolicy|e|]; [|done|done].
  pose proof (createDHCPv6PD_cases pds (base_policy raPolicy) f) as Hpd.
  destruct (createDHCPv6PDReceiver _ _ _) as [f1 [pd|e|]]; [|done|done].
  destruct Hpd as (Hi & Hn & -> & Hok & Hr & Ho & H0).
  pose proof (createRA_claims ras raPolicy (set_claims ({[pds_Interface pds]} ∪ f_pdInterfaces f) f)) as Hra.
  destruct (createRAReceiver _ _ _) as [f2 [sub|e|]]; [| |done].
  - unfold claims_change. rewrite Hs. cbn. by rewrite Hra.
  - subst f2. unfold release_once, releaseClaimedInterface. rewrite Hr, Ho. cbn. rewrite H0, Hi. cbn.
    by apply release_undoes_claim.
Qed.

Lemma CreateReceiver_claims spec f :
  match CreateReceiver spec f with
  | (f', Ret r) => claims_change spec f f' r
  | (f', Fail _) => f_pdInterfaces f' = f_pdInterfaces f
  | (_, Panic) => False
  end.
Proof.
  unfold CreateReceiver.
  destruct (acq_DHCPv6PD spec) as [pds|] eqn:Hpd, (acq_RouterAdvertisement spec) as [ras|] eqn:Hra.
  - destruct (RAEnabled _).
    + pose proof (createComposite_claims pds ras spec f Hpd) as H.
      destruct (createCompositeReceiver _ _ _ _) as [f' [r|e|]]; [done|by subst|done].
    + pose proof (createDHCPv6PD_cases pds (policyFromSpec spec) f) as H.
      destruct (createDHCPv6PDReceiver _ _ _) as [f' [r|e|]]; [|by subst|done].
      unfold claims_change. rewrite Hpd. cbn. destruct H as (? & ? & -> & ?). done.
  - pose proof (createDHCPv6PD_cases pds (policyFromSpec spec) f) as H.
    destruct (createDHCPv6PDReceiver _ _ _) as [f' [r|e|]]; [|by subst|done].
    unfold claims_change. rewrite Hpd. cbn. destruct H as (? & ? & -> & ?). done.
  - destruct (RAEnabled _); [|done]. pose proof (raPolicy_no_panic spec) as Hnp.
    destruct (raPolicyFromSpec spec) as [p|e|]; [|done|done].
    pose proof (createRA_claims ras p f) as H.
    destruct (createRAReceiver _ _ _) as [f' [sub|e|]]; [|by subst|done].
    unfold claims_change. by rewrite Hpd.
  - done.
Qed.

(** A created client that has not handed its interface back. *)
Definition holds (r : receiver) (iface : string) : Prop :=
  exists pd, pd_of r = Some pd /\ pd_iface pd = iface /\ pd_releaseOnce pd = false.

(** Every client can be stopped and has its release function; claims are exactly
    the interfaces held, each by one receiver. *)
Record world_ok (w : world) : Prop := {
  w_pd_ok : forall id r pd, w_receivers w !! id = Some r -> pd_of r = Some pd ->
    pd_ok pd /\ pd_releaseInterface pd = true /\
    pd_releases pd = (if pd_releaseOnce pd then 1%nat else 0%nat);
  w_claims : forall iface, iface ∈ f_pdInterfaces (w_factory w) <->
    exists id r, w_receivers w !! id = Some r /\ holds r iface;
  w_unique : forall id1 id2 r1 r2 iface, w_receivers w !! id1 = Some r1 -> w_receivers w !! id2 = Some r2 ->
    holds r1 iface -> holds r2 iface -> id1 = id2
}.

Lemma pd_of_with_pd pd pd' r : pd_of r = Some pd -> pd_of (with_pd pd' r) = Some pd'.
Proof. by destruct r. Qed.

Lemma create_ok w spec f r : world_ok w -> CreateReceiver spec (w_factory w) = (f, Ret r) ->
  world_ok (mkWorld f (<[fresh_id (w_receivers w) := r]> (w_receivers w))).
Proof.
  intros [H1 H2 H3] Hc. pose proof (CreateReceiver_claims spec (w_factory w)) as H. rewrite Hc in H.
  pose proof (fresh_id_none (w_receivers w)) as Hfresh. set (n := fresh_id _) in *.
  assert (forall iface, holds r iface -> (iface ∉ f_pdInterfaces (w_factory w)) /\
      f_pdInterfaces f = ({[iface]} ∪ f_pdInterfaces (w_factory w))) as Hnew.
  { intros iface (pd & Hpd & Hi & _). unfold claims_change in H. rewrite Hpd in H.
    destruct (acq_DHCPv6PD spec); [|done]. destruct H as (Hi' & Hn & Hf & _). rewrite <- Hi, Hi'. done. }
  assert (forall iface id r', w_receivers w !! id = Some r' -> holds r' iface -> holds r iface -> False) as Hno.
  { intros iface id r' Hr' Hh Hh2. destruct (Hnew iface Hh2) as [Hn _]. apply Hn, H2. by exists id, r'. }
  split; cbn.
  - intros id r' pd. destruct (decide (n = id)) as [<-|].
    + rewrite lookup_insert_eq. intros [= <-] Hpd. unfold claims_change in H. rewrite Hpd in H.
      destruct (acq_DHCPv6PD spec); [|done]. destruct H as (_ & _ & _ & Hok & Hr & Ho & H0). by rewrite Ho.
    + rewrite lookup_insert_ne by done. apply H1.
  - intros iface. split.
    + intros Hin. destruct (decide (iface ∈ f_pdInterfaces (w_factory w))) as [Hold|Hnold].
      * apply H2 in Hold as (id & r' & Hr' & ?). exists id, r'. split; [|done].
        rewrite lookup_insert_ne; [done|]. intros E. rewrite <- E in Hr'. congruence.
      * exists n, r. split; [apply lookup_insert_eq|]. unfold claims_change in H.
        destruct (acq_DHCPv6PD spec) as [pds|], (pd_of r) as [pd|] eqn:Hpd; try done; try (by rewrite H in Hin).
        destruct H as (Hi & _ & Hf & _ & _ & Ho & _). exists pd. split; [done|]. split; [|done].
        rewrite Hf in Hin. apply elem_of_union in Hin as [Hin%elem_of_singleton|?]; [congruence|done].
    + intros (id & r' & Hr' & Hh). destruct (decide (n = id)) as [<-|].
      * rewrite lookup_insert_eq in Hr'. injection Hr' as <-. destruct (Hnew iface Hh) as [_ ->].
        by apply elem_of_union_l, elem_of_singleton.
      * rewrite lookup_insert_ne in Hr' by done.
        assert (iface ∈ f_pdInterfaces (w_factory w)) as Hold by (apply H2; eauto).
        unfold claims_change in H. destruct (acq_DHCPv6PD spec), (pd_of r); try done; [|by rewrite H..].
        destruct H as (_ & _ & -> & _). by apply elem_of_union_r.
  - intros id1 id2 r1 r2 iface. destruct (decide (n = id1)) as [<-|], (decide (n = id2)) as [<-|];
      rewrite ?lookup_insert_eq, ?lookup_insert_ne by done; [done| | |by apply H3].
    + intros [= <-] Hr2 Hh1 Hh2. by destruct (Hno _ _ _ Hr2 Hh2 Hh1).
    + intros Hr1 [= <-] Hh1 Hh2. by destruct (Hno _ _ _ Hr1 Hh1 Hh2).
Qed.

(** A client that changes without handing its interface back. *)
Lemma client_changes_ok w id r pd pd' : world_ok w -> w_receivers w !! id = Some r -> pd_of r = Some pd ->
  pd_ok pd' -> pd_iface pd' = pd_iface pd -> pd_releaseOnce pd' = pd_releaseOnce pd ->
  pd_releaseInterface pd' = pd_releaseInterface pd -> pd_releases pd' = pd_releases pd ->
  world_ok (mkWorld (w_factory w) (<[id := with_pd pd' r]> (w_receivers w))).
Proof.
  intros [H1 H2 H3] Hr Hpd Hok' E1 E2 E3 E4. destruct (H1 _ _ _ Hr Hpd) as (Hok & Hri & Hrel). rewrite Hri in E3.
  assert (forall iface, holds (with_pd (pd') r) iface <-> holds r iface) as Hh.
  { intros iface. unfold holds. rewrite (pd_of_with_pd pd) by done. rewrite Hpd.
    split; intros (x & [= <-] & ? & ?); eexists; (split; [done|]); by rewrite ?E1, ?E2 in *. }
  assert (forall id' r', <[id := with_pd (pd') r]> (w_receivers w) !! id' = Some r' ->
    exists r0, w_receivers w !! id' = Some r0 /\ forall iface, holds r' iface <-> holds r0 iface) as Hback.
  { intros id' r'. destruct (decide (id = id')) as [<-|].
    - rewrite lookup_insert_eq. intros [= <-]. by exists r.
    - rewrite lookup_insert_ne by done. intros. by exists r'. }
  split; cbn.
  - intros id' r' x. destruct (decide (id = id')) as [<-|].
    + rewrite lookup_insert_eq. intros [= <-]. rewrite (pd_of_with_pd pd) by done. intros [= <-].
      by rewrite E2, E3, E4.
    + rewrite lookup_insert_ne by done. apply H1.
  - intros iface. rewrite H2. split.
    + intros (i & r' & Hr' & Hh'). destruct (decide (id = i)) as [<-|].
      * exists id, (with_pd (pd') r). rewrite lookup_insert_eq. split; [done|]. apply Hh. congruence.
      * exists i, r'. by rewrite lookup_insert_ne.
    + intros (i & r' & Hr' & Hh'). destruct (Hback _ _ Hr') as (r0 & Hr0 & E). exists i, r0. by rewrite <- E.
  - intros i1 i2 r1 r2 iface Hr1 Hr2 Hh1 Hh2. destruct (Hback _ _ Hr1) as (a & Ha & Ea).
    destruct (Hback _ _ Hr2) as (b & Hb & Eb). eapply (H3 i1 i2 a b iface); try done; by rewrite <- ?Ea, <- ?Eb.
Qed.

Lemma start_world_ok w id r pd : world_ok w -> w_receivers w !! id = Some r -> pd_of r = Some pd ->
  world_ok (mkWorld (w_factory w) (<[id := with_pd (PD_Start pd) r]> (w_receivers w))).
Proof.
  intros Hw Hr Hpd. destruct (w_pd_ok w Hw _ _ _ Hr Hpd) as (Hok & _).
  apply (client_changes_ok w id r pd); try done; [|unfold PD_Start; by destruct (started _)..].
  exact (@law_start_ok _ _ _ DHCPv6PDReceiver_laws tt pd Hok).
Qed.

(** Stopping hands the interface back the first time and leaves the claims alone
    afterwards, so a newer holder keeps its own. *)
Lemma stop_pd_cases pd f : pd_ok pd -> pd_releaseInterface pd = true ->
  pd_releases pd = (if pd_releaseOnce pd then 1%nat else 0%nat) ->
  exists pd', stop_pd pd f = Some (if pd_releaseOnce pd then f else releasePDInterface (pd_iface pd) f, pd') /\
    pd_ok pd' /\ pd_releaseInterface pd' = true /\ pd_releaseOnce pd' = true /\ pd_releases pd' = 1%nat /\
    pd_iface pd' = pd_iface pd.
Proof.
  intros Hok Hri Hrel. destruct (PD_Stop_ok pd Hok) as (k & Hs & Hk & _). unfold stop_pd. rewrite Hs. cbn.
  exists (set_pd_control k (releaseClaimedInterface pd)).
  destruct (releaseClaimedInterface_fields pd) as (_ & Hev & _).
  assert (pd_ok (set_pd_control k (releaseClaimedInterface pd))) as Hok'.
  { split; [done|]. cbn. rewrite Hev. apply Hok. }
  unfold releaseClaimedInterface in *. rewrite Hri in *. cbn [negb] in *.
  destruct (pd_releaseOnce pd) eqn:Ho; cbn; rewrite Hrel; cbn; repeat (split; [done|]); done.
Qed.

Lemma stop_world_ok w id r pd : world_ok w -> w_receivers w !! id = Some r -> pd_of r = Some pd ->
  exists f pd', stop_pd pd (w_factory w) = Some (f, pd') /\
    world_ok (mkWorld f (<[id := with_pd pd' r]> (w_receivers w))).
Proof.
  intros [H1 H2 H3] Hr Hpd. destruct (H1 _ _ _ Hr Hpd) as (Hok & Hri & Hrel).
  destruct (stop_pd_cases pd (w_factory w) Hok Hri Hrel) as (pd' & Hs & Hok' & Hri' & Ho' & Hrel' & Hi').
  rewrite Hs. eexists _, _. split; [done|].
  assert (forall iface, ~ holds (with_pd pd' r) iface) as Hnone.
  { intros iface (x & Hx & _ & Hx2). rewrite (pd_of_with_pd pd) in Hx by done. congruence. }
  assert (forall i r' iface, <[id := with_pd pd' r]> (w_receivers w) !! i = Some r' -> holds r' iface ->
    i <> id /\ w_receivers w !! i = Some r') as Hback.
  { intros i r' iface. destruct (decide (id = i)) as [<-|].
    - rewrite lookup_insert_eq. intros [= <-] Hh. by destruct (Hnone _ Hh).
    - rewrite lookup_insert_ne by done. intros. split; congruence. }
  split; cbn.
  - intros i r' x. destruct (decide (id = i)) as [<-|].
    + rewrite lookup_insert_eq. intros [= <-]. rewrite (pd_of_with_pd pd) by done. intros [= <-].
      by rewrite Ho'.
    + rewrite lookup_insert_ne by done. apply H1.
  - intros iface.
    assert (iface ∈ f_pdInterfaces (if pd_releaseOnce pd then w_factory w
        else releasePDInterface (pd_iface pd) (w_factory w)) <->
      iface ∈ f_pdInterfaces (w_factory w) /\ ~ holds r iface) as ->.
    { unfold holds. rewrite Hpd. destruct (pd_releaseOnce pd) eqn:Ho.
      - split; [|tauto]. intros Hin. split; [done|]. intros (x & [= <-] & _ & ?). congruence.
      - cbn. rewrite elem_of_difference, elem_of_singleton. split.
        + intros [Hin Hne]. split; [done|]. intros (x & [= <-] & ? & _). congruence.
        + intros [Hin Hne]. split; [done|]. intros ->. apply Hne. by exists pd. }
    rewrite H2. split.
    + intros [(i & r' & Hr' & Hh) Hne]. exists i, r'. split; [|done].
      rewrite lookup_insert_ne; [done|]. intros <-. congruence.
    + intros (i & r' & Hr' & Hh). destruct (Hback _ _ _ Hr' Hh) as [Hne Hr0]. split; [by exists i, r'|].
      intros Hh2. apply Hne. by apply (H3 i id r' r iface).
  - intros i1 i2 r1 r2 iface Hr1 Hr2 Hh1 Hh2. destruct (Hback _ _ _ Hr1 Hh1) as [_ ?].
    destruct (Hback _ _ _ Hr2 Hh2) as [_ ?]. by apply (H3 i1 i2 r1 r2 iface).
Qed.

Lemma world_step_ok c w : world_ok w -> exists w', world_step c w = Some w' /\ world_ok w'.
Proof.
  intros Hok. destruct c; cbn [world_step].
  - pose proof (CreateReceiver_claims spec (w_factory w)) as H.
    destruct (CreateReceiver spec (w_factory w)) as [f [r|e|]] eqn:Hc; [| |done].
    + eexists. split; [done|]. by eapply create_ok.
    + eexists. split; [done|]. destruct Hok as [H1 H2 H3]. split; cbn; [done| |done]. by rewrite H.
  - destruct (w_receivers w !! id) as [r|] eqn:Hr; [|by exists w].
    destruct (pd_of r) as [pd|] eqn:Hpd; [|by exists w]. eexists. split; [done|]. by apply start_world_ok.
  - destruct (w_receivers w !! id) as [r|] eqn:Hr; [|by exists w].
    destruct (pd_of r) as [pd|] eqn:Hpd; [|by exists w].
    destruct (stop_world_ok w id r pd Hok Hr Hpd) as (f & pd' & -> & Hok'). cbn. eexists. by split.
Qed.

Lemma world_run_ok cs w : world_ok w -> exists w', world_run cs w = Some w' /\ world_ok w'.
Proof.
  revert w. induction cs as [|c cs IH]; intros w Hok; cbn [world_run]; [by exists w|].
  destruct (world_step_ok c w Hok) as (w1 & -> & Hok1). cbn. by apply IH.
Qed.

Definition new_world (obs : bool) : world := mkWorld (NewReceiverFactory obs) empty.

Lemma new_world_ok obs : world_ok (new_world obs).
Proof.
  split; cbn.
  - intros id r pd. by rewrite lookup_empty.
  - intros iface. split; [by intros ?%not_elem_of_empty|]. intros (id & r & H & _). by rewrite lookup_empty in H.
  - intros id1 id2 r1 r2 iface H. by rewrite lookup_empty in H.
Qed.

(** * Properties *)

(** However receivers are created, started and stopped through one factory,
    nothing panics and no two DHCPv6-PD clients hold the same interface: a claim
    exists for exactly the interfaces of clients not yet stopped, so creations
    that fail leave none behind, a stopped client frees its interface, and a
    second stop of it does not free the interface of its successor. *)
Theorem one_client_per_interface (obs : bool) (cs : list world_call) :
  exists w, world_run cs (new_world obs) = Some w /\
    (forall iface, iface ∈ f_pdInterfaces (w_factory w) <->
       exists id r, w_receivers w !! id = Some r /\ holds r iface) /\
    (forall id1 id2 r1 r2 iface, w_receivers w !! id1 = Some r1 -> w_receivers w !! id2 = Some r2 ->
       holds r1 iface -> holds r2 iface -> id1 = id2) /\
    (forall spec f e, CreateReceiver spec (w_factory w) = (f, Fail e) ->
       f_pdInterfaces f = f_pdInterfaces (w_factory w)).
Proof.
  destruct (world_run_ok cs (new_world obs) (new_world_ok obs)) as (w & Hr & [H1 H2 H3]).
  exists w. split; [done|]. split; [done|]. split; [done|]. intros spec f e He.
  pose proof (CreateReceiver_claims spec (w_factory w)) as H. by rewrite He in H.
Qed.

(** The policy the controller applies to every prefix before it reaches
    status is the policy the receivers of the same resource apply. *)
Theorem choke_point_policy (spec : AcquisitionSpec) :
  prefixPolicyFor spec = policyFromSpec spec /\
  (forall raPolicy, raPolicyFromSpec spec = Ret raPolicy -> base_policy raPolicy = prefixPolicyFor spec).
Proof.
  assert (prefixPolicyFor spec = policyFromSpec spec) as Heq.
  { unfold prefixPolicyFor, policyFromSpec, PrefixLengthBounds, spec_RequireGlobalUnicast.
    destruct (acq_PrefixFilter spec) as [[[] [] []]|]; done. }
  split; [done|]. intros raPolicy. rewrite Heq. unfold raPolicyFromSpec.
  destruct (acq_RouterAdvertisement spec); [|by intros [= <-]].
  destruct (ParseTrustedRouters _); [|done|done]. by intros [= <-].
Qed.

Lemma choke_point_policy_witness :
  let spec := mkAcquisition None (Some (mkRASpec "wan0" None ["fe80::1"]))
    (Some (mkFilter None (Some 48) (Some 64))) in
  prefixPolicyFor spec = mkPolicy true 48 64 /\
  base_policy (mkRAPolicy (mkPolicy true 48 64) [addr_of_string "fe80::1"]) = prefixPolicyFor spec.
Proof.
  intros spec. split; [reflexivity|].
  apply (choke_point_policy spec). vm_compute. reflexivity.
Defined.
