(* ===== verification/DynamicPrefix.v ===== *)
(** * The DynamicPrefix reconciler

    [internal/controller/dynamicprefix_controller.go] (with [rarejections.go] and
    the status types of [api/v1alpha1]): one receiver per resource, its events
    turned into wake-ups, and a reconcile that moves the receiver's prefix into
    status - validated, with the previous prefixes in history and the derived
    subnets and ranges next to it.  The factory and its receivers are the interface
    [HandleOps] with the laws [HandleLaws]; Controller.v has the runs.  Kubernetes'
    condition helpers are parameters with their documented laws.  Messages are kept as data instead of text.  A
    reconcile also gives the events it emits and its calls on the metrics. *)

From S2P Require Import Prelude GoStrings Metrics Netip NetipText Policy Subnet AddressRange Receivers Factory.
From Stdlib Require Import SpecFloat.

(** ** Status *)

Definition time_Second : Z := 1000000000.
Definition time_Minute : Z := 60 * time_Second.

Inductive message : Type :=
| MsgText (s : string)
| MsgError (s : string) (e : error)
| MsgSubnet (e : subnet_error)
| MsgRange (e : range_error)
| MsgRejected (network : netip.Prefix) (e : policy_error)
| MsgAcquired (network : netip.Prefix) (source : Source).

#[global] Instance range_error_eq_dec : EqDecision range_error.
Proof. solve_decision. Defined.

#[global] Instance message_eq_dec : EqDecision message.
Proof. solve_decision. Defined.

Inductive ConditionStatus : Type := ConditionTrue | ConditionFalse | ConditionUnknown.

#[global] Instance ConditionStatus_eq_dec : EqDecision ConditionStatus.
Proof. solve_decision. Defined.

(** [metav1.Condition]; the zero time is [None]. *)
Record Condition : Type := mkCondition {
  C_Type : string;
  C_Status : ConditionStatus;
  C_ObservedGeneration : Z;
  C_LastTransitionTime : option Z;
  C_Reason : string;
  C_Message : message
}.

#[global] Instance Condition_eq_dec : EqDecision Condition.
Proof. solve_decision. Defined.

Definition ConditionTypePrefixAcquired : string := "PrefixAcquired".
Definition ConditionTypeDegraded : string := "Degraded".

Definition PrefixSource : Type := Source.
Inductive PrefixState : Type := PrefixStateActive | PrefixStateDraining | PrefixStateExpired.

#[global] Instance PrefixState_eq_dec : EqDecision PrefixState.
Proof. solve_decision. Defined.

Record PrefixHistoryEntry : Type := mkHistory {
  H_Prefix : string;
  H_AcquiredAt : option Z;
  H_DeprecatedAt : option Z;
  H_State : PrefixState
}.

#[global] Instance PrefixHistoryEntry_eq_dec : EqDecision PrefixHistoryEntry.
Proof. solve_decision. Defined.

Record SubnetStatus : Type := mkSubnetStatus {
  SS_Name : string;
  SS_CIDR : string;
  SS_BGPAdvertisement : string
}.

#[global] Instance SubnetStatus_eq_dec : EqDecision SubnetStatus.
Proof. solve_decision. Defined.

Record AddressRangeStatus : Type := mkRangeStatus {
  RS_Name : string;
  RS_Start : string;
  RS_End : string;
  RS_CIDR : string
}.

#[global] Instance AddressRangeStatus_eq_dec : EqDecision AddressRangeStatus.
Proof. solve_decision. Defined.

Record DynamicPrefixStatus : Type := mkStatusOf {
  st_CurrentPrefix : string;
  st_PrefixSource : option Source;
  st_LeaseExpiresAt : option Z;
  st_AddressRanges : list AddressRangeStatus;
  st_Subnets : list SubnetStatus;
  st_History : list PrefixHistoryEntry;
  st_Conditions : list Condition
}.

#[global] Instance DynamicPrefixStatus_eq_dec : EqDecision DynamicPrefixStatus.
Proof. solve_decision. Defined.

(** ** Spec *)

Record SubnetBGPSpec : Type := mkBGPSpec { bgp_Advertise : bool; bgp_Community : string }.

Record SubnetSpec : Type := mkSubnetSpec {
  ss_Name : string;
  ss_Offset : Z;
  ss_PrefixLength : Z;
  ss_BGP : option SubnetBGPSpec
}.

(** [subnet.BGP != nil && subnet.BGP.Advertise]. *)
Definition ss_Advertise (s : SubnetSpec) : bool := match ss_BGP s with Some b => bgp_Advertise b | None => false end.

Record AddressRangeSpec : Type := mkRangeSpec { rs_Name : string; rs_Start : string; rs_End : string }.

(** A Go string type: the field may hold any text. *)
Definition TransitionModeSimple : string := "simple".
Definition TransitionModeHA : string := "ha".

Record TransitionSpec : Type := mkTransition { tr_Mode : string; tr_MaxPrefixHistory : Z }.

Record DynamicPrefixSpec : Type := mkSpec {
  sp_Acquisition : AcquisitionSpec;
  sp_AddressRanges : list AddressRangeSpec;
  sp_Subnets : list SubnetSpec;
  sp_Transition : option TransitionSpec
}.

Record DynamicPrefix : Type := mkDynamicPrefix {
  dp_Name : string;
  dp_Deleted : bool;
  dp_Finalizer : bool;
  dp_Generation : Z;
  dp_CreationTimestamp : option Z;
  dp_Spec : DynamicPrefixSpec;
  dp_Status : DynamicPrefixStatus
}.

Definition with_status (st : DynamicPrefixStatus) (dp : DynamicPrefix) : DynamicPrefix :=
  mkDynamicPrefix (dp_Name dp) (dp_Deleted dp) (dp_Finalizer dp) (dp_Generation dp) (dp_CreationTimestamp dp)
    (dp_Spec dp) st.

(** ** Derived status *)

Definition advertisementName (dpName subnetName : string) : string :=
  "dp-" +:+ dpName +:+ "-" +:+ subnetName.

(** The [advertised] map: the last spec of a name wins; a missing name reads as
    the empty string. *)
Definition advertised_name (dpName : string) (specs : list SubnetSpec) (name : string) : string :=
  default EmptyString
    (foldl (fun acc s => if (ss_Advertise s && bool_decide (ss_Name s = name))%bool
                         then Some (advertisementName dpName (ss_Name s)) else acc) None specs).

(** [nil] and the error are told apart from a list of results. *)
Definition calculateSubnets (dpName : string) (basePrefix : netip.Prefix) (specs : list SubnetSpec)
    : outcome subnet_error (list SubnetStatus) :=
  if (length specs =? 0)%nat then Ret []
  else
    let configs := (fun s => mkSubnetConfig (ss_Name s) (ss_Offset s) (ss_PrefixLength s)) <$> specs in
    (let* subnets := CalculateSubnets basePrefix configs in
     Ret ((fun s => mkSubnetStatus (S_Name s) (netiptext.PrefixString (S_CIDR s))
                      (advertised_name dpName specs (S_Name s))) <$> subnets))%go.

Definition calculateAddressRanges (basePrefix : netip.Prefix) (specs : list AddressRangeSpec)
    : outcome range_error (list AddressRangeStatus) :=
  if (length specs =? 0)%nat then Ret []
  else
    let configs := (fun s => mkAddressRangeConfig (rs_Name s) (rs_Start s) (rs_End s)) <$> specs in
    (let* ranges := CalculateAddressRanges basePrefix configs in
     Ret ((fun ar => mkRangeStatus (AR_Name ar) (netiptext.AddrString (AR_Start ar))
                       (netiptext.AddrString (AR_End ar))
                       (netiptext.PrefixString (RangeToCIDR (AR_Start ar) (AR_End ar)))) <$> ranges))%go.

(** [time.Duration(float64(d) * 0.8)] in binary64. *)
Definition float64_of (z : Z) : spec_float := binary_normalize 53 1024 z 0 false.
Definition float_08 : spec_float := S754_finite false 7205759403792794 (-53).
Definition int_of_float (f : spec_float) : Z :=
  match f with
  | S754_finite s m e =>
      let v := if 0 <=? e then Z.shiftl (Z.pos m) e else Z.shiftr (Z.pos m) (- e) in
      if s then - v else v
  | _ => 0
  end.

(** [time.Until], saturating. *)
Definition time_Until (t now : Z) : Z := Z.max (- 2 ^ 63) (Z.min (2 ^ 63 - 1) (t - now)).

Definition calculateRequeueTime (now : Z) (p : Prefix) : Z :=
  if ValidLifetime p =? 0 then 5 * time_Minute
  else
    let remaining := time_Until (ReceivedAt p + ValidLifetime p) now in
    let requeue := int_of_float (SFmul 53 1024 (float64_of remaining) float_08) in
    let requeue := if requeue <? time_Minute then time_Minute else requeue in
    if 5 * time_Minute <? requeue then 5 * time_Minute else requeue.

Definition sourceToPrefixSource (s : Source) : PrefixSource :=
  match s with
  | SourceDHCPv6PD => SourceDHCPv6PD
  | SourceRouterAdvertisement => SourceRouterAdvertisement
  | SourceStatic => SourceStatic
  | SourceUnknown => SourceUnknown
  end.

(** ** What the controller is given

    A factory, and receivers behind handles of type [R]: a call may change the world
    [W] all of them share, which is how a Router Advertisement receiver or the set of
    claimed interfaces belongs to several of them. *)

Class HandleOps (Env W R : Type) : Type := {
  hCreate : AcquisitionSpec -> W -> W * outcome error R;
  hStart : Env -> R -> W -> W * option error;
  hStop : Env -> R -> W -> option (W * option error);
  hCurrentPrefix : W -> R -> option Prefix;
  hSource : W -> R -> Source;
  hHealth : W -> R -> option (option error);
  hStats : W -> R -> option (Z * string);
  hRunning : W -> R -> bool
}.

(** What the laws speak of: the worlds that can occur; the receivers created so far,
    those not started yet, those that do not run and hold nothing others could need;
    and what spec a receiver was made for. *)
Class HandleView (W R : Type) : Type := {
  hOk : W -> Prop;
  hKnown : W -> R -> Prop;
  hFresh : W -> R -> Prop;
  hIdle : W -> R -> Prop;
  hMade : W -> R -> AcquisitionSpec -> Prop
}.

(** The receivers but one are as they were. *)
Definition kept {Env W R} `{!HandleOps Env W R, !HandleView W R} (except : option R) (w w' : W) : Prop :=
  forall r, except <> Some r -> (hKnown w r <-> hKnown w' r) /\
    (hKnown w r -> hRunning w' r = hRunning w r /\ (hIdle w r <-> hIdle w' r) /\
       forall spec, hMade w r spec -> hMade w' r spec).

(** No call on a receiver touches another, and creating and stopping do not panic.
    A created receiver is new and made for its spec; started, it runs, or the start
    failed and left it idle; a stop leaves it idle.  Receivers hold IPv6 prefixes
    only. *)
Class HandleLaws (Env W R : Type) `{!HandleOps Env W R, !HandleView W R} : Type := {
  hlaw_create : forall spec w, hOk w ->
    hOk (hCreate spec w).1 /\
    match (hCreate spec w).2 with
    | Ret r => ~ hKnown w r /\ hKnown (hCreate spec w).1 r /\ hFresh (hCreate spec w).1 r /\
        hMade (hCreate spec w).1 r spec /\ kept (Some r) w (hCreate spec w).1
    | Fail _ => kept None w (hCreate spec w).1
    | Panic => False
    end;
  hlaw_start : forall env r w, hOk w -> hKnown w r -> hFresh w r ->
    hOk (hStart env r w).1 /\ kept (Some r) w (hStart env r w).1 /\ hKnown (hStart env r w).1 r /\
    (forall spec, hMade w r spec -> hMade (hStart env r w).1 r spec) /\
    match (hStart env r w).2 with
    | None => hRunning (hStart env r w).1 r = true
    | Some _ => hIdle (hStart env r w).1 r
    end;
  hlaw_stop : forall env r w, hOk w -> hKnown w r ->
    exists w' e, hStop env r w = Some (w', e) /\ hOk w' /\ kept (Some r) w w' /\ hIdle w' r;
  hlaw_idle : forall w r, hOk w -> hKnown w r -> hIdle w r -> hRunning w r = false;
  hlaw_prefix6 : forall w r p, hOk w -> hKnown w r -> hCurrentPrefix w r = Some p -> netip.prefix6 (Network p)
}.

Section Reconcile.
Context (SetStatusCondition : list Condition -> Condition -> list Condition).
Context (FindStatusCondition : list Condition -> string -> option Condition).

Definition set_history (h : list PrefixHistoryEntry) (st : DynamicPrefixStatus) : DynamicPrefixStatus :=
  mkStatusOf (st_CurrentPrefix st) (st_PrefixSource st) (st_LeaseExpiresAt st) (st_AddressRanges st)
    (st_Subnets st) h (st_Conditions st).

(** The conditions, as other status writers may have left them. *)
Definition set_conditions (l : list Condition) (st : DynamicPrefixStatus) : DynamicPrefixStatus :=
  mkStatusOf (st_CurrentPrefix st) (st_PrefixSource st) (st_LeaseExpiresAt st) (st_AddressRanges st)
    (st_Subnets st) (st_History st) l.

Definition setCondition (now : Z) (generation : Z) (condType : string) (status : ConditionStatus)
    (reason : string) (msg : message) (st : DynamicPrefixStatus) : DynamicPrefixStatus :=
  mkStatusOf (st_CurrentPrefix st) (st_PrefixSource st) (st_LeaseExpiresAt st) (st_AddressRanges st)
    (st_Subnets st) (st_History st)
    (SetStatusCondition (st_Conditions st)
       (mkCondition condType status generation (Some now) reason msg)).

Definition max_history (spec : DynamicPrefixSpec) : nat :=
  match tr_MaxPrefixHistory <$> sp_Transition spec with
  | Some n => if 0 <? n then Z.to_nat n else 2%nat
  | None => 2%nat
  end.

(** The history after the current prefix is replaced, and the entries whose
    transition is completed. *)
Definition handlePrefixChange (now : Z) (creation : option Z) (spec : DynamicPrefixSpec)
    (newPrefix : string) (st : DynamicPrefixStatus) : DynamicPrefixStatus * list PrefixHistoryEntry :=
  if decide (st_CurrentPrefix st = EmptyString) then (st, [])
  else
    let acquiredAt :=
      match FindStatusCondition (st_Conditions st) ConditionTypePrefixAcquired with
      | Some c => match C_LastTransitionTime c with Some t => Some t | None => creation end
      | None => creation
      end in
    let oldEntry := mkHistory (st_CurrentPrefix st) acquiredAt (Some now) PrefixStateDraining in
    let h := filter (fun e => ~ (H_Prefix e = H_Prefix oldEntry \/ H_Prefix e = newPrefix)) (st_History st)
             ++ [oldEntry] in
    let maxHistory := max_history spec in
    if (maxHistory <? length h)%nat
    then (set_history (drop (length h - maxHistory) h) st, take (length h - maxHistory) h)
    else (set_history h st, []).

(** ** Receivers of the resources *)

Context {Env W R : Type} `{HHo : !HandleOps Env W R}.

(** What was last said about dropped advertisements. *)
Record rejectionReport : Type := mkReport { rep_total : Z; rep_at : Z }.

(** [rc_factory] tells whether a factory is set; a [nil] event channel is [None];
    [rc_receiverStops] are the resources with an event forwarder. The channel holds
    resource names. [rc_world] is what the receivers share. *)
Record reconciler : Type := mkReconciler {
  rc_factory : bool;
  rc_world : W;
  rc_receivers : gmap string R;
  rc_receiverSpecs : gmap string AcquisitionSpec;
  rc_receiverStops : gset string;
  rc_rejectionReports : gmap string rejectionReport;
  rc_prefixEvents : option (list string)
}.

Definition NewDynamicPrefixReconciler (w : W) : reconciler := mkReconciler false w empty empty empty empty None.

Definition set_rc_world (w : W) (r : reconciler) : reconciler :=
  mkReconciler (rc_factory r) w (rc_receivers r) (rc_receiverSpecs r) (rc_receiverStops r) (rc_rejectionReports r)
    (rc_prefixEvents r).

Definition stopReceiverLocked (name : string) (r : reconciler) : reconciler :=
  mkReconciler (rc_factory r) (rc_world r) (delete name (rc_receivers r)) (delete name (rc_receiverSpecs r))
    (rc_receiverStops r ∖ {[name]}) (delete name (rc_rejectionReports r)) (rc_prefixEvents r).

(** [None]: a panic in [Stop]. *)
Definition cleanupReceiver (env : Env) (name : string) (r : reconciler) : option reconciler :=
  match rc_receivers r !! name with
  | None => Some r
  | Some rcv => we ← hStop env rcv (rc_world r); Some (stopReceiverLocked name (set_rc_world we.1 r))
  end.

(** The last part of [getOrCreateReceiver], from the factory on. *)
Definition create_and_start (env : Env) (name : string) (spec : AcquisitionSpec) (r : reconciler)
    : reconciler * outcome error R :=
  if negb (rc_factory r) then (r, Fail (errors_New ("no receiver factory configured for DynamicPrefix " +:+ name)))
  else
    match hCreate spec (rc_world r) with
    | (w, Fail e) => (set_rc_world w r, Fail (Errorf "failed to create receiver" e))
    | (w, Panic) => (set_rc_world w r, Panic)
    | (w, Ret rcv) =>
        match hStart env rcv w with
        | (w', Some e) => (set_rc_world w' r, Fail (Errorf "failed to start receiver" e))
        | (w', None) =>
            (mkReconciler (rc_factory r) w' (<[name := rcv]> (rc_receivers r)) (<[name := spec]> (rc_receiverSpecs r))
               (match rc_prefixEvents r with
                | None => rc_receiverStops r
                | Some _ => {[name]} ∪ rc_receiverStops r
                end) (rc_rejectionReports r) (rc_prefixEvents r), Ret rcv)
        end
    end.

Definition getOrCreateReceiver (env : Env) (name : string) (spec : AcquisitionSpec) (r : reconciler)
    : reconciler * outcome error R :=
  match rc_receivers r !! name with
  | None => create_and_start env name spec r
  | Some rcv =>
      match rc_receiverSpecs r !! name with
      | None =>
          (mkReconciler (rc_factory r) (rc_world r) (rc_receivers r) (<[name := spec]> (rc_receiverSpecs r))
             (rc_receiverStops r) (rc_rejectionReports r) (rc_prefixEvents r), Ret rcv)
      | Some recorded =>
          if decide (recorded = spec) then (r, Ret rcv)
          else match hStop env rcv (rc_world r) with
               | None => (r, Panic)
               | Some (w, _) => create_and_start env name spec (stopReceiverLocked name (set_rc_world w r))
               end
      end
  end.

(** A receiver without the [AcquisitionHealth] interface reports [None]. *)
Definition receiverLastError (health : option (option error)) : option error :=
  match health with None => None | Some e => e end.

(** ** Wake-ups *)

Definition prefixEventQueueSize : nat := 32.

Definition queue_wakeup (name : string) (queue : list string) : list string :=
  if (length queue <? prefixEventQueueSize)%nat then queue ++ [name] else queue.

(** One event read by the forwarder of [name]. *)
Definition forwardPrefixEvents (name : string) (ev : Event) (r : reconciler) : reconciler :=
  match E_Type ev with
  | EventTypeAcquired | EventTypeChanged | EventTypeExpired =>
      mkReconciler (rc_factory r) (rc_world r) (rc_receivers r) (rc_receiverSpecs r) (rc_receiverStops r)
        (rc_rejectionReports r) (queue_wakeup name <$> rc_prefixEvents r)
  | _ => r
  end.

(** ** Dropped advertisements *)

Definition rejectionReportInterval : Z := 5 * time_Minute.

Definition set_report (name : string) (rep : rejectionReport) (r : reconciler) : reconciler :=
  mkReconciler (rc_factory r) (rc_world r) (rc_receivers r) (rc_receiverSpecs r) (rc_receiverStops r)
    (<[name := rep]> (rc_rejectionReports r)) (rc_prefixEvents r).

(** The event raised, if any: drops since the last report, in total, and why. *)
Definition reportRARejections (now : Z) (name : string) (stats : option (Z * string)) (r : reconciler)
    : reconciler * option (Z * Z * string) :=
  match stats with
  | None => (r, None)
  | Some (total, lastReason) =>
      if total =? 0 then (r, None)
      else
        let seen := rc_rejectionReports r !! name in
        let previous := default (mkReport 0 0) seen in
        let report :=
          let since := wrapu64 (total - rep_total previous) in
          let since := if total <? rep_total previous then total else since in
          (set_report name (mkReport total now) r, Some (since, total, lastReason)) in
        if total <=? rep_total previous then
          if total =? rep_total previous then (r, None) else report
        else if (bool_decide (is_Some seen) && (now - rep_at previous <? rejectionReportInterval))%bool
        then (r, None)
        else report
  end.

(** ** The status part of a reconcile *)

Definition reasonAcquisitionFailed : string := "AcquisitionFailed".
Definition reasonWaitingForPrefix : string := "WaitingForPrefix".
Definition reasonPrefixRejected : string := "PrefixRejected".
Definition reasonRenewalFailing : string := "RenewalFailing".

Definition set_derived (current : string) (source : option Source) (lease : option Z)
    (st : DynamicPrefixStatus) : DynamicPrefixStatus :=
  mkStatusOf current source lease (st_AddressRanges st) (st_Subnets st) (st_History st) (st_Conditions st).
Definition set_subnets (l : list SubnetStatus) (st : DynamicPrefixStatus) : DynamicPrefixStatus :=
  mkStatusOf (st_CurrentPrefix st) (st_PrefixSource st) (st_LeaseExpiresAt st) (st_AddressRanges st)
    l (st_History st) (st_Conditions st).
Definition set_ranges (l : list AddressRangeStatus) (st : DynamicPrefixStatus) : DynamicPrefixStatus :=
  mkStatusOf (st_CurrentPrefix st) (st_PrefixSource st) (st_LeaseExpiresAt st) l
    (st_Subnets st) (st_History st) (st_Conditions st).

(** Subnets and ranges with the Degraded condition they leave. *)
Definition derive_networks (now : Z) (dp : DynamicPrefix) (network : netip.Prefix)
    (st : DynamicPrefixStatus) : option DynamicPrefixStatus :=
  let degraded reason msg := setCondition now (dp_Generation dp) ConditionTypeDegraded ConditionTrue reason msg in
  let subnets := calculateSubnets (dp_Name dp) network (sp_Subnets (dp_Spec dp)) in
  st1 ← match subnets with
        | Ret l => Some (set_subnets l st)
        | Fail e => Some (degraded "SubnetCalculationFailed" (MsgSubnet e) st)
        | Panic => None
        end;
  match calculateAddressRanges network (sp_AddressRanges (dp_Spec dp)) with
  | Panic => None
  | Fail e => Some (degraded "AddressRangeCalculationFailed" (MsgRange e) st1)
  | Ret l =>
      let st2 := set_ranges l st1 in
      Some (if is_ret subnets
            then setCondition now (dp_Generation dp) ConditionTypeDegraded ConditionFalse "Healthy"
                   (MsgText "DynamicPrefix is operating normally") st2
            else st2)
  end.

(** Status and requeue delay, given what the receiver reports. [None]: a panic. *)
Definition reconcile_status (now : Z) (dp : DynamicPrefix) (acquisitionErr : option error)
    (currentPrefix : option Prefix) (source : Source) : option (DynamicPrefixStatus * Z) :=
  let st := dp_Status dp in
  let gen := dp_Generation dp in
  match currentPrefix with
  | None =>
      let st' := match acquisitionErr with
                 | Some e => setCondition now gen ConditionTypePrefixAcquired ConditionFalse
                               reasonAcquisitionFailed (MsgError "Prefix acquisition is failing" e) st
                 | None => setCondition now gen ConditionTypePrefixAcquired ConditionFalse
                             reasonWaitingForPrefix (MsgText "Waiting to receive prefix from upstream") st
                 end in
      Some (st', 10 * time_Second)
  | Some p =>
      match Validate (prefixPolicyFor (sp_Acquisition (dp_Spec dp))) (Network p) with
      | Some e =>
          Some (setCondition now gen ConditionTypePrefixAcquired ConditionFalse
                  reasonPrefixRejected (MsgRejected (Network p) e) st, 30 * time_Second)
      | None =>
          let network := netiptext.PrefixString (Network p) in
          let st1 := if decide (st_CurrentPrefix st = network) then st
                     else (handlePrefixChange now (dp_CreationTimestamp dp) (dp_Spec dp) network st).1 in
          let lease := if 0 <? ValidLifetime p then Some (ReceivedAt p + ValidLifetime p) else None in
          let st2 := set_derived network (Some (sourceToPrefixSource source)) lease st1 in
          st3 ← derive_networks now dp (Network p) st2;
          let st4 := match acquisitionErr with
                     | Some e => setCondition now gen ConditionTypeDegraded ConditionTrue reasonRenewalFailing
                                   (MsgError "Still serving the last prefix; acquisition is failing" e) st3
                     | None => st3
                     end in
          let st5 := setCondition now gen ConditionTypePrefixAcquired ConditionTrue "PrefixAcquired"
                       (MsgAcquired (Network p) source) st4 in
          Some (st5, calculateRequeueTime now p)
      end
  end.

(** ** What a reconcile tells *)

Inductive dp_event : Type :=
| EvReceiverRebuilt
| EvReceiverCreationFailed (e : error)
| EvAcquisitionFailed (m : message)
| EvPrefixRejected (m : message)
| EvPrefixReceived (network : netip.Prefix) (source : PrefixSource)
| EvPrefixChanged (oldPrefix : string) (network : netip.Prefix) (source : PrefixSource)
| EvTransitionCompleted (prefix : string)
| EvTransitionStarted (oldPrefix : string) (network : netip.Prefix).

(** Only when the condition is about to say something new. *)
Definition warnOnConditionChange (st : DynamicPrefixStatus) (condType reason : string) (m : message) (ev : dp_event)
    : list dp_event :=
  match FindStatusCondition (st_Conditions st) condType with
  | Some existing => if decide (C_Reason existing = reason /\ C_Message existing = m) then [] else [ev]
  | None => [ev]
  end.

(** The events of [handlePrefixChange]. *)
Definition transition_events (dp : DynamicPrefix) (network : netip.Prefix) (completed : list PrefixHistoryEntry) : list dp_event :=
  if decide (st_CurrentPrefix (dp_Status dp) = EmptyString) then []
  else ((fun e => EvTransitionCompleted (H_Prefix e)) <$> completed) ++
       [EvTransitionStarted (st_CurrentPrefix (dp_Status dp)) network].

(** What the part of [reconcile_status] emits, branch by branch. *)
Definition reconcile_events (now : Z) (dp : DynamicPrefix) (acquisitionErr : option error)
    (currentPrefix : option Prefix) (source : Source) : list dp_event :=
  let st := dp_Status dp in
  match currentPrefix with
  | None =>
      match acquisitionErr with
      | Some e => let m := MsgError "Prefix acquisition is failing" e in
                  warnOnConditionChange st ConditionTypePrefixAcquired reasonAcquisitionFailed m (EvAcquisitionFailed m)
      | None => []
      end
  | Some p =>
      match Validate (prefixPolicyFor (sp_Acquisition (dp_Spec dp))) (Network p) with
      | Some e => [EvPrefixRejected (MsgRejected (Network p) e)]
      | None =>
          let network := netiptext.PrefixString (Network p) in
          if decide (st_CurrentPrefix st = network) then []
          else
            (if decide (st_CurrentPrefix st = EmptyString) then EvPrefixReceived (Network p) (sourceToPrefixSource source)
             else EvPrefixChanged (st_CurrentPrefix st) (Network p) (sourceToPrefixSource source)) ::
            transition_events dp (Network p)
              (handlePrefixChange now (dp_CreationTimestamp dp) (dp_Spec dp) network st).2
      end
  end.

Definition source_text (s : PrefixSource) : string :=
  match s with
  | SourceDHCPv6PD => "dhcpv6-pd"
  | SourceRouterAdvertisement => "router-advertisement"
  | SourceStatic => "static"
  | SourceUnknown => "unknown"
  end.

(** The calls on the metrics, likewise, after the receiver's health. *)
Definition reconcile_metrics (dp : DynamicPrefix) (acquisitionErr : option error) (currentPrefix : option Prefix)
    (source : Source) : list metric :=
  MReceiverHealth (dp_Name dp) (bool_decide (acquisitionErr = None)) ::
  match currentPrefix with
  | None => []
  | Some p =>
      match Validate (prefixPolicyFor (sp_Acquisition (dp_Spec dp))) (Network p) with
      | Some _ => []
      | None =>
          (if decide (st_CurrentPrefix (dp_Status dp) = netiptext.PrefixString (Network p)) then []
           else MPrefixReceived (dp_Name dp) (source_text (sourceToPrefixSource source)) ::
                (if decide (st_CurrentPrefix (dp_Status dp) = EmptyString) then [] else [MPrefixChanged (dp_Name dp)])) ++
          [MLeaseExpiry (dp_Name dp) (if 0 <? ValidLifetime p then Some (ReceivedAt p + ValidLifetime p) else None)]
      end
  end.

(** [ownedDynamicPrefixStatus]: everything but the conditions of other writers. *)
Definition ownedDynamicPrefixStatus (st : DynamicPrefixStatus)
    : DynamicPrefixStatus :=
  mkStatusOf (st_CurrentPrefix st) (st_PrefixSource st) (st_LeaseExpiresAt st) (st_AddressRanges st)
    (st_Subnets st) (st_History st)
    (omap (FindStatusCondition (st_Conditions st)) [ConditionTypePrefixAcquired; ConditionTypeDegraded]).

(** The apply configuration to write, if any.  The times of [original] are what the API
    server returned.  A stored time has whole seconds only, which an input of this model
    has when its times are multiples of [time_Second]; the expiry that [reconcile_status]
    computes is a time to the nanosecond and compares different from the stored one
    unless it is such a multiple too. *)
Definition updateStatusIfChanged (st original : DynamicPrefixStatus) : option DynamicPrefixStatus :=
  let desired := ownedDynamicPrefixStatus st in
  if decide (ownedDynamicPrefixStatus original = desired) then None else Some desired.

(** ** A whole reconcile *)

Inductive get_result : Type := GetNotFound | GetError (e : error) | GetObject (dp : DynamicPrefix).

(** What the API server answers during one reconcile, and the receivers' outside;
    the clock is read once. *)
Record reconcile_env : Type := mkReconcileEnv {
  re_now : Z;
  re_get : get_result;
  re_updateErr : option error;
  re_applyErr : option error;
  re_rcv : Env
}.

(** [RequeueAfter] (0: none) and the error; the finalizer written to the object,
    the status applied to it, the report on dropped advertisements, the other
    events and the calls on the metrics. *)
Record reconcile_result : Type := mkResult {
  rr_requeue : Z;
  rr_err : option error;
  rr_finalizer : option bool;
  rr_status : option DynamicPrefixStatus;
  rr_rejections : option (Z * Z * string);
  rr_events : list dp_event;
  rr_metrics : list metric
}.

(** A receiver is stopped and built anew when the recorded spec is another. *)
Definition rebuilds (name : string) (spec : AcquisitionSpec) (r : reconciler) : bool :=
  match rc_receivers r !! name, rc_receiverSpecs r !! name with
  | Some _, Some recorded => negb (bool_decide (recorded = spec))
  | _, _ => false
  end.

Definition reconcile_live (env : reconcile_env) (dp : DynamicPrefix) (r : reconciler)
    : option (reconciler * reconcile_result) :=
  let rebuilt := if rebuilds (dp_Name dp) (sp_Acquisition (dp_Spec dp)) r then [EvReceiverRebuilt] else [] in
  match getOrCreateReceiver (re_rcv env) (dp_Name dp) (sp_Acquisition (dp_Spec dp)) r with
  | (_, Panic) => None
  | (r', Fail e) =>
      let st := setCondition (re_now env) (dp_Generation dp) ConditionTypePrefixAcquired ConditionFalse
                  "ReceiverCreationFailed" (MsgError EmptyString e) (dp_Status dp) in
      Some (r', mkResult (30 * time_Second) None None (updateStatusIfChanged st (dp_Status dp)) None
                  (rebuilt ++ [EvReceiverCreationFailed e]) [])
  | (r', Ret rcv) =>
      let w := rc_world r' in
      let (r'', report) := reportRARejections (re_now env) (dp_Name dp) (hStats w rcv) r' in
      let err := receiverLastError (hHealth w rcv) in
      sr ← reconcile_status (re_now env) dp err (hCurrentPrefix w rcv) (hSource w rcv);
      let written := updateStatusIfChanged sr.1 (dp_Status dp) in
      let events := rebuilt ++ reconcile_events (re_now env) dp err (hCurrentPrefix w rcv) (hSource w rcv) in
      let metrics := reconcile_metrics dp err (hCurrentPrefix w rcv) (hSource w rcv) in
      match written, re_applyErr env with
      | Some _, Some e => Some (r'', mkResult 0 (Some e) None written report events metrics)
      | _, _ => Some (r'', mkResult sr.2 None None written report events metrics)
      end
  end.

(** [None]: a panic. *)
Definition Reconcile (env : reconcile_env) (name : string) (r : reconciler)
    : option (reconciler * reconcile_result) :=
  match re_get env with
  | GetNotFound => r' ← cleanupReceiver (re_rcv env) name r; Some (r', mkResult 0 None None None None [] [MForgetPrefix name])
  | GetError e => Some (r, mkResult 0 (Some e) None None None [] [])
  | GetObject dp =>
      if dp_Deleted dp then
        if dp_Finalizer dp then
          r' ← cleanupReceiver (re_rcv env) (dp_Name dp) r;
          Some (r', mkResult 0 (re_updateErr env) (Some false) None None [] [])
        else Some (r, mkResult 0 None None None None [] [])
      else if negb (dp_Finalizer dp) then
        match re_updateErr env with
        | Some e => Some (r, mkResult 0 (Some e) (Some true) None None [] [])
        | None => Some (r, mkResult time_Second None (Some true) None None [] [])
        end
      else reconcile_live env dp r
  end.
End Reconcile.

(** * Condition helpers

    The documented behaviour of [meta.SetStatusCondition] and
    [meta.FindStatusCondition]: setting replaces the fields of the condition of
    that type, keeps its transition time while its status does not change, and
    leaves the other types alone. *)

Definition merge_condition (old : option Condition) (new : Condition) : Condition :=
  match old with
  | None => new
  | Some o =>
      if decide (C_Status o = C_Status new)
      then mkCondition (C_Type new) (C_Status new) (C_ObservedGeneration new) (C_LastTransitionTime o)
             (C_Reason new) (C_Message new)
      else new
  end.

Record condition_laws (Set_ : list Condition -> Condition -> list Condition)
    (Find : list Condition -> string -> option Condition) : Prop := {
  find_set : forall l c, Find (Set_ l c) (C_Type c) = Some (merge_condition (Find l (C_Type c)) c);
  find_set_other : forall l c t, t <> C_Type c -> Find (Set_ l c) t = Find l t;
  find_type : forall l t c, Find l t = Some c -> C_Type c = t
}.

(** A list kept by type satisfies them. *)
Fixpoint list_FindStatusCondition (l : list Condition) (t : string) : option Condition :=
  match l with
  | [] => None
  | c :: l' => if decide (C_Type c = t) then Some c else list_FindStatusCondition l' t
  end.

Fixpoint list_SetStatusCondition (l : list Condition) (c : Condition) : list Condition :=
  match l with
  | [] => [c]
  | x :: l' => if decide (C_Type x = C_Type c) then merge_condition (Some x) c :: l'
               else x :: list_SetStatusCondition l' c
  end.

Lemma merge_condition_type o c : C_Type (merge_condition o c) = C_Type c.
Proof. destruct o; cbn; repeat case_decide; done. Qed.

Lemma list_condition_laws : condition_laws list_SetStatusCondition list_FindStatusCondition.
Proof.
  split.
  - intros l c. induction l as [|x l IH]; cbn [list_SetStatusCondition list_FindStatusCondition].
    + by rewrite decide_True.
    + destruct (decide (C_Type x = C_Type c)) as [E|E]; cbn [list_FindStatusCondition].
      * rewrite decide_True; [done|apply (merge_condition_type (Some x))].
      * by rewrite decide_False.
  - intros l c t Ht. induction l as [|x l IH]; cbn [list_SetStatusCondition list_FindStatusCondition].
    + by rewrite decide_False by done.
    + destruct (decide (C_Type x = C_Type c)) as [E|E]; cbn [list_FindStatusCondition].
      * rewrite (merge_condition_type (Some x)), E. by rewrite !decide_False by congruence.
      * by rewrite IH.
  - intros l t c. induction l as [|x l IH]; cbn [list_FindStatusCondition]; [done|].
    case_decide; [by intros [= <-]|done].
Qed.

(** Setting a condition again, later, changes nothing but a transition time it
    would have kept anyway. *)
Lemma merge_again o c c' :
  C_Type c' = C_Type c -> C_Status c' = C_Status c -> C_ObservedGeneration c' = C_ObservedGeneration c ->
  C_Reason c' = C_Reason c -> C_Message c' = C_Message c ->
  merge_condition (Some (merge_condition o c)) c' = merge_condition o c.
Proof.
  destruct c as [ty st g t r m], c' as [ty' st' g' t' r' m']; cbn. intros -> -> -> -> ->.
  destruct o as [[]|]; unfold merge_condition; cbn; repeat (case_decide; cbn; try done).
Qed.

(** * Lemmas on the status part *)

(** What each derived entry has to be. *)
Definition subnet_derived (base : netip.Prefix) (spec : SubnetSpec) (ss : SubnetStatus) : Prop :=
  SS_Name ss = ss_Name spec /\
  exists q, netiptext.ParsePrefix (SS_CIDR ss) = Some q /\ netip.prefix6 q /\ netip.Bits q = ss_PrefixLength spec /\
    (forall x, netip.in_prefix q x -> netip.in_prefix base x).

Definition range_derived (base : netip.Prefix) (spec : AddressRangeSpec) (rs : AddressRangeStatus) : Prop :=
  RS_Name rs = rs_Name spec /\
  exists a b q, netiptext.ParseAddr (RS_Start rs) = Some a /\ netiptext.ParseAddr (RS_End rs) = Some b /\
    addr6 a /\ addr6 b /\ netiptext.ParsePrefix (RS_CIDR rs) = Some q /\ netip.prefix6 q /\
    netip.addr a <= netip.addr b /\
    netip.in_prefix q (netip.addr a) /\ netip.in_prefix q (netip.addr b) /\
    (forall x, netip.in_prefix q x -> netip.in_prefix base x).

Lemma calculateSubnets_spec name base specs : netip.prefix6 base ->
  match calculateSubnets name base specs with
  | Ret l => Forall2 (subnet_derived base) specs l
  | Fail _ => True
  | Panic => False
  end.
Proof.
  intros Hp. unfold calculateSubnets. destruct specs as [|s specs]; [constructor|].
  cbn [length Nat.eqb]. set (all := s :: specs). clearbody all. cbv zeta.
  rewrite CalculateSubnets_cases by done.
  destruct (list_find _ _) as [[i c]|] eqn:Hfind.
  - apply list_find_Some in Hfind as (_ & Hn & _).
    by destruct (CalculateSubnet_not_fits base c Hp Hn) as (e & -> & _).
  - cbn [obind]. apply list_find_None in Hfind. rewrite Forall_fmap in Hfind.
    rewrite <- list_fmap_compose, <- list_fmap_compose. generalize (advertised_name name all).
    intros adv. induction all as [|t all IH]; [constructor|]. inversion Hfind as [|? ? Ht Hall]; subst.
    cbn [fmap list_fmap]. constructor; [|by apply IH]. cbn in Ht. apply dec_stable in Ht.
    split; [done|]. cbn. eexists. split; [apply ParsePrefix_String; apply (subnet_prefix6 _ _ Hp Ht)|].
    split; [apply (subnet_prefix6 _ _ Hp Ht)|].
    split; [apply (subnet_prefix_first _ _ Hp Ht)|]. intros x. rewrite subnet_prefix_in by done.
    pose proof (subnet_first_bounds _ _ Hp Ht). unfold netip.in_prefix. lia.
Qed.

Lemma range_entry_derived base spec ar : netip.prefix6 base ->
  CalculateAddressRange base (mkAddressRangeConfig (rs_Name spec) (rs_Start spec) (rs_End spec)) = Ret ar ->
  range_derived base spec
    (mkRangeStatus (AR_Name ar) (netiptext.AddrString (AR_Start ar)) (netiptext.AddrString (AR_End ar))
       (netiptext.PrefixString (RangeToCIDR (AR_Start ar) (AR_End ar)))).
Proof.
  intros Hp Har.
  destruct (CalculateAddressRange_cases base
    (mkAddressRangeConfig (rs_Name spec) (rs_Start spec) (rs_End spec)) Hp) as (_ & _ & Hiff & Hin).
  destruct (Hin ar Har) as (Hs & He & Hle).
  apply Hiff in Har as (so & eo & _ & _ & _ & ->). cbn [AR_Name AR_Start AR_End netip.addr] in *.
  pose proof (first_num_bounds base Hp) as Hb. unfold netip.in_prefix in Hs, He.
  assert (netip.addr_wf (netip.mkAddr (netip.first_num base + so) (netip.z6 EmptyString))) as Ws
    by (apply addr6_wf; lia).
  assert (netip.addr_wf (netip.mkAddr (netip.first_num base + eo) (netip.z6 EmptyString))) as We
    by (apply addr6_wf; lia).
  destruct (RangeToCIDR_spec _ _ Ws We eq_refl) as (H6 & _ & Hqs & Hqe & Hmin).
  split; [done|]. cbn [RS_Start RS_End RS_CIDR]. do 3 eexists.
  split; [by apply ParseAddr_String|]. split; [by apply ParseAddr_String|].
  split; [done|]. split; [done|].
  split; [apply ParsePrefix_String; apply H6|]. split; [exact H6|].
  split; [done|]. split; [done|]. split; [done|].
  by apply Hmin.
Qed.

Lemma calculateAddressRanges_spec base specs : netip.prefix6 base ->
  match calculateAddressRanges base specs with
  | Ret l => Forall2 (range_derived base) specs l
  | Fail _ => True
  | Panic => False
  end.
Proof.
  intros Hp. unfold calculateAddressRanges. destruct specs as [|s specs]; [constructor|].
  cbn [length Nat.eqb]. set (all := s :: specs). clearbody all. cbv zeta.
  unfold CalculateAddressRanges. pose proof Hp as (_ & _ & ->). cbn [negb].
  set (f := fun cfg => wrap_err (ErrCalculateRange (RC_Name cfg)) (CalculateAddressRange base cfg)).
  assert (omap_all f ((fun s => mkAddressRangeConfig (rs_Name s) (rs_Start s) (rs_End s)) <$> all) <> Panic) as Hn.
  { apply omap_all_no_panic. intros cfg _. unfold f.
    destruct (CalculateAddressRange_cases base cfg Hp) as [H _]. by destruct (CalculateAddressRange base cfg). }
  destruct (omap_all f _) as [l| |] eqn:Hl; [|done..]. cbn [obind].
  apply omap_all_ret in Hl. apply Forall2_fmap_l in Hl. apply Forall2_fmap_r.
  eapply Forall2_impl; [exact Hl|]. intros spec ar Har. unfold f in Har. cbn in Har.
  apply wrap_err_ret in Har. by apply range_entry_derived.
Qed.

Section Status.
Context (Set_ : list Condition -> Condition -> list Condition).
Context (Find : list Condition -> string -> option Condition).
Context (laws : condition_laws Set_ Find).

(** A run of updates, seen by one type. *)
Lemma foldl_find cs l t :
  Find (foldl Set_ l cs) t =
  foldl (fun o c => Some (merge_condition o c)) (Find l t) (filter (fun c => C_Type c = t) cs).
Proof.
  revert l; induction cs as [|c cs IH]; intros l; [done|]. cbn [foldl]. rewrite IH.
  destruct (decide (C_Type c = t)) as [E|E].
  - rewrite filter_cons_True by done. cbn [foldl]. subst t. by rewrite (find_set _ _ laws).
  - rewrite filter_cons_False by done. by rewrite (find_set_other _ _ laws) by congruence.
Qed.

(** The updates of the Degraded condition that deriving the networks makes. *)
Definition network_conditions (now : Z) (dp : DynamicPrefix) (network : netip.Prefix) : list Condition :=
  let c status reason msg :=
    mkCondition ConditionTypeDegraded status (dp_Generation dp) (Some now) reason msg in
  match calculateSubnets (dp_Name dp) network (sp_Subnets (dp_Spec dp)),
        calculateAddressRanges network (sp_AddressRanges (dp_Spec dp)) with
  | Fail e, Fail e' => [c ConditionTrue "SubnetCalculationFailed" (MsgSubnet e);
                        c ConditionTrue "AddressRangeCalculationFailed" (MsgRange e')]
  | Fail e, _ => [c ConditionTrue "SubnetCalculationFailed" (MsgSubnet e)]
  | _, Fail e' => [c ConditionTrue "AddressRangeCalculationFailed" (MsgRange e')]
  | _, _ => [c ConditionFalse "Healthy" (MsgText "DynamicPrefix is operating normally")]
  end.

Definition ret_or {E A} (old : list A) (m : outcome E (list A)) : list A :=
  match m with Ret l => l | _ => old end.

Lemma derive_networks_shape now dp network st : netip.prefix6 network ->
  derive_networks Set_ now dp network st =
  Some (mkStatusOf (st_CurrentPrefix st) (st_PrefixSource st) (st_LeaseExpiresAt st)
          (ret_or (st_AddressRanges st) (calculateAddressRanges network (sp_AddressRanges (dp_Spec dp))))
          (ret_or (st_Subnets st) (calculateSubnets (dp_Name dp) network (sp_Subnets (dp_Spec dp))))
          (st_History st) (foldl Set_ (st_Conditions st) (network_conditions now dp network))).
Proof.
  intros Hp. unfold derive_networks, network_conditions.
  pose proof (calculateSubnets_spec (dp_Name dp) network (sp_Subnets (dp_Spec dp)) Hp) as Hs.
  pose proof (calculateAddressRanges_spec network (sp_AddressRanges (dp_Spec dp)) Hp) as Hr.
  by destruct (calculateSubnets _ _ _), (calculateAddressRanges _ _).
Qed.

Definition renewal_conditions (now : Z) (dp : DynamicPrefix) (err : option error) : list Condition :=
  match err with
  | Some e => [mkCondition ConditionTypeDegraded ConditionTrue (dp_Generation dp) (Some now) reasonRenewalFailing
                 (MsgError "Still serving the last prefix; acquisition is failing" e)]
  | None => []
  end.

Definition acquired_condition (now : Z) (dp : DynamicPrefix) (p : Prefix) (src : Source) : Condition :=
  mkCondition ConditionTypePrefixAcquired ConditionTrue (dp_Generation dp) (Some now) "PrefixAcquired"
    (MsgAcquired (Network p) src).

Definition next_history (now : Z) (dp : DynamicPrefix) (p : Prefix) : list PrefixHistoryEntry :=
  let network := netiptext.PrefixString (Network p) in
  if decide (st_CurrentPrefix (dp_Status dp) = network) then st_History (dp_Status dp)
  else st_History (handlePrefixChange Find now (dp_CreationTimestamp dp) (dp_Spec dp) network (dp_Status dp)).1.

Lemma handlePrefixChange_fields now creation spec network st :
  let st' := (handlePrefixChange Find now creation spec network st).1 in
  set_history [] st' = set_history [] st.
Proof. unfold handlePrefixChange. repeat case_match; done. Qed.

(** The status a reconcile leaves when it adopts the receiver's prefix. *)
Lemma reconcile_status_accepted now dp err p src :
  netip.prefix6 (Network p) ->
  Validate (prefixPolicyFor (sp_Acquisition (dp_Spec dp))) (Network p) = None ->
  reconcile_status Set_ Find now dp err (Some p) src =
  Some (mkStatusOf (netiptext.PrefixString (Network p)) (Some src)
          (if 0 <? ValidLifetime p then Some (ReceivedAt p + ValidLifetime p) else None)
          (ret_or (st_AddressRanges (dp_Status dp))
             (calculateAddressRanges (Network p) (sp_AddressRanges (dp_Spec dp))))
          (ret_or (st_Subnets (dp_Status dp))
             (calculateSubnets (dp_Name dp) (Network p) (sp_Subnets (dp_Spec dp))))
          (next_history now dp p)
          (foldl Set_ (st_Conditions (dp_Status dp))
             (network_conditions now dp (Network p) ++ renewal_conditions now dp err ++
              [acquired_condition now dp p src])),
        calculateRequeueTime now p).
Proof.
  intros Hp Hv. unfold reconcile_status. rewrite Hv. cbv zeta.
  rewrite derive_networks_shape by done. cbn [mbind option_bind set_derived st_CurrentPrefix st_PrefixSource
    st_LeaseExpiresAt st_AddressRanges st_Subnets st_History st_Conditions].
  rewrite !foldl_app. unfold next_history.
  assert (sourceToPrefixSource src = src) as -> by by destruct src.
  destruct (decide _) as [E|E].
  - by destruct err.
  - pose proof (handlePrefixChange_fields now (dp_CreationTimestamp dp) (dp_Spec dp)
      (netiptext.PrefixString (Network p)) (dp_Status dp)) as Hf. cbv zeta in Hf.
    destruct (handlePrefixChange _ _ _ _ _ _) as [st' done]. cbn [fst] in *.
    destruct st', (dp_Status dp). cbn in Hf. simplify_eq. by destruct err.
Qed.

(** The Degraded condition of a status. *)
Definition degraded (st : DynamicPrefixStatus) : Prop :=
  exists c, Find (st_Conditions st) ConditionTypeDegraded = Some c /\ C_Status c = ConditionTrue.

Lemma foldl_last_condition cs c o :
  foldl (fun o c => Some (merge_condition o c)) o (cs ++ [c]) =
  Some (merge_condition (foldl (fun o c => Some (merge_condition o c)) o cs) c).
Proof. by rewrite foldl_app. Qed.

Lemma merge_condition_status o c : C_Status (merge_condition o c) = C_Status c.
Proof. destruct o; cbn; repeat case_decide; done. Qed.

Lemma network_conditions_type now dp network :
  Forall (fun c => C_Type c = ConditionTypeDegraded) (network_conditions now dp network).
Proof. unfold network_conditions. repeat case_match; repeat constructor. Qed.

Lemma renewal_conditions_type now dp err :
  Forall (fun c => C_Type c = ConditionTypeDegraded) (renewal_conditions now dp err).
Proof. destruct err; repeat constructor. Qed.

(** Degraded is what the last update of a reconcile said. *)
Lemma accepted_degraded now dp err p src conds :
  Find (foldl Set_ conds (network_conditions now dp (Network p) ++ renewal_conditions now dp err ++
         [acquired_condition now dp p src])) ConditionTypeDegraded =
  foldl (fun o c => Some (merge_condition o c)) (Find conds ConditionTypeDegraded)
    (network_conditions now dp (Network p) ++ renewal_conditions now dp err).
Proof.
  rewrite foldl_find, app_assoc, filter_app.
  assert (filter (fun c => C_Type c = ConditionTypeDegraded) [acquired_condition now dp p src] = []) as ->
    by done.
  rewrite app_nil_r, filter_all_true; [done|].
  apply Forall_forall, Forall_app. split; [apply network_conditions_type|apply renewal_conditions_type].
Qed.

(** ** What a second reconcile compares *)

Lemma no_write st st' :
  set_conditions [] st = set_conditions [] st' ->
  (forall t, Find (st_Conditions st') t = Find (st_Conditions st) t) ->
  updateStatusIfChanged Find st' st = None.
Proof.
  intros Hf Hc. unfold updateStatusIfChanged. apply decide_True.
  unfold ownedDynamicPrefixStatus. cbn [omap list_omap]. rewrite !Hc.
  unfold set_conditions in Hf. by injection Hf as -> -> -> -> -> ->.
Qed.

Lemma set_again l c c' t :
  C_Type c' = C_Type c -> C_Status c' = C_Status c -> C_ObservedGeneration c' = C_ObservedGeneration c ->
  C_Reason c' = C_Reason c -> C_Message c' = C_Message c ->
  Find (Set_ (Set_ l c) c') t = Find (Set_ l c) t.
Proof.
  intros E1 E2 E3 E4 E5. destruct (decide (t = C_Type c')) as [->|Ht].
  - rewrite (find_set _ _ laws), E1, (find_set _ _ laws). f_equal. by apply merge_again.
  - by apply (find_set_other _ _ laws).
Qed.

(** Without a failing receiver all the updates of a type have one status. *)
Lemma accepted_conditions_settle now later dp st p src conds t :
  let updates now dp := network_conditions now dp (Network p) ++ [acquired_condition now dp p src] in
  Find (foldl Set_ (foldl Set_ conds (updates now dp)) (updates later (with_status st dp))) t =
  Find (foldl Set_ conds (updates now dp)) t.
Proof.
  cbv zeta. rewrite !foldl_find. unfold network_conditions, acquired_condition.
  cbn [with_status dp_Name dp_Spec dp_Generation].
  destruct (decide (ConditionTypeDegraded = t)) as [<-|]; [|destruct (decide (ConditionTypePrefixAcquired = t)) as [<-|]];
    destruct (calculateSubnets _ _ _), (calculateAddressRanges _ _);
    rewrite ?filter_app, ?filter_cons, ?filter_nil; cbn [C_Type]; repeat case_decide; try done;
    cbn [app foldl]; f_equal; destruct (Find conds _) as [[]|]; unfold merge_condition; cbn;
    repeat (case_decide; cbn; try done).
Qed.

Lemma accepted_history_settles later now dp st p :
  st_CurrentPrefix st = netiptext.PrefixString (Network p) -> st_History st = next_history now dp p ->
  next_history later (with_status st dp) p = next_history now dp p.
Proof. intros Hc Hh. unfold next_history at 1. cbn [with_status dp_Status]. by rewrite decide_True. Qed.

Lemma ret_or_twice {E A} (old : list A) (m : outcome E (list A)) : ret_or (ret_or old m) m = ret_or old m.
Proof. by destruct m. Qed.

(** The two projected conditions are told apart by their types. *)
Lemma owned_degraded_inj l l' :
  omap (Find l) [ConditionTypePrefixAcquired; ConditionTypeDegraded] =
  omap (Find l') [ConditionTypePrefixAcquired; ConditionTypeDegraded] ->
  Find l ConditionTypeDegraded = Find l' ConditionTypeDegraded.
Proof.
  cbn [omap list_omap].
  assert (forall l t c, Find l t = Some c -> C_Type c = t) as Ht by apply laws.
  assert (ConditionTypePrefixAcquired <> ConditionTypeDegraded) by done.
  destruct (Find l ConditionTypePrefixAcquired) eqn:E1, (Find l ConditionTypeDegraded) eqn:E2,
    (Find l' ConditionTypePrefixAcquired) eqn:E3, (Find l' ConditionTypeDegraded) eqn:E4; try done;
    intros [=]; subst; try done;
    repeat match goal with H : Find _ _ = Some _ |- _ => apply Ht in H end; congruence.
Qed.

(** * Properties of one reconcile *)

(** C1 Adopting a prefix - the receiver holds one the resource's policy accepts
    - always succeeds (no panic in the derivations), and the status then holds
    that prefix, its source and its expiry; every subnet entry parses to a network
    of the requested length inside the prefix, every range entry to two ordered
    addresses with an enclosing network inside the prefix, one entry per spec in
    order.  If some spec cannot be derived the list of the previous prefix is
    kept, and then the resource is reported as degraded. *)
Theorem adopted_status (now : Z) (dp : DynamicPrefix) (err : option error) (p : Prefix) (src : Source) :
  netip.prefix6 (Network p) ->
  Validate (prefixPolicyFor (sp_Acquisition (dp_Spec dp))) (Network p) = None ->
  exists st requeue,
    reconcile_status Set_ Find now dp err (Some p) src = Some (st, requeue) /\
    netiptext.ParsePrefix (st_CurrentPrefix st) = Some (Network p) /\
    st_PrefixSource st = Some src /\
    st_LeaseExpiresAt st = (if 0 <? ValidLifetime p then Some (ReceivedAt p + ValidLifetime p) else None) /\
    (Forall2 (subnet_derived (Network p)) (sp_Subnets (dp_Spec dp)) (st_Subnets st) \/
     st_Subnets st = st_Subnets (dp_Status dp) /\ degraded st) /\
    (Forall2 (range_derived (Network p)) (sp_AddressRanges (dp_Spec dp)) (st_AddressRanges st) \/
     st_AddressRanges st = st_AddressRanges (dp_Status dp) /\ degraded st).
Proof.
  intros Hp Hv. rewrite reconcile_status_accepted by done. eexists _, _. split; [done|].
  cbn [st_CurrentPrefix st_PrefixSource st_LeaseExpiresAt st_Subnets st_AddressRanges].
  split; [apply ParsePrefix_String; apply Hp|]. split; [done|]. split; [done|].
  unfold degraded. cbn [st_Conditions]. rewrite accepted_degraded. unfold network_conditions.
  pose proof (calculateSubnets_spec (dp_Name dp) (Network p) (sp_Subnets (dp_Spec dp)) Hp) as Hs.
  pose proof (calculateAddressRanges_spec (Network p) (sp_AddressRanges (dp_Spec dp)) Hp) as Hr.
  destruct (calculateSubnets _ _ _), (calculateAddressRanges _ _); try done; cbn [ret_or];
    split; try (by left); right; (split; [done|]);
    destruct err; cbn [renewal_conditions app foldl]; eexists; (split; [done|]);
    by rewrite merge_condition_status.
Qed.

(** A prefix is only replaced by an accepted one: with no prefix, or with one
    the policy rejects, the reconcile changes nothing in status but the
    PrefixAcquired condition - false, with the reason that applies - and comes
    back within 10 or 30 seconds. *)
Theorem unaccepted_keeps_status (now : Z) (dp : DynamicPrefix) (err : option error) (held : option Prefix)
    (src : Source) :
  (forall p, held = Some p -> Validate (prefixPolicyFor (sp_Acquisition (dp_Spec dp))) (Network p) = None -> False) ->
  exists st requeue,
    reconcile_status Set_ Find now dp err held src = Some (st, requeue) /\
    set_conditions [] st = set_conditions [] (dp_Status dp) /\
    (forall t, t <> ConditionTypePrefixAcquired ->
       Find (st_Conditions st) t = Find (st_Conditions (dp_Status dp)) t) /\
    (exists c, Find (st_Conditions st) ConditionTypePrefixAcquired = Some c /\
       C_Status c = ConditionFalse /\
       C_Reason c = match held, err with
                    | Some _, _ => reasonPrefixRejected
                    | None, Some _ => reasonAcquisitionFailed
                    | None, None => reasonWaitingForPrefix
                    end) /\
    requeue = match held with Some _ => 30 * time_Second | None => 10 * time_Second end.
Proof.
  intros Hv. unfold reconcile_status.
  assert (forall s r m st', st' = setCondition Set_ now (dp_Generation dp) ConditionTypePrefixAcquired s r m
                            (dp_Status dp) ->
    set_conditions [] st' = set_conditions [] (dp_Status dp) /\
    (forall t, t <> ConditionTypePrefixAcquired ->
       Find (st_Conditions st') t = Find (st_Conditions (dp_Status dp)) t) /\
    (exists c, Find (st_Conditions st') ConditionTypePrefixAcquired = Some c /\
       C_Status c = s /\ C_Reason c = r)) as Hset.
  { intros s r m st' ->. split; [done|]. cbn [setCondition st_Conditions]. split.
    - intros t Ht. by apply (find_set_other _ _ laws).
    - eexists. split; [apply (find_set _ _ laws (st_Conditions (dp_Status dp))
        (mkCondition ConditionTypePrefixAcquired s (dp_Generation dp) (Some now) r m))|].
      rewrite merge_condition_status. split; [done|]. by destruct (Find _ _); cbn; repeat case_decide. }
  destruct held as [p|].
  - destruct (Validate _ _) as [e|] eqn:E; [|by destruct (Hv p eq_refl)].
    eexists _, _. split; [done|]. edestruct Hset as (? & ? & ?); [done|]. by repeat split.
  - destruct err; eexists _, _; (split; [done|]); edestruct Hset as (? & ? & ?); (done || by repeat split).
Qed.

(** A reconcile settles: run again later on the status it left, with the
    receiver reporting the same and the resource unchanged, it writes nothing.
    This holds whether the prefix is accepted, rejected or missing, with one
    exception: a receiver that fails while its prefix is accepted.  The status is read
    back as it was left here; the API server cuts the lease's expiry to whole seconds,
    and a lease that ends between two of them is applied again each time. *)
Theorem reconcile_settles (now later : Z) (dp : DynamicPrefix) (err : option error) (held : option Prefix)
    (src : Source) (st : DynamicPrefixStatus) (d : Z) :
  (forall p, held = Some p -> netip.prefix6 (Network p) /\ err = None) ->
  reconcile_status Set_ Find now dp err held src = Some (st, d) ->
  exists st' d',
    reconcile_status Set_ Find later (with_status st dp) err held src = Some (st', d') /\
    updateStatusIfChanged Find st' st = None.
Proof.
  intros Hheld Hfirst.
  assert (forall s r m, st = setCondition Set_ now (dp_Generation dp) ConditionTypePrefixAcquired s r m (dp_Status dp) ->
    updateStatusIfChanged Find (setCondition Set_ later (dp_Generation dp) ConditionTypePrefixAcquired s r m st) st
      = None) as Hset.
  { intros s r m Est. apply no_write; [done|]. intros t. subst st. cbn [setCondition st_Conditions].
    apply set_again; done. }
  destruct held as [p|].
  - destruct (Hheld p eq_refl) as [Hp ->].
    destruct (Validate (prefixPolicyFor (sp_Acquisition (dp_Spec dp))) (Network p)) as [e|] eqn:Hv.
    + unfold reconcile_status in *. cbn [with_status dp_Spec dp_Status dp_Generation] in *.
      rewrite Hv in *. simplify_eq. eexists _, _. split; [done|]. by eapply Hset.
    + rewrite reconcile_status_accepted in Hfirst by done. injection Hfirst as <- <-.
      rewrite reconcile_status_accepted by done. eexists _, _. split; [done|].
      apply no_write.
      * unfold set_conditions. cbn. rewrite !ret_or_twice. f_equal. symmetry.
        by apply accepted_history_settles.
      * intros t. apply (accepted_conditions_settle now later dp _ p src).
  - unfold reconcile_status in *. cbn [with_status dp_Spec dp_Status dp_Generation] in *.
    destruct err; simplify_eq; eexists _, _; (split; [done|]); by eapply Hset.
Qed.

(** The exception: while a held prefix's renewals fail and its networks can
    be derived, every reconcile first clears the Degraded condition and then sets
    it again, so its transition time is the reconcile's own and each reconcile
    writes the status again although nothing changed. *)
Theorem renewal_failure_rewrites_status (now later : Z) (dp : DynamicPrefix) (e : error) (p : Prefix)
    (src : Source) (st : DynamicPrefixStatus) (d : Z) :
  netip.prefix6 (Network p) ->
  Validate (prefixPolicyFor (sp_Acquisition (dp_Spec dp))) (Network p) = None ->
  is_ret (calculateSubnets (dp_Name dp) (Network p) (sp_Subnets (dp_Spec dp))) = true ->
  is_ret (calculateAddressRanges (Network p) (sp_AddressRanges (dp_Spec dp))) = true ->
  reconcile_status Set_ Find now dp (Some e) (Some p) src = Some (st, d) -> later <> now ->
  exists st' d' c c',
    reconcile_status Set_ Find later (with_status st dp) (Some e) (Some p) src = Some (st', d') /\
    Find (st_Conditions st) ConditionTypeDegraded = Some c /\
    Find (st_Conditions st') ConditionTypeDegraded = Some c' /\
    C_Status c = ConditionTrue /\ C_Status c' = ConditionTrue /\
    C_LastTransitionTime c = Some now /\ C_LastTransitionTime c' = Some later /\
    updateStatusIfChanged Find st' st <> None.
Proof.
  intros Hp Hv Hs Hr Hfirst Hlater.
  rewrite reconcile_status_accepted in Hfirst by done. injection Hfirst as <- <-.
  rewrite reconcile_status_accepted by done.
  assert (forall t (dp' : DynamicPrefix), dp_Spec dp' = dp_Spec dp -> dp_Name dp' = dp_Name dp -> forall conds,
    exists c, Find (foldl Set_ conds (network_conditions t dp' (Network p) ++ renewal_conditions t dp' (Some e) ++
         [acquired_condition t dp' p src])) ConditionTypeDegraded = Some c /\
      C_Status c = ConditionTrue /\ C_LastTransitionTime c = Some t) as Hdeg.
  { intros t dp' E1 E2 conds. rewrite accepted_degraded. unfold network_conditions. rewrite E1, E2.
    destruct (calculateSubnets _ _ _), (calculateAddressRanges _ _); try done.
    cbn [renewal_conditions app foldl]. eexists. split; [done|].
    rewrite merge_condition_status. split; [done|].
    cbn [merge_condition]. rewrite decide_False; [done|]. by rewrite merge_condition_status. }
  destruct (Hdeg now dp eq_refl eq_refl (st_Conditions (dp_Status dp))) as (c & Hc & Hcs & Hct).
  eexists _, _, c. eassert (exists c', _) as [c' Hc']; [eapply (Hdeg later (with_status _ dp) eq_refl eq_refl)|].
  exists c'. split; [done|]. cbn [st_Conditions]. split; [exact Hc|]. split; [apply Hc'|].
  split; [done|]. split; [apply Hc'|]. split; [done|]. split; [apply Hc'|].
  unfold updateStatusIfChanged. rewrite decide_False; [done|]. intros Heq.
  apply (f_equal st_Conditions) in Heq. unfold ownedDynamicPrefixStatus in Heq. cbn [st_Conditions] in Heq.
  apply owned_degraded_inj in Heq.
  destruct Hc' as (Hc1 & _ & Hc2).
  pose proof (eq_trans (eq_trans (eq_sym Hc) Heq) Hc1) as Hsame. congruence.
Qed.
End Status.

(** * The controller over time *)

Section Controller.
Context (Set_ : list Condition -> Condition -> list Condition).
Context (Find : list Condition -> string -> option Condition).
Context {Env W R : Type} `{HHo : !HandleOps Env W R}.

Let reconcile := Reconcile Set_ Find (Env := Env) (W := W) (R := R).

(** ** The status object

    What the API server may hold for a resource whose history limit never
    exceeded [M]: a new object's status, other writers' conditions, and what
    reconciles applied. *)
Inductive persisted (M : nat) : DynamicPrefixStatus -> Prop :=
| persisted_new : persisted M (mkStatusOf EmptyString None None [] [] [] [])
| persisted_conditions st l : persisted M st -> persisted M (set_conditions l st)
| persisted_reconcile env name r dp r' res st :
    persisted M (dp_Status dp) -> (max_history (dp_Spec dp) <= M)%nat -> re_get env = GetObject dp ->
    reconcile env name r = Some (r', res) -> rr_status res = Some st -> persisted M st.

(** The text of a network some resource's policy accepted. *)
Definition accepted_text (s : string) : Prop :=
  exists spec n, Validate (prefixPolicyFor spec) n = None /\ s = netiptext.PrefixString n.

Definition history_ok (M : nat) (st : DynamicPrefixStatus) : Prop :=
  NoDup (H_Prefix <$> st_History st) /\
  (st_CurrentPrefix st ∉ H_Prefix <$> st_History st) /\
  (length (st_History st) <= M)%nat /\
  Forall (fun e => H_State e = PrefixStateDraining /\ is_Some (H_DeprecatedAt e) /\ accepted_text (H_Prefix e))
    (st_History st) /\
  (st_CurrentPrefix st = EmptyString /\ st_History st = [] \/ accepted_text (st_CurrentPrefix st)).

Lemma accepted_text_nonempty s : accepted_text s -> s <> EmptyString.
Proof.
  intros (spec & n & _ & ->). unfold netiptext.PrefixString. destruct (netip.IsValid n); [|done].
  by destruct (netiptext.AddrString _).
Qed.

Lemma derive_networks_fields now dp network st st' :
  derive_networks Set_ now dp network st = Some st' ->
  st_CurrentPrefix st' = st_CurrentPrefix st /\ st_History st' = st_History st.
Proof.
  unfold derive_networks. destruct (calculateSubnets _ _ _), (calculateAddressRanges _ _); cbn;
    intros [= <-]; done.
Qed.

(** What a reconcile writes about the prefix. *)
Lemma reconcile_writes env name r dp r' res st :
  re_get env = GetObject dp -> reconcile env name r = Some (r', res) -> rr_status res = Some st ->
  (st_CurrentPrefix st = st_CurrentPrefix (dp_Status dp) /\ st_History st = st_History (dp_Status dp)) \/
  exists p, Validate (prefixPolicyFor (sp_Acquisition (dp_Spec dp))) (Network p) = None /\
    st_CurrentPrefix st = netiptext.PrefixString (Network p) /\
    st_History st = next_history Find (re_now env) dp p.
Proof.
  intros Hget. unfold reconcile, Reconcile. rewrite Hget.
  assert (forall a b, updateStatusIfChanged Find a b = Some st ->
    st_CurrentPrefix st = st_CurrentPrefix a /\ st_History st = st_History a) as Hup.
  { intros a b. unfold updateStatusIfChanged. case_decide; [done|]. by intros [= <-]. }
  destruct (dp_Deleted dp).
  { destruct (dp_Finalizer dp); [destruct (cleanupReceiver _ _ _)|]; cbn; intros; simplify_eq; done. }
  destruct (dp_Finalizer dp); cbn [negb]; [|destruct (re_updateErr env); intros; simplify_eq; done].
  unfold reconcile_live. destruct (getOrCreateReceiver _ _ _ _) as [r1 [rcv|e|]]; [| |done].
  2: { intros [= <- <-] Hst. left. by apply Hup in Hst. }
  destruct (reportRARejections _ _ _ _) as [r2 report].
  destruct (reconcile_status _ _ _ _ _ _) as [[st1 d]|] eqn:Hs; [|done]. cbn [mbind option_bind fst snd].
  intros Hres Hst. assert (updateStatusIfChanged Find st1 (dp_Status dp) = Some st) as Hw.
  { destruct (updateStatusIfChanged _ _ _), (re_applyErr env); simplify_eq; cbn in *; by simplify_eq. }
  apply Hup in Hw as [-> ->]. clear Hres Hst Hup. unfold reconcile_status in Hs.
  destruct (hCurrentPrefix _ rcv) as [p|]; [|left; destruct (receiverLastError _); by simplify_eq].
  destruct (Validate _ _) eqn:Hv; [left; by simplify_eq|]. right. exists p. split; [done|].
  cbv zeta in Hs. destruct (derive_networks _ _ _ _ _) as [st3|] eqn:Hd; [|done].
  apply derive_networks_fields in Hd as [Hc Hh]. cbn in Hs. unfold next_history.
  destruct (receiverLastError _); simplify_eq; cbn; rewrite Hc, Hh; (split; [done|]); cbn;
    by destruct (decide (st_CurrentPrefix (dp_Status dp) = _)).
Qed.

Lemma max_history_pos spec : (1 <= max_history spec)%nat.
Proof. unfold max_history. repeat case_match; zbool; lia. Qed.

(** Entries that survive the change, whatever prefix of them is dropped. *)
Definition surviving (current network : string) (h : list PrefixHistoryEntry) : list PrefixHistoryEntry :=
  filter (fun e => ~ (H_Prefix e = current \/ H_Prefix e = network)) h.

(** The old prefixes are kept or completed. *)
Lemma handlePrefixChange_split now creation spec network st :
  st_CurrentPrefix st <> EmptyString ->
  let r := handlePrefixChange Find now creation spec network st in
  (H_Prefix <$> r.2) ++ (H_Prefix <$> st_History r.1) =
  (H_Prefix <$> surviving (st_CurrentPrefix st) network (st_History st)) ++ [st_CurrentPrefix st].
Proof.
  intros Hne. unfold handlePrefixChange. rewrite decide_False by done. cbv zeta. cbn [H_Prefix].
  fold (surviving (st_CurrentPrefix st) network (st_History st)).
  set (l := surviving _ _ _ ++ _).
  assert (H_Prefix <$> l = (H_Prefix <$> surviving (st_CurrentPrefix st) network (st_History st)) ++ [st_CurrentPrefix st]) as <-
    by (unfold l; by rewrite fmap_app).
  destruct (_ <? _)%nat; cbn [fst snd set_history st_History]; [|done]. by rewrite <- fmap_app, take_drop.
Qed.

Lemma surviving_spec current network h k :
  NoDup (H_Prefix <$> h) ->
  let l := drop k (surviving current network h) in
  NoDup (H_Prefix <$> l) /\ (forall e, e ∈ l -> e ∈ h /\ H_Prefix e <> current /\ H_Prefix e <> network).
Proof.
  intros Hn l. split.
  - subst l. rewrite fmap_drop. apply (NoDup_app (take k (H_Prefix <$> surviving current network h))).
    rewrite take_drop. clear k. unfold surviving. induction h as [|e h IH]; [constructor|].
    inversion Hn as [|? ? Hin Hnd]; subst. rewrite filter_cons. case_decide; [|by apply IH].
    cbn [fmap list_fmap]. constructor; [|by apply IH]. intros Hf. apply Hin.
    apply list_elem_of_fmap in Hf as (x & Hx & Hf). apply list_elem_of_filter in Hf as [_ Hf].
    rewrite Hx. by apply list_elem_of_fmap_2.
  - intros e He. assert (e ∈ surviving current network h) as He'.
    { rewrite <- (take_drop k). apply elem_of_app. by right. }
    apply list_elem_of_filter in He' as [Hne Hin]. tauto.
Qed.

(** Replacing the current prefix keeps the history clean and drains it. *)
Lemma handlePrefixChange_ok M now creation spec network st :
  history_ok M st -> (max_history spec <= M)%nat -> st_CurrentPrefix st <> network ->
  let h := st_History (handlePrefixChange Find now creation spec network st).1 in
  NoDup (H_Prefix <$> h) /\ (network ∉ H_Prefix <$> h) /\ (length h <= M)%nat /\
  Forall (fun e => H_State e = PrefixStateDraining /\ is_Some (H_DeprecatedAt e) /\ accepted_text (H_Prefix e)) h /\
  (st_CurrentPrefix st <> EmptyString -> H_Prefix <$> last h = Some (st_CurrentPrefix st)).
Proof.
  intros (Hnd & Hcur & Hlen & Hall & Htext) HM Hne. unfold handlePrefixChange.
  destruct (decide (st_CurrentPrefix st = EmptyString)) as [Hempty|Hnon].
  { destruct Htext as [[_ Hh]|Ht]; [|by apply accepted_text_nonempty in Ht].
    cbn. rewrite Hh. repeat split; try done; set_solver || (cbn; lia) || constructor. }
  destruct Htext as [[? _]|Ht]; [done|]. cbv zeta. cbn [H_Prefix].
  fold (surviving (st_CurrentPrefix st) network (st_History st)).
  set (old := mkHistory _ _ _ _). set (l := surviving _ _ _). pose proof (max_history_pos spec).
  assert (forall k, (length (drop k l) + 1 <= M)%nat -> let h := drop k l ++ [old] in
    NoDup (H_Prefix <$> h) /\ (network ∉ H_Prefix <$> h) /\ (length h <= M)%nat /\
    Forall (fun e => H_State e = PrefixStateDraining /\ is_Some (H_DeprecatedAt e) /\ accepted_text (H_Prefix e)) h /\
    (st_CurrentPrefix st <> EmptyString -> H_Prefix <$> last h = Some (st_CurrentPrefix st))) as Hgen.
  { intros k Hk h. destruct (surviving_spec (st_CurrentPrefix st) network (st_History st) k Hnd) as [Hl Hin].
    fold l in Hl, Hin. unfold h. rewrite fmap_app, length_app, last_snoc. cbn [fmap list_fmap length].
    repeat split; try done.
    - apply NoDup_app. split; [done|]. split; [|by apply NoDup_singleton].
      intros x (e & -> & He)%list_elem_of_fmap. apply Hin in He as (_ & He & _).
      intros Hx%list_elem_of_singleton. by cbn in Hx.
    - intros [(e & Hx & He)%list_elem_of_fmap|Hx]%elem_of_app.
      + by apply Hin in He as (_ & _ & He).
      + apply list_elem_of_singleton in Hx. by cbn in Hx.
    - apply Forall_app. split; [|by repeat constructor].
      apply Forall_forall. intros e He. apply Hin in He as (He & _). rewrite Forall_forall in Hall. by apply Hall. }
  destruct (Nat.ltb_spec (max_history spec) (length (l ++ [old]))) as [Hlt|Hge]; cbn [fst set_history st_History];
    pose proof (length_app l [old]) as Hl; cbn [length] in Hl.
  - rewrite drop_app_le by lia. apply Hgen. rewrite length_drop. lia.
  - apply (Hgen 0%nat). rewrite drop_0. lia.
Qed.

(** C3 However reconciles, limits and the other status writers interleave: the
    history never lists a prefix twice nor the current one, keeps within the
    limit, holds only draining entries with the time they were replaced, and it
    and the current prefix are only ever networks a policy accepted.  A reconcile
    that replaces the current prefix leaves it as the newest history entry. *)
Theorem history_invariant (M : nat) (st : DynamicPrefixStatus) :
  persisted M st ->
  history_ok M st /\
  (forall env name r dp r' res st',
     re_get env = GetObject dp -> dp_Status dp = st -> (max_history (dp_Spec dp) <= M)%nat ->
     reconcile env name r = Some (r', res) -> rr_status res = Some st' ->
     st_CurrentPrefix st <> EmptyString -> st_CurrentPrefix st' <> st_CurrentPrefix st ->
     H_Prefix <$> last (st_History st') = Some (st_CurrentPrefix st)).
Proof.
  intros Hp. assert (history_ok M st) as Hok.
  { induction Hp as [|st l Hp IH|env name r dp r' res st Hp IH HM Hget Hrun Hst]; [| |].
    - repeat split; try done; cbn; try constructor; try set_solver; try lia.
    - done.
    - destruct (reconcile_writes _ _ _ _ _ _ _ Hget Hrun Hst) as [[E1 E2]|(p & Hv & E1 & E2)];
        unfold history_ok; rewrite E1, E2; [done|].
      assert (accepted_text (netiptext.PrefixString (Network p))) as Ht by (eexists _, _; eauto).
      unfold next_history. case_decide as Hc; [|].
      + rewrite <- Hc. destruct IH as (? & ? & ? & ? & _). rewrite <- Hc in Ht. by repeat split; [..|right].
      + destruct (handlePrefixChange_ok M (re_now env) (dp_CreationTimestamp dp) (dp_Spec dp) _ _ IH HM Hc)
          as (? & ? & ? & ? & _). by repeat split; [..|right]. }
  split; [done|]. intros env name r dp r' res st' Hget <- HM Hrun Hst Hne Hch.
  destruct (reconcile_writes _ _ _ _ _ _ _ Hget Hrun Hst) as [[E1 _]|(p & Hv & E1 & E2)]; [done|].
  rewrite E1 in Hch. rewrite E2. unfold next_history. rewrite decide_False by congruence.
  apply (handlePrefixChange_ok M); congruence || done.
Qed.
End Controller.

(** The advertisement name in status is unique among the subnets of one
    resource, but not across resources: the two names are joined by a hyphen that
    may also occur in them. *)
Lemma advertisementName_unique :
  (forall dp s1 s2, advertisementName dp s1 = advertisementName dp s2 -> s1 = s2) /\
  exists dp1 s1 dp2 s2, dp1 <> dp2 /\ advertisementName dp1 s1 = advertisementName dp2 s2.
Proof.
  split; [|by exists "a", "b-c", "a-b", "c"].
  intros dp s1 s2. unfold advertisementName. intros H. by do 3 apply append_inj_l in H.
Qed.

(** * Witnesses *)

Definition sample_acquisition : AcquisitionSpec :=
  mkAcquisition (Some (mkDHCPv6PDSpec "eth0" None)) None None.

Definition sample_dp (st : DynamicPrefixStatus) : DynamicPrefix :=
  mkDynamicPrefix "home" false true 1 None
    (mkSpec sample_acquisition [mkRangeSpec "lb" "::f000:0:0:0" "::ffff:ffff:ffff:ffff"]
       [mkSubnetSpec "pods" 1 64 (Some (mkBGPSpec true ""))] None) st.

Definition no_status : DynamicPrefixStatus := mkStatusOf EmptyString None None [] [] [] [].

Definition sample_prefix (text : string) : Prefix :=
  mkPrefix (prefix_of_string text) (3600 * time_Second) (1800 * time_Second) SourceDHCPv6PD 0.

Definition first_prefix : Prefix := sample_prefix "2001:db8:1200::/48".
Definition second_prefix : Prefix := sample_prefix "2001:db8:3400::/48".

Lemma adopted_status_witness :
  exists st requeue,
    reconcile_status list_SetStatusCondition list_FindStatusCondition 10 (sample_dp no_status) None
      (Some first_prefix) SourceDHCPv6PD = Some (st, requeue) /\
    netiptext.ParsePrefix (st_CurrentPrefix st) = Some (Network first_prefix) /\
    length (st_Subnets st) = 1%nat.
Proof.
  destruct (adopted_status list_SetStatusCondition list_FindStatusCondition list_condition_laws
    10 (sample_dp no_status) None first_prefix SourceDHCPv6PD) as (st & d & Hrun & Hparse & _);
    [apply prefix6_of_string; vm_compute; reflexivity|vm_compute; reflexivity|].
  exists st, d. split; [exact Hrun|]. split; [exact Hparse|].
  assert (length <$> (st_Subnets ∘ fst <$> Some (st, d)) = Some 1%nat) as Hlen
    by (rewrite <- Hrun; vm_compute; reflexivity).
  by injection Hlen.
Defined.

Lemma unaccepted_keeps_status_witness :
  exists st,
    reconcile_status list_SetStatusCondition list_FindStatusCondition 10 (sample_dp no_status) None
      (Some (sample_prefix "fd00::/48")) SourceDHCPv6PD = Some (st, 30 * time_Second) /\
    st_CurrentPrefix st = EmptyString.
Proof.
  destruct (unaccepted_keeps_status list_SetStatusCondition list_FindStatusCondition list_condition_laws
    10 (sample_dp no_status) None (Some (sample_prefix "fd00::/48")) SourceDHCPv6PD)
    as (st & d & Hrun & Hsame & _ & _ & Hd);
    [intros p Hp; injection Hp as <-; vm_compute; discriminate|].
  exists st. rewrite Hrun, Hd. split; [reflexivity|]. exact (f_equal st_CurrentPrefix Hsame).
Defined.

Lemma reconcile_settles_witness :
  exists st d st' d',
    reconcile_status list_SetStatusCondition list_FindStatusCondition 10 (sample_dp no_status) None
      (Some first_prefix) SourceDHCPv6PD = Some (st, d) /\
    reconcile_status list_SetStatusCondition list_FindStatusCondition 99 (with_status st (sample_dp no_status)) None
      (Some first_prefix) SourceDHCPv6PD = Some (st', d') /\
    updateStatusIfChanged list_FindStatusCondition st' st = None.
Proof.
  destruct (reconcile_status list_SetStatusCondition list_FindStatusCondition 10 (sample_dp no_status) None
      (Some first_prefix) SourceDHCPv6PD) as [[st d]|] eqn:E; [|vm_compute in E; discriminate].
  exists st, d.
  destruct (reconcile_settles list_SetStatusCondition list_FindStatusCondition list_condition_laws
    10 99 (sample_dp no_status) None (Some first_prefix) SourceDHCPv6PD st d) as (st' & d' & H1 & H2).
  - intros p Hp. injection Hp as <-. split; [apply prefix6_of_string; vm_compute; reflexivity|reflexivity].
  - exact E.
  - exists st', d'. split; [reflexivity|]. split; [exact H1|exact H2].
Defined.

Lemma renewal_failure_rewrites_status_witness :
  exists st d st' d' c',
    reconcile_status list_SetStatusCondition list_FindStatusCondition 10 (sample_dp no_status)
      (Some (errors_New "no reply")) (Some first_prefix) SourceDHCPv6PD = Some (st, d) /\
    reconcile_status list_SetStatusCondition list_FindStatusCondition 99 (with_status st (sample_dp no_status))
      (Some (errors_New "no reply")) (Some first_prefix) SourceDHCPv6PD = Some (st', d') /\
    list_FindStatusCondition (st_Conditions st') ConditionTypeDegraded = Some c' /\
    C_LastTransitionTime c' = Some 99.
Proof.
  destruct (reconcile_status list_SetStatusCondition list_FindStatusCondition 10 (sample_dp no_status)
      (Some (errors_New "no reply")) (Some first_prefix) SourceDHCPv6PD) as [[st d]|] eqn:E;
    [|vm_compute in E; discriminate].
  exists st, d.
  destruct (renewal_failure_rewrites_status list_SetStatusCondition list_FindStatusCondition list_condition_laws
    10 99 (sample_dp no_status) (errors_New "no reply") first_prefix SourceDHCPv6PD st d)
    as (st' & d' & c & c' & H1 & _ & H2 & _ & _ & _ & H3 & _).
  - apply prefix6_of_string; vm_compute; reflexivity.
  - vm_compute; reflexivity.
  - vm_compute; reflexivity.
  - vm_compute; reflexivity.
  - exact E.
  - discriminate.
  - exists st', d', c'. split; [reflexivity|]. split; [exact H1|]. split; [exact H2|exact H3].
Defined.

(** Four fifths of what is left of a 200 s lease; a minute at least. *)
Example requeue_200 : calculateRequeueTime 0 (mkPrefix netip.zero_prefix (200 * time_Second) 0 SourceStatic 0)
  = 160 * time_Second.
Proof. vm_compute. reflexivity. Qed.

Example requeue_30 : calculateRequeueTime 0 (mkPrefix netip.zero_prefix (30 * time_Second) 0 SourceStatic 0)
  = time_Minute.
Proof. vm_compute. reflexivity. Qed.

(** ** A controller with mock receivers *)

Definition mock_holding (p : Prefix) : MockReceiver := mkMock SourceDHCPv6PD (Some p) [] true false.

(** Mock receivers by number; the factory makes one for any spec. *)
Abbreviation mock_world := (gmap nat MockReceiver).

Definition mock_start (id : nat) (w : mock_world) : mock_world * option error :=
  match w !! id with
  | None => (w, Some (errors_New "unknown receiver"))
  | Some m => (<[id := (rStart tt m).1]> w, (rStart tt m).2)
  end.

Definition mock_stop (id : nat) (w : mock_world) : option (mock_world * option error) :=
  match w !! id with
  | None => Some (w, None)
  | Some m => '(m', e) ← rStop tt m; Some (<[id := m']> w, e)
  end.

#[export] Instance mock_handles : HandleOps unit mock_world nat := {
  hCreate _ w := let id := fresh (dom w) in (<[id := NewMockReceiver SourceDHCPv6PD]> w, Ret id);
  hStart _ := mock_start;
  hStop _ := mock_stop;
  hCurrentPrefix w id := m ← w !! id; m_currentPrefix m;
  hSource w id := match w !! id with Some m => m_source m | None => SourceUnknown end;
  hHealth _ _ := None;
  hStats _ _ := None;
  hRunning w id := match w !! id with Some m => rRunning m | None => false end
}.

Definition mock_reconciler (p : Prefix) : @reconciler mock_world nat :=
  mkReconciler true (<[0%nat := mock_holding p]> empty) (<["home" := 0%nat]> empty) (<["home" := sample_acquisition]> empty)
    {["home"]} empty (Some []).

Definition mock_env (st : DynamicPrefixStatus) : @reconcile_env unit :=
  mkReconcileEnv 100 (GetObject (sample_dp st)) None None tt.

Definition mock_reconcile (p : Prefix) (st : DynamicPrefixStatus) :=
  Reconcile list_SetStatusCondition list_FindStatusCondition (mock_env st) "home" (mock_reconciler p).

(** The status after a reconcile that finds [p]. *)
Definition written (p : Prefix) (st : DynamicPrefixStatus) : DynamicPrefixStatus :=
  default st (res ← mock_reconcile p st; rr_status res.2).

Lemma written_persisted M p st :
  (2 <= M)%nat -> persisted list_SetStatusCondition list_FindStatusCondition (Env := unit) (W := mock_world) (R := nat) M st ->
  persisted list_SetStatusCondition list_FindStatusCondition (Env := unit) (W := mock_world) (R := nat) M (written p st).
Proof.
  intros HM Hp. unfold written. destruct (mock_reconcile p st) as [[r' res]|] eqn:E; [|done]. cbn.
  destruct (rr_status res) as [st'|] eqn:Es; [|done]. cbn.
  by eapply (persisted_reconcile _ _ M (mock_env st) "home" (mock_reconciler p) (sample_dp st)).
Qed.

Lemma history_invariant_witness :
  H_Prefix <$> st_History (written second_prefix (written first_prefix no_status)) = ["2001:db8:1200::/48"] /\
  history_ok 2 (written second_prefix (written first_prefix no_status)).
Proof.
  split; [vm_compute; reflexivity|].
  apply (history_invariant list_SetStatusCondition list_FindStatusCondition (Env := unit) (W := mock_world) (R := nat)).
  apply written_persisted; [lia|]. apply written_persisted; [lia|]. apply persisted_new.
Defined.
