(* ===== verification/Controller.v ===== *)
(** * The DynamicPrefix controller over time

    Over any history of reconciles, forwarded events and receivers that change on
    their own: every resource has its receiver, its recorded spec and its forwarder,
    or none of them; wake-ups and the reports on dropped advertisements are
    accounted for.  Receivers are the handles of [HandleLaws]. *)

From S2P Require Import Prelude GoStrings Metrics Netip NetipText Policy Subnet AddressRange Receivers Factory DynamicPrefix.

(** ** Receivers, their specs and the event queue *)

Section Receivers.
Context (Set_ : list Condition -> Condition -> list Condition).
Context (Find : list Condition -> string -> option Condition).
Context {Env W R : Type} `{!EqDecision R} `{HHo : !HandleOps Env W R, HHv : !HandleView W R, HHl : !HandleLaws Env W R}.

Local Abbreviation reconciler := (@DynamicPrefix.reconciler W R).
Let reconcile := Reconcile Set_ Find (Env := Env) (W := W) (R := R).

Definition running (w : W) (rcv : R) : Prop := hKnown w rcv /\ hRunning w rcv = true.

(** A running receiver goes on, for the same spec. *)
Definition lives_on (w w' : W) (rcv : R) : Prop :=
  running w rcv -> running w' rcv /\ forall spec, hMade w rcv spec -> hMade w' rcv spec.

(** A resource has a running receiver, made for its recorded spec, and - once events
    are set up - a forwarder, or none of them. *)
Definition entry_ok (r : reconciler) (n : string) : Prop :=
  match rc_receivers r !! n, rc_receiverSpecs r !! n with
  | Some rcv, Some spec => running (rc_world r) rcv /\ hMade (rc_world r) rcv spec /\ (n ∈ rc_receiverStops r <-> is_Some (rc_prefixEvents r))
  | None, None => n ∉ rc_receiverStops r
  | _, _ => False
  end.

(** No two resources have one receiver. *)
Definition receivers_distinct (r : reconciler) : Prop :=
  forall n n' rcv, rc_receivers r !! n = Some rcv -> rc_receivers r !! n' = Some rcv -> n = n'.

(** A receiver that no resource has is idle. *)
Definition accounted (w : W) (rs : gmap string R) (rcv : R) : Prop :=
  hKnown w rcv -> hIdle w rcv \/ exists n, rs !! n = Some rcv.
Definition nothing_left (r : reconciler) : Prop := forall rcv, accounted (rc_world r) (rc_receivers r) rcv.

Record reconciler_ok (r : reconciler) : Prop := {
  ok_entry : forall n, entry_ok r n;
  ok_queue : forall q, rc_prefixEvents r = Some q -> (length q <= prefixEventQueueSize)%nat;
  ok_world : hOk (rc_world r);
  ok_distinct : receivers_distinct r;
  ok_left : nothing_left r
}.

(** Everything of the other resources is as it was. *)
Definition untouched (name : string) (r r' : reconciler) : Prop :=
  rc_prefixEvents r' = rc_prefixEvents r /\
  (forall n, n <> name -> rc_receivers r' !! n = rc_receivers r !! n /\
     rc_receiverSpecs r' !! n = rc_receiverSpecs r !! n /\
     (n ∈ rc_receiverStops r' <-> n ∈ rc_receiverStops r) /\
     forall rcv, rc_receivers r !! n = Some rcv -> lives_on (rc_world r) (rc_world r') rcv).

Lemma untouched_ok name r r' :
  reconciler_ok r -> untouched name r r' -> entry_ok r' name -> hOk (rc_world r') ->
  (forall n rcv, n <> name -> rc_receivers r' !! name = Some rcv -> rc_receivers r !! n <> Some rcv) ->
  nothing_left r' -> reconciler_ok r'.
Proof.
  intros [He Hq _ Hd _] [Hev Hu] Hn Hw Hnew Hleft. split; [| |done| |done].
  - intros n. destruct (decide (n = name)) as [->|Hne]; [done|].
    destruct (Hu n Hne) as (E1 & E2 & E3 & E4). specialize (He n). unfold entry_ok in *.
    rewrite E1, E2, Hev. destruct (rc_receivers r !! n), (rc_receiverSpecs r !! n); try tauto.
    destruct He as (Hr & Hm & Hs). destruct (E4 _ eq_refl Hr) as [Hr' Hm']. split; [done|]. split; [by apply Hm'|tauto].
  - by rewrite Hev.
  - assert (forall n rcv, n <> name -> rc_receivers r' !! n = Some rcv -> rc_receivers r !! n = Some rcv) as Hold.
    { intros n rcv Hne. by destruct (Hu n Hne) as (-> & _). }
    intros n n' rcv Hr Hr'. destruct (decide (n = name)) as [->|Hne], (decide (n' = name)) as [->|Hne']; [done|..].
    + by destruct (Hnew n' rcv Hne' Hr (Hold _ _ Hne' Hr')).
    + by destruct (Hnew n rcv Hne Hr' (Hold _ _ Hne Hr)).
    + apply (Hd n n' rcv); by apply Hold.
Qed.

Lemma untouched_refl name r : untouched name r r.
Proof. split; [done|]. intros n _. do 3 (split; [done|]). by intros rcv _ H. Qed.

Lemma untouched_trans name r1 r2 r3 : untouched name r1 r2 -> untouched name r2 r3 -> untouched name r1 r3.
Proof.
  intros [E1 H1] [E2 H2]. split; [congruence|]. intros n Hn.
  destruct (H1 n Hn) as (A1 & A2 & A3 & A4), (H2 n Hn) as (B1 & B2 & B3 & B4).
  split; [congruence|]. split; [congruence|]. split; [tauto|]. intros rcv Hr H.
  destruct (A4 rcv Hr H) as [H' Hm]. destruct (B4 rcv ltac:(congruence) H') as [H'' Hm']. split; [done|]. eauto.
Qed.

Lemma entry_none r name : reconciler_ok r -> rc_receivers r !! name = None ->
  rc_receiverSpecs r !! name = None /\ (name ∉ rc_receiverStops r).
Proof. intros Hok H. pose proof (ok_entry r Hok name) as He. unfold entry_ok in He. rewrite H in He. by destruct (rc_receiverSpecs r !! name). Qed.

Lemma entry_running r name rcv : reconciler_ok r -> rc_receivers r !! name = Some rcv -> running (rc_world r) rcv.
Proof. intros Hok H. pose proof (ok_entry r Hok name) as He. unfold entry_ok in He. rewrite H in He. destruct (rc_receiverSpecs r !! name); [apply He|done]. Qed.

Lemma kept_running except (w w' : W) rcv : kept except w w' -> except <> Some rcv -> lives_on w w' rcv.
Proof.
  intros Hk Hne [H1 H2]. destruct (Hk rcv Hne) as [H3 H4]. destruct (H4 H1) as (H5 & _ & H6).
  split; [|done]. split; [by apply H3|congruence].
Qed.

Lemma kept_left except (w w' : W) (rs : gmap string R) : kept except w w' ->
  (forall rcv, except = Some rcv -> accounted w' rs rcv) ->
  (forall rcv, except <> Some rcv -> accounted w rs rcv) -> forall rcv, accounted w' rs rcv.
Proof.
  intros Hk Hex H rcv. destruct (decide (except = Some rcv)) as [E|Hne]; [by apply Hex|]. intros Hkn.
  destruct (Hk rcv Hne) as [Hiff Hsame]. apply Hiff in Hkn. destruct (H rcv Hne Hkn) as [Hi|?]; [left|by right].
  by apply (Hsame Hkn).
Qed.

(** ** Stopping a receiver *)

(** A call on the receiver of [name], or on none, leaves the others running. *)
Lemma world_changes name r w except : reconciler_ok r -> kept except (rc_world r) w ->
  (forall rcv n, except = Some rcv -> rc_receivers r !! n = Some rcv -> n = name) ->
  untouched name r (set_rc_world w r).
Proof.
  intros Hok Hk Hex. split; [done|]. intros n Hn. split; [done|]. split; [done|]. split; [done|]. intros rcv Hr.
  eapply kept_running; [exact Hk|]. intros E. by apply Hn, (Hex rcv).
Qed.

Lemma stop_spec name env r rcv : reconciler_ok r -> rc_receivers r !! name = Some rcv ->
  exists w e, hStop env rcv (rc_world r) = Some (w, e) /\
    let r' := stopReceiverLocked name (set_rc_world w r) in
    untouched name r r' /\ reconciler_ok r' /\ rc_receivers r' !! name = None.
Proof.
  intros Hok Hr. destruct (entry_running r name rcv Hok Hr) as [Hk _].
  destruct (hlaw_stop env rcv (rc_world r) (ok_world r Hok) Hk) as (w & e & Hs & Hw & Hkept & Hidle).
  exists w, e. split; [done|]. intros r'.
  assert (untouched name r r') as Hu.
  { eapply untouched_trans; [apply (world_changes name r w (Some rcv) Hok Hkept)|].
    - intros rcv' n [= <-] Hn. by apply (ok_distinct r Hok n name rcv).
    - split; [done|]. intros n Hn. cbn. rewrite !lookup_delete_ne by congruence.
      rewrite elem_of_difference, elem_of_singleton. split; [done|]. split; [done|]. split; [tauto|]. by intros rcv' _ H. }
  assert (rc_receivers r' !! name = None) as Hn by apply lookup_delete_eq.
  split; [done|]. split; [|done]. apply (untouched_ok name r); [done..| |done| |].
  - unfold entry_ok. rewrite Hn. cbn. rewrite lookup_delete_eq, elem_of_difference, elem_of_singleton. tauto.
  - intros n rcv' _ H. congruence.
  - intros rcv'. apply (kept_left (Some rcv) (rc_world r) w); [done|intros ? [= <-] _; by left|].
    clear rcv'. intros rcv' Hne Hkn. destruct (ok_left r Hok rcv' Hkn) as [?|[n Hn']]; [by left|right].
    exists n. cbn. rewrite lookup_delete_ne; [done|]. intros ->. congruence.
Qed.

Lemma cleanupReceiver_spec env name r : reconciler_ok r ->
  exists r', cleanupReceiver env name r = Some r' /\ untouched name r r' /\ reconciler_ok r' /\
    rc_receivers r' !! name = None.
Proof.
  intros Hok. unfold cleanupReceiver. destruct (rc_receivers r !! name) as [rcv|] eqn:E.
  - destruct (stop_spec name env r rcv Hok E) as (w & e & -> & H). eexists. by split.
  - eexists. split; [done|]. by split; [apply untouched_refl|].
Qed.

(** ** Creating one *)

Definition create_result (name : string) (spec : AcquisitionSpec) (r : reconciler) (res : reconciler * outcome error R) : Prop :=
  untouched name r res.1 /\ reconciler_ok res.1 /\
  match res.2 with
  | Ret rcv => rc_receivers res.1 !! name = Some rcv /\ rc_receiverSpecs res.1 !! name = Some spec
  | Fail _ => rc_receivers res.1 !! name = None
  | Panic => False
  end.

Lemma create_failed name spec r w e :
  reconciler_ok r -> rc_receivers r !! name = None -> hOk w -> untouched name r (set_rc_world w r) ->
  nothing_left (set_rc_world w r) -> create_result name spec r (set_rc_world w r, Fail e).
Proof.
  intros Hok Hn Hw Hu Hleft. split; [done|]. split; [|done]. apply (untouched_ok name r); [done..| |done| |done].
  - pose proof (ok_entry r Hok name) as He. unfold entry_ok in *. cbn. by rewrite Hn in *.
  - intros n rcv _ H. cbn in H. congruence.
Qed.

Lemma create_and_start_spec env name spec r :
  reconciler_ok r -> rc_receivers r !! name = None ->
  create_result name spec r (create_and_start env name spec r).
Proof.
  intros Hok Hn. destruct (entry_none r name Hok Hn) as [Hs Hst]. unfold create_and_start.
  destruct (rc_factory r) eqn:Ef; cbn [negb]; [|by split; [apply untouched_refl|]].
  destruct (hlaw_create spec (rc_world r) (ok_world r Hok)) as (Hw & Hnew).
  destruct (hCreate spec (rc_world r)) as [w [rcv|e|]]; cbn [fst snd] in *; [| |done].
  2:{ apply create_failed; [done..| |].
      - by apply (world_changes name r w None Hok Hnew).
      - intros rcv. apply (kept_left None (rc_world r) w); [done..|]. intros ? _. apply (ok_left r Hok). }
  destruct Hnew as (Hfresh & Hk & Hf & Hmade & Hkept).
  destruct (hlaw_start env rcv w Hw Hk Hf) as (Hw' & Hkept' & Hk' & Hmade' & Hrun).
  destruct (hStart env rcv w) as [w' e]; cbn [fst snd] in *.
  assert (forall n, rc_receivers r !! n <> Some rcv) as Hnot.
  { intros n Hr. by apply Hfresh, (entry_running r n). }
  assert (untouched name r (set_rc_world w' r)) as Hu.
  { split; [done|]. intros n _. split; [done|]. split; [done|]. split; [done|]. intros rcv' Hr H.
    assert (Some rcv <> Some rcv') as Hne by (intros [= ->]; by apply (Hnot n)).
    destruct (kept_running _ _ _ _ Hkept Hne H) as [H1 Hm1].
    destruct (kept_running _ _ _ _ Hkept' Hne H1) as [H2 Hm2]. split; [done|]. eauto. }
  assert (forall rs : gmap string R, (hIdle w' rcv \/ exists n, rs !! n = Some rcv) ->
    (forall rcv' n, rc_receivers r !! n = Some rcv' -> exists n', rs !! n' = Some rcv') ->
    forall rcv', accounted w' rs rcv') as Hleft.
  { intros rs Hrcv Hrs. apply (kept_left (Some rcv) w w'); [done|by intros ? [= <-] _|]. intros rcv' Hne Hkn.
    destruct (Hkept rcv' Hne) as [Hiff Hsame]. apply Hiff in Hkn.
    destruct (ok_left r Hok rcv' Hkn) as [Hi|[n Hn']]; [left; by apply (Hsame Hkn)|right; by eapply Hrs]. }
  destruct e as [e|].
  { apply create_failed; [done..|]. intros rcv''. apply Hleft; [by left|]. by intros rcv' n; exists n. }
  unfold create_result. cbn [fst snd]. match goal with |- untouched _ _ ?r' /\ _ => set (rr := r') end.
  assert (untouched name r rr) as Hu'.
  { eapply untouched_trans; [exact Hu|]. split; [done|]. intros n Hne. cbn. rewrite !lookup_insert_ne by congruence.
    split; [done|]. split; [done|]. split; [|by intros rcv' _ H]. destruct (rc_prefixEvents r); [|done].
    rewrite elem_of_union, elem_of_singleton. tauto. }
  split; [done|]. cbn. rewrite !lookup_insert_eq. split; [|done]. apply (untouched_ok name r); [done..| |done| |].
  - unfold entry_ok. cbn. rewrite !lookup_insert_eq. split; [by split|]. split; [by apply Hmade'|].
    destruct (rc_prefixEvents r); [|split; [done|by intros [? ?]]].
    rewrite elem_of_union, elem_of_singleton. split; [done|]. intros _. by left.
  - intros n rcv' _. cbn. rewrite lookup_insert_eq. intros [= <-]. apply Hnot.
  - intros rcv''. apply Hleft; cbn; [right; exists name; apply lookup_insert_eq|].
    intros rcv' n Hr. exists n. rewrite lookup_insert_ne; [done|]. intros <-. congruence.
Qed.

Lemma getOrCreateReceiver_spec env name spec r :
  reconciler_ok r ->
  create_result name spec r (getOrCreateReceiver env name spec r) /\
  (rc_receiverSpecs r !! name = Some spec -> (getOrCreateReceiver env name spec r).1 = r).
Proof.
  intros Hok. unfold getOrCreateReceiver. destruct (rc_receivers r !! name) as [rcv|] eqn:E.
  - pose proof (ok_entry r Hok name) as He. unfold entry_ok in He. rewrite E in He.
    destruct (rc_receiverSpecs r !! name) as [recorded|] eqn:Es; [|done]. case_decide as Hd.
    + subst. split; [|done]. unfold create_result. cbn [fst snd]. by split; [apply untouched_refl|].
    + destruct (stop_spec name env r rcv Hok E) as (w & e & -> & Hu & Hok' & Hn).
      split; [|congruence].
      destruct (create_and_start_spec env name spec _ Hok' Hn) as (Hu' & ? & ?).
      split; [by eapply untouched_trans|done].
  - split; [by apply create_and_start_spec|]. destruct (entry_none r name Hok E) as [-> _]. done.
Qed.

Lemma reportRARejections_spec now name stats (r : reconciler) :
  let r' := (reportRARejections now name stats r).1 in
  rc_receivers r' = rc_receivers r /\ rc_receiverSpecs r' = rc_receiverSpecs r /\
  rc_receiverStops r' = rc_receiverStops r /\ rc_prefixEvents r' = rc_prefixEvents r /\ rc_world r' = rc_world r.
Proof. unfold reportRARejections. repeat case_match; done. Qed.

(** What the invariant looks at. *)
Lemma reconciler_ok_same (r r' : reconciler) :
  rc_receivers r' = rc_receivers r -> rc_receiverSpecs r' = rc_receiverSpecs r ->
  rc_receiverStops r' = rc_receiverStops r -> rc_prefixEvents r' = rc_prefixEvents r -> rc_world r' = rc_world r ->
  reconciler_ok r -> reconciler_ok r'.
Proof.
  intros E1 E2 E3 E4 E5 [He Hq Hw Hd Hl].
  split; unfold entry_ok, receivers_distinct, nothing_left in *; by rewrite ?E1, ?E2, ?E3, ?E4, ?E5.
Qed.

Lemma reportRARejections_ok now name stats r : reconciler_ok r ->
  reconciler_ok (reportRARejections now name stats r).1 /\ untouched name r (reportRARejections now name stats r).1.
Proof.
  intros Hok. destruct (reportRARejections_spec now name stats r) as (E1 & E2 & E3 & E4 & E5).
  split; [by apply (reconciler_ok_same r)|]. unfold untouched. rewrite E1, E2, E3, E4, E5. split; [done|]. by intros n _.
Qed.

(** ** Runs

    Reconciles of any resources, events read by the forwarders, wake-ups taken by
    the work queue, and the receivers doing what they do on their own. *)
Inductive controller : reconciler -> Prop :=
| controller_start factory w (events : bool) :
    hOk w -> (forall rcv, hKnown w rcv -> hIdle w rcv) ->
    controller (mkReconciler factory w empty empty empty empty (if events then Some [] else None))
| controller_reconcile (env : @reconcile_env Env) name r r' res :
    controller r -> (forall dp, re_get env = GetObject dp -> dp_Name dp = name) ->
    reconcile env name r = Some (r', res) -> controller r'
| controller_forward name ev r : controller r -> controller (forwardPrefixEvents name ev r)
| controller_wakeup name q r :
    controller r -> rc_prefixEvents r = Some (name :: q) ->
    controller (mkReconciler (rc_factory r) (rc_world r) (rc_receivers r) (rc_receiverSpecs r) (rc_receiverStops r)
                  (rc_rejectionReports r) (Some q))
| controller_world w r :
    controller r -> hOk w -> kept None (rc_world r) w -> controller (set_rc_world w r).

(** What one reconcile does to the receivers and answers. *)
Definition reconcile_post (env : @reconcile_env Env) (name : string) (r r' : reconciler)
    (res : reconcile_result) : Prop :=
  untouched name r r' /\
  match re_get env with
  | GetNotFound => rc_receivers r' !! name = None
  | GetError e => r' = r /\ rr_err res = Some e
  | GetObject dp =>
      if dp_Deleted dp then dp_Finalizer dp = true -> rc_receivers r' !! name = None
      else
        (rr_err res = None -> time_Second <= rr_requeue res <= 5 * time_Minute) /\
        if dp_Finalizer dp then
          (rc_receiverSpecs r !! name = Some (sp_Acquisition (dp_Spec dp)) ->
             rc_receivers r' = rc_receivers r) /\
          (rc_receivers r' !! name = None \/
           rc_receiverSpecs r' !! name = Some (sp_Acquisition (dp_Spec dp)))
        else r' = r
  end.

Lemma requeue_bounds now p : time_Minute <= calculateRequeueTime now p <= 5 * time_Minute.
Proof.
  unfold calculateRequeueTime. cbv zeta. assert (time_Minute = 60000000000) by reflexivity.
  repeat case_match; zbool; lia.
Qed.

Lemma reconcile_status_total now dp err held src :
  (forall p, held = Some p -> netip.prefix6 (Network p)) ->
  exists st d, reconcile_status Set_ Find now dp err held src = Some (st, d) /\
    time_Second <= d <= 5 * time_Minute.
Proof.
  intros Hp. assert (time_Minute = 60 * time_Second /\ 0 < time_Second) as [Hm Hs] by done.
  destruct held as [p|].
  - destruct (Validate (prefixPolicyFor (sp_Acquisition (dp_Spec dp))) (Network p)) eqn:Hv.
    + unfold reconcile_status. rewrite Hv. eexists _, _. split; [done|]. lia.
    + rewrite reconcile_status_accepted by auto. eexists _, _. split; [done|].
      pose proof (requeue_bounds now p). lia.
  - unfold reconcile_status. destruct err; eexists _, _; (split; [done|]); lia.
Qed.

Lemma reconcile_live_spec (env : @reconcile_env Env) dp name r :
  reconciler_ok r -> re_get env = GetObject dp -> dp_Name dp = name -> dp_Deleted dp = false ->
  dp_Finalizer dp = true ->
  exists r' res, reconcile_live Set_ Find env dp r = Some (r', res) /\
    reconciler_ok r' /\ reconcile_post env name r r' res.
Proof.
  intros Hok Hget <- Hdel Hfin. unfold reconcile_live, reconcile_post. rewrite Hget, Hdel, Hfin.
  destruct (getOrCreateReceiver_spec (re_rcv env) (dp_Name dp) (sp_Acquisition (dp_Spec dp)) r Hok)
    as [(Hu & Hok1 & Hres) Hsame].
  destruct (getOrCreateReceiver _ _ _ _) as [r1 [rcv|e|]]; cbn [fst snd] in *; [| |done].
  - destruct Hres as [Hrcv Hspec].
    set (stats := hStats (rc_world r1) rcv).
    destruct (reportRARejections_ok (re_now env) (dp_Name dp) stats r1 Hok1) as [Hok2 Hu2].
    destruct (reportRARejections_spec (re_now env) (dp_Name dp) stats r1) as (E1 & E2 & _).
    destruct (reportRARejections _ _ _ _) as [r2 report]. cbn [fst] in *.
    destruct (reconcile_status_total (re_now env) dp (receiverLastError (hHealth (rc_world r1) rcv))
      (hCurrentPrefix (rc_world r1) rcv) (hSource (rc_world r1) rcv)) as (st & d & -> & Hd).
    { intros p. apply hlaw_prefix6; [apply Hok1|]. by apply (entry_running r1 (dp_Name dp)). }
    cbn [mbind option_bind fst snd].
    assert (forall res, (rr_err res = None -> rr_requeue res = d) ->
      untouched (dp_Name dp) r r2 /\ (rr_err res = None -> time_Second <= rr_requeue res <= 5 * time_Minute) /\
      (rc_receiverSpecs r !! dp_Name dp = Some (sp_Acquisition (dp_Spec dp)) -> rc_receivers r2 = rc_receivers r) /\
      (rc_receivers r2 !! dp_Name dp = None \/
       rc_receiverSpecs r2 !! dp_Name dp = Some (sp_Acquisition (dp_Spec dp)))) as Hpost.
    { intros res Hr. split; [by eapply untouched_trans|]. split; [by intros Hn; rewrite (Hr Hn)|].
      rewrite E1, E2. split; [by intros Hq%Hsame; rewrite Hq|by right]. }
    destruct (updateStatusIfChanged _ _ _), (re_applyErr env); eexists _, _; (split; [done|]);
      (split; [done|]); by apply Hpost.
  - eexists _, _. split; [done|]. split; [done|]. split; [done|].
    split; [intros _; cbn; split; reflexivity || discriminate|].
    split; [by intros Hq%Hsame; rewrite Hq|by left].
Qed.

Lemma Reconcile_spec (env : @reconcile_env Env) name r :
  reconciler_ok r -> (forall dp, re_get env = GetObject dp -> dp_Name dp = name) ->
  exists r' res, reconcile env name r = Some (r', res) /\ reconciler_ok r' /\ reconcile_post env name r r' res.
Proof.
  intros Hok Hname. unfold reconcile, Reconcile. destruct (re_get env) as [|e|dp] eqn:Hget.
  - destruct (cleanupReceiver_spec (re_rcv env) name r Hok) as (r' & -> & ? & ? & ?).
    eexists _, _. split; [done|]. split; [done|]. unfold reconcile_post. by rewrite Hget.
  - eexists _, _. split; [done|]. split; [done|]. unfold reconcile_post. rewrite Hget.
    by split; [apply untouched_refl|].
  - specialize (Hname dp eq_refl). destruct (dp_Deleted dp) eqn:Hdel.
    + rewrite Hname. destruct (dp_Finalizer dp) eqn:Hfin.
      * destruct (cleanupReceiver_spec (re_rcv env) name r Hok) as (r' & -> & ? & ? & ?).
        eexists _, _. split; [done|]. split; [done|]. unfold reconcile_post. by rewrite Hget, Hdel, Hfin.
      * eexists _, _. split; [done|]. split; [done|]. unfold reconcile_post. rewrite Hget, Hdel, Hfin.
        by split; [apply untouched_refl|].
    + destruct (dp_Finalizer dp) eqn:Hfin; cbn [negb]; [by apply reconcile_live_spec|].
      destruct (re_updateErr env); eexists _, _; (split; [done|]); (split; [done|]);
        unfold reconcile_post; rewrite Hget, Hdel, Hfin; (split; [apply untouched_refl|]); (split; [|done]);
        [done|]. intros _. cbn. split; discriminate.
Qed.

Lemma queue_wakeup_bound name q :
  (length q <= prefixEventQueueSize)%nat -> (length (queue_wakeup name q) <= prefixEventQueueSize)%nat.
Proof.
  intros Hq. unfold queue_wakeup. destruct (Nat.ltb_spec (length q) prefixEventQueueSize); [|done].
  rewrite length_app. cbn [length]. lia.
Qed.

Lemma forward_ok name ev r : reconciler_ok r -> reconciler_ok (forwardPrefixEvents name ev r).
Proof.
  intros [He Hq Hw Hd Hl]. unfold forwardPrefixEvents. destruct (E_Type ev); try done;
    (split; [intros n; specialize (He n); unfold entry_ok in *; cbn;
             by destruct (rc_prefixEvents r), (rc_receivers r !! n), (rc_receiverSpecs r !! n);
               rewrite ?fmap_is_Some| |done..]);
    cbn; intros q (q0 & E & ->)%fmap_Some; by apply queue_wakeup_bound, Hq.
Qed.

Lemma controller_ok r : controller r -> reconciler_ok r.
Proof.
  induction 1 as [factory w events Hw Hi|env name r r' res _ IH Hn Hr|name ev r _ IH|name q r _ IH Hq|w r _ IH Hw Hk].
  - split; [|by destruct events; intros q [= <-]; cbn; lia|done| |]; intros n.
    + unfold entry_ok. cbn. rewrite !lookup_empty. by apply not_elem_of_empty.
    + intros n' rcv H. cbn in H. by rewrite lookup_empty in H.
    + intros Hk. left. by apply Hi.
  - destruct (Reconcile_spec env name r IH Hn) as (? & ? & Hr' & ? & _). rewrite Hr in Hr'. by simplify_eq.
  - by apply forward_ok.
  - destruct IH as [IH1 IH2 IH3 IH4 IH5]. split; [|cbn; intros ? [= <-]; apply IH2 in Hq; cbn in Hq; lia|done..].
    intros n. specialize (IH1 n). unfold entry_ok in *. cbn. rewrite Hq in IH1.
    destruct (rc_receivers r !! n), (rc_receiverSpecs r !! n); try done.
    destruct IH1 as (Hg & Hm & IH1). split; [done|]. split; [done|]. rewrite IH1. split; intros _; by eexists.
  - destruct IH as [IH1 IH2 _ IH4 IH5].
    split; [|done..|intros rcv; apply (kept_left None (rc_world r) w); [done..|intros ? _; apply IH5]]. intros n. specialize (IH1 n). unfold entry_ok in *. cbn.
    destruct (rc_receivers r !! n) as [rcv|], (rc_receiverSpecs r !! n); try done.
    destruct IH1 as (Hrun & Hm & ?). destruct (kept_running None _ _ _ Hk ltac:(done) Hrun) as [? Hm'].
    split; [done|]. split; [by apply Hm'|done].
Qed.

(** C2 At every point of the controller's life each resource has either a running
    receiver with the spec it was built from and an event forwarder, or none of
    these; no two resources share a receiver, and one that no resource has is idle:
    a failed creation or start and a stop leave nothing running or held. At most 32 wake-ups are pending.  Every reconcile returns (it never
    panics) and touches no other resource: a resource that is gone loses its
    receiver, a failed read changes nothing, a live one ends with a receiver built
    from its present spec or with none - the same one if the spec did not change -
    and is always retried: with an error, or within 1 second to 5 minutes. *)
Theorem controller_receivers (r : reconciler) :
  controller r ->
  (forall n, entry_ok r n) /\ receivers_distinct r /\ nothing_left r /\
  (forall q, rc_prefixEvents r = Some q -> (length q <= prefixEventQueueSize)%nat) /\
  (forall env name, (forall dp, re_get env = GetObject dp -> dp_Name dp = name) ->
     exists r' res, reconcile env name r = Some (r', res) /\ reconcile_post env name r r' res).
Proof.
  intros H. pose proof (controller_ok r H) as Hok. do 4 (split; [apply Hok|]).
  intros env name Hname. destruct (Reconcile_spec env name r Hok Hname) as (r' & res & ? & _ & ?). by exists r', res.
Qed.
End Receivers.

(** Of a receiver's events only those that can change the prefix wake the
    reconciler; such an event leaves its resource's name in the queue exactly when
    the queue had room or already held that name, and no pending wake-up is ever
    displaced.  So a full queue of other names loses the wake-up. *)
Theorem forward_wakes {W R : Type} (name : string) (ev : Event) (r : @reconciler W R) (q : list string) :
  rc_prefixEvents r = Some q ->
  exists q', rc_prefixEvents (forwardPrefixEvents name ev r) = Some q' /\
    (E_Type ev = EventTypeRenewed \/ E_Type ev = EventTypeFailed -> q' = q) /\
    (E_Type ev <> EventTypeRenewed /\ E_Type ev <> EventTypeFailed ->
       (name ∈ q' <-> (length q < 32)%nat \/ name ∈ q)) /\
    (forall n, n ∈ q -> n ∈ q').
Proof.
  intros Hq. assert ((name ∈ queue_wakeup name q <-> (length q < 32)%nat \/ name ∈ q) /\
    (forall n, n ∈ q -> n ∈ queue_wakeup name q)) as [Hw Hk].
  { unfold queue_wakeup, prefixEventQueueSize. destruct (Nat.ltb_spec (length q) 32) as [Hl|Hl].
    - split; [|by intros n Hn; apply elem_of_app; left]. split; [by left|].
      intros _. apply elem_of_app. right. by apply list_elem_of_singleton.
    - split; [|done]. split; [by right|]. intros [?|?]; [lia|done]. }
  unfold forwardPrefixEvents. destruct (E_Type ev); cbn; rewrite ?Hq; eexists; (split; [done|]);
    (split; [by (done || intros [?|?])|]); (split; [|done]); done || (by intros [? ?]).
Qed.

(** ** Reports on dropped advertisements *)

(** Successive reports about one receiver, with the events raised: when, and how
    many drops each announces. *)
Fixpoint report_run {W R : Type} (name : string) (steps : list (Z * Z * string)) (r : @reconciler W R)
    : @reconciler W R * list (Z * Z) :=
  match steps with
  | [] => (r, [])
  | (now, total, reason) :: steps' =>
      let (r1, out) := reportRARejections now name (Some (total, reason)) r in
      let (r2, outs) := report_run name steps' r1 in
      (r2, match out with Some (since, _, _) => (now, since) :: outs | None => outs end)
  end.

(** A receiver's clock and count only go up. *)
Fixpoint steps_ok (now total : Z) (steps : list (Z * Z * string)) : Prop :=
  match steps with
  | [] => True
  | (now', total', _) :: steps' => now <= now' /\ total <= total' < 2 ^ 64 /\ steps_ok now' total' steps'
  end.

Fixpoint last_total (total : Z) (steps : list (Z * Z * string)) : Z :=
  match steps with [] => total | (_, total', _) :: steps' => last_total total' steps' end.

Fixpoint last_now (now : Z) (steps : list (Z * Z * string)) : Z :=
  match steps with [] => now | (now', _, _) :: steps' => last_now now' steps' end.

Fixpoint spaced (last : option rejectionReport) (outs : list (Z * Z)) : Prop :=
  match outs with
  | [] => True
  | (now, since) :: outs' =>
      0 < since /\ match last with Some l => rejectionReportInterval <= now - rep_at l | None => True end /\
      spaced (Some (mkReport 0 now)) outs'
  end.

Definition announced (outs : list (Z * Z)) : Z := foldr (fun o acc => o.2 + acc) 0 outs.
Definition reported (rep : option rejectionReport) : Z := rep_total (default (mkReport 0 0) rep).

Lemma spaced_at l l' outs : rep_at <$> l = rep_at <$> l' -> spaced l outs -> spaced l' outs.
Proof. destruct l, l', outs as [|[? ?] ?]; cbn; intros [=]; try done. congruence. Qed.

Lemma report_step {W R : Type} name now total reason (r : @reconciler W R) :
  let old := rc_rejectionReports r !! name in
  0 <= reported old <= total -> total < 2 ^ 64 ->
  (exists r', reportRARejections now name (Some (total, reason)) r = (r', Some (total - reported old, total, reason)) /\
     rc_rejectionReports r' !! name = Some (mkReport total now) /\ reported old < total /\
     (forall l, old = Some l -> rejectionReportInterval <= now - rep_at l)) \/
  (reportRARejections now name (Some (total, reason)) r = (r, None) /\
   (reported old = total \/ exists l, old = Some l /\ now - rep_at l < rejectionReportInterval)).
Proof.
  intros old Hb Ht. unfold reportRARejections. fold old. cbv zeta. fold (reported old).
  destruct (Z.eqb_spec total 0) as [->|H0]; [right; split; [done|left; lia]|].
  destruct (Z.leb_spec total (reported old)).
  { right. rewrite (proj2 (Z.eqb_eq _ _)) by lia. split; [done|left; lia]. }
  rewrite (proj2 (Z.ltb_ge total (reported old))) by lia. rewrite wrapu64_id by lia.
  destruct old as [l|] eqn:Eo; cbn [bool_decide default].
  - rewrite bool_decide_true by (by eexists). cbn [andb default id].
    destruct (Z.ltb_spec (now - rep_at l) rejectionReportInterval) as [Hl|Hl].
    + right. split; [done|]. right. by exists l.
    + left. eexists. split; [done|]. split; [apply lookup_insert_eq|]. split; [done|]. by intros ? [= <-].
  - rewrite bool_decide_false by by intros [? ?]. cbn [andb]. left. eexists. split; [done|].
    split; [apply lookup_insert_eq|]. by split.
Qed.

Lemma report_run_spec {W R : Type} name steps now total (r r' : @reconciler W R) outs :
  0 <= reported (rc_rejectionReports r !! name) <= total -> steps_ok now total steps ->
  (reported (rc_rejectionReports r !! name) = total \/
   exists l, rc_rejectionReports r !! name = Some l /\ now - rep_at l < rejectionReportInterval) ->
  report_run name steps r = (r', outs) ->
  spaced (rc_rejectionReports r !! name) outs /\
  reported (rc_rejectionReports r' !! name) = reported (rc_rejectionReports r !! name) + announced outs /\
  (reported (rc_rejectionReports r' !! name) = last_total total steps \/
   exists l, rc_rejectionReports r' !! name = Some l /\ last_now now steps - rep_at l < rejectionReportInterval).
Proof.
  revert now total r outs. induction steps as [|[[now' total'] reason] steps IH]; intros now total r outs Hb Hs Hd.
  - cbn. intros [= <- <-]. cbn. repeat split; [lia|done].
  - cbn [report_run last_total last_now]. destruct Hs as (Hn & Ht & Hs).
    destruct (report_step name now' total' reason r ltac:(lia) ltac:(lia))
      as [(r1 & -> & Hr1 & Hlt & Hgap)|[-> Hwhy]].
    + destruct (report_run name steps r1) as [r2 outs'] eqn:E. intros [= <- <-].
      destruct (IH now' total' r1 outs') as (Hsp & Hsum & Hend);
        [rewrite Hr1; cbn; lia|done|by left; rewrite Hr1|done|]. rewrite Hr1 in Hsp, Hsum.
      change (reported (Some (mkReport total' now'))) with total' in Hsum.
      split; [|split; [cbn [announced foldr snd]; fold (announced outs'); lia|done]]. cbn. split; [lia|]. split.
      * destruct (rc_rejectionReports r !! name) eqn:Eo; [by apply Hgap|done].
      * by apply (spaced_at (Some (mkReport total' now'))).
    + destruct (report_run name steps r) as [r2 outs'] eqn:E. intros [= <- <-].
      apply (IH now' total' r outs'); [lia|done|exact Hwhy|done].
Qed.

(** Reports on one receiver's dropped advertisements neither lose nor repeat
    one: the announced numbers add up to what has been reported, reports are at
    least five minutes apart, and what is still unreported is less than five
    minutes old or nothing. *)
Theorem rejection_reports_account {W R : Type} (name : string) (now : Z) (steps : list (Z * Z * string))
    (r r' : @reconciler W R) (outs : list (Z * Z)) :
  rc_rejectionReports r !! name = None -> steps_ok now 0 steps -> report_run name steps r = (r', outs) ->
  spaced None outs /\ reported (rc_rejectionReports r' !! name) = announced outs /\
  (announced outs = last_total 0 steps \/
   exists l, rc_rejectionReports r' !! name = Some l /\ last_now now steps - rep_at l < rejectionReportInterval).
Proof.
  intros Hr Hs Hrun. destruct (report_run_spec name steps now 0 r r' outs) as (Hsp & Hsum & Hend);
    [rewrite Hr; cbn; lia|done|by left; rewrite Hr|done|].
  rewrite Hr in Hsp, Hsum. change (reported None) with 0 in Hsum. rewrite Z.add_0_l in Hsum. split; [done|]. split; [done|]. by rewrite <- Hsum.
Qed.


(** * Mock receivers that are only told well-formed prefixes *)

Definition mock_good (m : MockReceiver) : Prop :=
  mock_ok m /\ forall p, m_currentPrefix m = Some p -> netip.prefix6 (Network p).

Definition mock_idle (w : mock_world) (id : nat) : Prop := hRunning w id = false.

#[export] Instance mock_view : HandleView mock_world nat := {
  hOk w := forall id m, w !! id = Some m -> mock_good m;
  hKnown w id := is_Some (w !! id);
  hFresh _ _ := True;
  hIdle := mock_idle;
  hMade _ _ _ := True
}.

Lemma mock_insert_kept id m (w : mock_world) : kept (Some id) w (<[id := m]> w).
Proof.
  intros id' Hne. assert (id <> id') by congruence. cbn. unfold mock_idle. cbn.
  by rewrite lookup_insert_ne.
Qed.

Lemma mock_insert_good id m (w : mock_world) : hOk (R := nat) w -> mock_good m -> hOk (R := nat) (<[id := m]> w).
Proof.
  intros Hw Hm id' m'. destruct (decide (id = id')) as [->|Hne]; [|rewrite lookup_insert_ne by done; apply Hw].
  rewrite lookup_insert_eq. by intros [= <-].
Qed.

#[export] Program Instance mock_handle_laws : HandleLaws unit mock_world nat := {}.
Next Obligation.
  intros spec w Hw. cbn. pose proof (is_fresh (dom w)) as Hf. apply not_elem_of_dom in Hf.
  split; [|split; [|split; [|split; [done|split; [done|apply mock_insert_kept]]]]].
  - apply mock_insert_good; [done|]. split; [split; [discriminate|cbn; lia]|discriminate].
  - rewrite Hf. by intros [? ?].
  - exists (NewMockReceiver SourceDHCPv6PD). apply lookup_insert_eq.
Qed.
Next Obligation.
  intros [] id w Hw [m Hm] _. cbn [hStart mock_handles]. unfold mock_start. rewrite Hm. destruct (Hw id m Hm) as [Hok Hp].
  pose proof (law_start_ok (ReceiverLaws := MockReceiver_laws) tt m Hok) as Hok'. cbn [fst snd].
  split; [by apply mock_insert_good|]. split; [apply mock_insert_kept|]. split; [eexists; apply lookup_insert_eq|].
  split; [done|]. cbn [rStart MockReceiver_ops fst snd hRunning mock_handles]. by rewrite lookup_insert_eq.
Qed.
Next Obligation.
  intros [] id w Hw [m Hm]. cbn [hStop mock_handles]. unfold mock_stop. rewrite Hm. destruct (Hw id m Hm) as [Hok Hp].
  destruct (law_stop_ok (ReceiverLaws := MockReceiver_laws) tt m Hok) as (m' & e & Hs & Hok' & Hr). rewrite Hs.
  exists (<[id := m']> w), e. split; [done|]. split; [|split; [apply mock_insert_kept|]].
  - apply mock_insert_good; [done|]. split; [done|]. cbn in Hs. unfold Mock_Stop in Hs. repeat case_match; by simplify_eq.
  - cbn. unfold mock_idle. cbn. by rewrite lookup_insert_eq.
Qed.
Next Obligation. done. Qed.
Next Obligation.
  intros w id p Hw [m Hm]. cbn. rewrite Hm. cbn. by apply (Hw id m).
Qed.

Lemma controller_receivers_witness :
  let r := mkReconciler true empty empty empty empty empty (Some []) in
  exists r' res,
    Reconcile list_SetStatusCondition list_FindStatusCondition (mock_env no_status) "home" r
      = Some (r', res) /\
    reconcile_post (mock_env no_status) "home" r r' res /\
    rc_receiverSpecs r' !! "home" = Some sample_acquisition.
Proof.
  intros r.
  destruct (controller_receivers list_SetStatusCondition list_FindStatusCondition
    (Env := unit) (W := mock_world) (R := nat) r) as (_ & _ & _ & _ & H).
  - apply (controller_start _ _ true empty true).
    + intros id m Hm. by rewrite lookup_empty in Hm.
    + intros id Hk. exact eq_refl.
  - destruct (H (mock_env no_status) "home") as (r' & res & H1 & H2); [intros dp Hdp; by injection Hdp as <-|].
    exists r', res. split; [exact H1|]. split; [exact H2|].
    assert ((fun x => rc_receiverSpecs x.1 !! "home") <$> Some (r', res) = Some (Some sample_acquisition)) as Hs
      by (rewrite <- H1; vm_compute; reflexivity).
    by injection Hs.
Defined.

Definition queue_of (q : list string) : @reconciler mock_world nat :=
  mkReconciler false empty empty empty empty empty (Some q).

(** Thirty-two wake-ups of another resource: this one's is lost. *)
Lemma forward_wakes_witness :
  exists q', rc_prefixEvents (forwardPrefixEvents "home" (mkEvent EventTypeChanged None None)
                                (queue_of (replicate 32 "other"))) = Some q' /\ ("home" ∉ q').
Proof.
  destruct (forward_wakes "home" (mkEvent EventTypeChanged None None) (queue_of (replicate 32 "other"))
    (replicate 32 "other") eq_refl) as (q' & Hq & _ & Hiff & _).
  exists q'. split; [exact Hq|]. rewrite Hiff by (split; discriminate).
  intros [Hl|Hin]; [cbn in Hl; lia|]. apply elem_of_replicate in Hin as [Hin _]. discriminate.
Defined.

Lemma rejection_reports_account_witness :
  let steps := [(0, 3, "a"); (60 * time_Second, 5, "b"); (400 * time_Second, 9, "c")] in
  (report_run "home" steps (queue_of [])).2 = [(0, 3); (400 * time_Second, 6)] /\
  spaced None [(0, 3); (400 * time_Second, 6)].
Proof.
  intros steps. split; [vm_compute; reflexivity|].
  destruct (report_run "home" steps (queue_of [])) as [r' outs] eqn:E.
  assert (outs = [(0, 3); (400 * time_Second, 6)]) as <-
    by (change outs with (r', outs).2; rewrite <- E; vm_compute; reflexivity).
  apply (rejection_reports_account "home" 0 steps (queue_of []) r' outs).
  - apply lookup_empty.
  - unfold steps. cbn [steps_ok]. unfold time_Second. repeat split; lia.
  - exact E.
Defined.
