(* ===== verification/Acquisition.v ===== *)
(** * Acquisition: the factory's receivers behind the controller

    The receivers that [internal/prefix/factory.go] creates, as the controller of
    DynamicPrefix.v uses them: a DHCPv6-PD client, a subscription to a shared Router
    Advertisement receiver, or the composite of both.  What they share - the pool of
    Router Advertisement receivers and the claimed interfaces - is the world of the
    interface [HandleOps].  The file discharges [HandleLaws] and puts both together:
    what runs and what is claimed is exactly what some resource uses. *)

From S2P Require Import Prelude GoStrings Metrics Netip NetipText Policy Subnet AddressRange Receivers Composite RAReceiver DHCPv6PD SharedRA Factory DynamicPrefix Controller.

Abbreviation ra_pool := (sharedRAReceiverPool RAReceiver).

(** ** The receivers in use *)

Inductive live : Type :=
| LivePD (pd : DHCPv6PDReceiver)
| LiveRA (sub : nat)
| LiveComposite (c : CompositeReceiver DHCPv6PDReceiver nat).

Definition live_of (r : receiver) : live :=
  match r with
  | RcvPD pd => LivePD pd
  | RcvRA sub => LiveRA sub
  | RcvComposite pd sub => LiveComposite (NewCompositeReceiver pd sub)
  end.

Definition receiver_of (l : live) : receiver :=
  match l with
  | LivePD pd => RcvPD pd
  | LiveRA sub => RcvRA sub
  | LiveComposite c => RcvComposite (c_primary c) (c_fallback c)
  end.

Definition client_of (l : live) : option DHCPv6PDReceiver := pd_of (receiver_of l).

Definition sub_of (l : live) : option nat :=
  match l with LivePD _ => None | LiveRA sub => Some sub | LiveComposite c => Some (c_fallback c) end.

(** Receivers by number, with the factory they came from. *)
Record acquisition : Type := mkAcquired {
  aq_factory : DefaultReceiverFactory;
  aq_receivers : gmap nat live
}.

Definition aq_pool (w : acquisition) : ra_pool := f_raReceivers (aq_factory w).

Definition set_pool (p : ra_pool) (f : DefaultReceiverFactory) : DefaultReceiverFactory :=
  mkFactory p (f_onRAReject f) (f_pdInterfaces f).

(** The composite's fallback is a subscription, whose calls work on the pool. *)
Definition lend (p : ra_pool) (c : CompositeReceiver DHCPv6PDReceiver nat)
    : CompositeReceiver DHCPv6PDReceiver (ra_pool * nat) :=
  mkComposite (c_primary c) (p, c_fallback c) (c_fallback_active c) (c_events c) (c_control c)
    (c_consecutiveFailures c) (c_maxFailures c).

Definition take_back (c : CompositeReceiver DHCPv6PDReceiver (ra_pool * nat))
    : CompositeReceiver DHCPv6PDReceiver nat :=
  mkComposite (c_primary c) (c_fallback c).2 (c_fallback_active c) (c_events c) (c_control c)
    (c_consecutiveFailures c) (c_maxFailures c).

Definition pool_of (c : CompositeReceiver DHCPv6PDReceiver (ra_pool * nat)) : ra_pool := (c_fallback c).1.

(** A call that ran the client's release function handed its interface back. *)
Definition after_release (pd pd' : DHCPv6PDReceiver) (f : DefaultReceiverFactory) : DefaultReceiverFactory :=
  if (pd_releases pd <? pd_releases pd')%nat then releasePDInterface (pd_iface pd) f else f.

(** ** Creating, starting and stopping *)

Definition router_error_of (e : router_error) : error :=
  match e with
  | ErrRouterNotIP v => ErrorfQuoted "trusted router %q is not an IP address" v
  | ErrRouterZone v => ErrorfQuoted "trusted router %q must not carry a zone; the interface is set on the acquisition spec" v
  | ErrRouterNotIPv6 v => ErrorfQuoted "trusted router %q is not an IPv6 address" v
  | ErrRouterNotLinkLocal v =>
      ErrorfQuoted ("trusted router %q is not link-local; " +:+
        "a Router Advertisement is sent from the router's fe80:: address on this link") v
  end.

Fixpoint factory_error_of (e : factory_error) : error :=
  match e with
  | ErrInterfaceBusy iface => errors_New ("interface " +:+ iface +:+
      " already has a DHCPv6-PD client: two clients on one interface send the same DUID and IAID, " +:+
      "so each would overwrite the other's lease. Model one delegation as one DynamicPrefix and give it " +:+
      "several addressRanges or subnets instead")
  | ErrPDInterfaceRequired => errors_New "DHCPv6-PD interface is required"
  | ErrRAInterfaceRequired => errors_New "router advertisement interface is required"
  | ErrTrustedRouters e => router_error_of e
  | ErrNoAcquisition => errors_New "no acquisition method configured"
  | ErrPrimary e => Errorf "failed to create primary DHCPv6-PD receiver" (factory_error_of e)
  | ErrFallback e => Errorf "failed to create fallback RA receiver" (factory_error_of e)
  end.

Definition aq_create (spec : AcquisitionSpec) (w : acquisition) : acquisition * outcome error nat :=
  match CreateReceiver spec (aq_factory w) with
  | (f, Ret r) =>
      let id := fresh_id (aq_receivers w) in (mkAcquired f (<[id := live_of r]> (aq_receivers w)), Ret id)
  | (f, Fail e) => (mkAcquired f (aq_receivers w), Fail (factory_error_of e))
  | (f, Panic) => (mkAcquired f (aq_receivers w), Panic)
  end.

Definition live_start (env : ra_env) (l : live) (f : DefaultReceiverFactory)
    : live * DefaultReceiverFactory * option error :=
  match l with
  | LivePD pd => (LivePD (rStart tt pd).1, f, (rStart tt pd).2)
  | LiveRA sub => let (p, e) := Sub_Start env sub (f_raReceivers f) in (LiveRA sub, set_pool p f, e)
  | LiveComposite c =>
      let (c', e) := Composite_Start (tt, env) (lend (f_raReceivers f) c) in
      (LiveComposite (take_back c'), after_release (c_primary c) (c_primary c') (set_pool (pool_of c') f), e)
  end.

(** [None]: a panic. *)
Definition live_stop (env : ra_env) (l : live) (f : DefaultReceiverFactory)
    : option (live * DefaultReceiverFactory * option error) :=
  match l with
  | LivePD pd => '(pd', e) ← rStop tt pd; Some (LivePD pd', after_release pd pd' f, e)
  | LiveRA sub => '(p, e) ← Sub_Stop env sub (f_raReceivers f); Some (LiveRA sub, set_pool p f, e)
  | LiveComposite c =>
      '(c', e) ← Composite_Stop (tt, env) (lend (f_raReceivers f) c);
      Some (LiveComposite (take_back c'), after_release (c_primary c) (c_primary c') (set_pool (pool_of c') f), e)
  end.

Definition put (id : nat) (l : live) (f : DefaultReceiverFactory) (w : acquisition) : acquisition :=
  mkAcquired f (<[id := l]> (aq_receivers w)).

(** The controller calls these on receivers it got from [aq_create] only. *)
Definition aq_start (env : ra_env) (id : nat) (w : acquisition) : acquisition * option error :=
  match aq_receivers w !! id with
  | None => (w, None)
  | Some l => let '(l', f, e) := live_start env l (aq_factory w) in (put id l' f w, e)
  end.

Definition aq_stop (env : ra_env) (id : nat) (w : acquisition) : option (acquisition * option error) :=
  match aq_receivers w !! id with
  | None => Some (w, None)
  | Some l => '(l', f, e) ← live_stop env l (aq_factory w); Some (put id l' f w, e)
  end.

(** ** What a receiver tells *)

Definition Sub_LastError (sub : nat) (p : ra_pool) : option error :=
  s ← p_subs p !! sub; e ← p_heap p !! s_entry s; LastError (ra_health (e_receiver e)).

Definition Sub_RARejections (sub : nat) (p : ra_pool) : Z * string :=
  match (s ← p_subs p !! sub; p_heap p !! s_entry s) with
  | Some e => RARejections (e_receiver e)
  | None => (0, EmptyString)
  end.

Definition live_prefix (p : ra_pool) (l : live) : option Prefix :=
  match l with
  | LivePD pd => pd_currentPrefix pd
  | LiveRA sub => Sub_CurrentPrefix sub p
  | LiveComposite c => Composite_CurrentPrefix (lend p c)
  end.

Definition live_source (p : ra_pool) (l : live) : Source :=
  match l with
  | LivePD pd => rSource pd
  | LiveRA sub => Sub_Source sub p
  | LiveComposite c => Composite_Source (lend p c)
  end.

Definition live_health (p : ra_pool) (l : live) : option error :=
  match l with
  | LivePD pd => LastError (pd_health pd)
  | LiveRA sub => Sub_LastError sub p
  | LiveComposite c =>
      Composite_LastError (Some (LastError (pd_health (c_primary c)))) (Some (Sub_LastError (c_fallback c) p))
  end.

(** A DHCPv6-PD client has no such method. *)
Definition live_stats (p : ra_pool) (l : live) : option (Z * string) :=
  match l with
  | LivePD _ => None
  | LiveRA sub => Some (Sub_RARejections sub p)
  | LiveComposite c => Some (Composite_RARejections (Some (Sub_RARejections (c_fallback c) p)))
  end.

Definition live_running (p : ra_pool) (l : live) : bool :=
  match l with
  | LivePD pd => started (pd_control pd)
  | LiveRA sub => Sub_Running sub p
  | LiveComposite c => started (c_control c)
  end.

#[export] Instance acquisition_handles : HandleOps ra_env acquisition nat := {
  hCreate := aq_create;
  hStart := aq_start;
  hStop := aq_stop;
  hCurrentPrefix w id := l ← aq_receivers w !! id; live_prefix (aq_pool w) l;
  hSource w id := match aq_receivers w !! id with Some l => live_source (aq_pool w) l | None => SourceUnknown end;
  hHealth w id := live_health (aq_pool w) <$> aq_receivers w !! id;
  hStats w id := l ← aq_receivers w !! id; live_stats (aq_pool w) l;
  hRunning w id := match aq_receivers w !! id with Some l => live_running (aq_pool w) l | None => false end
}.

(** * The invariant *)

(** ** The pool *)

(** An entry's receiver has the policy its key names, and holds what it accepts. *)
Definition entry_keyed (e : sharedRAReceiverEntry RAReceiver) : Prop :=
  ra_inv (ra_policy (e_receiver e)) (e_receiver e) /\
  e_key e = poolKey (e_iface e) (ra_policy (e_receiver e)) /\ routers_ok (ra_policy (e_receiver e)).

Record pool_good (p : ra_pool) : Prop := {
  pg_ok : pool_ok p;
  pg_keyed : forall i e, p_heap p !! i = Some e -> entry_keyed e;
  pg_events : forall sub, (length (Sub_Events sub p) <= event_cap)%nat
}.

(** What the calls on one subscription leave alone: the others, and its own key. *)
Definition pool_moves (own : option nat) (p p' : ra_pool) : Prop :=
  (forall sub, own <> Some sub -> sub_view <$> p_subs p' !! sub = sub_view <$> p_subs p !! sub) /\
  (forall sub, is_Some (p_subs p !! sub) -> s_key <$> p_subs p' !! sub = s_key <$> p_subs p !! sub).

Lemma pool_moves_none own p p' : same_subs p p' -> pool_moves own p p'.
Proof.
  intros Hs. split; [by intros sub _|]. intros sub _. specialize (Hs sub).
  destruct (p_subs p' !! sub) as [x|], (p_subs p !! sub) as [y|]; try done. cbn in *. unfold sub_view in Hs. congruence.
Qed.

Lemma pool_moves_alter b sub (p p' : ra_pool) : p_subs p' = alter (set_flag b) sub (p_subs p) ->
  pool_moves (Some sub) p p'.
Proof.
  intros E. split; intros i; rewrite E.
  - intros Hne. by rewrite lookup_alter_ne by congruence.
  - intros _. destruct (decide (sub = i)) as [<-|]; [|by rewrite lookup_alter_ne].
    rewrite lookup_alter_eq. by destruct (p_subs p !! sub).
Qed.

Lemma Sub_Running_view sub (p p' : ra_pool) : sub_view <$> p_subs p' !! sub = sub_view <$> p_subs p !! sub ->
  Sub_Running sub p' = Sub_Running sub p /\ (is_Some (p_subs p' !! sub) <-> is_Some (p_subs p !! sub)).
Proof.
  unfold Sub_Running, sub_view. destruct (p_subs p' !! sub), (p_subs p !! sub); cbn; intros H; try done.
  injection H as _ _ ->. split; [done|]. by split.
Qed.

Lemma entry_keyed_from e e' : entry_keyed e -> entry_from e e' -> entry_keyed e'.
Proof.
  intros (Hinv & Hk & Hr) (Ei & Ek & Hrec).
  assert (ra_inv (ra_policy (e_receiver e)) (e_receiver e')) as Hinv'.
  { destruct Hrec as [->|[(env & ->)|(env & r & err & Hs & ->)]]; [done|..].
    - destruct (ra_step_inv _ 0 (InStart env) _ I Hinv) as (r' & [= <-] & ?). done.
    - destruct (ra_step_inv _ 0 (InStop env) _ I Hinv) as (r' & Hs' & ?). cbn in Hs, Hs'. rewrite Hs in Hs'.
      by injection Hs' as <-. }
  pose proof Hinv' as (_ & _ & Hp & _). unfold entry_keyed. rewrite Hp. split; [done|]. by rewrite Ei, Ek.
Qed.

Lemma heap_from_keyed (p p' : ra_pool) : (forall i e, p_heap p !! i = Some e -> entry_keyed e) -> heap_from p p' ->
  forall i e, p_heap p' !! i = Some e -> entry_keyed e.
Proof. intros H Hf i e' He'. destruct (Hf i e' He') as (e & He & Hfrom). by eapply entry_keyed_from; [eapply H|]. Qed.

Lemma alter_events b sub (p p' : ra_pool) i : p_subs p' = alter (set_flag b) sub (p_subs p) ->
  Sub_Events i p' = Sub_Events i p.
Proof.
  intros E. unfold Sub_Events. rewrite E. destruct (decide (sub = i)) as [<-|]; [|by rewrite lookup_alter_ne].
  rewrite lookup_alter_eq. by destruct (p_subs p !! sub).
Qed.

Lemma alter_running b sub (p p' : ra_pool) : p_subs p' = alter (set_flag b) sub (p_subs p) ->
  is_Some (p_subs p !! sub) -> Sub_Running sub p' = b.
Proof. intros E [s Hs]. unfold Sub_Running. by rewrite E, lookup_alter_eq, Hs. Qed.

Lemma alter_known b sub (p p' : ra_pool) i : p_subs p' = alter (set_flag b) sub (p_subs p) ->
  is_Some (p_subs p !! i) -> is_Some (p_subs p' !! i).
Proof. intros E. by rewrite E, lookup_alter_is_Some. Qed.

Lemma Sub_Start_good env sub (p : ra_pool) : pool_good p -> is_Some (p_subs p !! sub) ->
  let r := Sub_Start env sub p in
  pool_good r.1 /\ pool_moves (Some sub) p r.1 /\ is_Some (p_subs r.1 !! sub) /\ Sub_Running sub r.1 = bool_decide (r.2 = None).
Proof.
  intros [Hok Hk He] Hs r. destruct (start_ok env sub p Hok) as [Hok' E]. fold r in Hok', E.
  split; [split; [done| |]|].
  - eapply heap_from_keyed; [exact Hk|apply start_heap].
  - intros i. by rewrite (alter_events _ _ _ _ i E).
  - split; [by eapply pool_moves_alter|]. split; [by eapply alter_known|by eapply alter_running].
Qed.

Lemma Sub_Stop_good env sub (p : ra_pool) : pool_good p -> is_Some (p_subs p !! sub) ->
  exists p' e, Sub_Stop env sub p = Some (p', e) /\ pool_good p' /\ pool_moves (Some sub) p p' /\
    is_Some (p_subs p' !! sub) /\ Sub_Running sub p' = false.
Proof.
  intros [Hok Hk He] Hs. destruct (stop_ok env sub p Hok) as (p' & e & Hstop & Hok' & E).
  exists p', e. split; [done|]. split; [split; [done| |]|].
  - eapply heap_from_keyed; [exact Hk|by eapply stop_heap].
  - intros i. by rewrite (alter_events _ _ _ _ i E).
  - split; [by eapply pool_moves_alter|]. split; [by eapply alter_known|by eapply alter_running].
Qed.

Lemma newRA_ok f iface pol : rOk (newRAReceiver f iface pol) /\ rRunning (newRAReceiver f iface pol) = false.
Proof. split; [|done]. apply (new_ra_inv iface pol (f_onRAReject f)). Qed.

Lemma subscribe_good f iface pol (p : ra_pool) : pool_good p -> routers_ok pol ->
  let r := subscribe (newRAReceiver f) iface pol p in
  pool_good r.1 /\ p_subs p !! r.2 = None /\ pool_moves (Some r.2) p r.1 /\
  is_Some (p_subs r.1 !! r.2) /\ Sub_Running r.2 r.1 = false /\ s_key <$> p_subs r.1 !! r.2 = Some (poolKey iface pol).
Proof.
  intros [Hok Hk He] Hro r. destruct (subscribe_subs (newRAReceiver f) iface pol p) as (Hn & s & Hs & Hst & Hev).
  fold r in Hn, Hs. split; [split|].
  - apply subscribe_ok; [intros; apply newRA_ok|done].
  - intros i e H. apply subscribe_heap in H as [?| ->]; [by eapply Hk|].
    split; [apply new_ra_inv|]. by split.
  - intros i. unfold Sub_Events. rewrite Hs. destruct (decide (r.2 = i)) as [<-|Hne].
    + rewrite lookup_insert_eq, Hev. cbn. lia.
    + rewrite lookup_insert_ne by done. apply He.
  - split; [done|]. split; [split|].
    + intros i Hne. by rewrite Hs, lookup_insert_ne by congruence.
    + intros i [x Hx]. rewrite Hs, lookup_insert_ne; [done|]. intros <-. congruence.
    + split; [rewrite Hs, lookup_insert_eq; by eexists|].
      split; [unfold Sub_Running; by rewrite Hs, lookup_insert_eq|apply subscribe_key].
Qed.

(** ** The receivers *)

Definition client_ok (pd : DHCPv6PDReceiver) : Prop :=
  (exists pol, pd_inv pol pd) /\ (started (pd_control pd) = true -> pd_releaseOnce pd = false).

(** The parts of a composite run together. *)
Definition live_ok (p : ra_pool) (l : live) : Prop :=
  (forall pd, client_of l = Some pd -> client_ok pd) /\
  (forall sub, sub_of l = Some sub -> is_Some (p_subs p !! sub)) /\
  match l with
  | LiveComposite c =>
      control_ok (c_control c) /\ (length (c_events c) <= event_cap)%nat /\
      started (pd_control (c_primary c)) = started (c_control c) /\
      Sub_Running (c_fallback c) p = started (c_control c)
  | _ => True
  end.

Definition live_idle (p : ra_pool) (l : live) : Prop :=
  live_running p l = false /\ forall pd, client_of l = Some pd -> pd_releaseOnce pd = true.

Definition live_fresh (p : ra_pool) (l : live) : Prop :=
  live_running p l = false /\ forall pd, client_of l = Some pd -> pd_releaseOnce pd = false.

Definition sub_key (p : ra_pool) (sub : nat) : option string := s_key <$> p_subs p !! sub.

Definition client_for (spec : AcquisitionSpec) (pd : DHCPv6PDReceiver) : Prop :=
  (exists pds, acq_DHCPv6PD spec = Some pds /\ pd_iface pd = pds_Interface pds) /\ pd_policy pd = policyFromSpec spec.

Definition sub_for (spec : AcquisitionSpec) (p : ra_pool) (sub : nat) : Prop :=
  exists ras pol, acq_RouterAdvertisement spec = Some ras /\ raPolicyFromSpec spec = Ret pol /\
    sub_key p sub = Some (poolKey (ras_Interface ras) pol).

(** The receiver is of the kind its spec asks for, on its interfaces, with its
    policy. *)
Definition made_for (p : ra_pool) (l : live) (spec : AcquisitionSpec) : Prop :=
  (is_Some (client_of l) <-> is_Some (acq_DHCPv6PD spec)) /\
  (is_Some (sub_of l) <-> RAEnabled (acq_RouterAdvertisement spec) = true) /\
  (forall pd, client_of l = Some pd -> client_for spec pd) /\
  (forall sub, sub_of l = Some sub -> sub_for spec p sub).

Record acquisition_ok (w : acquisition) : Prop := {
  ac_pool : pool_good (aq_pool w);
  ac_world : world_ok (mkWorld (aq_factory w) (receiver_of <$> aq_receivers w));
  ac_live : forall id l, aq_receivers w !! id = Some l -> live_ok (aq_pool w) l;
  ac_owner : forall sub, Sub_Running sub (aq_pool w) = true ->
    exists id l, aq_receivers w !! id = Some l /\ sub_of l = Some sub;
  ac_one : forall id1 id2 l1 l2 sub, aq_receivers w !! id1 = Some l1 -> aq_receivers w !! id2 = Some l2 ->
    sub_of l1 = Some sub -> sub_of l2 = Some sub -> id1 = id2
}.

#[export] Instance acquisition_view : HandleView acquisition nat := {
  hOk := acquisition_ok;
  hKnown w id := is_Some (aq_receivers w !! id);
  hFresh w id := exists l, aq_receivers w !! id = Some l /\ live_fresh (aq_pool w) l;
  hIdle w id := exists l, aq_receivers w !! id = Some l /\ live_idle (aq_pool w) l;
  hMade w id spec := exists l, aq_receivers w !! id = Some l /\ made_for (aq_pool w) l spec
}.

(** Receivers see of the pool their own subscription only. *)
Lemma live_moves own p p' l : pool_moves own p p' -> (sub_of l = None \/ sub_of l <> own) ->
  (live_ok p l -> live_ok p' l) /\ live_running p' l = live_running p l /\
  (live_idle p l <-> live_idle p' l) /\ (forall spec, live_ok p l -> made_for p l spec -> made_for p' l spec).
Proof.
  intros [Hv Hk] Hne.
  assert (forall sub, sub_of l = Some sub -> Sub_Running sub p' = Sub_Running sub p /\
      (is_Some (p_subs p' !! sub) <-> is_Some (p_subs p !! sub))) as Hsame.
  { intros sub Hs. apply Sub_Running_view, Hv. destruct Hne; congruence. }
  assert (live_running p' l = live_running p l) as Hrun.
  { destruct l as [pd|sub|c]; [done| |done]. by apply Hsame. }
  split; [|split; [done|split]].
  - intros (Hc & Hs & Hl). split; [done|]. split.
    + intros sub Hsub. by apply (Hsame sub Hsub), Hs.
    + destruct l as [pd|sub|c]; [done..|]. by rewrite (proj1 (Hsame (c_fallback c) eq_refl)).
  - unfold live_idle. by rewrite Hrun.
  - intros spec (_ & Hs & _) (H1 & H2 & H3 & H4). split; [done|]. split; [done|]. split; [done|].
    intros sub Hsub. destruct (H4 sub Hsub) as (ras & pol & ? & ? & Hkey). exists ras, pol. do 2 (split; [done|]).
    unfold sub_key in *. rewrite Hk; [done|]. by apply Hs.
Qed.

Lemma fresh_id_fmap {A B} (f : A -> B) (m : gmap nat A) : fresh_id (f <$> m) = fresh_id m.
Proof. unfold fresh_id. by rewrite dom_fmap_L. Qed.

(** The factory's invariant looks at the claims only. *)
Lemma world_claims f f' rs : f_pdInterfaces f' = f_pdInterfaces f -> world_ok (mkWorld f rs) -> world_ok (mkWorld f' rs).
Proof. intros E [H1 H2 H3]. split; cbn in *; [done| |done]. intros iface. by rewrite E. Qed.

(** A call on receiver [id] left it as [l]. *)
Lemma put_ok w id l0 l f : acquisition_ok w -> aq_receivers w !! id = Some l0 -> sub_of l = sub_of l0 ->
  pool_good (f_raReceivers f) -> pool_moves (sub_of l0) (aq_pool w) (f_raReceivers f) ->
  live_ok (f_raReceivers f) l -> world_ok (mkWorld f (<[id := receiver_of l]> (receiver_of <$> aq_receivers w))) ->
  acquisition_ok (put id l f w) /\ kept (Some id) w (put id l f w).
Proof.
  intros [H1 H2 H3 H4 H5] Hl0 Hsub Hp Hm Hl Hw.
  assert (forall id' l', id' <> id -> aq_receivers w !! id' = Some l' -> sub_of l' = None \/ sub_of l' <> sub_of l0) as Hother.
  { intros id' l' Hne Hl'. destruct (sub_of l') as [sub|] eqn:Es; [right|by left]. intros E. apply Hne. eapply H5; [exact Hl'|exact Hl0|exact Es|done]. }
  assert (forall id' l', aq_receivers (put id l f w) !! id' = Some l' ->
    (id' = id /\ l' = l) \/ (id' <> id /\ aq_receivers w !! id' = Some l')) as Hback.
  { intros id' l'. cbn. intros [[<- <-]|[? ?]]%lookup_insert_Some; [by left|right]. by split. }
  assert (forall id' l', aq_receivers (put id l f w) !! id' = Some l' ->
    exists l1, aq_receivers w !! id' = Some l1 /\ sub_of l' = sub_of l1) as Hsubs.
  { intros id' l' H. destruct (Hback id' l' H) as [[-> ->]|[_ ?]]; [by exists l0|by exists l']. }
  split; [split|].
  - done.
  - cbn. by rewrite fmap_insert.
  - intros id' l' H. destruct (Hback id' l' H) as [[-> ->]|[Hne Hl']]; [done|].
    apply (live_moves _ _ _ l' Hm (Hother _ _ Hne Hl')). by eapply H3.
  - intros sub Hrun. destruct (decide (sub_of l0 = Some sub)) as [E|Hne].
    + exists id, l. split; [apply lookup_insert_eq|congruence].
    + destruct Hm as [Hv _]. change (aq_pool (put id l f w)) with (f_raReceivers f) in Hrun. rewrite (proj1 (Sub_Running_view sub _ _ (Hv sub Hne))) in Hrun.
      destruct (H4 sub Hrun) as (id' & l' & Hl' & Hs'). exists id', l'. split; [|done].
      cbn. rewrite lookup_insert_ne; [done|]. intros <-. congruence.
  - intros id1 id2 l1 l2 sub Hl1 Hl2 Hs1 Hs2. destruct (Hsubs _ _ Hl1) as (a & Ha & Ea). destruct (Hsubs _ _ Hl2) as (b & Hb & Eb).
    eapply (H5 id1 id2 a b sub); congruence.
  - intros id' Hne. assert (id' <> id) as Hne' by congruence.
    cbn [hKnown hRunning hIdle hMade acquisition_view acquisition_handles put aq_receivers aq_pool aq_factory].
    rewrite lookup_insert_ne by done. split; [done|]. intros [l' Hl']. rewrite Hl'.
    destruct (live_moves _ _ _ l' Hm (Hother _ _ Hne' Hl')) as (_ & Hr & Hi & Hmade). split; [done|]. split.
    + split; intros (x & [= <-] & Hx); exists l'; (split; [done|]); by apply Hi.
    + intros spec (x & [= <-] & Hx). exists l'. split; [done|]. apply Hmade; [by eapply H3|done].
Qed.

(** ** Creating *)

Lemma raPolicy_routers spec pol : raPolicyFromSpec spec = Ret pol -> routers_ok pol.
Proof.
  unfold raPolicyFromSpec. destruct (acq_RouterAdvertisement spec) as [ras|]; [|by intros [= <-]; constructor].
  destruct (ParseTrustedRouters (ras_TrustedRouters ras)) as [rs| |] eqn:E; [|done..]. intros [= <-].
  unfold ParseTrustedRouters in E. destruct (_ =? 0)%nat; [injection E as <-; constructor|].
  apply omap_all_ret in E. unfold routers_ok. cbn. clear -E. induction E; constructor; [by eapply parseTrustedRouter_ok|done].
Qed.

Lemma createPD_pool pds policy f :
  match createDHCPv6PDReceiver pds policy f with
  | (f', Ret pd) => f_raReceivers f' = f_raReceivers f /\ pd_inv policy pd /\ started (pd_control pd) = false /\
      pd_iface pd = pds_Interface pds
  | (f', _) => f_raReceivers f' = f_raReceivers f
  end.
Proof.
  unfold createDHCPv6PDReceiver, claimPDInterface. case_decide; [done|]. case_decide; [done|].
  set (len := match pds_RequestedPrefixLength pds with Some n => n | None => 56 end).
  split; [done|]. destruct (new_pd_inv (pds_Interface pds) len policy) as (? & [? ?] & ?). by repeat split.
Qed.

(** A new subscription, for its spec. *)
Definition subscribed (spec : AcquisitionSpec) (p p' : ra_pool) (sub : nat) : Prop :=
  pool_good p' /\ p_subs p !! sub = None /\ pool_moves (Some sub) p p' /\ is_Some (p_subs p' !! sub) /\
  Sub_Running sub p' = false /\ sub_for spec p' sub.

Lemma createRA_pool spec ras pol f : pool_good (f_raReceivers f) ->
  acq_RouterAdvertisement spec = Some ras -> raPolicyFromSpec spec = Ret pol ->
  match createRAReceiver ras pol f with
  | (f', Ret sub) => subscribed spec (f_raReceivers f) (f_raReceivers f') sub
  | (f', _) => f_raReceivers f' = f_raReceivers f
  end.
Proof.
  intros Hg Hra Hpol. unfold createRAReceiver. case_decide; [done|].
  destruct (subscribe_good f (ras_Interface ras) pol (f_raReceivers f) Hg (raPolicy_routers _ _ Hpol)) as (H1 & H2 & H3 & H4 & H5 & H6).
  destruct (subscribe _ _ _ _) as [p sub]. cbn [fst snd] in *. do 5 (split; [done|]). by exists ras, pol.
Qed.

Definition created (spec : AcquisitionSpec) (p p' : ra_pool) (l : live) : Prop :=
  pool_good p' /\ pool_moves (sub_of l) p p' /\ made_for p' l spec /\
  (forall sub, sub_of l = Some sub -> p_subs p !! sub = None /\ is_Some (p_subs p' !! sub) /\ Sub_Running sub p' = false) /\
  (forall pd, client_of l = Some pd -> (exists pol, pd_inv pol pd) /\ started (pd_control pd) = false).

Lemma release_once_pool pd f : f_raReceivers (release_once pd f).1 = f_raReceivers f.
Proof. unfold release_once. by destruct (_ <? _)%nat. Qed.

Lemma CreateReceiver_pool spec f : pool_good (f_raReceivers f) ->
  match CreateReceiver spec f with
  | (f', Ret r) => created spec (f_raReceivers f) (f_raReceivers f') (live_of r)
  | (f', _) => f_raReceivers f' = f_raReceivers f
  end.
Proof.
  intros Hg. unfold CreateReceiver.
  assert (forall pds, acq_DHCPv6PD spec = Some pds -> RAEnabled (acq_RouterAdvertisement spec) = false ->
    match createDHCPv6PDReceiver pds (policyFromSpec spec) f with
    | (f', Ret r) => created spec (f_raReceivers f) (f_raReceivers f') (live_of (RcvPD r))
    | (f', _) => f_raReceivers f' = f_raReceivers f
    end) as Hpd.
  { intros pds Hs Hra. pose proof (createPD_pool pds (policyFromSpec spec) f) as H.
    destruct (createDHCPv6PDReceiver _ _ _) as [f' [pd|e|]]; [|done..]. destruct H as (-> & Hinv & Hst & Hi).
    split; [done|]. split; [by apply pool_moves_none|]. split; [|split; [done|]].
    - unfold made_for. rewrite Hs, Hra. split; [by split|]. split; [split; [by intros [? ?]|done]|]. split; [|done].
      intros pd' [= <-]. split; [by exists pds|]. by destruct Hinv as (-> & _).
    - intros pd' [= <-]. by split; [eexists|]. }
  destruct (acq_DHCPv6PD spec) as [pds|] eqn:Hs, (acq_RouterAdvertisement spec) as [ras|] eqn:Hra.
  - destruct (RAEnabled (Some ras)) eqn:Hen.
    + unfold createCompositeReceiver. pose proof (raPolicy_no_panic spec) as Hnp.
      destruct (raPolicyFromSpec spec) as [pol|e|] eqn:Hpol; [|done|done].
      pose proof (createPD_pool pds (base_policy pol) f) as H1.
      destruct (createDHCPv6PDReceiver _ _ _) as [f1 [pd|e|]]; [|done..]. destruct H1 as (E1 & Hinv & Hst & Hi).
      pose proof (createRA_pool spec ras pol f1) as H2. rewrite E1 in H2. specialize (H2 Hg Hra Hpol).
      destruct (createRAReceiver _ _ _) as [f2 [sub|e|]]; [|by rewrite release_once_pool|done].
      destruct H2 as (G1 & G2 & G3 & G4 & G5 & G6). split; [done|]. split; [done|]. split; [|split].
      * unfold made_for. rewrite Hs, Hra, Hen. split; [done|]. split; [done|]. split; [|by intros ? [= <-]].
        intros pd' [= <-]. split; [by exists pds|]. destruct Hinv as (-> & _).
        destruct (choke_point_policy spec) as [<- Hb]. by apply Hb.
      * by intros ? [= <-].
      * intros ? [= <-]. by split; [eexists|].
    + specialize (Hpd pds eq_refl eq_refl). by destruct (createDHCPv6PDReceiver _ _ _) as [f' [pd|e|]].
  - specialize (Hpd pds eq_refl eq_refl). by destruct (createDHCPv6PDReceiver _ _ _) as [f' [pd|e|]].
  - destruct (RAEnabled (Some ras)) eqn:Hen; [|done]. pose proof (raPolicy_no_panic spec) as Hnp.
    destruct (raPolicyFromSpec spec) as [pol|e|] eqn:Hpol; [|done|done].
    pose proof (createRA_pool spec ras pol f Hg Hra Hpol) as H2.
    destruct (createRAReceiver _ _ _) as [f2 [sub|e|]]; [|done..].
    destruct H2 as (G1 & G2 & G3 & G4 & G5 & G6). split; [done|]. split; [done|]. split; [|split].
    + unfold made_for. rewrite Hs, Hra, Hen. split; [by split; intros [? ?]|]. split; [done|]. split; [done|by intros ? [= <-]].
    + by intros ? [= <-].
    + done.
  - done.
Qed.

Lemma fresh_insert_ok w spec f r : acquisition_ok w -> CreateReceiver spec (aq_factory w) = (f, Ret r) ->
  let id := fresh_id (aq_receivers w) in
  let w' := mkAcquired f (<[id := live_of r]> (aq_receivers w)) in
  acquisition_ok w' /\ kept (Some id) w w' /\ live_fresh (aq_pool w') (live_of r) /\ made_for (aq_pool w') (live_of r) spec.
Proof.
  intros Hok Hc id w'. pose proof (CreateReceiver_pool spec (aq_factory w) (ac_pool w Hok)) as H. rewrite Hc in H.
  pose proof (create_ok _ spec f r (ac_world w Hok) Hc) as Hw. cbn in Hw. rewrite fresh_id_fmap in Hw. fold id in Hw.
  pose proof (CreateReceiver_claims spec (aq_factory w)) as Hcl. rewrite Hc in Hcl.
  destruct H as (Hg & Hm & Hmade & Hsub & Hpd). destruct Hok as [H1 H2 H3 H4 H5].
  pose proof (fresh_id_none (aq_receivers w)) as Hn. fold id in Hn. set (l := live_of r) in *.
  assert (receiver_of l = r) as Er by by destruct r.
  assert (forall id' l' sub, aq_receivers w !! id' = Some l' -> sub_of l' = Some sub -> sub_of l <> Some sub) as Hnew.
  { intros id' l' sub Hl' Hs E. destruct (Hsub sub E) as (Hno & _). destruct (H3 id' l' Hl') as (_ & Hsome & _).
    destruct (Hsome sub Hs). unfold aq_pool in *. congruence. }
  assert (forall id' l', aq_receivers w !! id' = Some l' -> sub_of l' = None \/ sub_of l' <> sub_of l) as Hother.
  { intros id' l' Hl'. destruct (sub_of l') as [sub|] eqn:Es; [right|by left]. intros E. by apply (Hnew id' l' sub). }
  assert (live_running (f_raReceivers f) l = false) as Hrun.
  { destruct r as [pd|sub|pd sub]; cbn; [by apply Hpd|by apply Hsub|done]. }
  assert (forall pd, client_of l = Some pd -> pd_releaseOnce pd = false) as Hfree.
  { intros pd E. unfold client_of in E. rewrite Er in E. unfold claims_change in Hcl. rewrite E in Hcl.
    destruct (acq_DHCPv6PD spec); [|done]. by destruct Hcl as (_ & _ & _ & _ & _ & ? & _). }
  assert (live_ok (f_raReceivers f) l) as Hlok.
  { split; [|split].
    - intros pd E. destruct (Hpd pd E) as [Hinv Hst]. split; [done|congruence].
    - intros sub E. by apply Hsub.
    - destruct r as [pd|sub|pd sub]; [done..|]. cbn. split; [done|]. split; [lia|].
      split; [by apply Hpd|by apply Hsub]. }
  split; [split|split; [|by split]].
  - done.
  - cbn. by rewrite fmap_insert, Er.
  - intros id' l'. cbn. intros [[<- <-]|[Hne Hl']]%lookup_insert_Some; [done|].
    apply (live_moves _ _ _ l' Hm (Hother _ _ Hl')). by eapply H3.
  - intros sub Hr. change (aq_pool w') with (f_raReceivers f) in Hr.
    destruct (decide (sub_of l = Some sub)) as [E|Hne].
    + exists id, l. by split; [apply lookup_insert_eq|].
    + destruct Hm as [Hv _]. rewrite (proj1 (Sub_Running_view sub _ _ (Hv sub Hne))) in Hr.
      destruct (H4 sub Hr) as (id' & l' & Hl' & Hs'). exists id', l'. split; [|done].
      cbn. rewrite lookup_insert_ne; [done|]. intros <-. congruence.
  - intros id1 id2 l1 l2 sub. cbn. intros [[<- <-]|[Hn1 Hl1]]%lookup_insert_Some [[<- <-]|[Hn2 Hl2]]%lookup_insert_Some Hs1 Hs2.
    + done.
    + by destruct (Hnew _ _ _ Hl2 Hs2).
    + by destruct (Hnew _ _ _ Hl1 Hs1).
    + by eapply H5.
  - intros id' Hne. assert (id <> id') as Hne' by congruence.
    cbn [hKnown hRunning hIdle hMade acquisition_view acquisition_handles aq_receivers aq_pool aq_factory w'].
    rewrite lookup_insert_ne by done. split; [done|]. intros [l' Hl']. rewrite Hl'.
    destruct (live_moves _ _ _ l' Hm (Hother _ _ Hl')) as (_ & Hr & Hi & Hmd). split; [done|]. split.
    + split; intros (x & [= <-] & Hx); exists l'; (split; [done|]); by apply Hi.
    + intros s (x & [= <-] & Hx). exists l'. split; [done|]. apply Hmd; [by eapply H3|done].
Qed.

(** Nothing of the pool and of the claims has changed. *)
Lemma same_factory_ok w f : acquisition_ok w -> f_raReceivers f = aq_pool w ->
  f_pdInterfaces f = f_pdInterfaces (aq_factory w) ->
  acquisition_ok (mkAcquired f (aq_receivers w)) /\ kept None w (mkAcquired f (aq_receivers w)).
Proof.
  intros [H1 H2 H3 H4 H5] Ep Ec. split; [split; unfold aq_pool; cbn; rewrite ?Ep; try done|].
  - by eapply world_claims.
  - intros id _. change (aq_pool w) with (f_raReceivers (aq_factory w)) in Ep. cbn. unfold aq_pool. cbn. rewrite Ep.
    split; [done|]. by split.
Qed.

(** ** Calls on a receiver *)

Definition same_client (l l' : live) : Prop :=
  match client_of l, client_of l' with
  | Some pd, Some pd' => pd_iface pd' = pd_iface pd /\ pd_policy pd' = pd_policy pd
  | None, None => True
  | _, _ => False
  end.

(** What every call does: [l] has become [l'], the factory [f]. *)
Record called (w : acquisition) (id : nat) (l l' : live) (f : DefaultReceiverFactory) : Prop := {
  ca_sub : sub_of l' = sub_of l;
  ca_client : same_client l l';
  ca_pool : pool_good (f_raReceivers f);
  ca_moves : pool_moves (sub_of l) (aq_pool w) (f_raReceivers f);
  ca_live : live_ok (f_raReceivers f) l';
  ca_world : world_ok (mkWorld f (<[id := receiver_of l']> (receiver_of <$> aq_receivers w)))
}.

Lemma called_ok w id l l' f : acquisition_ok w -> aq_receivers w !! id = Some l -> called w id l l' f ->
  acquisition_ok (put id l' f w) /\ kept (Some id) w (put id l' f w) /\
  forall spec, made_for (aq_pool w) l spec -> made_for (f_raReceivers f) l' spec.
Proof.
  intros Hok Hl [Hs Hc Hp Hm Hlok Hw]. destruct (put_ok w id l l' f) as [H1 H2]; [done..|].
  split; [done|]. split; [done|]. intros spec (M1 & M2 & M3 & M4). unfold made_for. rewrite Hs.
  unfold same_client in Hc. destruct (ac_live w Hok id l Hl) as (_ & Hk & _).
  split; [|split; [done|split]].
  - rewrite <- M1. destruct (client_of l), (client_of l'); done.
  - intros pd Hpd. rewrite Hpd in Hc. destruct (client_of l) as [pd0|]; [|done].
    destruct (M3 pd0 eq_refl) as [(pds & ? & ?) ?]. destruct Hc as [E1 E2]. split; [exists pds; split; congruence|congruence].
  - intros sub Hsub. destruct (M4 sub Hsub) as (ras & pol & ? & ? & Hkey). exists ras, pol. do 2 (split; [done|]).
    unfold sub_key in *. destruct Hm as [_ Hm]. rewrite Hm; [done|]. by apply Hk.
Qed.

Lemma start_client pd : client_ok pd -> pd_releaseOnce pd = false ->
  client_ok (PD_Start pd) /\ started (pd_control (PD_Start pd)) = true /\ pd_releaseOnce (PD_Start pd) = false /\
  pd_iface (PD_Start pd) = pd_iface pd /\ pd_policy (PD_Start pd) = pd_policy pd /\ pd_releases (PD_Start pd) = pd_releases pd.
Proof.
  intros [(pol & Hp & Hok & Hl) _] Ho.
  pose proof (@law_start_ok _ _ _ DHCPv6PDReceiver_laws tt pd Hok) as Hok'. cbn in Hok'.
  assert (started (pd_control (PD_Start pd)) = true /\ pd_policy (PD_Start pd) = pd_policy pd /\
    pd_releaseOnce (PD_Start pd) = pd_releaseOnce pd /\ pd_iface (PD_Start pd) = pd_iface pd /\
    pd_lease (PD_Start pd) = pd_lease pd /\ pd_currentPrefix (PD_Start pd) = pd_currentPrefix pd /\
    pd_releases (PD_Start pd) = pd_releases pd) as (E1 & E2 & E3 & E4 & E5 & E6 & E7).
  { unfold PD_Start. by destruct (started (pd_control pd)) eqn:E. }
  unfold client_ok, pd_inv. rewrite E1, E2, E3, E4, E5, E6, E7. split; [|done]. split; [|done]. by exists pol.
Qed.

Lemma stop_client f rs id r pd : world_ok (mkWorld f rs) -> rs !! id = Some r -> pd_of r = Some pd -> client_ok pd ->
  exists pd', PD_Stop pd = Some pd' /\ client_ok pd' /\ started (pd_control pd') = false /\ pd_releaseOnce pd' = true /\
    pd_iface pd' = pd_iface pd /\ pd_policy pd' = pd_policy pd /\
    world_ok (mkWorld (after_release pd pd' f) (<[id := with_pd pd' r]> rs)).
Proof.
  intros Hw Hr Hpd [(pol & Hp & Hok & Hl) _]. destruct (w_pd_ok _ Hw _ _ _ Hr Hpd) as (_ & Hri & Hrel).
  destruct (stop_world_ok _ _ _ _ Hw Hr Hpd) as (f' & pd' & Hs & Hw').
  destruct (stop_pd_cases pd f Hok Hri Hrel) as (pd2 & Hs2 & Hok2 & Hri2 & Ho2 & Hrel2 & Hi2). cbn [w_factory] in Hs.
  rewrite Hs in Hs2. injection Hs2 as _ <-. unfold stop_pd in Hs.
  destruct (PD_Stop_ok pd Hok) as (k & Hst & Hk & Hks). rewrite Hst in Hs. cbn in Hs. injection Hs as <- <-.
  eexists. split; [exact Hst|]. destruct (releaseClaimedInterface_fields pd) as (_ & _ & E1 & E2 & E3).
  split; [split; [exists pol|cbn; congruence]|].
  - split; [cbn; congruence|]. split; [done|]. cbn. by rewrite E2, E3.
  - split; [done|]. split; [done|]. split; [done|]. split; [done|]. exact Hw'.
Qed.

Lemma sub_live_ok p sub : is_Some (p_subs p !! sub) -> live_ok p (LiveRA sub).
Proof. intros H. split; [done|]. split; [by intros ? [= <-]|done]. Qed.

Lemma client_live_ok p pd : client_ok pd -> live_ok p (LivePD pd).
Proof. intros H. split; [by intros ? [= <-]|]. by split. Qed.

Lemma composite_live_ok p c : client_ok (c_primary c) -> is_Some (p_subs p !! c_fallback c) ->
  control_ok (c_control c) -> (length (c_events c) <= event_cap)%nat ->
  started (pd_control (c_primary c)) = started (c_control c) -> Sub_Running (c_fallback c) p = started (c_control c) ->
  live_ok p (LiveComposite c).
Proof. intros. split; [by intros ? [= <-]|]. split; [by intros ? [= <-]|done]. Qed.

Lemma receivers_lookup w id l : aq_receivers w !! id = Some l ->
  (receiver_of <$> aq_receivers w) !! id = Some (receiver_of l).
Proof. intros Hl. by rewrite lookup_fmap, Hl. Qed.

(** A subscription was started or stopped; the claims are as before. *)
Lemma sub_world w id sub p : acquisition_ok w -> aq_receivers w !! id = Some (LiveRA sub) ->
  world_ok (mkWorld (set_pool p (aq_factory w)) (<[id := RcvRA sub]> (receiver_of <$> aq_receivers w))).
Proof.
  intros Hok Hl. rewrite insert_id by by apply (receivers_lookup w id (LiveRA sub)). apply (world_claims (aq_factory w)); [done|apply Hok].
Qed.

(** ** Starting *)

Lemma set_pool_raReceivers p f : f_raReceivers (set_pool p f) = p.
Proof. done. Qed.

Lemma after_release_pool pd pd' f : f_raReceivers (after_release pd pd' f) = f_raReceivers f.
Proof. unfold after_release. by destruct (_ <? _)%nat. Qed.

Lemma insert_client w id l pd : aq_receivers w !! id = Some l -> client_of l = Some pd ->
  (receiver_of <$> aq_receivers w) !! id = Some (receiver_of l) /\ pd_of (receiver_of l) = Some pd.
Proof. intros Hl Hpd. split; [by apply receivers_lookup|done]. Qed.

(** The claims part of starting a receiver's client. *)
Lemma start_client_world w id l pd p : acquisition_ok w -> aq_receivers w !! id = Some l -> client_of l = Some pd ->
  world_ok (mkWorld (set_pool p (aq_factory w)) (<[id := with_pd (PD_Start pd) (receiver_of l)]> (receiver_of <$> aq_receivers w))).
Proof.
  intros Hok Hl Hpd. destruct (insert_client w id l pd Hl Hpd) as [Hr Hp].
  apply (world_claims (aq_factory w)); [done|]. by apply (start_world_ok _ _ _ _ (ac_world w Hok)).
Qed.

Definition start_post (w : acquisition) (id : nat) (l : live) (res : live * DefaultReceiverFactory * option error) : Prop :=
  let '(l', f, e) := res in
  called w id l l' f /\
  match e with None => live_running (f_raReceivers f) l' = true | Some _ => live_idle (f_raReceivers f) l' end.

Lemma start_composite env w id c : acquisition_ok w -> aq_receivers w !! id = Some (LiveComposite c) ->
  live_fresh (aq_pool w) (LiveComposite c) -> start_post w id (LiveComposite c) (live_start env (LiveComposite c) (aq_factory w)).
Proof.
  intros Hok Hl [Hrun Hfree]. cbn [live_running] in Hrun. pose proof (ac_live w Hok id _ Hl) as (Hc & Hs & Hk & Hcap & Hsync & Hsub).
  destruct (start_client (c_primary c) (Hc _ eq_refl) (Hfree _ eq_refl)) as (Hpd' & Hst & Ho & Ei & Ep & Er).
  pose proof (start_client_world w id _ _ (Sub_Start env (c_fallback c) (aq_pool w)).1 Hok Hl eq_refl) as Hw.
  pose proof (Sub_Start_good env (c_fallback c) (aq_pool w) (ac_pool w Hok) (Hs _ eq_refl)) as (Hg & Hm & Hk' & Hr').
  assert (live_ctx (c_control c) = 0%nat) as Hlive by (unfold control_ok in Hk; by rewrite Hrun in Hk).
  assert (control_ok (mkControl true false (S (live_ctx (c_control c))))) as Hk1 by (split; [done|cbn; lia]).
  unfold live_start, Composite_Start. cbn [lend c_control c_primary c_fallback rStart DHCPv6PDReceiver_ops Subscription_ops fst snd].
  rewrite Hrun. change (f_raReceivers (aq_factory w)) with (aq_pool w).
  destruct (Sub_Start env (c_fallback c) (aq_pool w)) as [p [err|]]; cbn [fst snd] in *.
  - rewrite bool_decide_false in Hr' by done.
    destruct (stop_client _ _ id _ (PD_Start (c_primary c)) Hw (lookup_insert_eq _ _ _) eq_refl Hpd')
      as (pd' & Hstop & Hpd2 & Hst2 & Ho2 & Ei2 & Ep2 & Hw2).
    cbn [rStop DHCPv6PDReceiver_ops]. rewrite Hstop. cbn [fmap option_fmap option_map].
    rewrite insert_insert_eq in Hw2. cbn [with_pd receiver_of] in Hw2.
    assert (after_release (c_primary c) pd' (set_pool p (aq_factory w)) =
      after_release (PD_Start (c_primary c)) pd' (set_pool p (aq_factory w))) as Erel
      by (unfold after_release; by rewrite Er, Ei).
    unfold start_post. cbn [set_children c_primary c_fallback pool_of fst snd]. rewrite Erel.
    assert (cancel_ctx (with_cancel (c_control c)) = c_control c) as Hcc by (unfold cancel_ctx, with_cancel; cbn; by destruct (c_control c)).
    rewrite Hcc. split.
    + split; rewrite ?after_release_pool, ?set_pool_raReceivers; try done.
      * cbn. split; congruence.
      * apply composite_live_ok; cbn; try done; congruence.
    + rewrite after_release_pool. split; [exact Hrun|]. by intros ? [= <-].
  - rewrite bool_decide_true in Hr' by done. unfold start_post.
    cbn [set_children c_primary c_fallback pool_of fst snd]. unfold after_release. rewrite Er, Nat.ltb_irrefl. split; [|done].
    split; rewrite ?set_pool_raReceivers; try done. by apply composite_live_ok.
Qed.

Lemma live_start_ok env w id l : acquisition_ok w -> aq_receivers w !! id = Some l -> live_fresh (aq_pool w) l ->
  start_post w id l (live_start env l (aq_factory w)).
Proof.
  intros Hok Hl Hf. destruct l as [pd|sub|c]; [| |by apply start_composite].
  - destruct Hf as [Hrun Hfree]. pose proof (ac_live w Hok id _ Hl) as (Hc & _).
    destruct (start_client pd (Hc _ eq_refl) (Hfree _ eq_refl)) as (Hpd' & Hst & Ho & Ei & Ep & Er).
    pose proof (start_client_world w id _ pd (aq_pool w) Hok Hl eq_refl) as Hw. unfold start_post, live_start. cbn [rStart DHCPv6PDReceiver_ops fst snd].
    split; [|done]. split; try done.
    + apply Hok.
    + by apply client_live_ok.
    + apply (world_claims (set_pool (aq_pool w) (aq_factory w))); done.
  - pose proof (ac_live w Hok id _ Hl) as (_ & Hs & _).
    pose proof (Sub_Start_good env sub (aq_pool w) (ac_pool w Hok) (Hs _ eq_refl)) as (Hg & Hm & Hk' & Hr').
    unfold start_post, live_start. change (f_raReceivers (aq_factory w)) with (aq_pool w).
    destruct (Sub_Start env sub (aq_pool w)) as [p e]; cbn [fst snd] in *. split.
    + split; try done; [by apply sub_live_ok|by apply sub_world].
    + destruct e; [split; [done|by intros]|done].
Qed.

(** ** Stopping *)

Lemma live_stop_ok env w id l : acquisition_ok w -> aq_receivers w !! id = Some l ->
  exists l' f e, live_stop env l (aq_factory w) = Some (l', f, e) /\ called w id l l' f /\ live_idle (f_raReceivers f) l'.
Proof.
  intros Hok Hl. pose proof (ac_live w Hok id _ Hl) as (Hc & Hs & Hx). destruct l as [pd|sub|c]; cbn [live_stop].
  - destruct (insert_client w id _ pd Hl eq_refl) as [Hr Hp].
    destruct (stop_client _ _ id _ pd (ac_world w Hok) Hr Hp (Hc _ eq_refl)) as (pd' & Hstop & Hpd' & Hst & Ho & Ei & Ep & Hw).
    cbn [rStop DHCPv6PDReceiver_ops]. rewrite Hstop. cbn. eexists _, _, _. split; [done|]. split.
    + split; rewrite ?after_release_pool; try done.
      * apply Hok.
      * by apply client_live_ok.
    + split; [done|]. by intros ? [= <-].
  - change (f_raReceivers (aq_factory w)) with (aq_pool w). destruct (Sub_Stop_good env sub (aq_pool w) (ac_pool w Hok) (Hs _ eq_refl)) as (p & e & -> & Hg & Hm & Hk & Hr).
    cbn. eexists _, _, _. split; [done|]. split.
    + split; try done; [by apply sub_live_ok|by apply sub_world].
    + split; [done|by intros].
  - destruct Hx as (Hk & Hcap & Hsync & Hsub).
    destruct (Sub_Stop_good env (c_fallback c) (aq_pool w) (ac_pool w Hok) (Hs _ eq_refl)) as (p & e & Hstop & Hg & Hm & Hk' & Hr).
    destruct (insert_client w id _ (c_primary c) Hl eq_refl) as [Hrc Hp].
    assert (world_ok (mkWorld (set_pool p (aq_factory w)) (receiver_of <$> aq_receivers w))) as Hw0
      by (apply (world_claims (aq_factory w)); [done|apply Hok]).
    destruct (stop_client _ _ id _ (c_primary c) Hw0 Hrc Hp (Hc _ eq_refl)) as (pd' & Hstop' & Hpd' & Hst & Ho & Ei & Ep & Hw).
    assert (exists k e', control_ok k /\ started k = false /\
      Composite_Stop (tt, env) (lend (aq_pool w) c) = Some (set_children (lend (aq_pool w) c) pd' (p, c_fallback c) k, e')) as (k & e' & Hk2 & Hk3 & Heq).
    { unfold Composite_Stop. cbn [lend c_control c_primary c_fallback rStop DHCPv6PDReceiver_ops Subscription_ops fst snd].
      rewrite Hstop, Hstop'. cbn. destruct (started (c_control c)) eqn:E; cbn [negb].
      - destruct (control_stop_ok _ Hk E) as (k & -> & ? & ?). cbn. by eexists k, _.
      - by exists (c_control c), None. }
    change (f_raReceivers (aq_factory w)) with (aq_pool w). rewrite Heq. cbn. eexists _, _, _. split; [done|].
    cbn [pool_of set_children c_fallback c_primary fst]. split.
    + split; rewrite ?after_release_pool, ?set_pool_raReceivers; try done.
      apply composite_live_ok; cbn; try done; congruence.
    + rewrite after_release_pool. split; [done|]. by intros ? [= <-].
Qed.

(** ** What a receiver holds *)

Lemma live_prefix_from pool l p : live_prefix pool l = Some p ->
  (exists pd, client_of l = Some pd /\ pd_currentPrefix pd = Some p) \/
  (exists sub, sub_of l = Some sub /\ Sub_CurrentPrefix sub pool = Some p).
Proof.
  destruct l as [pd|sub|c]; cbn; [by left; exists pd|by right; exists sub|].
  unfold Composite_CurrentPrefix, lend. cbn. destruct (pd_currentPrefix (c_primary c)) eqn:E.
  - intros [= ->]. left. by exists (c_primary c).
  - intros H. right. by exists (c_fallback c).
Qed.

Lemma client_prefix pol pd p : pd_inv pol pd -> pd_currentPrefix pd = Some p ->
  Validate pol (Network p) = None /\ netip.Masked (Network p) = Network p /\ netip.prefix6 (Network p).
Proof.
  intros (_ & _ & Hl) Hp. destruct (pd_lease pd) as [l|]; [|congruence].
  destruct Hl as [Hc (Hv & Hm & H6 & _)]. rewrite Hc in Hp. by injection Hp as <-.
Qed.

(** The entry that serves a subscription. *)
Lemma sub_entry p sub s : pool_good p -> p_subs p !! sub = Some s ->
  exists e, p_heap p !! s_entry s = Some e /\ e_key e = s_key s /\ entry_keyed e.
Proof.
  intros [Hok Hk _] Hs. destruct (ok_subs p Hok sub s Hs) as (e & He & Ek & _). exists e. split; [done|]. split; [done|].
  by eapply Hk.
Qed.

Lemma sub_prefix p sub pre : pool_good p -> Sub_CurrentPrefix sub p = Some pre ->
  exists s e, p_subs p !! sub = Some s /\ e_key e = s_key s /\ entry_keyed e /\ lease_from (base_policy (ra_policy (e_receiver e))) pre.
Proof.
  intros Hg Hp. unfold Sub_CurrentPrefix in Hp. destruct (p_subs p !! sub) as [s|] eqn:Hs; [|done].
  destruct (sub_entry p sub s Hg Hs) as (e & He & Ek & Hkeyed). cbn in Hp. rewrite He in Hp. cbn in Hp.
  exists s, e. do 3 (split; [done|]). by apply Hkeyed.
Qed.

Lemma live_prefix6 w id l p : acquisition_ok w -> aq_receivers w !! id = Some l ->
  live_prefix (aq_pool w) l = Some p -> netip.prefix6 (Network p).
Proof.
  intros Hok Hl [(pd & Hpd & Hp)|(sub & Hsub & Hp)]%live_prefix_from.
  - destruct (ac_live w Hok id l Hl) as (Hc & _). destruct (Hc pd Hpd) as [[pol Hinv] _]. by eapply client_prefix.
  - destruct (sub_prefix _ _ _ (ac_pool w Hok) Hp) as (s & e & _ & _ & _ & Hf). by eapply lease_network.
Qed.

Lemma live_prefix_masked w id l p : acquisition_ok w -> aq_receivers w !! id = Some l ->
  live_prefix (aq_pool w) l = Some p -> netip.Masked (Network p) = Network p.
Proof.
  intros Hok Hl [(pd & Hpd & Hp)|(sub & Hsub & Hp)]%live_prefix_from.
  - destruct (ac_live w Hok id l Hl) as (Hc & _). destruct (Hc pd Hpd) as [[pol Hinv] _]. by eapply client_prefix.
  - destruct (sub_prefix _ _ _ (ac_pool w Hok) Hp) as (s & e & _ & _ & _ & Hf). by eapply lease_network.
Qed.

(** The policy accepts it; an option of a Router Advertisement shorter than /3 is held
    on its length alone. *)
Definition accepted_by (pol : Policy) (p : Prefix) : Prop :=
  Validate pol (Network p) = None \/
  (netip.Bits (Network p) < 3 /\ checkLength pol (netip.Bits (Network p)) = None /\
   Receivers.PrefixSource p = SourceRouterAdvertisement).

Lemma lease_accepted pol l : lease_from pol l -> accepted_by pol l.
Proof.
  intros Hl. destruct (decide (3 <= netip.Bits (Network l))) as [H3|H3]; [left; by apply lease_validated|right].
  split; [lia|]. split; [by eapply lease_network|]. by destruct Hl as (pi & _ & _ & _ & _ & _ & _ & _ & Hs).
Qed.

Lemma live_prefix_accepted w id l p spec : acquisition_ok w -> aq_receivers w !! id = Some l ->
  made_for (aq_pool w) l spec -> live_prefix (aq_pool w) l = Some p -> accepted_by (prefixPolicyFor spec) p.
Proof.
  intros Hok Hl (_ & _ & Hmc & Hms) [(pd & Hpd & Hp)|(sub & Hsub & Hp)]%live_prefix_from.
  - left. destruct (ac_live w Hok id l Hl) as (Hc & _). destruct (Hc pd Hpd) as [[pol Hinv] _].
    destruct (Hmc pd Hpd) as [_ Hpol]. destruct (choke_point_policy spec) as [-> _]. rewrite <- Hpol.
    pose proof Hinv as [-> _]. by eapply client_prefix.
  - apply lease_accepted. destruct (Hms sub Hsub) as (ras & pol & _ & Hpol & Hkey).
    destruct (sub_prefix _ _ _ (ac_pool w Hok) Hp) as (s & e & Hs & Ek & (_ & Hek & Hro) & Hf).
    unfold sub_key in Hkey. rewrite Hs in Hkey. cbn in Hkey. injection Hkey as Hkey.
    destruct (choke_point_policy spec) as [_ Hb]. rewrite <- (Hb pol Hpol).
    destruct (poolKey_identifies (ras_Interface ras) (e_iface e) pol (ra_policy (e_receiver e))) as (_ & -> & _); [| |congruence|done].
    + by eapply raPolicy_routers.
    + done.
Qed.

(** ** The interface *)

#[export] Program Instance acquisition_laws : HandleLaws ra_env acquisition nat := {}.
Next Obligation.
  intros spec w Hok. cbn [hCreate acquisition_handles]. unfold aq_create.
  pose proof (CreateReceiver_pool spec (aq_factory w) (ac_pool w Hok)) as Hp.
  pose proof (CreateReceiver_claims spec (aq_factory w)) as Hcl.
  destruct (CreateReceiver spec (aq_factory w)) as [f [r|e|]] eqn:Hc; cbn [fst snd]; [| |done].
  - destruct (fresh_insert_ok w spec f r Hok Hc) as (H1 & H2 & H3 & H4). split; [exact H1|].
    split; [cbn; rewrite (fresh_id_none (aq_receivers w)); by intros [? ?]|].
    split; [eexists; apply lookup_insert_eq|]. split; [eexists; split; [apply lookup_insert_eq|exact H3]|].
    split; [eexists; split; [apply lookup_insert_eq|exact H4]|exact H2].
  - by apply same_factory_ok.
Qed.
Next Obligation.
  intros env id w Hok _ (l & Hl & Hf). cbn [hStart acquisition_handles]. unfold aq_start. rewrite Hl.
  pose proof (live_start_ok env w id l Hok Hl Hf) as H. destruct (live_start env l (aq_factory w)) as [[l' f] e].
  destruct H as [Hca He]. destruct (called_ok w id l l' f Hok Hl Hca) as (H1 & H2 & H3). cbn [fst snd].
  split; [exact H1|]. split; [exact H2|]. split; [eexists; apply lookup_insert_eq|]. split.
  - intros spec (x & Hx & Hmade). rewrite Hl in Hx. injection Hx as <-. exists l'. split; [apply lookup_insert_eq|by apply H3].
  - destruct e; [exists l'; split; [apply lookup_insert_eq|done]|]. cbn. by rewrite lookup_insert_eq.
Qed.
Next Obligation.
  intros env id w Hok [l Hl]. cbn [hStop acquisition_handles]. unfold aq_stop. rewrite Hl.
  destruct (live_stop_ok env w id l Hok Hl) as (l' & f & e & -> & Hca & Hi).
  destruct (called_ok w id l l' f Hok Hl Hca) as (H1 & H2 & _). cbn. eexists _, _. split; [done|]. split; [exact H1|].
  split; [exact H2|]. exists l'. split; [apply lookup_insert_eq|done].
Qed.
Next Obligation. intros w id Hok _ (l & Hl & Hi & _). cbn. by rewrite Hl. Qed.
Next Obligation.
  intros w id p Hok [l Hl] Hp. cbn in Hp. rewrite Hl in Hp. cbn in Hp. by eapply live_prefix6.
Qed.
