(* ===== verification/Operator.v ===== *)
(** * The operator's acquisition side as a whole

    The controller of DynamicPrefix.v with the receivers of Acquisition.v, over time:
    reconciles, the clients' loops, the shared receivers' sockets, the composites'
    loops and the forwarders of events, in any order.  What runs and what is claimed
    is what resources use, and each resource is served as its spec says.  The
    controller makes its calls on receivers under [receiversMu], so they are whole
    calls of the pool here ([SharedRA] has the interleaved ones). *)

From S2P Require Import Prelude GoStrings Metrics Netip NetipText Policy Subnet AddressRange Receivers Composite RAReceiver DHCPv6PD SharedRA Factory DynamicPrefix Controller Acquisition.

(** ** What happens on its own

    A turn of a client's loop, a message or a tick at a shared receiver, its events
    handed on, and a composite's loop reading from a child.  What is not there has no
    turn; [None] is a panic. *)

Inductive progress : Type :=
| ClientBegins (id : nat) (env : pd_env)
| ClientTurns (id : nat) (t : turn) (b : acquireBackoff)
| SharedReads (entry : nat) (now : Z) (verifyHopLimit : bool) (res : read_result)
| SharedTicks (entry : nat) (now : Z)
| SharedFansOut (entry : nat)
| MergesPrimary (id : nat)
| MergesFallback (id : nat).

Definition with_client (pd : DHCPv6PDReceiver) (l : live) : live :=
  match l with
  | LivePD _ => LivePD pd
  | LiveRA sub => LiveRA sub
  | LiveComposite c => LiveComposite (set_children c pd (c_fallback c) (c_control c))
  end.

Definition client_step (id : nat) (step : DHCPv6PDReceiver -> loop_result) (w : acquisition) : option acquisition :=
  match (l ← aq_receivers w !! id; pd ← client_of l; Some (l, pd)) with
  | Some (l, pd) => pd' ← state_of (step pd); Some (put id (with_client pd' l) (aq_factory w) w)
  | None => Some w
  end.

Definition with_pool (p : ra_pool) (w : acquisition) : acquisition :=
  mkAcquired (set_pool p (aq_factory w)) (aq_receivers w).

Definition shared_step (entry : nat) (now : Z) (i : ra_input) (w : acquisition) : option acquisition :=
  match p_heap (aq_pool w) !! entry with
  | Some e =>
      r ← ra_step now i (e_receiver e); Some (with_pool (set_entry entry (with_receiver r e) (aq_pool w)) w)
  | None => Some w
  end.

Definition composite_turn (id : nat)
    (turn : CompositeReceiver DHCPv6PDReceiver (ra_pool * nat) -> option (CompositeReceiver DHCPv6PDReceiver (ra_pool * nat)))
    (w : acquisition) : acquisition :=
  match aq_receivers w !! id with
  | Some (LiveComposite c) =>
      match turn (lend (aq_pool w) c) with
      | Some c' => put id (LiveComposite (take_back c')) (set_pool (pool_of c') (aq_factory w)) w
      | None => w
      end
  | _ => w
  end.

Definition live_events (p : ra_pool) (l : live) : list Event :=
  match l with
  | LivePD pd => pd_events pd
  | LiveRA sub => Sub_Events sub p
  | LiveComposite c => c_events c
  end.

(** The controller's forwarder takes an event. *)
Definition aq_recv (id : nat) (w : acquisition) : acquisition :=
  match aq_receivers w !! id with
  | Some (LivePD pd) => put id (LivePD (rRecv pd)) (aq_factory w) w
  | Some (LiveRA sub) => with_pool (sub_recv sub (aq_pool w)) w
  | Some (LiveComposite c) => put id (LiveComposite (consume c)) (aq_factory w) w
  | None => w
  end.

Definition aq_step (s : progress) (w : acquisition) : option acquisition :=
  match s with
  | ClientBegins id env => client_step id (run_start env) w
  | ClientTurns id t b => client_step id (fun pd => run_step t pd b) w
  | SharedReads entry now verifyHopLimit res => shared_step entry now (InRead verifyHopLimit res) w
  | SharedTicks entry now => shared_step entry now InTick w
  | SharedFansOut entry => Some (match fanOut entry (aq_pool w) with Some p => with_pool p w | None => w end)
  | MergesPrimary id => Some (composite_turn id merge_primary w)
  | MergesFallback id => Some (composite_turn id merge_fallback w)
  end.

(** What the network and the clock may do: messages are well-formed, draws are within
    their range, and a client's clock does not run back past its lease. *)
Definition lawful (s : progress) (w : acquisition) : Prop :=
  match s with
  | ClientBegins _ env => env_wf env
  | ClientTurns id t b =>
      turn_wf t /\ backoff_ok b /\ 0 <= t_rand t <= 2 * (b_cur b / 5) /\
      forall l pd lease, aq_receivers w !! id = Some l -> client_of l = Some pd -> pd_lease pd = Some lease ->
        L_ReceivedAt lease <= t_now t
  | SharedReads _ _ verifyHopLimit res => input_wf (InRead verifyHopLimit res)
  | _ => True
  end.

(** * Lemmas *)

(** ** Progress keeps the invariant *)

(** Changes that start, stop and hand back nothing. *)
Definition client_quiet (pd pd' : DHCPv6PDReceiver) : Prop :=
  pd_frame pd' = pd_frame pd /\ forall pol, pd_inv pol pd -> pd_inv pol pd'.

Inductive quiet : live -> live -> Prop :=
| quiet_pd pd pd' : client_quiet pd pd' -> quiet (LivePD pd) (LivePD pd')
| quiet_ra sub : quiet (LiveRA sub) (LiveRA sub)
| quiet_composite c c' : client_quiet (c_primary c) (c_primary c') -> c_fallback c' = c_fallback c ->
    c_control c' = c_control c -> ((length (c_events c) <= event_cap)%nat -> (length (c_events c') <= event_cap)%nat) ->
    quiet (LiveComposite c) (LiveComposite c').

Lemma client_quiet_refl pd : client_quiet pd pd.
Proof. by split. Qed.

Lemma client_quiet_ok pd pd' : client_quiet pd pd' -> client_ok pd -> client_ok pd'.
Proof.
  intros [[= E1 E2 E3 E4 E5] Hinv] [[pol Hpol] Hst]. split; [exists pol; by apply Hinv|]. by rewrite E2, E4.
Qed.

(** A quiet change of one receiver, with the pool's bookkeeping as it was. *)
Lemma quiet_clients l l' : quiet l l' -> sub_of l' = sub_of l /\
  (forall p, live_running p l' = live_running p l) /\
  match client_of l, client_of l' with
  | Some pd, Some pd' => client_quiet pd pd' /\ receiver_of l' = with_pd pd' (receiver_of l)
  | None, None => receiver_of l' = receiver_of l
  | _, _ => False
  end.
Proof.
  destruct 1 as [pd pd' Hq|sub|c c' Hq Ef Ek Hcap]; cbn.
  - split; [done|]. split; [|done]. destruct Hq as [[= _ -> _ _ _] _]. done.
  - done.
  - rewrite Ef, Ek. done.
Qed.

Lemma quiet_live_ok p l l' : quiet l l' -> live_ok p l -> live_ok p l'.
Proof.
  destruct 1 as [pd pd' Hq|sub|c c' Hq Ef Ek Hcap]; intros (Hc & Hs & Hx).
  - apply client_live_ok. by apply (client_quiet_ok pd), Hc.
  - done.
  - destruct Hx as (H1 & H2 & H3 & H4). pose proof Hq as [[= _ E _ _ _] _].
    apply composite_live_ok; rewrite ?Ef, ?Ek; [|by apply Hs|done|by apply Hcap|by rewrite E|done].
    by apply (client_quiet_ok (c_primary c)), Hc.
Qed.

Lemma quiet_world w id l l' : acquisition_ok w -> aq_receivers w !! id = Some l -> quiet l l' ->
  world_ok (mkWorld (aq_factory w) (<[id := receiver_of l']> (receiver_of <$> aq_receivers w))).
Proof.
  intros Hok Hl Hq. destruct (quiet_clients l l' Hq) as (_ & _ & Hc). pose proof (receivers_lookup w id l Hl) as Hr.
  destruct (client_of l) as [pd|] eqn:E, (client_of l') as [pd'|]; try done.
  - destruct Hc as [[[= E1 E2 E3 E4 E5] Hinv] ->].
    destruct (ac_live w Hok id l Hl) as (Hcl & _). destruct (Hcl pd E) as [[pol Hpol] _].
    apply (client_changes_ok _ id _ pd pd' (ac_world w Hok)); try done. by apply (Hinv pol).
  - rewrite Hc, insert_id by done. apply Hok.
Qed.

Lemma quiet_ok w id l l' p : acquisition_ok w -> aq_receivers w !! id = Some l -> quiet l l' ->
  pool_good p -> same_subs (aq_pool w) p ->
  acquisition_ok (put id l' (set_pool p (aq_factory w)) w) /\ kept None w (put id l' (set_pool p (aq_factory w)) w).
Proof.
  intros Hok Hl Hq Hp Hsame. destruct (quiet_clients l l' Hq) as (Hs & Hrun & Hc).
  assert (pool_moves None (aq_pool w) p) as Hm0 by by apply pool_moves_none.
  destruct (live_moves None _ _ l Hm0) as (Hlok & Hrun0 & _ & _); [destruct (sub_of l); [by right|by left]|].
  assert (called w id l l' (set_pool p (aq_factory w))) as Hca.
  { split; try done.
    - unfold same_client. destruct (client_of l) as [pd|] eqn:E, (client_of l') as [pd'|]; try done.
      destruct Hc as [[[= E1 _ _ _ _] Hinv] _]. split; [done|].
      destruct (ac_live w Hok id l Hl) as (Hcl & _). destruct (Hcl pd E) as [[pol Hpol] _].
      pose proof Hpol as [-> _]. by destruct (Hinv pol Hpol) as [-> _].
    - by apply pool_moves_none.
    - eapply quiet_live_ok; [exact Hq|]. apply Hlok. by eapply ac_live.
    - apply (world_claims (aq_factory w)); [done|]. by apply (quiet_world w id l). }
  destruct (called_ok w id l l' _ Hok Hl Hca) as (H1 & H2 & H3). split; [done|].
  intros id' _. destruct (decide (id' = id)) as [->|Hne]; [|apply H2; congruence].
  cbn [hKnown hRunning hIdle hMade acquisition_view acquisition_handles put aq_receivers].
  rewrite lookup_insert_eq, Hl. change (aq_pool (put id l' (set_pool p (aq_factory w)) w)) with p.
  split; [by split; intros _; eexists|]. intros _. split; [by rewrite Hrun|]. split.
  - assert (live_idle (aq_pool w) l <-> live_idle p l') as Hi.
    { unfold live_idle. rewrite Hrun, Hrun0. apply and_iff_compat_l.
      destruct (client_of l) as [pd|], (client_of l') as [pd'|]; try done.
      destruct Hc as [[[= _ _ _ E _] _] _]. split; intros H ? [= <-]; [rewrite E|rewrite <- E]; by apply H. }
    split; intros (x & [= <-] & Hx); eexists; (split; [done|]); by apply Hi.
  - intros spec (x & [= <-] & Hx). exists l'. split; [done|]. by apply H3.
Qed.

(** A change of the pool alone. *)
Lemma with_pool_ok w p : acquisition_ok w -> pool_good p -> same_subs (aq_pool w) p ->
  acquisition_ok (with_pool p w) /\ kept None w (with_pool p w).
Proof.
  intros [H1 H2 H3 H4 H5] Hp Hs. assert (pool_moves None (aq_pool w) p) as Hm by by apply pool_moves_none.
  assert (forall l, sub_of l = None \/ sub_of l <> None) as Hd by (intros l; destruct (sub_of l); [by right|by left]).
  split; [split|].
  - done.
  - by apply (world_claims (aq_factory w)).
  - intros id l Hl. apply (live_moves _ _ _ l Hm (Hd l)). by eapply H3.
  - intros sub Hr. change (aq_pool (with_pool p w)) with p in Hr.
    rewrite (proj1 (Sub_Running_view sub _ _ (Hs sub))) in Hr. by apply H4.
  - done.
  - intros id _. cbn [hKnown hRunning hIdle hMade acquisition_view acquisition_handles with_pool aq_receivers].
    change (aq_pool (mkAcquired (set_pool p (aq_factory w)) (aq_receivers w))) with p.
    split; [done|]. intros [l Hl]. rewrite Hl. destruct (live_moves _ _ _ l Hm (Hd l)) as (_ & Hr & Hi & Hmade).
    split; [done|]. split.
    + split; intros (x & [= <-] & Hx); exists l; (split; [done|]); by apply Hi.
    + intros spec (x & [= <-] & Hx). exists l. split; [done|]. apply Hmade; [by eapply H3|done].
Qed.

Lemma shared_turn_good (p : ra_pool) i e now inp : pool_good p -> p_heap p !! i = Some e -> input_wf inp ->
  match inp with InStart _ | InStop _ => False | _ => True end ->
  exists r, ra_step now inp (e_receiver e) = Some r /\ pool_good (set_entry i (with_receiver r e) p) /\
    same_subs p (set_entry i (with_receiver r e) p).
Proof.
  intros [Hok Hk He] Hi Hwf Hturn. pose proof (Hk i e Hi) as (Hinv & Hkey & Hro).
  destruct (ra_step_inv _ now inp _ Hwf Hinv) as (r & Hs & Hinv'). exists r. split; [done|]. split; [|by intros sub].
  split; [|intros j x; cbn; intros [[<- <-]|[_ ?]]%lookup_insert_Some; [|by eapply Hk]|done].
  - apply receiver_changes_ok; [done..|apply Hinv'|]. cbn. by rewrite (ra_turn_control _ _ _ _ _ Hinv Hs Hturn).
  - pose proof Hinv' as (_ & _ & Ep & _). unfold entry_keyed. cbn. by rewrite Ep.
Qed.

Lemma recv_good sub (p : ra_pool) : pool_good p -> pool_good (sub_recv sub p) /\ same_subs p (sub_recv sub p).
Proof.
  intros [Hok Hk He]. pose proof (recv_same_subs sub p) as Hs. split; [|done]. split.
  - by apply (subs_change_ok p).
  - exact Hk.
  - intros i. specialize (He i). unfold Sub_Events in *. cbn. destruct (decide (sub = i)) as [<-|].
    + rewrite lookup_alter_eq. destruct (p_subs p !! sub); [|done]. by apply tail_cap.
    + by rewrite lookup_alter_ne.
Qed.

Lemma fanOut_good i (p p' : ra_pool) : pool_good p -> fanOut i p = Some p' -> pool_good p' /\ same_subs p p'.
Proof.
  intros Hg Hf. pose proof Hg as [Hok Hk He]. destruct (fanOut_ok i p p' Hok Hf) as [Hok' Hs]. split; [|done].
  unfold fanOut in Hf. destruct (p_heap p !! i) as [e|] eqn:Hi; [|done]. cbn [mbind option_bind] in Hf.
  destruct (rEvents (e_receiver e)) as [|ev evs]; [done|]. injection Hf as <-.
  destruct (shared_turn_good p i e 0 InConsume Hg Hi I I) as (r & [= <-] & [_ Hk' _] & _).
  set (q := set_entry _ _ _) in *. split; [done| |].
  - intros j x. rewrite (proj2 (broadcast_fields i ev q)). apply Hk'.
  - intros sub. specialize (He sub). unfold Sub_Events in *.
    rewrite (broadcast_lookup i ev q (with_receiver (rRecv (e_receiver e)) e)) by apply lookup_insert_eq.
    change (p_subs q) with (p_subs p). destruct (p_subs p !! sub) as [s|]; [|done]. cbn.
    destruct (decide _); [by apply chan_send_cap|done].
Qed.

Lemma recv_quiet pd : client_quiet pd (PD_recv pd).
Proof. split; [done|]. intros pol (? & (? & ?) & ?). split; [done|]. split; [split; [done|by apply tail_cap]|done]. Qed.

Lemma merge_primary_quiet p c c' : merge_primary (lend p c) = Some c' ->
  quiet (LiveComposite c) (LiveComposite (take_back c')) /\ pool_of c' = p.
Proof.
  unfold merge_primary. cbn [lend c_primary rEvents DHCPv6PDReceiver_ops]. destruct (pd_events (c_primary c)) as [|e evs]; [done|].
  intros [= <-]. set (c1 := set_children _ _ _ _). destruct (handlePrimaryEvent_children e c1) as (E1 & E2 & E3).
  split; [|unfold pool_of; by rewrite E2].
  apply quiet_composite; cbn [take_back c_primary c_fallback c_control c_events]; rewrite ?E1, ?E2, ?E3; try done.
  - apply recv_quiet.
  - intros Hcap. by apply handlePrimaryEvent_cap.
Qed.

Lemma merge_fallback_quiet p c c' : merge_fallback (lend p c) = Some c' ->
  quiet (LiveComposite c) (LiveComposite (take_back c')) /\ pool_of c' = sub_recv (c_fallback c) p.
Proof.
  unfold merge_fallback. cbn [lend c_fallback rEvents Subscription_ops fst snd].
  destruct (Sub_Events (c_fallback c) p) as [|e evs]; [done|]. intros [= <-]. unfold handleFallbackEvent.
  destruct (negb _); (split; [|done]); apply quiet_composite; try done; try apply client_quiet_refl.
  intros Hcap. by apply chan_send_cap.
Qed.

Lemma quiet_client l pd pd' : client_of l = Some pd -> client_quiet pd pd' -> quiet l (with_client pd' l).
Proof.
  destruct l as [x|sub|c]; [| done|]; intros [= <-] Hq; [by apply quiet_pd|by apply quiet_composite].
Qed.

Lemma quiet_ok_same w id l l' : acquisition_ok w -> aq_receivers w !! id = Some l -> quiet l l' ->
  acquisition_ok (put id l' (aq_factory w) w) /\ kept None w (put id l' (aq_factory w) w).
Proof.
  intros Hok Hl Hq. assert (aq_factory w = set_pool (aq_pool w) (aq_factory w)) as -> by (unfold aq_pool; by destruct (aq_factory w)).
  apply (quiet_ok w id l l'); [done..|apply Hok|by intros sub].
Qed.

Lemma kept_refl (w : acquisition) : kept None w w.
Proof. by intros id _. Qed.

Lemma client_step_ok id step w : acquisition_ok w ->
  (forall l pd, aq_receivers w !! id = Some l -> client_of l = Some pd ->
     exists pd', state_of (step pd) = Some pd' /\ client_quiet pd pd') ->
  exists w', client_step id step w = Some w' /\ acquisition_ok w' /\ kept None w w'.
Proof.
  intros Hok Hstep. unfold client_step. destruct (aq_receivers w !! id) as [l|] eqn:Hl; cbn [mbind option_bind]; [|by exists w].
  destruct (client_of l) as [pd|] eqn:Hpd; cbn [mbind option_bind]; [|by exists w].
  destruct (Hstep l pd eq_refl Hpd) as (pd' & -> & Hq). eexists. split; [done|].
  apply (quiet_ok_same w id l); [done..|by eapply quiet_client].
Qed.

Lemma aq_step_ok s w : acquisition_ok w -> lawful s w ->
  exists w', aq_step s w = Some w' /\ acquisition_ok w' /\ kept None w w'.
Proof.
  intros Hok Hlaw. destruct s; cbn [aq_step lawful] in *.
  - apply client_step_ok; [done|]. intros l pd Hl Hpd.
    destruct (state_of (run_start env pd)) as [pd'|] eqn:E.
    + exists pd'. split; [done|]. split; [by eapply run_start_frame|]. intros pol Hinv.
      pose proof (acquire_ok pol env pd Hlaw Hinv) as Hex. unfold exchange_ok in Hex. unfold run_start in E.
      destruct (acquirePrefix env pd) as [r [u|e|]]; cbn [fst snd] in Hex; cbn in E; [| |done]; injection E as <-.
      * apply Hex.
      * subst r. by apply sendError_inv.
    + exfalso. destruct (ac_live w Hok id l Hl) as (Hc & _). destruct (Hc pd Hpd) as [[pol Hinv] _].
      pose proof (acquire_ok pol env pd Hlaw Hinv) as Hex. unfold exchange_ok in Hex. unfold run_start in E.
      by destruct (acquirePrefix env pd) as [r [u|e|]].
  - destruct Hlaw as (Ht & Hb & Hr & Hclock). apply client_step_ok; [done|]. intros l pd Hl Hpd.
    destruct (ac_live w Hok id l Hl) as (Hc & _). destruct (Hc pd Hpd) as [[pol0 Hinv0] _].
    pose proof (run_step_post pol0 t pd b Ht Hinv0 Hb Hr (fun lease => Hclock l pd lease Hl Hpd)) as H0.
    destruct (state_of (run_step t pd b)) as [pd'|] eqn:E; [|by destruct (run_step t pd b)].
    exists pd'. split; [done|]. split; [by eapply run_step_frame|]. intros pol Hinv.
    pose proof (run_step_post pol t pd b Ht Hinv Hb Hr (fun lease => Hclock l pd lease Hl Hpd)) as H.
    destruct (run_step t pd b); cbn in E; [| |done]; injection E as <-; apply H.
  - unfold shared_step. destruct (p_heap (aq_pool w) !! entry) as [e|] eqn:He; [|by exists w].
    destruct (shared_turn_good (aq_pool w) entry e now (InRead verifyHopLimit res) (ac_pool w Hok) He Hlaw I) as (r & -> & Hg & Hs).
    eexists. split; [done|]. by apply with_pool_ok.
  - unfold shared_step. destruct (p_heap (aq_pool w) !! entry) as [e|] eqn:He; [|by exists w].
    destruct (shared_turn_good (aq_pool w) entry e now InTick (ac_pool w Hok) He I I) as (r & -> & Hg & Hs).
    eexists. split; [done|]. by apply with_pool_ok.
  - eexists. split; [done|]. destruct (fanOut entry (aq_pool w)) as [p|] eqn:E; [|done].
    destruct (fanOut_good _ _ _ (ac_pool w Hok) E). by apply with_pool_ok.
  - eexists. split; [done|]. unfold composite_turn. destruct (aq_receivers w !! id) as [[pd|sub|c]|] eqn:Hl; try done.
    destruct (merge_primary _) as [c'|] eqn:E; [|done]. apply merge_primary_quiet in E as [Hq ->].
    by apply (quiet_ok w id (LiveComposite c)); [..|apply Hok|].
  - eexists. split; [done|]. unfold composite_turn. destruct (aq_receivers w !! id) as [[pd|sub|c]|] eqn:Hl; try done.
    destruct (merge_fallback _) as [c'|] eqn:E; [|done]. apply merge_fallback_quiet in E as [Hq ->].
    destruct (recv_good (c_fallback c) (aq_pool w) (ac_pool w Hok)). by apply (quiet_ok w id (LiveComposite c)).
Qed.

Lemma aq_recv_ok id w : acquisition_ok w -> acquisition_ok (aq_recv id w) /\ kept None w (aq_recv id w).
Proof.
  intros Hok. unfold aq_recv. destruct (aq_receivers w !! id) as [[pd|sub|c]|] eqn:Hl; [| | |done].
  - apply (quiet_ok_same w id (LivePD pd)); [done..|]. apply quiet_pd, recv_quiet.
  - destruct (recv_good sub (aq_pool w) (ac_pool w Hok)). by apply with_pool_ok.
  - apply (quiet_ok_same w id (LiveComposite c)); [done..|].
    apply quiet_composite; [apply client_quiet_refl|done|done|by apply tail_cap].
Qed.

(** ** Runs *)

Definition client_at (w : acquisition) (id : nat) : option DHCPv6PDReceiver := l ← aq_receivers w !! id; client_of l.
Definition sub_at (w : acquisition) (id : nat) : option nat := l ← aq_receivers w !! id; sub_of l.

Definition events_at (w : acquisition) (id : nat) : list Event :=
  match aq_receivers w !! id with Some l => live_events (aq_pool w) l | None => [] end.

Definition new_operator (onRAReject events : bool) : @reconciler acquisition nat :=
  mkReconciler true (mkAcquired (NewReceiverFactory onRAReject) empty) empty empty empty empty
    (if events then Some [] else None).

Section Operator.
Context (Set_ : list Condition -> Condition -> list Condition).
Context (Find : list Condition -> string -> option Condition).

Local Abbreviation reconciler := (@DynamicPrefix.reconciler acquisition nat).
Local Abbreviation reconcile := (DynamicPrefix.Reconcile Set_ Find (Env := ra_env) (W := acquisition) (R := nat)).

(** Between reconciles: a forwarder reads an event of its receiver, the work queue
    takes a wake-up, and everything else goes on by itself. *)
Inductive operator_move : reconciler -> reconciler -> Prop :=
| move_forward name id ev evs r :
    rc_receivers r !! name = Some id -> events_at (rc_world r) id = ev :: evs ->
    operator_move r (forwardPrefixEvents name ev (set_rc_world (aq_recv id (rc_world r)) r))
| move_wakeup name q r :
    rc_prefixEvents r = Some (name :: q) ->
    operator_move r (mkReconciler (rc_factory r) (rc_world r) (rc_receivers r) (rc_receiverSpecs r) (rc_receiverStops r)
                       (rc_rejectionReports r) (Some q))
| move_progress s w r :
    lawful s (rc_world r) -> aq_step s (rc_world r) = Some w -> operator_move r (set_rc_world w r).

Inductive operator : reconciler -> Prop :=
| operator_start onRAReject events : operator (new_operator onRAReject events)
| operator_reconcile (env : @reconcile_env ra_env) name r r' res :
    operator r -> (forall dp, re_get env = GetObject dp -> dp_Name dp = name) ->
    reconcile env name r = Some (r', res) -> operator r'
| operator_moves r r' : operator r -> operator_move r r' -> operator r'.

(** ** The run is one of the controller's *)

Lemma new_acquisition_ok onRAReject : acquisition_ok (mkAcquired (NewReceiverFactory onRAReject) empty).
Proof.
  split; [split| | | |]; unfold aq_pool; cbn.
  - apply new_pool_ok.
  - intros i e. by rewrite lookup_empty.
  - intros sub. unfold Sub_Events. cbn. rewrite lookup_empty. cbn. lia.
  - rewrite fmap_empty. apply (new_world_ok onRAReject).
  - intros id l. by rewrite lookup_empty.
  - intros sub. unfold Sub_Running. cbn. by rewrite lookup_empty.
  - intros id1 id2 l1 l2 sub H. by rewrite lookup_empty in H.
Qed.

Lemma operator_controller r : operator r -> controller Set_ Find (Env := ra_env) r.
Proof.
  induction 1 as [obs events|env name r r' res _ IH Hn Hr|r r' _ IH Hmove].
  - apply controller_start; [apply new_acquisition_ok|]. intros id [l Hl]. cbn in Hl. by rewrite lookup_empty in Hl.
  - by eapply controller_reconcile.
  - pose proof (controller_ok _ _ _ IH) as Hok. destruct Hmove as [name id ev evs r Hid Hev|name q r Hq|s w r Hl Hs].
    + apply controller_forward. destruct (aq_recv_ok id (rc_world r) (ok_world r Hok)). by apply controller_world.
    + by eapply controller_wakeup.
    + destruct (aq_step_ok s (rc_world r) (ok_world r Hok) Hl) as (w' & Hs' & H1 & H2). rewrite Hs in Hs'.
      injection Hs' as <-. by apply controller_world.
Qed.

(** The halves of a receiver run when it runs. *)
Lemma client_runs p l pd : live_ok p l -> client_of l = Some pd -> started (pd_control pd) = live_running p l.
Proof. destruct l as [x|sub|c]; intros (_ & _ & H); intros [= <-]; [done|apply H]. Qed.

Lemma sub_runs p l sub : live_ok p l -> sub_of l = Some sub -> Sub_Running sub p = live_running p l.
Proof. destruct l as [x|s|c]; intros (_ & _ & H); intros [= <-]; [done|apply H]. Qed.

Lemma client_at_some w id pd : client_at w id = Some pd <-> exists l, aq_receivers w !! id = Some l /\ client_of l = Some pd.
Proof.
  unfold client_at. destruct (aq_receivers w !! id) as [l|]; cbn.
  - split; [intros H; by exists l|]. by intros (? & [= <-] & ?).
  - split; [done|]. by intros (? & ? & _).
Qed.

Lemma sub_at_some w id sub : sub_at w id = Some sub <-> exists l, aq_receivers w !! id = Some l /\ sub_of l = Some sub.
Proof.
  unfold sub_at. destruct (aq_receivers w !! id) as [l|]; cbn.
  - split; [intros H; by exists l|]. by intros (? & [= <-] & ?).
  - split; [done|]. by intros (? & ? & _).
Qed.

(** A receiver that is not idle belongs to a resource, and then it runs. *)
Lemma used r id l : reconciler_ok (Env := ra_env) r -> aq_receivers (rc_world r) !! id = Some l ->
  ~ live_idle (aq_pool (rc_world r)) l -> exists n, rc_receivers r !! n = Some id.
Proof.
  intros Hok Hl Hni. destruct (ok_left r Hok id) as [(x & Hx & Hi)|?]; [by eexists| |done].
  rewrite Hl in Hx. by injection Hx as <-.
Qed.

Lemma in_use r n id : reconciler_ok (Env := ra_env) r -> rc_receivers r !! n = Some id ->
  exists l spec, aq_receivers (rc_world r) !! id = Some l /\ rc_receiverSpecs r !! n = Some spec /\
    live_running (aq_pool (rc_world r)) l = true /\ made_for (aq_pool (rc_world r)) l spec.
Proof.
  intros Hok Hn. pose proof (ok_entry r Hok n) as He. unfold entry_ok in He. rewrite Hn in He.
  destruct (rc_receiverSpecs r !! n) as [spec|]; [|done]. destruct He as ([[l Hl] Hrun] & (x & Hx & Hm) & _).
  cbn in Hl, Hrun, Hx. rewrite Hl in Hx, Hrun. injection Hx as <-. by exists l, spec.
Qed.

(** A claimed interface has a client that has not handed it back. *)
Lemma claimed w iface : acquisition_ok w -> iface ∈ f_pdInterfaces (aq_factory w) <->
  exists id pd, client_at w id = Some pd /\ pd_iface pd = iface /\ pd_releaseOnce pd = false.
Proof.
  intros Hok. rewrite (w_claims _ (ac_world w Hok) iface). cbn. split.
  - intros (id & rcv & Hr & pd & Hpd & Hi & Ho). rewrite lookup_fmap in Hr. apply fmap_Some in Hr as (l & Hl & ->).
    exists id, pd. rewrite client_at_some. split; [by exists l|done].
  - intros (id & pd & (l & Hl & Hpd)%client_at_some & Hi & Ho). exists id, (receiver_of l).
    split; [by apply receivers_lookup|by exists pd].
Qed.

(** An entry's receiver runs for the subscriptions that are started. *)
Lemma serving p i e : pool_ok p -> p_heap p !! i = Some e -> started (ra_control (e_receiver e)) = true <->
  exists sub s, p_subs p !! sub = Some s /\ s_entry s = i /\ s_started s = true.
Proof.
  intros [H1 H2 H3 H4] He. destruct (H1 i e He) as (_ & _ & Hrun & Hemp). cbn in Hrun. rewrite Hrun. split.
  - intros Hst. destruct (set_choose_or_empty (e_subscribers e)) as [[sub Hin]|Hnone].
    + destruct (H3 _ _ _ He Hin) as (s & Hs & Ei). exists sub, s. do 2 (split; [done|]).
      destruct (H2 _ _ Hs) as (x & Hx & _ & Hm). rewrite Ei, He in Hx. injection Hx as <-. by apply Hm.
    + exfalso. apply leibniz_equiv in Hnone. apply Hemp in Hnone. congruence.
  - intros (sub & s & Hs & Ei & Hst). destruct (H2 _ _ Hs) as (x & Hx & _ & Hm). rewrite Ei, He in Hx. injection Hx as <-.
    apply Hm in Hst. destruct (started (e_control e)) eqn:E; [done|]. exfalso.
    rewrite (proj2 Hemp eq_refl) in Hst. by apply not_elem_of_empty in Hst.
Qed.

(** * Properties *)

(** C4 At every point of the operator's life, whatever was created, changed, failed or
    deleted before: an interface is claimed exactly when the running DHCPv6-PD client of
    some resource is on it, every running client is some resource's, and no two
    resources have a client on one interface; and a shared Router Advertisement receiver
    runs - holds its socket - exactly while the receiver of some resource is subscribed
    to it.  So nothing of a deleted or respecified resource is left behind, a failed
    creation or start included. *)
Theorem operator_holds_what_it_uses (r : reconciler) :
  operator r ->
  (forall iface, iface ∈ f_pdInterfaces (aq_factory (rc_world r)) <->
     exists n id pd, rc_receivers r !! n = Some id /\ client_at (rc_world r) id = Some pd /\
       pd_iface pd = iface /\ started (pd_control pd) = true) /\
  (forall id pd, client_at (rc_world r) id = Some pd -> started (pd_control pd) = true ->
     exists n, rc_receivers r !! n = Some id) /\
  (forall n n' id id' pd pd', rc_receivers r !! n = Some id -> rc_receivers r !! n' = Some id' ->
     client_at (rc_world r) id = Some pd -> client_at (rc_world r) id' = Some pd' ->
     pd_iface pd = pd_iface pd' -> n = n') /\
  (forall i e, p_heap (aq_pool (rc_world r)) !! i = Some e ->
     started (ra_control (e_receiver e)) = true <->
     exists n id sub s, rc_receivers r !! n = Some id /\ sub_at (rc_world r) id = Some sub /\
       p_subs (aq_pool (rc_world r)) !! sub = Some s /\ s_entry s = i).
Proof.
  intros Hop. pose proof (controller_ok _ _ _ (operator_controller r Hop)) as Hok.
  pose proof (ok_world r Hok) as Hw. set (w := rc_world r) in *. cbn in Hw.
  assert (forall n id pd, rc_receivers r !! n = Some id -> client_at w id = Some pd ->
    started (pd_control pd) = true /\ pd_releaseOnce pd = false) as Hclient.
  { intros n id pd Hn (l & Hl & Hpd)%client_at_some. destruct (in_use r n id Hok Hn) as (x & spec & Hx & _ & Hrun & _).
    fold w in Hx. rewrite Hl in Hx. injection Hx as <-. pose proof (ac_live w Hw id l Hl) as Hlok.
    rewrite (client_runs _ l pd Hlok Hpd). split; [done|]. apply Hlok; [done|]. by rewrite (client_runs _ l pd Hlok Hpd). }
  split; [|split; [|split]].
  - intros iface. rewrite (claimed w iface Hw). split.
    + intros (id & pd & Hat & Hi & Ho). pose proof Hat as (l & Hl & Hpd)%client_at_some.
      destruct (used r id l Hok Hl) as [n Hn]; [intros [_ Hidle]; rewrite Hidle in Ho; done|].
      exists n, id, pd. split; [done|]. split; [done|]. split; [done|]. by apply (Hclient n id).
    + intros (n & id & pd & Hn & Hat & Hi & _). exists id, pd. split; [done|]. split; [done|]. by apply (Hclient n id).
  - intros id pd (l & Hl & Hpd)%client_at_some Hst. apply (used r id l Hok Hl). intros [Hrun _].
    rewrite (client_runs _ l pd (ac_live w Hw id l Hl) Hpd) in Hst. fold w in Hrun. congruence.
  - intros n n' id id' pd pd' Hn Hn' Hat Hat' Ei.
    assert (id = id') as <-; [|by apply (ok_distinct r Hok n n' id)].
    destruct (Hclient _ _ _ Hn Hat) as [_ Ho]. destruct (Hclient _ _ _ Hn' Hat') as [_ Ho'].
    apply client_at_some in Hat as (l & Hl & Hpd). apply client_at_some in Hat' as (l' & Hl' & Hpd').
    apply (w_unique _ (ac_world w Hw) id id' (receiver_of l) (receiver_of l') (pd_iface pd));
      [by apply receivers_lookup..|by exists pd|by exists pd'].
  - intros i e He. rewrite (serving _ i e (pg_ok _ (ac_pool w Hw)) He). split.
    + intros (sub & s & Hs & Ei & Hst). assert (Sub_Running sub (aq_pool w) = true) as Hrun by (unfold Sub_Running; by rewrite Hs).
      destruct (ac_owner w Hw sub Hrun) as (id & l & Hl & Hsub).
      destruct (used r id l Hok Hl) as [n Hn].
      { intros [Hr _]. rewrite (sub_runs _ l sub (ac_live w Hw id l Hl) Hsub) in Hrun. fold w in Hr. congruence. }
      exists n, id, sub, s. split; [done|]. split; [|done]. apply sub_at_some. by exists l.
    + intros (n & id & sub & s & Hn & (l & Hl & Hsub)%sub_at_some & Hs & Ei). exists sub, s. do 2 (split; [done|]).
      destruct (in_use r n id Hok Hn) as (x & spec & Hx & _ & Hrun & _). fold w in Hx, Hrun. rewrite Hl in Hx. injection Hx as <-.
      rewrite <- (sub_runs _ l sub (ac_live w Hw id l Hl) Hsub) in Hrun. unfold Sub_Running in Hrun. by rewrite Hs in Hrun.
Qed.

(** C5 Each resource is served as the spec it was last reconciled with says: its
    receiver runs, it has a DHCPv6-PD client exactly when the spec asks for delegation
    and a subscription exactly when it enables Router Advertisements, on the interfaces
    and with the policy of that spec, and that policy accepts the prefix it holds - but
    for an option of a Router Advertisement shorter than /3, which is within its length
    bounds only; a lower bound of 3 excludes that.  No reconcile and no turn of any loop
    panics. *)
Theorem operator_serves_specs (r : reconciler) :
  operator r ->
  (forall n id, rc_receivers r !! n = Some id ->
     exists l spec, aq_receivers (rc_world r) !! id = Some l /\ rc_receiverSpecs r !! n = Some spec /\
       live_running (aq_pool (rc_world r)) l = true /\ made_for (aq_pool (rc_world r)) l spec /\
       forall p, hCurrentPrefix (rc_world r) id = Some p -> accepted_by (prefixPolicyFor spec) p /\
         (3 <= MinPrefixLength (prefixPolicyFor spec) -> Validate (prefixPolicyFor spec) (Network p) = None)) /\
  (forall env name, (forall dp, re_get env = GetObject dp -> dp_Name dp = name) ->
     exists r' res, reconcile env name r = Some (r', res)) /\
  (forall s, lawful s (rc_world r) -> exists w, aq_step s (rc_world r) = Some w).
Proof.
  intros Hop. pose proof (operator_controller r Hop) as Hctl. pose proof (controller_ok _ _ _ Hctl) as Hok.
  pose proof (ok_world r Hok) as Hw. split; [|split].
  - intros n id Hn. destruct (in_use r n id Hok Hn) as (l & spec & Hl & Hs & Hrun & Hm). exists l, spec.
    do 4 (split; [done|]). intros p Hp. cbn in Hp. rewrite Hl in Hp. cbn in Hp.
    assert (accepted_by (prefixPolicyFor spec) p) as Ha by by eapply live_prefix_accepted. split; [done|].
    intros Hmin. destruct Ha as [|(H3 & Hlen & _)]; [done|]. apply (checkLength_min _ _ 3) in Hlen; lia.
  - intros env name Hname. destruct (Reconcile_spec Set_ Find env name r Hok Hname) as (r' & res & H & _). by exists r', res.
  - intros s Hs. destruct (aq_step_ok s _ Hw Hs) as (w & H & _). by exists w.
Qed.
End Operator.

(** ** A run: both halves, a lease, a deletion *)

Definition both_acquisition : AcquisitionSpec :=
  mkAcquisition (Some (mkDHCPv6PDSpec "wan0" None)) (Some (mkRASpec "wan0" None [])) None.

Definition both_dp : DynamicPrefix :=
  mkDynamicPrefix "home" false true 1 None (mkSpec both_acquisition [] [] None) no_status.

Definition operator_env (get : get_result) : @reconcile_env ra_env := mkReconcileEnv 100 get None None started_env.

Definition reconciled (get : get_result) (r : @reconciler acquisition nat) : @reconciler acquisition nat :=
  default r (fst <$> DynamicPrefix.Reconcile list_SetStatusCondition list_FindStatusCondition (operator_env get) "home" r).

Definition progressed (s : progress) (r : @reconciler acquisition nat) : @reconciler acquisition nat :=
  set_rc_world (default (rc_world r) (aq_step s (rc_world r))) r.

Lemma reconciled_operator get r : (forall dp, get = GetObject dp -> dp_Name dp = "home") ->
  operator list_SetStatusCondition list_FindStatusCondition r ->
  operator list_SetStatusCondition list_FindStatusCondition (reconciled get r).
Proof.
  intros Hn Hr. unfold reconciled.
  destruct (DynamicPrefix.Reconcile _ _ _ _ _) as [[r' res]|] eqn:E; [|done]. cbn.
  by eapply (operator_reconcile _ _ (operator_env get) "home" r).
Qed.

Lemma progressed_operator s r : lawful s (rc_world r) ->
  operator list_SetStatusCondition list_FindStatusCondition r ->
  operator list_SetStatusCondition list_FindStatusCondition (progressed s r).
Proof.
  intros Hs Hr. unfold progressed. destruct (aq_step s (rc_world r)) as [w|] eqn:E; cbn.
  - by eapply operator_moves, move_progress.
  - by destruct r.
Qed.

Definition served : @reconciler acquisition nat :=
  progressed (ClientBegins 0 (serving_env 100)) (reconciled (GetObject both_dp) (new_operator false true)).

Lemma served_operator : operator list_SetStatusCondition list_FindStatusCondition served.
Proof.
  apply progressed_operator; [apply serving_env_wf|]. apply reconciled_operator; [by intros dp [= <-]|]. apply operator_start.
Qed.

(** The claim is held while the resource is there, and gone with it. *)
Lemma operator_holds_what_it_uses_witness :
  "wan0" ∈ f_pdInterfaces (aq_factory (rc_world served)) /\
  ("wan0" ∉ f_pdInterfaces (aq_factory (rc_world (reconciled GetNotFound served)))).
Proof.
  split.
  - destruct (operator_holds_what_it_uses _ _ served served_operator) as (H & _). apply H.
    exists "home", 0%nat. eexists. split; [vm_compute; reflexivity|]. split; [vm_compute; reflexivity|].
    split; vm_compute; reflexivity.
  - destruct (operator_holds_what_it_uses _ _ (reconciled GetNotFound served)
      (reconciled_operator GetNotFound served ltac:(discriminate) served_operator)) as (H & _).
    intros Hin. apply H in Hin as (n & id & pd & Hn & _).
    assert (map_to_list (rc_receivers (reconciled GetNotFound served)) = []) as He by (vm_compute; reflexivity).
    apply map_to_list_empty_iff in He. rewrite He, lookup_empty in Hn. discriminate Hn.
Defined.

Lemma operator_serves_specs_witness :
  exists p, hCurrentPrefix (rc_world served) 0%nat = Some p /\
    netiptext.PrefixString (Network p) = "2001:db8:100::/56" /\ accepted_by (prefixPolicyFor both_acquisition) p.
Proof.
  destruct (operator_serves_specs _ _ served served_operator) as (H & _).
  assert (rc_receivers served !! "home" = Some 0%nat) as Hn by (vm_compute; reflexivity).
  destruct (H "home" 0%nat Hn) as (l & spec & _ & Hs & _ & _ & Hp).
  assert (rc_receiverSpecs served !! "home" = Some both_acquisition) as Hs' by (vm_compute; reflexivity).
  rewrite Hs in Hs'. injection Hs' as ->.
  set (p := mkPrefix (prefix_of_string "2001:db8:100::/56") (7200 * time_Second) (3600 * time_Second) SourceDHCPv6PD 100).
  assert (hCurrentPrefix (rc_world served) 0%nat = Some p) as Hc by (vm_compute; reflexivity).
  exists p. split; [exact Hc|]. split; [vm_compute; reflexivity|]. by apply Hp.
Defined.
