(* ===== verification/Ownership.v ===== *)
(** * Ownership records and shared lists

    [internal/controller/ownership.go], [ownedlist.go] and the entry tests of
    [poolsync_backends.go] and [poolsync_controller.go]: how the operator tells
    its own entries in a list it shares with the user.  It records the keys of
    what it wrote in an annotation; an object without a record is judged by
    geometry.  [syncOwnedList] and [releaseRecordedSlice] are the two procedures
    every list backend uses. *)

From S2P Require Import Prelude GoStrings Netip NetipText AddressRange Receivers.

(** ** Records *)

Definition AnnotationManagedIPs : string := "dynamic-prefix.io/managed-ips".
Definition AnnotationManagedTargets : string := "dynamic-prefix.io/managed-targets".
Definition AnnotationManagedBlocks : string := "dynamic-prefix.io/managed-blocks".
Definition AnnotationManagedAddresses : string := "dynamic-prefix.io/managed-addresses".
Definition AnnotationManagedCIDRs : string := "dynamic-prefix.io/managed-cidrs".
Definition AnnotationManagedCIDR : string := "dynamic-prefix.io/managed-cidr".
Definition AnnotationManagedKubevipEntries : string := "dynamic-prefix.io/managed-kubevip-entries".
Definition AnnotationLastSync : string := "dynamic-prefix.io/last-sync".

Record ownershipRecord : Type := mkRecord { rec_entries : gset string; rec_present : bool }.

(** An address or a prefix by what it is, anything else by its text. *)
Definition canonicalEntry (entry : string) : string :=
  match netiptext.ParseAddr entry with
  | Some a => netiptext.AddrString a
  | None => match netiptext.ParsePrefix entry with
            | Some p => netiptext.PrefixString p
            | None => entry
            end
  end.

Definition record_items (value : string) : list string :=
  filter (fun item => item <> EmptyString) (TrimSpace <$> split_on "," value).

(** [None]: the annotation does not exist. *)
Definition parseOwnershipRecord (value : option string) : ownershipRecord :=
  match value with
  | None => mkRecord empty false
  | Some v => mkRecord (list_to_set (canonicalEntry <$> record_items v)) true
  end.

Definition owns (r : ownershipRecord) (entry : string) : bool :=
  bool_decide (canonicalEntry entry ∈ rec_entries r).

Definition formatOwnershipRecord (entries : list string) : string := join "," entries.

Definition hasOwnershipRecord (annotations : gmap string string) : bool :=
  existsb (fun key => bool_decide (is_Some (annotations !! key)))
    [AnnotationManagedIPs; AnnotationManagedTargets; AnnotationManagedBlocks; AnnotationManagedCIDRs;
     AnnotationManagedCIDR; AnnotationManagedAddresses; AnnotationManagedKubevipEntries].

Definition excludePinned (candidates pinned : list string) : list string :=
  let pinnedKeys : gset string := list_to_set ((fun p => canonicalEntry (TrimSpace p)) <$> pinned) in
  filter (fun c => canonicalEntry (TrimSpace c) ∉ pinnedKeys) candidates.

Fixpoint dedupe_from (seen : gset string) (items : list string) : list string :=
  match items with
  | [] => []
  | item :: items' =>
      let key := canonicalEntry item in
      if decide (key ∈ seen) then dedupe_from seen items'
      else item :: dedupe_from ({[key]} ∪ seen) items'
  end.

Definition dedupePreservingOrder (items : list string) : list string := dedupe_from empty items.

(** ** Geometry *)

Definition isPrefixSubsetOfManaged (p : netip.Prefix) (managedPrefixes : list netip.Prefix) : bool :=
  existsb (fun mp => (netip.Bits mp <=? netip.Bits p) && netip.Contains mp (netip.ip p)) managedPrefixes.

Definition addrInManagedPrefixes (a : netip.Addr) (managedPrefixes : list netip.Prefix) : bool :=
  existsb (fun mp => netip.Contains mp a) managedPrefixes.

Definition addrToBigInt (a : netip.Addr) : option (Z * Z) :=
  if netip.Is4 a then Some (netip.be_value (netip.As4 a), 32)
  else if netip.Is6 a then Some (netip.be_value (netip.As16 a), 128)
  else None.

(** [FillBytes] into [n] bytes panics on a value that does not fit: [None]. *)
Definition fill_bytes (n : nat) (value : Z) : option (list Z) :=
  if value <? 256 ^ Z.of_nat n
  then Some ((fun i => Z.shiftr value (8 * (Z.of_nat n - 1 - Z.of_nat i)) mod 256) <$> seq 0 n) else None.

Definition bigIntToAddr (value bitLen : Z) : option netip.Addr :=
  if bitLen =? 32 then netip.AddrFrom4 <$> fill_bytes 4 value
  else netip.AddrFrom16 <$> fill_bytes 16 value.

Definition lastAddrOfPrefix (p0 : netip.Prefix) : outcome string netip.Addr :=
  let p := netip.Masked p0 in
  match addrToBigInt (netip.ip p) with
  | None => Fail "unsupported IP address"
  | Some (base, bitLen) =>
      let hostBits := bitLen - netip.Bits p in
      if hostBits <? 0 then Fail "invalid prefix length"
      else
        let hostMask := Z.shiftl 1 hostBits - 1 in
        match bigIntToAddr (Z.lor base hostMask) bitLen with
        | Some a => Ret a
        | None => Panic
        end
  end.

(** A panic in [lastAddrOfPrefix] is [None]. *)
Fixpoint addressRangeWithinManaged (start end_ : netip.Addr) (managedPrefixes : list netip.Prefix)
    : option bool :=
  match managedPrefixes with
  | [] => Some false
  | mp :: rest =>
      let (lo, hi) := if 0 <? netip.Compare start end_ then (end_, start) else (start, end_) in
      if negb (Bool.eqb (netip.Is4 (netip.ip mp)) (netip.Is4 lo)) then addressRangeWithinManaged start end_ rest
      else
        let managedStart := netip.ip (netip.Masked mp) in
        match lastAddrOfPrefix mp with
        | Panic => None
        | Fail _ => addressRangeWithinManaged start end_ rest
        | Ret managedEnd =>
            if ((0 <=? netip.Compare lo managedStart) && (netip.Compare hi managedEnd <=? 0))%bool then Some true
            else addressRangeWithinManaged start end_ rest
        end
  end.

Inductive exact_error : Type :=
| ErrRangeStart (s : string)
| ErrRangeEnd (s : string)
| ErrRangeFamily
| ErrRangeOrder (start end_ : netip.Addr)
| ErrRangeNotIPv6
| ErrLastAddr (s : string).

(** The CIDR and whether it is exactly the range. *)
Definition exactCIDRForAddressRange (startStr endStr : string) : outcome exact_error (string * bool) :=
  match netiptext.ParseAddr startStr, netiptext.ParseAddr endStr with
  | None, _ => Fail (ErrRangeStart startStr)
  | _, None => Fail (ErrRangeEnd endStr)
  | Some start, Some end_ =>
      if negb (Bool.eqb (netip.Is4 start) (netip.Is4 end_)) then Fail ErrRangeFamily
      else if 0 <? netip.Compare start end_ then Fail (ErrRangeOrder start end_)
      else if negb (netip.Is6 start) then Fail ErrRangeNotIPv6
      else
        let cidr := RangeToCIDR start end_ in
        (let* last := wrap_err ErrLastAddr (lastAddrOfPrefix cidr) in
         Ret (netiptext.PrefixString cidr,
              bool_decide (netip.ip (netip.Masked cidr) = start /\ last = end_)))%go
  end.

Definition isManagedAddressEntry (entry0 : string) (managedPrefixes : list netip.Prefix) : option bool :=
  let entry := TrimSpace entry0 in
  if decide (entry = EmptyString) then Some false
  else
    match cut_first "-" entry with
    | Some (startStr, endStr) =>
        match netiptext.ParseAddr (TrimSpace startStr), netiptext.ParseAddr (TrimSpace endStr) with
        | Some start, Some end_ =>
            if (netip.Is4 start || netip.Is4 end_)%bool then Some false
            else addressRangeWithinManaged start end_ managedPrefixes
        | _, _ => Some false
        end
    | None =>
        match netiptext.ParsePrefix entry with
        | Some p => Some (if netip.Is4 (netip.ip p) then false else isPrefixSubsetOfManaged p managedPrefixes)
        | None =>
            match netiptext.ParseAddr entry with
            | Some a => Some (if netip.Is4 a then false else addrInManagedPrefixes a managedPrefixes)
            | None => Some false
            end
        end
    end.

(** ** Entries of a list field

    A list holds JSON values: strings, objects - of which the operator reads three
    fields, [Some] when they hold a string, the rest being kept for comparison -
    and anything else. *)
Record block : Type := mkBlock {
  blk_cidr : option string;
  blk_start : option string;
  blk_stop : option string;
  blk_rest : string
}.

Inductive item : Type :=
| ItemString (s : string)
| ItemBlock (b : block)
| ItemOther (json : string).

#[global] Instance item_eq_dec : EqDecision item.
Proof. assert (EqDecision block) by solve_decision. solve_decision. Defined.

Definition blockKey (b : block) : string :=
  match blk_cidr b with
  | Some (String _ _ as cidr) => "cidr=" +:+ canonicalEntry cidr
  | _ =>
      let start := default EmptyString (blk_start b) in
      let stop := default EmptyString (blk_stop b) in
      if decide (start = EmptyString) then EmptyString
      else if decide (stop = EmptyString) then "range=" +:+ canonicalEntry start
      else "range=" +:+ canonicalEntry start +:+ "-" +:+ canonicalEntry stop
  end.

Definition isManagedBlock (b : block) (managedPrefixes : list netip.Prefix) : bool :=
  let by_start :=
    match blk_start b with
    | None => false
    | Some start =>
        match netiptext.ParseAddr start with
        | None => false
        | Some a =>
            if netip.Is4 a then false
            else
              let in_both e := existsb (fun mp => netip.Contains mp a && netip.Contains mp e) managedPrefixes in
              match blk_stop b with
              | Some (String _ _ as stop) =>
                  match netiptext.ParseAddr stop with
                  | None => false
                  | Some e => if netip.Is4 e then false else in_both e
                  end
              | _ => in_both a
              end
        end
    end in
  match blk_cidr b with
  | Some cidr =>
      match netiptext.ParsePrefix cidr with
      | Some p => if netip.Is4 (netip.ip p) then false else isPrefixSubsetOfManaged p managedPrefixes
      | None => by_start
      end
  | None => by_start
  end.

Definition isOwnedBlock (b : block) (record : ownershipRecord) (managedPrefixes : list netip.Prefix) : bool :=
  if negb (rec_present record) then isManagedBlock b managedPrefixes
  else let key := blockKey b in
       if decide (key = EmptyString) then false else owns record key.

Definition isOwnedCIDR (cidr : string) (record : ownershipRecord) (managedPrefixes : list netip.Prefix) : bool :=
  if negb (rec_present record) then
    match netiptext.ParsePrefix cidr with
    | None => false
    | Some p => isPrefixSubsetOfManaged p managedPrefixes
    end
  else owns record cidr.

(** The form "start-end", or an address or CIDR. *)
Definition canonicalAddressEntry (entry0 : string) : string :=
  let entry := TrimSpace entry0 in
  match cut_first "-" entry with
  | Some (startStr, endStr) =>
      canonicalEntry (TrimSpace startStr) +:+ "-" +:+ canonicalEntry (TrimSpace endStr)
  | None => canonicalEntry entry
  end.

Definition isOwnedAddressEntry (entry : string) (record : ownershipRecord)
    (managedPrefixes : list netip.Prefix) : option bool :=
  if negb (rec_present record) then isManagedAddressEntry entry managedPrefixes
  else Some (owns record (canonicalAddressEntry entry)).

Definition stringKeyOf (x : item) : string := match x with ItemString s => s | _ => EmptyString end.
Definition blockKeyOf (x : item) : string := match x with ItemBlock b => blockKey b | _ => EmptyString end.
Definition cidrKeyOf (x : item) : string := canonicalEntry (stringKeyOf x).
Definition addressKeyOf (x : item) : string := canonicalAddressEntry (stringKeyOf x).

(** ** The shared list *)

(** What [NestedSlice] finds at the field's path. *)
Inductive nested : Type := ListAbsent | ListWrongType | ListFound (l : list item).

Record pool : Type := mkPoolObject {
  p_list : nested;
  p_annotations : gmap string string
}.

Record ownedEntry : Type := mkOwned { oe_value : item; oe_key : string }.

Definition recordFor (p : pool) (key : string) : option string := p_annotations p !! key.

Definition setPoolAnnotation (key value : string) (p : pool) : pool :=
  mkPoolObject (p_list p) (<[key := value]> (p_annotations p)).

Definition set_list (l : list item) (p : pool) : pool := mkPoolObject (ListFound l) (p_annotations p).

(** The entries of [desired] this pass writes: with a key, not seen before, and
    not pinned. *)
Fixpoint claim (pinned seen : gset string) (desired : list ownedEntry) : list ownedEntry :=
  match desired with
  | [] => []
  | e :: rest =>
      if decide (oe_key e = EmptyString) then claim pinned seen rest
      else if decide (oe_key e ∈ seen) then claim pinned seen rest
      else
        let seen' := {[oe_key e]} ∪ seen in
        if decide (oe_key e ∈ pinned) then claim pinned seen' rest
        else e :: claim pinned seen' rest
  end.

(** The pool in memory, whether it was written, and the error. *)
Definition syncOwnedList (now : string) (updateErr : option error) (recordKey : string)
    (desired : list ownedEntry) (keyOf : item -> string) (owned : item -> bool) (p : pool)
    : pool * (bool * option error) :=
  match p_list p with
  | ListWrongType => (p, (false, Some (errors_New "failed to read the list")))
  | ListAbsent | ListFound _ =>
      let existing := match p_list p with ListFound l => l | _ => [] end in
      let preserved := filter (fun x => owned x = false) existing in
      let pinned : gset string :=
        list_to_set (filter (fun k => k <> EmptyString) (keyOf <$> preserved)) in
      let claimed := claim pinned empty desired in
      let entries := preserved ++ (oe_value <$> claimed) in
      let managedRecord := formatOwnershipRecord (oe_key <$> claimed) in
      let entriesChanged := negb (bool_decide (existing = entries)) in
      let recordChanged := negb (bool_decide (recordFor p recordKey = Some managedRecord)) in
      if (negb entriesChanged && negb recordChanged)%bool then (p, (false, None))
      else
        let p1 := if entriesChanged then set_list entries p else p in
        (setPoolAnnotation AnnotationLastSync now (setPoolAnnotation recordKey managedRecord p1),
         (true, updateErr))
  end.

Definition releaseRecordedSlice (recordKey : string) (keyOf : item -> string) (p : pool)
    : pool * (bool * option error) :=
  match recordFor p recordKey with
  | None => (p, (false, None))
  | Some value =>
      let record := parseOwnershipRecord (Some value) in
      match p_list p with
      | ListWrongType => (p, (false, Some (errors_New "failed to read the list")))
      | ListAbsent | ListFound _ =>
          let existing := match p_list p with ListFound l => l | _ => [] end in
          let kept := filter (fun x => keyOf x = EmptyString \/ owns record (keyOf x) = false) existing in
          (mkPoolObject (ListFound kept) (delete recordKey (p_annotations p)), (true, None))
      end
  end.

(** * Records and keys *)

(** A prefix text has a slash and no zone, so it is no address. *)
Lemma ParsePrefix_not_addr x p : netiptext.ParsePrefix x = Some p -> netiptext.ParseAddr x = None.
Proof.
  intros Hx. destruct (netiptext.ParseAddr x) as [a|] eqn:Ea; [|done]. exfalso.
  apply ParsePrefix_bytes in Hx as Hb. unfold netiptext.ParsePrefix in Hx.
  destruct (cut_last "/" x) as [[l r]|] eqn:Hcut; [|done]. apply cut_last_split in Hcut as ->.
  apply ParseAddr_bytes in Ea.
  - rewrite str_all_app in Ea. cbn in Ea. by rewrite andb_false_r in Ea.
  - eapply str_all_impl; [|exact Hb]. intros c Hc. unfold not_byte. rewrite bool_decide_false; [done|]. by intros ->.
Qed.

(** Normalising is by identity: the same address or prefix, however spelled, has
    one text, and that text is its own normal form. *)
Lemma canonicalEntry_idem s : canonicalEntry (canonicalEntry s) = canonicalEntry s.
Proof.
  unfold canonicalEntry at 2 3. destruct (netiptext.ParseAddr s) as [a|] eqn:Ha.
  - apply ParseAddr_wf in Ha as [? ?]. unfold canonicalEntry. by rewrite ParseAddr_String.
  - destruct (netiptext.ParsePrefix s) as [p|] eqn:Hp.
    + apply ParsePrefix_wf in Hp as [? ?]. unfold canonicalEntry.
      by rewrite ParseAddr_PrefixString, ParsePrefix_String.
    + unfold canonicalEntry. by rewrite Ha, Hp.
Qed.

(** A key that survives the annotation: not empty, no comma, nothing to trim. *)
Definition key_text (k : string) : Prop :=
  k <> EmptyString /\ TrimSpace k = k /\ str_all (not_byte ",") k = true.

Lemma record_items_format ks : Forall key_text ks -> record_items (formatOwnershipRecord ks) = ks.
Proof.
  intros H. unfold record_items, formatOwnershipRecord. destruct ks as [|k ks]; [done|].
  rewrite split_join; [|done|by eapply Forall_impl; [exact H|]; intros x (_ & _ & ?)].
  assert (TrimSpace <$> (k :: ks) = k :: ks) as ->.
  { rewrite <- (list_fmap_id (k :: ks)) at 2. apply list_fmap_ext.
    intros i x Hx. rewrite Forall_lookup in H. by destruct (H i x Hx) as (_ & ? & _). }
  apply filter_all_true. intros x Hx. rewrite Forall_forall in H. by destruct (H x Hx).
Qed.

Lemma owns_format ks k : Forall key_text ks ->
  owns (parseOwnershipRecord (Some (formatOwnershipRecord ks))) k =
  bool_decide (canonicalEntry k ∈ canonicalEntry <$> ks).
Proof.
  intros H. unfold owns, parseOwnershipRecord. cbn [rec_entries]. rewrite record_items_format by done.
  apply bool_decide_ext. by rewrite elem_of_list_to_set.
Qed.

(** ** Claiming *)

Ltac claims :=
  rewrite ?elem_of_cons, ?elem_of_union, ?elem_of_singleton in *; repeat split;
  (tauto || (let E := fresh in intros E; destruct E as [E|E]; [rewrite E in *; tauto|tauto])).

Lemma claim_sub e pinned seen desired :
  e ∈ claim pinned seen desired ->
  e ∈ desired /\ oe_key e <> EmptyString /\ (oe_key e ∉ pinned) /\ (oe_key e ∉ seen).
Proof.
  revert seen. induction desired as [|d desired IH]; intros seen; cbn [claim]; [by intros ?%not_elem_of_nil|].
  repeat case_decide; intros He; try (apply IH in He as (? & ? & ? & ?); claims).
  apply elem_of_cons in He as [->|He]; [by repeat split; [apply list_elem_of_here|..]|].
  apply IH in He as (? & ? & ? & ?). claims.
Qed.

Lemma claim_complete e pinned seen desired :
  e ∈ desired -> oe_key e <> EmptyString -> oe_key e ∉ pinned -> oe_key e ∉ seen ->
  oe_key e ∈ oe_key <$> claim pinned seen desired.
Proof.
  revert seen. induction desired as [|d desired IH]; intros seen He Hk Hp Hs; cbn [claim];
    [by apply not_elem_of_nil in He|].
  apply elem_of_cons in He as [<-|He].
  - rewrite !decide_False by done. by apply list_elem_of_here.
  - repeat case_decide; try (apply IH; claims).
    cbn [fmap list_fmap]. apply elem_of_cons.
    destruct (decide (oe_key e = oe_key d)); [by left|]. right. apply IH; claims.
Qed.

Lemma claim_NoDup pinned seen desired : NoDup (oe_key <$> claim pinned seen desired).
Proof.
  revert seen. induction desired as [|d desired IH]; intros seen; cbn [claim]; [constructor|].
  repeat case_decide; try apply IH. cbn [fmap list_fmap]. constructor; [|apply IH].
  intros (e & Hk & He)%list_elem_of_fmap. apply claim_sub in He as (_ & _ & _ & Hs).
  apply Hs, elem_of_union. left. by apply elem_of_singleton.
Qed.

(** Claiming what was claimed, against the same pins, changes nothing. *)
Lemma claim_claim pinned seen desired :
  claim pinned seen (claim pinned seen desired) = claim pinned seen desired.
Proof.
  assert (forall l seen, (forall e, e ∈ l -> oe_key e <> EmptyString /\ (oe_key e ∉ pinned) /\ (oe_key e ∉ seen)) ->
    NoDup (oe_key <$> l) -> claim pinned seen l = l) as Hid.
  { induction l as [|e l IH]; intros s Hl Hnd; [done|]. cbn [claim].
    destruct (Hl e (list_elem_of_here _ _)) as (? & ? & ?). rewrite !decide_False by done. f_equal.
    cbn in Hnd. inversion Hnd as [|? ? Hn Hnd']; subst. apply IH; [|done]. intros x Hx.
    destruct (Hl x (list_elem_of_further _ _ _ Hx)) as (? & ? & ?). split; [done|]. split; [done|].
    rewrite elem_of_union, elem_of_singleton. intros [E|?]; [|done]. apply Hn. rewrite <- E.
    by apply list_elem_of_fmap_2. }
  apply Hid; [|apply claim_NoDup]. intros e He. by apply claim_sub in He as (_ & ? & ? & ?).
Qed.

(** * The promise of a list backend

    What [syncOwnedList] relies on: entries the operator writes have keys that
    survive the annotation and are recognised again, and the record decides
    ownership by key. *)
Class OwnedListLaws (keyOf : item -> string) (owned : ownershipRecord -> item -> bool)
    (ok : ownedEntry -> Prop) : Prop := {
  ol_text : forall e, ok e -> key_text (oe_key e);
  ol_value : forall e, ok e -> keyOf (oe_value e) = oe_key e;
  ol_owned : forall es x, Forall ok es ->
    owned (parseOwnershipRecord (Some (formatOwnershipRecord (oe_key <$> es)))) x =
      bool_decide (keyOf x ∈ oe_key <$> es);
  ol_recorded : forall es x, Forall ok es ->
    owns (parseOwnershipRecord (Some (formatOwnershipRecord (oe_key <$> es)))) (keyOf x) =
      bool_decide (keyOf x ∈ oe_key <$> es)
}.

(** ** The specification: two lists that do not touch each other *)

Record shared : Type := mkShared { sh_user : list item; sh_mine : list ownedEntry }.

Inductive shared_op : Type :=
| OpSync (desired : list ownedEntry)
| OpUser (entries : list item).

Section Shared.
Context (keyOf : item -> string) (owned : ownershipRecord -> item -> bool) (ok : ownedEntry -> Prop).
Context `{HL : !OwnedListLaws keyOf owned ok}.
Context (recordKey : string) (not_last_sync : recordKey <> AnnotationLastSync).

Definition pins (user : list item) : gset string :=
  list_to_set (filter (fun k => k <> EmptyString) (keyOf <$> user)).

Definition spec_step (op : shared_op) (s : shared) : shared :=
  match op with
  | OpSync desired => mkShared (sh_user s) (claim (pins (sh_user s)) empty desired)
  | OpUser entries => mkShared entries (sh_mine s)
  end.

Definition existing (p : pool) : list item := match p_list p with ListFound l => l | _ => [] end.

(** One pass of a backend over the pool, as the backends call it. *)
Definition sync_pass (now : string) (desired : list ownedEntry) (p : pool) : pool * (bool * option error) :=
  syncOwnedList now None recordKey desired keyOf (owned (parseOwnershipRecord (recordFor p recordKey))) p.

(** The user's entries and the operator's are told apart by the record. *)
Definition represents (s : shared) (p : pool) : Prop :=
  p_list p <> ListWrongType /\
  recordFor p recordKey = Some (formatOwnershipRecord (oe_key <$> sh_mine s)) /\
  Forall ok (sh_mine s) /\
  filter (fun x => keyOf x ∉ oe_key <$> sh_mine s) (existing p) = sh_user s /\
  filter (fun x => keyOf x ∈ oe_key <$> sh_mine s) (existing p) = oe_value <$> sh_mine s.

Definition desired_ok (desired : list ownedEntry) : Prop :=
  Forall (fun e => oe_key e = EmptyString \/ ok e) desired.

Lemma claim_ok pinned desired : desired_ok desired -> Forall ok (claim pinned empty desired).
Proof.
  intros H. apply Forall_forall. intros e He. apply claim_sub in He as (Hin & Hk & _).
  unfold desired_ok in H. rewrite Forall_forall in H. by destruct (H e Hin).
Qed.

Lemma record_keys_text es : Forall ok es -> Forall key_text (oe_key <$> es).
Proof. intros H. apply Forall_fmap. eapply Forall_impl; [exact H|]. intros e. apply ol_text. Qed.

(** The list a pass leaves: the unowned entries in order, then what it claims. *)
Lemma syncOwnedList_result now err desired own p :
  p_list p <> ListWrongType ->
  let user := filter (fun x => own x = false) (existing p) in
  let mine := claim (pins user) empty desired in
  let res := syncOwnedList now err recordKey desired keyOf own p in
  existing res.1 = user ++ (oe_value <$> mine) /\
  recordFor res.1 recordKey = Some (formatOwnershipRecord (oe_key <$> mine)) /\
  p_list res.1 <> ListWrongType /\
  (res.2.1 = false -> res.1 = p) /\
  (existing p = user ++ (oe_value <$> mine) ->
   recordFor p recordKey = Some (formatOwnershipRecord (oe_key <$> mine)) -> res = (p, (false, None))) /\
  (forall key, key <> recordKey -> key <> AnnotationLastSync ->
     p_annotations res.1 !! key = p_annotations p !! key).
Proof.
  intros Hw user mine. cbv zeta. unfold syncOwnedList, existing in *.
  destruct (p_list p) as [| |l] eqn:El; [|done|].
  all: fold user; fold (pins user); fold mine; cbv zeta.
  all: match goal with |- context [bool_decide (?a = ?b)] => destruct (decide (a = b)) as [E1|E1] end;
    [rewrite (bool_decide_true _ E1)|rewrite (bool_decide_false _ E1)];
    (destruct (decide (recordFor p recordKey = Some (formatOwnershipRecord (oe_key <$> mine)))) as [E2|E2];
     [rewrite (bool_decide_true _ E2)|rewrite (bool_decide_false _ E2)]); cbn [negb andb fst snd].
  all: try (rewrite El; split; [done|]; split; [done|]; split; [done|]; split; [done|]; split; [done|done]).
  all: split; [cbn; rewrite ?El; done|]; split;
    [unfold recordFor, setPoolAnnotation; cbn; rewrite lookup_insert_ne by congruence; apply lookup_insert_eq|];
    split; [cbn; rewrite ?El; done|]; split; [done|]; split; [intros; contradiction|];
    intros key Hk1 Hk2; unfold setPoolAnnotation; cbn; rewrite !lookup_insert_ne by congruence; done.
Qed.

(** After a pass the record tells the two parts apart again. *)
Lemma sync_represents user mine p :
  p_list p <> ListWrongType -> existing p = user ++ (oe_value <$> mine) ->
  recordFor p recordKey = Some (formatOwnershipRecord (oe_key <$> mine)) ->
  Forall ok mine -> (forall x, x ∈ user -> keyOf x ∉ oe_key <$> mine) ->
  represents (mkShared user mine) p.
Proof.
  intros Hw Hl Hr Hok Hu. unfold represents. cbn [sh_user sh_mine]. rewrite Hl, !filter_app.
  assert (forall x, x ∈ oe_value <$> mine -> keyOf x ∈ oe_key <$> mine) as Hm.
  { intros x (e & -> & He)%list_elem_of_fmap. rewrite Forall_forall in Hok.
    rewrite (ol_value e) by auto. by apply list_elem_of_fmap_2. }
  rewrite (filter_all_true _ user) by done. rewrite (filter_all_false _ (oe_value <$> mine)) by (intros x Hx Hn; by apply Hn, Hm).
  rewrite app_nil_r. split; [done|]. split; [done|]. split; [done|]. split; [done|].
  rewrite (filter_all_false _ user) by done. rewrite (filter_all_true _ (oe_value <$> mine)) by done. done.
Qed.

Lemma claimed_not_user user desired x :
  x ∈ user -> keyOf x ∉ oe_key <$> claim (pins user) empty desired.
Proof.
  intros Hx (e & Hk & He)%list_elem_of_fmap. apply claim_sub in He as (_ & Hne & Hp & _). apply Hp.
  unfold pins. rewrite elem_of_list_to_set, list_elem_of_filter, <- Hk. split; [congruence|].
  by apply list_elem_of_fmap_2.
Qed.

Lemma unowned_of_record s p : represents s p ->
  filter (fun x => owned (parseOwnershipRecord (recordFor p recordKey)) x = false) (existing p) = sh_user s.
Proof.
  intros (_ & Hr & Hok & Hu & _). rewrite Hr, <- Hu. apply list_filter_iff. intros x.
  rewrite (ol_owned (sh_mine s) x Hok). by rewrite bool_decide_eq_false.
Qed.

Lemma sync_pass_represents now desired s p :
  represents s p -> desired_ok desired ->
  let s' := spec_step (OpSync desired) s in
  represents s' (sync_pass now desired p).1 /\
  existing (sync_pass now desired p).1 = sh_user s' ++ (oe_value <$> sh_mine s').
Proof.
  intros Hrep Hd s'. pose proof (unowned_of_record s p Hrep) as Hu. destruct Hrep as (Hw & _).
  unfold sync_pass.
  destruct (syncOwnedList_result now None desired (owned (parseOwnershipRecord (recordFor p recordKey))) p Hw)
    as (Hl & Hr & Hw' & _). rewrite Hu in *. split; [|exact Hl].
  apply sync_represents; [done|exact Hl|exact Hr|by apply claim_ok|]. intros x. apply claimed_not_user.
Qed.

(** ** Runs of passes and edits *)

(** An edit replaces the list, keeping the operator's entries as they are. *)
Inductive shared_step : pool -> shared_op -> pool -> Prop :=
| step_sync now desired p :
    desired_ok desired -> shared_step p (OpSync desired) (sync_pass now desired p).1
| step_user p l entries ks :
    recordFor p recordKey = Some (formatOwnershipRecord ks) -> Forall key_text ks ->
    filter (fun x => keyOf x ∉ ks) l = entries ->
    filter (fun x => keyOf x ∈ ks) l = filter (fun x => keyOf x ∈ ks) (existing p) ->
    shared_step p (OpUser entries) (mkPoolObject (ListFound l) (p_annotations p)).

Inductive shared_run : pool -> list shared_op -> pool -> Prop :=
| run_nil p : shared_run p [] p
| run_cons p1 p2 p3 op ops : shared_step p1 op p2 -> shared_run p2 ops p3 -> shared_run p1 (op :: ops) p3.

Lemma format_inj ks ks' :
  Forall key_text ks -> Forall key_text ks' -> formatOwnershipRecord ks = formatOwnershipRecord ks' -> ks = ks'.
Proof. intros H H' E. by rewrite <- (record_items_format ks), <- (record_items_format ks'), E. Qed.

Lemma shared_step_refines p op p' s :
  shared_step p op p' -> represents s p -> represents (spec_step op s) p'.
Proof.
  intros Hstep Hrep. destruct Hstep as [now desired p Hd|p l entries ks Hr Hks Hu Ho].
  - by apply sync_pass_represents.
  - destruct Hrep as (_ & Hr' & Hok & _ & Hm). rewrite Hr in Hr'. injection Hr' as E.
    apply format_inj in E; [|done|by apply record_keys_text]. subst ks.
    unfold represents. cbn. split; [done|]. split; [done|]. split; [done|]. split; [done|]. by rewrite Ho.
Qed.

Lemma shared_run_refines p ops p' s :
  shared_run p ops p' -> represents s p -> represents (foldl (fun s op => spec_step op s) s ops) p'.
Proof.
  intros Hrun. revert s. induction Hrun as [|p1 p2 p3 op ops Hstep _ IH]; intros s Hs; [done|].
  cbn [foldl]. apply IH. by eapply shared_step_refines.
Qed.
End Shared.

(** * Geometry *)

Lemma fill_bytes_16 x : 0 <= x < 2 ^ 128 ->
  fill_bytes 16 x = Some (netip.As16 (netip.mkAddr x (netip.z6 EmptyString))).
Proof.
  intros Hx. unfold fill_bytes. change (256 ^ Z.of_nat 16) with (2 ^ 128).
  rewrite (proj2 (Z.ltb_lt _ _)) by lia. done.
Qed.

(** The last address of an IPv6 prefix; in particular no buffer overflows. *)
Lemma lastAddrOfPrefix_6 p : netip.prefix6 p ->
  lastAddrOfPrefix p = Ret (netip.mkAddr (netip.last_num p) (netip.z6 EmptyString)).
Proof.
  intros Hp. pose proof (prefix6_bits p Hp) as Hb. pose proof (first_num_bounds p Hp) as [H0 H1].
  pose proof (first_num_le_last p Hp).
  unfold lastAddrOfPrefix. rewrite Masked6_Bits, Masked6 by done. cbn [netip.ip].
  unfold addrToBigInt. cbn [netip.Is4 netip.Is6 netip.z].
  change (netip.Is4 (netip.mkAddr (netip.first_num p) (netip.z6 EmptyString))) with false. cbv iota.
  rewrite be_value_As16 by (cbn; lia). cbn [netip.addr]. cbv zeta iota beta.
  rewrite (proj2 (Z.ltb_ge (128 - netip.Bits p) 0)) by lia.
  assert (Z.lor (netip.first_num p) (Z.shiftl 1 (128 - netip.Bits p) - 1) = netip.last_num p) as ->.
  { assert (Z.shiftl 1 (128 - netip.Bits p) - 1 = Z.ones (128 - netip.Bits p)) as ->
      by (rewrite Z.shiftl_1_l, Z.ones_equiv; lia).
    assert (Z.land (netip.first_num p) (Z.ones (128 - netip.Bits p)) = 0) as Hland.
    { rewrite Z.land_ones by lia. apply Z.mod_mul, Z.pow_nonzero; lia. }
    rewrite <- Z.lxor_lor, <- Z.add_nocarry_lxor by done. unfold netip.last_num. rewrite Z.ones_equiv. lia. }
  unfold bigIntToAddr. change (128 =? 32) with false. cbv iota. rewrite fill_bytes_16 by lia. cbn [fmap option_fmap option_map].
  unfold netip.AddrFrom16. by rewrite be_value_As16 by (cbn; lia).
Qed.

Lemma Compare6_le a b : addr6 a -> addr6 b -> (netip.Compare a b <=? 0) = (netip.addr a <=? netip.addr b).
Proof.
  intros Ha Hb. rewrite (addr6_eta a Ha), (addr6_eta b Hb), Compare6. cbn [netip.addr].
  unfold Z.leb at 2. by destruct (netip.addr a ?= netip.addr b).
Qed.

Lemma Compare6_ge a b : addr6 a -> addr6 b -> (0 <=? netip.Compare a b) = (netip.addr b <=? netip.addr a).
Proof.
  intros Ha Hb. rewrite (addr6_eta a Ha), (addr6_eta b Hb), Compare6. cbn [netip.addr].
  unfold Z.leb at 2. rewrite (Z.compare_antisym (netip.addr a)). by destruct (netip.addr a ?= netip.addr b).
Qed.

Lemma Compare6_gt a b : addr6 a -> addr6 b -> (0 <? netip.Compare a b) = (netip.addr b <? netip.addr a).
Proof.
  intros Ha Hb. rewrite (addr6_eta a Ha), (addr6_eta b Hb), Compare6. cbn [netip.addr].
  unfold Z.ltb at 2. rewrite (Z.compare_antisym (netip.addr a)). by destruct (netip.addr a ?= netip.addr b).
Qed.

Lemma Masked6_ip p : netip.prefix6 p -> addr6 (netip.ip (netip.Masked p)) /\
  netip.addr (netip.ip (netip.Masked p)) = netip.first_num p.
Proof.
  intros Hp. pose proof (first_num_bounds p Hp). pose proof (first_num_le_last p Hp).
  rewrite Masked6 by done. split; [|done]. split; [|done]. apply addr6_wf. lia.
Qed.

Lemma prefix6_not4 p : netip.prefix6 p -> netip.Is4 (netip.ip p) = false.
Proof. intros Hp. unfold netip.Is4. rewrite (prefix6_z p Hp). done. Qed.

(** The test of one managed prefix, after the ends are put in order. *)
Lemma addressRangeWithinManaged_6 start end_ ms :
  addr6 start -> addr6 end_ -> Forall netip.prefix6 ms ->
  addressRangeWithinManaged start end_ ms =
  Some (existsb (fun m => (netip.first_num m <=? Z.min (netip.addr start) (netip.addr end_)) &&
                          (Z.max (netip.addr start) (netip.addr end_) <=? netip.last_num m)) ms).
Proof.
  intros Hs He Hms. induction Hms as [|m ms Hm Hms IH]; [done|]. cbn [addressRangeWithinManaged existsb].
  pose proof (first_num_bounds m Hm). pose proof (first_num_le_last m Hm).
  assert (forall lo hi, addr6 lo -> addr6 hi ->
    netip.addr lo = Z.min (netip.addr start) (netip.addr end_) ->
    netip.addr hi = Z.max (netip.addr start) (netip.addr end_) ->
    (if negb (Bool.eqb (netip.Is4 (netip.ip m)) (netip.Is4 lo)) then addressRangeWithinManaged start end_ ms
     else match lastAddrOfPrefix m with
          | Ret managedEnd =>
              if ((0 <=? netip.Compare lo (netip.ip (netip.Masked m))) && (netip.Compare hi managedEnd <=? 0))%bool
              then Some true else addressRangeWithinManaged start end_ ms
          | Fail _ => addressRangeWithinManaged start end_ ms
          | Panic => None
          end) =
    Some (((netip.first_num m <=? Z.min (netip.addr start) (netip.addr end_)) &&
           (Z.max (netip.addr start) (netip.addr end_) <=? netip.last_num m)) ||
          existsb (fun m => (netip.first_num m <=? Z.min (netip.addr start) (netip.addr end_)) &&
                            (Z.max (netip.addr start) (netip.addr end_) <=? netip.last_num m)) ms)%bool) as Hgen.
  { intros lo hi Hlo Hhi El Eh. rewrite prefix6_not4 by done.
    assert (netip.Is4 lo = false) as -> by (unfold netip.Is4; by rewrite (proj2 Hlo)). cbn [Bool.eqb negb].
    rewrite lastAddrOfPrefix_6 by done. destruct (Masked6_ip m Hm) as [Hmi Hmf].
    rewrite Compare6_ge, Compare6_le by (done || (split; [apply addr6_wf; lia|done])).
    rewrite Hmf, El, Eh. cbn [netip.addr]. destruct (_ && _)%bool; [done|]. cbn [orb]. exact IH. }
  rewrite Compare6_gt by done. destruct (Z.ltb_spec (netip.addr end_) (netip.addr start)); apply Hgen; done || lia.
Qed.

Lemma isPrefixSubsetOfManaged_6 p ms : netip.prefix6 p -> Forall netip.prefix6 ms ->
  isPrefixSubsetOfManaged p ms = true <->
  exists m, m ∈ ms /\ forall x, netip.in_prefix p x -> netip.in_prefix m x.
Proof.
  intros Hp Hms. unfold isPrefixSubsetOfManaged. rewrite existsb_exists.
  assert (addr6 (netip.ip p)) as [Hwf Hz] by (split; [apply Hp|by apply prefix6_z]).
  pose proof (prefix6_bits p Hp). pose proof (first_num_le_last p Hp).
  assert (netip.in_prefix p (netip.addr (netip.ip p))) as Hself by by apply in_prefix_block.
  split.
  - intros (m & Hin & [Hb%Z.leb_le Hc]%andb_true_iff). apply list_elem_of_In in Hin.
    rewrite Forall_forall in Hms. specialize (Hms m Hin). pose proof (prefix6_bits m Hms).
    apply Contains6 in Hc; [|done..]. apply in_prefix_block in Hc; [|done].
    exists m. split; [done|]. intros x Hx%in_prefix_block; [|done]. apply in_prefix_block; [done|].
    rewrite <- Hc. apply (agree_mono _ _ (128 - netip.Bits p)); [lia|done].
  - intros (m & Hin & Hsub). rewrite Forall_forall in Hms. specialize (Hms m Hin).
    pose proof (prefix6_bits m Hms). exists m. split; [by apply list_elem_of_In|]. apply andb_true_iff.
    split; [|by apply Contains6; auto]. apply Z.leb_le.
    destruct (decide (netip.Bits m <= netip.Bits p)); [done|]. exfalso.
    assert (netip.in_prefix m (netip.first_num p)) as [Hf _] by (apply Hsub; unfold netip.in_prefix; lia).
    assert (netip.in_prefix m (netip.last_num p)) as [_ Hl] by (apply Hsub; unfold netip.in_prefix; lia).
    assert (2 ^ (128 - netip.Bits m) < 2 ^ (128 - netip.Bits p)) by (apply Z.pow_lt_mono_r; lia).
    unfold netip.last_num in *. lia.
Qed.

(** ** Exact CIDRs *)

Lemma exactCIDR_6 s t a e :
  netiptext.ParseAddr s = Some a -> addr6 a -> netiptext.ParseAddr t = Some e -> addr6 e ->
  netip.addr a <= netip.addr e ->
  let p := RangeToCIDR a e in
  exactCIDRForAddressRange s t =
    Ret (netiptext.PrefixString p, bool_decide (netip.first_num p = netip.addr a /\ netip.last_num p = netip.addr e)).
Proof.
  intros Hs Ha Ht He Hle p. unfold exactCIDRForAddressRange. rewrite Hs, Ht.
  assert (netip.Is4 a = false) as Ha4 by (unfold netip.Is4; by rewrite (proj2 Ha)).
  assert (netip.Is4 e = false) as He4 by (unfold netip.Is4; by rewrite (proj2 He)).
  assert (netip.Is6 a = true) as Ha6 by (unfold netip.Is6; by rewrite (proj2 Ha)).
  rewrite Ha4, He4, Ha6, Compare6_gt by done. cbn [Bool.eqb negb].
  rewrite (proj2 (Z.ltb_ge _ _)) by done. cbv zeta. fold p.
  destruct (RangeToCIDR_spec a e (proj1 Ha) (proj1 He) Ha6) as (Hp & Hm & _). fold p in Hp, Hm.
  rewrite lastAddrOfPrefix_6 by done. cbn [wrap_err obind]. do 2 f_equal. apply bool_decide_ext.
  destruct (Masked6_ip p Hp) as [_ Hf]. rewrite Masked6 by done. cbn [netip.ip].
  rewrite (addr6_eta a Ha), (addr6_eta e He). cbn [netip.addr].
  split; [intros [E1 E2]; split; [by injection E1|by injection E2]|by intros [-> ->]].
Qed.

(** Whether a range of addresses is exactly one CIDR, and which: for two IPv6
    addresses in order the function never fails; it reports an exact CIDR if and
    only if some prefix holds precisely the addresses of the range, and the CIDR
    it returns is then that prefix, so nothing outside the range is handed out. *)
Theorem exactCIDR_exact (s t : string) (a e : netip.Addr) :
  netiptext.ParseAddr s = Some a -> addr6 a -> netiptext.ParseAddr t = Some e -> addr6 e ->
  netip.addr a <= netip.addr e ->
  exists p exact, exactCIDRForAddressRange s t = Ret (netiptext.PrefixString p, exact) /\ netip.prefix6 p /\
    netip.Masked p = p /\
    (exact = true -> forall x, netip.in_prefix p x <-> netip.addr a <= x <= netip.addr e) /\
    (exact = true <-> exists q, netip.prefix6 q /\ forall x, netip.in_prefix q x <-> netip.addr a <= x <= netip.addr e).
Proof.
  intros Hs Ha Ht He Hle. exists (RangeToCIDR a e), (bool_decide (netip.first_num (RangeToCIDR a e) = netip.addr a /\
    netip.last_num (RangeToCIDR a e) = netip.addr e)). split; [by apply exactCIDR_6|].
  assert (netip.Is6 a = true) as Ha6 by (unfold netip.Is6; by rewrite (proj2 Ha)).
  destruct (RangeToCIDR_spec a e (proj1 Ha) (proj1 He) Ha6) as (Hp & Hm & Hina & Hine & Hmin).
  split; [done|]. split; [done|]. rewrite bool_decide_eq_true.
  assert (netip.first_num (RangeToCIDR a e) = netip.addr a /\ netip.last_num (RangeToCIDR a e) = netip.addr e ->
    forall x, netip.in_prefix (RangeToCIDR a e) x <-> netip.addr a <= x <= netip.addr e) as Hex.
  { intros [E1 E2] x. unfold netip.in_prefix. by rewrite E1, E2. }
  split; [done|]. split; [intros H; exists (RangeToCIDR a e); auto|]. intros (q & Hq & Hqx).
  destruct (Hmin q Hq) as [_ Hsub]; [apply Hqx; lia..|]. pose proof (first_num_le_last (RangeToCIDR a e) Hp).
  assert (netip.addr a <= netip.first_num (RangeToCIDR a e)) by (apply Hqx, Hsub; unfold netip.in_prefix; lia).
  assert (netip.last_num (RangeToCIDR a e) <= netip.addr e) by (apply Hqx, Hsub; unfold netip.in_prefix; lia).
  unfold netip.in_prefix in Hina, Hine. lia.
Qed.

Lemma exactCIDR_exact_witness :
  exactCIDRForAddressRange "2001:db8::f000" "2001:db8::f0ff" = Ret ("2001:db8::f000/120", true) /\
  exactCIDRForAddressRange "2001:db8::f000" "2001:db8::f0fe" = Ret ("2001:db8::f000/120", false) /\
  exists p exact, exactCIDRForAddressRange "2001:db8::f000" "2001:db8::f0ff" = Ret (netiptext.PrefixString p, exact) /\
    netip.prefix6 p.
Proof.
  split; [vm_compute; reflexivity|]. split; [vm_compute; reflexivity|].
  destruct (exactCIDR_exact "2001:db8::f000" "2001:db8::f0ff" (addr_of_string "2001:db8::f000")
    (addr_of_string "2001:db8::f0ff")) as (p & ex & E & Hp & _).
  - vm_compute. reflexivity.
  - split; [apply addr_of_string_wf|vm_compute; reflexivity].
  - vm_compute. reflexivity.
  - split; [apply addr_of_string_wf|vm_compute; reflexivity].
  - vm_compute. discriminate.
  - exists p, ex. split; [exact E|exact Hp].
Defined.

(** ** Identity of entries *)

(** Two entries have the same normal form exactly when they are the same
    address, the same prefix, or the same text, however an address or prefix is
    spelled; normalising twice changes nothing. *)
Theorem canonicalEntry_identity (s t : string) :
  (canonicalEntry s = canonicalEntry t <->
     (exists a, netiptext.ParseAddr s = Some a /\ netiptext.ParseAddr t = Some a) \/
     (exists p, netiptext.ParsePrefix s = Some p /\ netiptext.ParsePrefix t = Some p) \/
     s = t) /\
  canonicalEntry (canonicalEntry s) = canonicalEntry s.
Proof.
  split; [|apply canonicalEntry_idem].
  assert (forall x a, netiptext.ParseAddr x = Some a ->
    netiptext.ParseAddr (netiptext.AddrString a) = Some a) as Hback.
  { intros x a Hx. apply ParseAddr_wf in Hx as [? ?]. by apply ParseAddr_String. }
  assert (forall x p, netiptext.ParsePrefix x = Some p ->
    netiptext.ParsePrefix (netiptext.PrefixString p) = Some p /\ netiptext.ParseAddr (netiptext.PrefixString p) = None) as Hbackp.
  { intros x p Hx. apply ParsePrefix_wf in Hx as [? ?]. split; [by apply ParsePrefix_String|by apply ParseAddr_PrefixString]. }
  unfold canonicalEntry. split.
  - destruct (netiptext.ParseAddr s) as [a|] eqn:Ea, (netiptext.ParseAddr t) as [b|] eqn:Eb.
    + intros E. left. exists a. split; [done|]. apply Hback in Ea, Eb. rewrite E in Ea. congruence.
    + destruct (netiptext.ParsePrefix t) as [q|] eqn:Eq; intros E; apply Hback in Ea.
      * apply Hbackp in Eq as [_ Eq]. congruence.
      * congruence.
    + destruct (netiptext.ParsePrefix s) as [p|] eqn:Ep; intros E; apply Hback in Eb.
      * apply Hbackp in Ep as [_ Ep]. congruence.
      * congruence.
    + destruct (netiptext.ParsePrefix s) as [p|] eqn:Ep, (netiptext.ParsePrefix t) as [q|] eqn:Eq; intros E.
      * right. left. exists p. split; [done|]. apply Hbackp in Ep as [Ep _], Eq as [Eq _]. congruence.
      * apply Hbackp in Ep as [Ep _]. congruence.
      * apply Hbackp in Eq as [Eq _]. congruence.
      * by right; right.
  - intros [(a & Ha & Hb)|[(p & Hp & Hq)| E]].
    + by rewrite Ha, Hb.
    + by rewrite (ParsePrefix_not_addr s p), (ParsePrefix_not_addr t p), Hp, Hq.
    + by rewrite E.
Qed.
