(* ===== verification/ListBackends.v ===== *)
(** * The list backends

    The three ways of naming and recognising an entry of Ownership.v -
    CiliumCIDRGroup's CIDRs, CiliumLoadBalancerIPPool's blocks, MetalLB's
    addresses - satisfy the promise [OwnedListLaws], so that what is proved of
    [syncOwnedList] holds of each of them: the user's entries and the operator's
    never mix, whatever the passes and the edits. *)

From S2P Require Import Prelude GoStrings Netip NetipText AddressRange Receivers Ownership.

(** * Texts that are no address and no prefix *)

Definition opaque (k : string) : Prop := netiptext.ParseAddr k = None /\ netiptext.ParsePrefix k = None.

Lemma canonicalEntry_opaque k : opaque k -> canonicalEntry k = k.
Proof. intros [Ha Hp]. unfold canonicalEntry. by rewrite Ha, Hp. Qed.

Lemma canonicalEntry_opaque_inv c k : opaque k -> canonicalEntry c = k -> c = k.
Proof.
  intros [Ha Hp]. unfold canonicalEntry. destruct (netiptext.ParseAddr c) as [a|] eqn:Ea.
  - intros <-. apply ParseAddr_wf in Ea as [? ?]. by rewrite ParseAddr_String in Ha.
  - destruct (netiptext.ParsePrefix c) as [p|] eqn:Ep; [|done].
    intros <-. apply ParsePrefix_wf in Ep as [? ?]. by rewrite ParsePrefix_String in Hp.
Qed.

(** What an address text holds before its zone. *)
Lemma ParseAddr_head s a :
  netiptext.ParseAddr s = Some a ->
  match cut_first "%" s with
  | Some (l, _) => str_all addr_byte l = true
  | None => str_all addr_byte s = true
  end.
Proof.
  unfold netiptext.ParseAddr. intros H. destruct (netiptext.first_sep s) as [c|]; [|done].
  destruct c as [[] [] [] [] [] [] [] []]; try discriminate H.
  - apply fmap_Some in H as (b4 & H4 & _). apply v4_loop_bytes in H4.
    rewrite cut_first_none; [done|]. eapply str_all_impl; [|exact H4]. intros c. by apply addr_byte_not.
  - unfold netiptext.parseIPv6 in H. destruct (cut_first _ s) as [[s' zone]|]; [|by eapply v6_body_bytes].
    destruct (decide (zone = EmptyString)); [done|]. by eapply v6_body_bytes.
Qed.

(** A byte that no address has, before any per cent sign, makes a text opaque. *)
Lemma opaque_bad pre c s :
  str_all (not_byte "%") (pre +:+ String c EmptyString) = true ->
  prefix_byte c = false -> opaque (pre +:+ String c s).
Proof.
  intros Hpre Hc. assert (addr_byte c = false) as Ha.
  { unfold prefix_byte in Hc. by apply orb_false_iff in Hc as [? _]. }
  split.
  - destruct (netiptext.ParseAddr _) as [a|] eqn:E; [|done]. exfalso. apply ParseAddr_head in E.
    destruct (cut_first "%" (pre +:+ String c s)) as [[l r]|] eqn:Hcut.
    + assert (exists l', l = pre +:+ String c l') as (l' & ->).
      { clear -Hcut Hpre. revert l Hcut. induction pre as [|d pre IH]; intros l.
        - rewrite append_nil_l in *. cbn. cbn in Hpre. apply andb_true_iff in Hpre as [Hc _].
          unfold not_byte in Hc. rewrite decide_False by (by intros ->; rewrite bool_decide_true in Hc).
          destruct (cut_first "%" s) as [[l' r']|]; [|done]. intros [= <- <-]. by exists l'.
        - rewrite !append_cons in *. cbn [cut_first]. cbn [str_all] in Hpre.
          apply andb_true_iff in Hpre as [Hd Hpre].
          unfold not_byte in Hd. rewrite decide_False by (by intros ->; rewrite bool_decide_true in Hd).
          destruct (cut_first "%" (pre +:+ String c s)) as [[l' r']|]; [|done]. intros [= <- <-].
          destruct (IH Hpre l' eq_refl) as (l'' & ->). by exists l''. }
      rewrite str_all_app in E. cbn in E. by rewrite Ha, andb_false_r in E.
    + rewrite str_all_app in E. cbn in E. by rewrite Ha, andb_false_r in E.
  - destruct (netiptext.ParsePrefix _) as [p|] eqn:E; [|done]. apply ParsePrefix_bytes in E.
    rewrite str_all_app in E. cbn in E. by rewrite Hc, andb_false_r in E.
Qed.

Lemma opaque_cidr t : opaque ("cidr=" +:+ t).
Proof. by apply (opaque_bad "c" "i" ("dr=" +:+ t)). Qed.

Lemma opaque_range t : opaque ("range=" +:+ t).
Proof. by apply (opaque_bad "" "r" ("ange=" +:+ t)). Qed.

(** * Texts the operator writes *)

Lemma prefix_byte_plain c : prefix_byte c = true -> plain c = true.
Proof. destruct c as [[] [] [] [] [] [] [] []]; vm_compute; congruence. Qed.

Lemma prefix_byte_not b c : prefix_byte b = false -> prefix_byte c = true -> not_byte b c = true.
Proof. intros Hb Hc. unfold not_byte. rewrite bool_decide_false; [done|congruence]. Qed.

Lemma addr_prefix_byte c : addr_byte c = true -> prefix_byte c = true.
Proof. intros H. unfold prefix_byte. by rewrite H. Qed.

(** The text of an address without a zone, or of a prefix. *)
Definition entry_text (s : string) : Prop :=
  (exists p, netiptext.ParsePrefix s = Some p) \/
  (exists a, netiptext.ParseAddr s = Some a /\ netip.hasZone a = false).

Lemma entry_text_bytes s : entry_text s -> str_all prefix_byte s = true.
Proof.
  intros [(p & Hp)|(a & Ha & Hz)]; [by eapply ParsePrefix_bytes|].
  eapply str_all_impl; [apply addr_prefix_byte|by eapply ParseAddr_bytes_nozone].
Qed.

Lemma entry_text_ne s : entry_text s -> s <> EmptyString.
Proof. intros [(p & Hp)|(a & Ha & _)]; by intros ->. Qed.

(** Normalising keeps such a text one. *)
Lemma entry_text_canonical s : entry_text s -> entry_text (canonicalEntry s).
Proof.
  intros H. unfold canonicalEntry. destruct (netiptext.ParseAddr s) as [a|] eqn:Ha.
  - right. exists a. pose proof Ha as Hwf. apply ParseAddr_wf in Hwf as [? ?]. split; [by apply ParseAddr_String|].
    destruct H as [(p & Hp)|(a' & Ha' & Hz)]; [|congruence].
    apply ParsePrefix_not_addr in Hp. congruence.
  - destruct (netiptext.ParsePrefix s) as [p|] eqn:Hp; [|destruct H as [(?&?)|(?&?&?)]; congruence].
    apply ParsePrefix_wf in Hp as [? ?]. left. exists p. by apply ParsePrefix_String.
Qed.

(** Bytes that survive the annotation. *)
Definition key_byte (c : ascii) : bool := plain c && not_byte "," c.

Lemma prefix_key_byte c : prefix_byte c = true -> key_byte c = true.
Proof. intros H. unfold key_byte. by rewrite prefix_byte_plain, prefix_byte_not. Qed.

Lemma key_text_bytes k : k <> EmptyString -> str_all key_byte k = true -> key_text k.
Proof.
  intros Hne Hk. split; [done|]. split.
  - apply TrimSpace_plain. eapply str_all_impl; [|exact Hk]. by intros c [? _]%andb_true_iff.
  - eapply str_all_impl; [|exact Hk]. by intros c [_ ?]%andb_true_iff.
Qed.

Lemma entry_text_key_bytes s : entry_text s -> str_all key_byte s = true.
Proof. intros H. eapply str_all_impl; [apply prefix_key_byte|by apply entry_text_bytes]. Qed.

(** * The backends *)

(** What each backend's [owned] closure says of an entry of the list. *)
Definition ownedCIDRItem (managedPrefixes : list netip.Prefix) (record : ownershipRecord) (x : item) : bool :=
  match x with ItemString cidr => isOwnedCIDR cidr record managedPrefixes | _ => false end.

Definition ownedBlockItem (managedPrefixes : list netip.Prefix) (record : ownershipRecord) (x : item) : bool :=
  match x with ItemBlock b => isOwnedBlock b record managedPrefixes | _ => false end.

Definition ownedAddressItem (managedPrefixes : list netip.Prefix) (record : ownershipRecord) (x : item)
    : option bool :=
  match x with ItemString address => isOwnedAddressEntry address record managedPrefixes | _ => Some false end.

Definition address_owned (managedPrefixes : list netip.Prefix) (record : ownershipRecord) (x : item) : bool :=
  bool_decide (ownedAddressItem managedPrefixes record x = Some true).

(** What the operator writes to each list: an entry and its key. *)
Definition cidr_ok (e : ownedEntry) : Prop :=
  exists s, entry_text s /\ oe_value e = ItemString s /\ oe_key e = canonicalEntry s.

Definition block_ok (e : ownedEntry) : Prop :=
  (exists s, entry_text s /\ oe_value e = ItemBlock (mkBlock (Some s) None None EmptyString) /\
             oe_key e = "cidr=" +:+ canonicalEntry s) \/
  (exists s t, entry_text s /\ entry_text t /\
               oe_value e = ItemBlock (mkBlock None (Some s) (Some t) EmptyString) /\
               oe_key e = "range=" +:+ canonicalEntry s +:+ "-" +:+ canonicalEntry t).

Definition address_ok (e : ownedEntry) : Prop :=
  (exists s, entry_text s /\ oe_value e = ItemString s /\ oe_key e = canonicalEntry s) \/
  (exists s t, entry_text s /\ entry_text t /\ oe_value e = ItemString (s +:+ "-" +:+ t) /\
               oe_key e = canonicalEntry s +:+ "-" +:+ canonicalEntry t).

(** Ownership by record compares normal forms; where that is the same as
    comparing keys, the record decides by key. *)
Lemma owns_by_key ks c : Forall key_text ks ->
  (forall k, k ∈ ks -> canonicalEntry c = canonicalEntry k <-> c = k) ->
  owns (parseOwnershipRecord (Some (formatOwnershipRecord ks))) c = bool_decide (c ∈ ks).
Proof.
  intros Hks H. rewrite owns_format by done. apply bool_decide_ext. rewrite list_elem_of_fmap. split.
  - intros (k & E & Hk). apply H in E; [by subst|done].
  - intros Hc. by exists c.
Qed.

Lemma ok_keys {ok : ownedEntry -> Prop} {P : string -> Prop} es :
  (forall e, ok e -> P (oe_key e)) -> Forall ok es -> forall k, k ∈ oe_key <$> es -> P k.
Proof. intros H Hes k (e & -> & He)%list_elem_of_fmap. rewrite Forall_forall in Hes. auto. Qed.

Lemma keys_text {ok : ownedEntry -> Prop} es :
  (forall e, ok e -> key_text (oe_key e)) -> Forall ok es -> Forall key_text (oe_key <$> es).
Proof. intros H Hes. apply Forall_fmap. eapply Forall_impl; [exact Hes|exact H]. Qed.

Lemma keys_not_empty {ok : ownedEntry -> Prop} es :
  (forall e, ok e -> key_text (oe_key e)) -> Forall ok es -> EmptyString ∉ oe_key <$> es.
Proof.
  intros H Hes Hin. apply (ok_keys (ok := ok) (P := key_text)) in Hin; [|done|done]. by destruct Hin.
Qed.

Lemma canonical_key_text s : entry_text s -> key_text (canonicalEntry s).
Proof.
  intros H%entry_text_canonical. apply key_text_bytes; [by apply entry_text_ne|by apply entry_text_key_bytes].
Qed.

Lemma pair_key_bytes s t : entry_text s -> entry_text t ->
  str_all key_byte (canonicalEntry s +:+ "-" +:+ canonicalEntry t) = true.
Proof.
  intros Hs%entry_text_canonical Ht%entry_text_canonical.
  rewrite !str_all_app, (entry_text_key_bytes _ Hs), (entry_text_key_bytes _ Ht). done.
Qed.

(** ** CiliumCIDRGroup *)

#[export] Instance cidr_laws managed : OwnedListLaws cidrKeyOf (ownedCIDRItem managed) cidr_ok.
Proof.
  assert (forall e, cidr_ok e -> key_text (oe_key e)) as Htext.
  { intros e (s & Hs & _ & ->). by apply canonical_key_text. }
  assert (forall es s, Forall cidr_ok es ->
    owns (parseOwnershipRecord (Some (formatOwnershipRecord (oe_key <$> es)))) s =
    bool_decide (canonicalEntry s ∈ oe_key <$> es)) as Howns.
  { intros es s Hes. rewrite owns_format by by eapply keys_text.
    apply bool_decide_ext. rewrite list_elem_of_fmap.
    assert (forall k, k ∈ oe_key <$> es -> canonicalEntry k = k) as Hk.
    { apply (ok_keys (ok := cidr_ok) (P := fun k => canonicalEntry k = k)); [|done]. intros e (? & _ & _ & ->). apply canonicalEntry_idem. }
    split; [intros (k & E & Hin); rewrite E, (Hk k Hin); done|]. intros Hin. exists (canonicalEntry s).
    by rewrite canonicalEntry_idem. }
  split.
  - done.
  - intros e (s & _ & -> & ->). done.
  - intros es x Hes. assert (forall y, stringKeyOf y = EmptyString -> cidrKeyOf y ∉ oe_key <$> es) as Hne.
    { intros y Hy. unfold cidrKeyOf. rewrite Hy. by apply (keys_not_empty (ok := cidr_ok)). }
    destruct x as [s| |]; cbn [ownedCIDRItem]; [by apply Howns|by rewrite bool_decide_false by by apply Hne..].
  - intros es x Hes. rewrite Howns by done. unfold cidrKeyOf. by rewrite canonicalEntry_idem.
Qed.

(** ** CiliumLoadBalancerIPPool *)

Lemma block_key_opaque e : block_ok e -> opaque (oe_key e).
Proof. intros [(s & _ & _ & ->)|(s & t & _ & _ & _ & ->)]; [apply opaque_cidr|apply opaque_range]. Qed.

(** A key that is no address text is compared literally. *)
Lemma owns_opaque es ks c : Forall key_text ks -> ks = oe_key <$> es ->
  (forall k, k ∈ ks -> opaque k) ->
  owns (parseOwnershipRecord (Some (formatOwnershipRecord ks))) c = bool_decide (c ∈ ks).
Proof.
  intros Hks -> Ho. apply owns_by_key; [done|]. intros k Hk. rewrite (canonicalEntry_opaque k) by auto.
  split; [by apply canonicalEntry_opaque_inv; auto|]. intros ->. by apply canonicalEntry_opaque; auto.
Qed.

#[export] Instance block_laws managed : OwnedListLaws blockKeyOf (ownedBlockItem managed) block_ok.
Proof.
  assert (forall e, block_ok e -> key_text (oe_key e)) as Htext.
  { intros e [(s & Hs & _ & ->)|(s & t & Hs & Ht & _ & ->)]; (apply key_text_bytes; [done|]).
    - rewrite str_all_app, (entry_text_key_bytes _ (entry_text_canonical s Hs)). done.
    - rewrite str_all_app, pair_key_bytes by done. done. }
  assert (forall es c, Forall block_ok es ->
    owns (parseOwnershipRecord (Some (formatOwnershipRecord (oe_key <$> es)))) c =
    bool_decide (c ∈ oe_key <$> es)) as Howns.
  { intros es c Hes. eapply owns_opaque; [by eapply keys_text|done|].
    apply (ok_keys (ok := block_ok)); [apply block_key_opaque|done]. }
  split.
  - done.
  - intros e [(s & Hs & -> & ->)|(s & t & Hs & Ht & -> & ->)]; cbn [blockKeyOf blockKey blk_cidr blk_start blk_stop default].
    + apply entry_text_ne in Hs. by destruct s.
    + cbn. rewrite !decide_False by by apply entry_text_ne. done.
  - intros es x Hes. assert (EmptyString ∉ oe_key <$> es) as Hne by by apply (keys_not_empty (ok := block_ok)).
    destruct x as [|b|]; cbn [ownedBlockItem blockKeyOf]; [by rewrite bool_decide_false| |by rewrite bool_decide_false].
    unfold isOwnedBlock. cbn [rec_present parseOwnershipRecord negb]. cbv zeta.
    destruct (decide (blockKey b = EmptyString)) as [->|]; [by rewrite bool_decide_false|]. by apply Howns.
  - intros es x Hes. by apply Howns.
Qed.

(** ** MetalLB's IPAddressPool *)

Lemma TrimSpace_bytes s : str_all key_byte s = true -> TrimSpace s = s.
Proof. intros H. apply TrimSpace_plain. eapply str_all_impl; [|exact H]. by intros c [? _]%andb_true_iff. Qed.

Lemma entry_text_nodash s : entry_text s -> str_all (not_byte "-") s = true.
Proof. intros H. eapply str_all_impl; [|by apply entry_text_bytes]. intros c. by apply prefix_byte_not. Qed.

Lemma canonicalAddressEntry_text s : entry_text s -> canonicalAddressEntry s = canonicalEntry s.
Proof.
  intros H. unfold canonicalAddressEntry. rewrite TrimSpace_bytes by by apply entry_text_key_bytes.
  by rewrite cut_first_none by by apply entry_text_nodash.
Qed.

Lemma canonicalAddressEntry_pair s t : entry_text s -> entry_text t ->
  canonicalAddressEntry (s +:+ "-" +:+ t) = canonicalEntry s +:+ "-" +:+ canonicalEntry t.
Proof.
  intros Hs Ht. unfold canonicalAddressEntry.
  rewrite TrimSpace_bytes by (rewrite !str_all_app, (entry_text_key_bytes s), (entry_text_key_bytes t) by done; done).
  change (s +:+ "-" +:+ t) with (s +:+ String "-" (EmptyString +:+ t)). rewrite append_nil_l.
  rewrite cut_first_app by by apply entry_text_nodash.
  by rewrite !TrimSpace_bytes by by apply entry_text_key_bytes.
Qed.

Lemma opaque_pair s t : entry_text s -> opaque (s +:+ "-" +:+ t).
Proof.
  intros Hs. change (s +:+ "-" +:+ t) with (s +:+ String "-" (EmptyString +:+ t)). apply opaque_bad; [|done].
  rewrite str_all_app. cbn. rewrite andb_true_r. eapply str_all_impl; [|by apply entry_text_bytes].
  intros c. by apply prefix_byte_not.
Qed.

(** What the operator wrote is recognised by its normal form, and nothing else is. *)
Lemma canonicalAddressEntry_inv x k :
  entry_text k -> canonicalEntry (canonicalAddressEntry x) = canonicalEntry k ->
  canonicalAddressEntry x = canonicalEntry k.
Proof.
  intros Hk%entry_text_canonical. unfold canonicalAddressEntry. cbv zeta.
  destruct (cut_first "-" (TrimSpace x)) as [[l r]|]; [|by rewrite canonicalEntry_idem].
  set (c := _ +:+ "-" +:+ _). intros E. set (k' := canonicalEntry k) in *. clearbody k'.
  assert (str_all prefix_byte c = false) as Hc.
  { unfold c. rewrite !str_all_app. cbn. by rewrite andb_false_r. }
  unfold canonicalEntry in E. destruct (netiptext.ParseAddr c) as [a|] eqn:Ea.
  - exfalso. assert (netip.hasZone a = false) as Hz.
    { apply not_true_is_false. intros Hz%AddrString_zone. rewrite E in Hz.
      apply entry_text_bytes in Hk. rewrite (str_all_impl prefix_byte) in Hz; [done| |done].
      intros b. by apply prefix_byte_not. }
    apply ParseAddr_bytes_nozone in Ea; [|done].
    by rewrite (str_all_impl addr_byte prefix_byte) in Hc by (done || apply addr_prefix_byte).
  - destruct (netiptext.ParsePrefix c) as [q|] eqn:Eq; [|done]. apply ParsePrefix_bytes in Eq. congruence.
Qed.

#[export] Instance address_laws managed : OwnedListLaws addressKeyOf (address_owned managed) address_ok.
Proof.
  assert (forall e, address_ok e -> key_text (oe_key e)) as Htext.
  { intros e [(s & Hs & _ & ->)|(s & t & Hs & Ht & _ & ->)]; [by apply canonical_key_text|].
    apply key_text_bytes; [|by apply pair_key_bytes]. by destruct (canonicalEntry s). }
  assert (forall es x, Forall address_ok es ->
    owns (parseOwnershipRecord (Some (formatOwnershipRecord (oe_key <$> es)))) (canonicalAddressEntry x) =
    bool_decide (canonicalAddressEntry x ∈ oe_key <$> es)) as Howns.
  { intros es x Hes. apply owns_by_key; [by eapply keys_text|].
    apply (ok_keys (ok := address_ok) (P := fun k => canonicalEntry (canonicalAddressEntry x) = canonicalEntry k <->
      canonicalAddressEntry x = k)); [|done]. intros e [(s & Hs & _ & ->)|(s & t & Hs & Ht & _ & ->)].
    - rewrite canonicalEntry_idem. split; [by apply canonicalAddressEntry_inv|]. intros ->. apply canonicalEntry_idem.
    - assert (opaque (canonicalEntry s +:+ "-" +:+ canonicalEntry t)) as Ho by by apply opaque_pair, entry_text_canonical.
      rewrite (canonicalEntry_opaque (_ +:+ _)) by done. split; [by apply canonicalEntry_opaque_inv|].
      intros ->. by apply canonicalEntry_opaque. }
  split.
  - done.
  - intros e [(s & Hs & -> & ->)|(s & t & Hs & Ht & -> & ->)]; unfold addressKeyOf; cbn [stringKeyOf];
      [by apply canonicalAddressEntry_text|by apply canonicalAddressEntry_pair].
  - intros es x Hes. unfold address_owned.
    assert (addressKeyOf (ItemString EmptyString) ∉ oe_key <$> es) as Hne
      by by apply (keys_not_empty (ok := address_ok)).
    destruct x as [s| |]; cbn [ownedAddressItem];
      [|by rewrite (bool_decide_false (Some false = Some true)), bool_decide_false..].
    unfold isOwnedAddressEntry. cbn [rec_present parseOwnershipRecord negb].
    pose proof (Howns es s Hes) as H. unfold addressKeyOf. cbn [stringKeyOf].
    destruct (owns _ _); rewrite <- H; [by rewrite bool_decide_true|by rewrite bool_decide_false].
  - intros es x Hes. by apply Howns.
Qed.

(** * The life of a shared list *)

Section Life.
Context {keyOf : item -> string} {owned : ownershipRecord -> item -> bool} {ok : ownedEntry -> Prop}.
Context `{HL : !OwnedListLaws keyOf owned ok}.
Context (recordKey : string) (not_last_sync : recordKey <> AnnotationLastSync).

(** Passes with their time and what they want to write. *)
Definition sync_passes (passes : list (string * list ownedEntry)) (p : pool) : pool :=
  foldl (fun p '(now, desired) => (sync_pass keyOf owned recordKey now desired p).1) p passes.

(** The first pass over a list without a record in which it finds nothing to own. *)
Lemma first_pass now desired p :
  p_list p <> ListWrongType -> recordFor p recordKey = None ->
  (forall x, x ∈ existing p -> owned (parseOwnershipRecord None) x = false) -> desired_ok ok desired ->
  let s := mkShared (existing p) (claim (pins keyOf (existing p)) empty desired) in
  let p' := (sync_pass keyOf owned recordKey now desired p).1 in
  represents keyOf ok recordKey s p' /\ existing p' = sh_user s ++ (oe_value <$> sh_mine s).
Proof.
  intros Hw Hr Hown Hd s p'. subst p'. unfold sync_pass. rewrite Hr.
  destruct (syncOwnedList_result keyOf recordKey not_last_sync now None desired
              (owned (parseOwnershipRecord None)) p Hw) as (Hl & Hrec & Hw' & _).
  rewrite (filter_all_true (fun x => owned (parseOwnershipRecord None) x = false)) in Hl, Hrec by done.
  split; [|exact Hl]. eapply sync_represents; [exact HL|done|exact Hl|exact Hrec|by apply claim_ok|].
  intros x. apply claimed_not_user.
Qed.

Lemma later_passes passes s p :
  represents keyOf ok recordKey s p -> existing p = sh_user s ++ (oe_value <$> sh_mine s) ->
  (forall pass, pass ∈ passes -> desired_ok ok pass.2) ->
  let s' := foldl (fun s '(_, desired) => spec_step keyOf (OpSync desired) s) s passes in
  represents keyOf ok recordKey s' (sync_passes passes p) /\
  existing (sync_passes passes p) = sh_user s' ++ (oe_value <$> sh_mine s') /\ sh_user s' = sh_user s.
Proof.
  revert s p. induction passes as [|[now d] passes IH]; intros s p Hrep Hl Hd; [done|]. cbn [foldl sync_passes].
  destruct (sync_pass_represents keyOf owned ok recordKey not_last_sync now d s p Hrep) as [Hrep' Hl'].
  { exact (Hd (now, d) (list_elem_of_here _ _)). }
  apply (IH _ _ Hrep' Hl'). intros pass Hp. apply Hd. by right.
Qed.

(** A pass over what an identical pass left. *)
Lemma repeated_pass now desired user p :
  represents keyOf ok recordKey (mkShared user (claim (pins keyOf user) empty desired)) p ->
  existing p = user ++ (oe_value <$> claim (pins keyOf user) empty desired) ->
  sync_pass keyOf owned recordKey now desired p = (p, (false, None)).
Proof.
  intros Hrep Hl. pose proof (unowned_of_record keyOf owned ok recordKey _ p Hrep) as Hu.
  destruct Hrep as (Hw & Hr & _). cbn [sh_user sh_mine] in *.
  destruct (syncOwnedList_result keyOf recordKey not_last_sync now None desired
    (owned (parseOwnershipRecord (recordFor p recordKey))) p Hw) as (_ & _ & _ & _ & Hsame & _).
  rewrite Hu in Hsame. by apply Hsame.
Qed.

(** Releasing leaves the user's entries and no record. *)
Lemma release_represents s p :
  represents keyOf ok recordKey s p ->
  releaseRecordedSlice recordKey keyOf p =
    (mkPoolObject (ListFound (sh_user s)) (delete recordKey (p_annotations p)), (true, None)).
Proof.
  intros (Hw & Hr & Hok & Hu & _). unfold releaseRecordedSlice. rewrite Hr.
  assert (filter (fun x => keyOf x = EmptyString \/
      owns (parseOwnershipRecord (Some (formatOwnershipRecord (oe_key <$> sh_mine s)))) (keyOf x) = false)
      (existing p) = sh_user s) as E.
  { rewrite <- Hu. apply list_filter_iff. intros x. rewrite (ol_recorded (sh_mine s) x Hok), bool_decide_eq_false.
    split; [|tauto]. intros [He|]; [|done]. rewrite He. intros Hin.
    assert (Forall key_text (oe_key <$> sh_mine s)) as Hk by by eapply record_keys_text.
    rewrite Forall_forall in Hk. by destruct (Hk _ Hin). }
  unfold existing in E. destruct (p_list p); [by rewrite E|done|by rewrite E].
Qed.
End Life.

(** * Refinement *)

(** The specification over a run of passes and edits. *)
Definition spec_run (keyOf : item -> string) (ops : list shared_op) (s : shared) : shared :=
  foldl (fun s op => spec_step keyOf op s) s ops.

(** C10 A shared list refines the specification in which the user's entries and
    the operator's are two separate lists: a pass replaces the operator's list by
    the desired entries the user has not pinned and leaves the user's alone, an
    edit replaces the user's and leaves the operator's alone.  Through any run of
    passes and edits the pool represents the two lists of the specification, for
    every backend that keeps the promise [OwnedListLaws]. *)
Theorem shared_list_refines (keyOf : item -> string) (owned : ownershipRecord -> item -> bool)
    (ok : ownedEntry -> Prop) (laws : OwnedListLaws keyOf owned ok) (recordKey : string)
    (p p' : pool) (ops : list shared_op) (s : shared) :
  recordKey <> AnnotationLastSync ->
  represents keyOf ok recordKey s p -> shared_run keyOf owned ok recordKey p ops p' ->
  represents keyOf ok recordKey (spec_run keyOf ops s) p'.
Proof. intros Hne Hrep Hrun. unfold spec_run. by apply (shared_run_refines keyOf owned ok recordKey Hne p ops p' s). Qed.

(** A CIDR group: the user pins the prefix the operator had written, and the next
    pass leaves it to the user. *)
Lemma shared_list_refines_witness :
  let e := mkOwned (ItemString "2001:db8::/48") "2001:db8::/48" in
  let p := mkPoolObject (ListFound [ItemString "10.0.0.0/8"])
             {[ AnnotationManagedCIDRs := "" ]} in
  exists p',
    shared_run cidrKeyOf (ownedCIDRItem []) cidr_ok AnnotationManagedCIDRs p
      [OpSync [e]; OpUser [ItemString "192.0.2.0/24"]; OpSync [e]] p' /\
    represents cidrKeyOf cidr_ok AnnotationManagedCIDRs (mkShared [ItemString "192.0.2.0/24"] [e]) p'.
Proof.
  intros e p.
  assert (desired_ok cidr_ok [e]) as Hd.
  { constructor; [|constructor]. right. exists "2001:db8::/48". split; [left; eexists; vm_compute; reflexivity|].
    split; [reflexivity|]. vm_compute. reflexivity. }
  assert (shared_run cidrKeyOf (ownedCIDRItem []) cidr_ok AnnotationManagedCIDRs p
      [OpSync [e]; OpUser [ItemString "192.0.2.0/24"]; OpSync [e]]
      (sync_pass cidrKeyOf (ownedCIDRItem []) AnnotationManagedCIDRs "t2" [e]
        (mkPoolObject (ListFound [ItemString "192.0.2.0/24"; ItemString "2001:db8::/48"])
          (p_annotations (sync_pass cidrKeyOf (ownedCIDRItem []) AnnotationManagedCIDRs "t1" [e] p).1))).1) as Hrun.
  { eapply run_cons; [apply (step_sync cidrKeyOf (ownedCIDRItem []) cidr_ok AnnotationManagedCIDRs "t1"); exact Hd|].
    eapply run_cons.
    { apply (step_user cidrKeyOf (ownedCIDRItem []) cidr_ok AnnotationManagedCIDRs _
               [ItemString "192.0.2.0/24"; ItemString "2001:db8::/48"] [ItemString "192.0.2.0/24"] ["2001:db8::/48"]).
      - vm_compute. reflexivity.
      - constructor; [|constructor]. split; [discriminate|]. split; vm_compute; reflexivity.
      - vm_compute. reflexivity.
      - vm_compute. reflexivity. }
    eapply run_cons; [apply step_sync; exact Hd|]. apply run_nil. }
  eexists. split; [exact Hrun|].
  apply (shared_list_refines cidrKeyOf (ownedCIDRItem []) cidr_ok (cidr_laws []) AnnotationManagedCIDRs p _
    [OpSync [e]; OpUser [ItemString "192.0.2.0/24"]; OpSync [e]] (mkShared [ItemString "10.0.0.0/8"] [])).
  - discriminate.
  - split; [discriminate|]. split; [vm_compute; reflexivity|]. split; [constructor|].
    split; vm_compute; reflexivity.
  - exact Hrun.
Defined.
