(* ===== verification/PoolConfigs.v ===== *)
(** * Pool configurations

    The first half of [internal/controller/poolsync_controller.go]: from a
    DynamicPrefix - its spec, and the current prefix and history of its status -
    to the configurations every pool backend writes: the current one first, then
    one per prefix of the history, for a named address range, a named subnet or
    the prefix itself. *)

From S2P Require Import Prelude GoStrings Netip NetipText Policy Subnet AddressRange Receivers Factory.
From S2P Require Import DynamicPrefix Ownership.

Record poolConfiguration : Type := mkPoolConfig {
  pc_useAddressRange : bool;
  pc_start : string;
  pc_end : string;
  pc_cidr : string
}.

#[global] Instance poolConfiguration_eq_dec : EqDecision poolConfiguration.
Proof. solve_decision. Defined.

Inductive config_error : Type :=
| ErrNoCurrentPrefix
| ErrNotFound (kind name : string)
| ErrCalculate (kind : string) (e : config_error)
| ErrPrefixText (s : string)
| ErrConfigRange (e : range_error)
| ErrConfigSubnet (e : subnet_error).

Definition getMaxHistory (dp : DynamicPrefix) : nat :=
  match tr_MaxPrefixHistory <$> sp_Transition (dp_Spec dp) with
  | Some n => if 0 <? n then Z.to_nat n else 2%nat
  | None => 2%nat
  end.

(** ** Looking up *)

Definition findAddressRangeSpec (dp : DynamicPrefix) (name : string) : option AddressRangeSpec :=
  List.find (fun s => bool_decide (rs_Name s = name)) (sp_AddressRanges (dp_Spec dp)).

Definition findSubnetSpec (dp : DynamicPrefix) (name : string) : option SubnetSpec :=
  List.find (fun s => bool_decide (ss_Name s = name)) (sp_Subnets (dp_Spec dp)).

Definition findAddressRangeInStatus (dp : DynamicPrefix) (name : string) : option poolConfiguration :=
  (fun ar => mkPoolConfig true (RS_Start ar) (RS_End ar) (RS_CIDR ar)) <$>
    List.find (fun ar => bool_decide (RS_Name ar = name)) (st_AddressRanges (dp_Status dp)).

Definition findSubnetInStatus (dp : DynamicPrefix) (name : string) : option poolConfiguration :=
  (fun s => mkPoolConfig false EmptyString EmptyString (SS_CIDR s)) <$>
    List.find (fun s => bool_decide (SS_Name s = name)) (st_Subnets (dp_Status dp)).

(** ** Calculating *)

Definition calculateAddressRangeConfig (prefixStr : string) (rangeSpec : AddressRangeSpec)
    : outcome config_error poolConfiguration :=
  match netiptext.ParsePrefix prefixStr with
  | None => Fail (ErrPrefixText prefixStr)
  | Some basePrefix =>
      let cfg := mkAddressRangeConfig (rs_Name rangeSpec) (rs_Start rangeSpec) (rs_End rangeSpec) in
      (let* ar := wrap_err ErrConfigRange (CalculateAddressRange basePrefix cfg) in
       Ret (mkPoolConfig true (netiptext.AddrString (AR_Start ar)) (netiptext.AddrString (AR_End ar))
              (netiptext.PrefixString (RangeToCIDR (AR_Start ar) (AR_End ar)))))%go
  end.

Definition calculateSubnetConfig (prefixStr : string) (subnetSpec : SubnetSpec)
    : outcome config_error poolConfiguration :=
  match netiptext.ParsePrefix prefixStr with
  | None => Fail (ErrPrefixText prefixStr)
  | Some basePrefix =>
      let cfg := mkSubnetConfig (ss_Name subnetSpec) (ss_Offset subnetSpec) (ss_PrefixLength subnetSpec) in
      (let* subnet := wrap_err ErrConfigSubnet (CalculateSubnet basePrefix cfg) in
       Ret (mkPoolConfig false EmptyString EmptyString (netiptext.PrefixString (S_CIDR subnet))))%go
  end.

(** ** Building *)

Section Mode.
Context {S : Type}.
Context (findSpec : DynamicPrefix -> string -> option S)
        (findInStatus : DynamicPrefix -> string -> option poolConfiguration)
        (calculate : string -> S -> outcome config_error poolConfiguration).

(** The loop over the history; [i] is the index of the next entry. *)
Fixpoint history_configs (maxHistory i : nat) (spec : S) (history : list PrefixHistoryEntry)
    : outcome config_error (list poolConfiguration) :=
  match history with
  | [] => Ret []
  | histEntry :: rest =>
      if (maxHistory <=? i)%nat then Ret []
      else match calculate (H_Prefix histEntry) spec with
           | Panic => Panic
           | Fail _ => history_configs maxHistory (1 + i) spec rest
           | Ret histConfig =>
               (let* configs := history_configs maxHistory (1 + i) spec rest in Ret (histConfig :: configs))%go
           end
  end.

Definition buildModeConfigs (dp : DynamicPrefix) (kind name : string) (maxHistory : nat)
    : outcome config_error (list poolConfiguration) :=
  let spec := findSpec dp name in
  (let* currentConfig :=
     match findInStatus dp name with
     | Some c => Ret c
     | None => match spec with
               | None => Fail (ErrNotFound kind name)
               | Some sp => wrap_err (ErrCalculate kind) (calculate (st_CurrentPrefix (dp_Status dp)) sp)
               end
     end in
   match spec with
   | None => Ret [currentConfig]
   | Some sp =>
       let* configs := history_configs maxHistory 0 sp (st_History (dp_Status dp)) in
       Ret (currentConfig :: configs)
   end)%go.
End Mode.

Definition buildAddressRangeConfigs (dp : DynamicPrefix) (addressRangeName : string) (maxHistory : nat) :=
  buildModeConfigs findAddressRangeSpec findAddressRangeInStatus calculateAddressRangeConfig
    dp "address range" addressRangeName maxHistory.

Definition buildSubnetConfigs (dp : DynamicPrefix) (subnetName : string) (maxHistory : nat) :=
  buildModeConfigs findSubnetSpec findSubnetInStatus calculateSubnetConfig dp "subnet" subnetName maxHistory.

Definition buildRawPrefixConfigs (dp : DynamicPrefix) (maxHistory : nat) : list poolConfiguration :=
  mkPoolConfig false EmptyString EmptyString (st_CurrentPrefix (dp_Status dp)) ::
  ((fun e => mkPoolConfig false EmptyString EmptyString (H_Prefix e)) <$>
     take maxHistory (st_History (dp_Status dp))).

(** The annotations: [None] when absent. *)
Definition buildPoolConfigurations (dp : DynamicPrefix) (addressRangeName subnetName : option string)
    : outcome config_error (list poolConfiguration) :=
  if decide (st_CurrentPrefix (dp_Status dp) = EmptyString) then Fail ErrNoCurrentPrefix
  else
    let maxHistory := getMaxHistory dp in
    match addressRangeName with
    | Some (String _ _ as ar) => buildAddressRangeConfigs dp ar maxHistory
    | _ => match subnetName with
           | Some (String _ _ as sn) => buildSubnetConfigs dp sn maxHistory
           | _ => Ret (buildRawPrefixConfigs dp maxHistory)
           end
    end.

Definition collectManagedPrefixes (dp : DynamicPrefix) : list netip.Prefix :=
  (if decide (st_CurrentPrefix (dp_Status dp) = EmptyString) then []
   else option_list (netiptext.ParsePrefix (st_CurrentPrefix (dp_Status dp)))) ++
  omap (fun h => netiptext.ParsePrefix (H_Prefix h)) (st_History (dp_Status dp)).

(** * What a configuration describes *)

(** The addresses of a configuration lie in [base]: for a range, two addresses in
    order, whose enclosing network also lies there; otherwise a network. *)
Definition config_at (base : netip.Prefix) (c : poolConfiguration) : Prop :=
  (exists q, netiptext.ParsePrefix (pc_cidr c) = Some q /\ netip.prefix6 q /\
     forall x, netip.in_prefix q x -> netip.in_prefix base x) /\
  if pc_useAddressRange c then
    exists a b, netiptext.ParseAddr (pc_start c) = Some a /\ addr6 a /\
      netiptext.ParseAddr (pc_end c) = Some b /\ addr6 b /\ netip.addr a <= netip.addr b /\
      netip.in_prefix base (netip.addr a) /\ netip.in_prefix base (netip.addr b)
  else pc_start c = EmptyString /\ pc_end c = EmptyString.

(** A status with IPv6 prefixes, and ranges and subnets of the current one: every status
    the DynamicPrefix reconciler writes unless its networks could not be calculated. *)
Definition status_ok (dp : DynamicPrefix) : Prop :=
  (exists base, netiptext.ParsePrefix (st_CurrentPrefix (dp_Status dp)) = Some base /\ netip.prefix6 base /\
     (forall name c, findAddressRangeInStatus dp name = Some c -> config_at base c) /\
     (forall name c, findSubnetInStatus dp name = Some c -> config_at base c)) /\
  Forall (fun h => exists b, netiptext.ParsePrefix (H_Prefix h) = Some b /\ netip.prefix6 b)
    (st_History (dp_Status dp)).

Lemma ParsePrefix6 s p : netiptext.ParsePrefix s = Some p -> netip.Is6 (netip.ip p) = true -> netip.prefix6 p.
Proof. intros H H6. apply ParsePrefix_wf in H as [? ?]. by split. Qed.

Lemma calculateAddressRangeConfig_at s base spec c :
  netiptext.ParsePrefix s = Some base -> netip.prefix6 base ->
  calculateAddressRangeConfig s spec <> Panic /\
  (calculateAddressRangeConfig s spec = Ret c -> config_at base c).
Proof.
  intros Hs Hb. unfold calculateAddressRangeConfig. rewrite Hs. cbv zeta.
  set (cfg := mkAddressRangeConfig _ _ _).
  destruct (CalculateAddressRange_cases base cfg Hb) as (Hnp & _ & Hiff & Hin).
  destruct (CalculateAddressRange base cfg) as [ar|e|] eqn:Har; [|done..]. cbn [wrap_err obind]. split; [done|].
  intros [= <-]. destruct (Hin ar eq_refl) as (Hst & Hen & Hle).
  destruct (proj1 (Hiff ar) eq_refl) as (so & eo & _ & _ & _ & E).
  assert (addr6 (AR_Start ar)) as Ha.
  { rewrite E in *. cbn in *. split; [|done]. apply addr6_wf. pose proof (first_num_bounds base Hb).
    unfold netip.in_prefix in Hst. lia. }
  assert (addr6 (AR_End ar)) as He.
  { rewrite E in *. cbn in *. split; [|done]. apply addr6_wf. pose proof (first_num_bounds base Hb).
    unfold netip.in_prefix in Hen. lia. }
  assert (forall a, addr6 a -> netiptext.ParseAddr (netiptext.AddrString a) = Some a) as Hp.
  { intros a [Hwf Hz]. apply ParseAddr_String; [done|]. unfold netip.IsValidAddr. by rewrite Hz. }
  assert (netip.Is6 (AR_Start ar) = true) as H6 by (unfold netip.Is6; by rewrite (proj2 Ha)).
  destruct (RangeToCIDR_spec (AR_Start ar) (AR_End ar) (proj1 Ha) (proj1 He) H6) as (Hq & _ & _ & _ & Hmin).
  destruct (Hmin base Hb Hst Hen) as [_ Hsub]. split; cbn [pc_cidr pc_useAddressRange pc_start pc_end].
  - eexists. split; [apply ParsePrefix_String; apply Hq|]. by split.
  - exists (AR_Start ar), (AR_End ar). rewrite !Hp by done. done.
Qed.

Lemma calculateSubnetConfig_at s base spec c :
  netiptext.ParsePrefix s = Some base -> netip.prefix6 base ->
  calculateSubnetConfig s spec <> Panic /\
  (calculateSubnetConfig s spec = Ret c -> config_at base c).
Proof.
  intros Hs Hb. unfold calculateSubnetConfig. rewrite Hs. cbv zeta. set (cfg := mkSubnetConfig _ _ _).
  destruct (decide (fits base cfg)) as [Hf|Hf].
  - rewrite CalculateSubnet_fits by done. cbn [wrap_err obind S_CIDR]. split; [done|]. intros [= <-].
    pose proof (subnet_prefix6 base cfg Hb Hf) as H6. split; cbn; [|done].
    eexists. split; [apply ParsePrefix_String; apply H6|]. split; [done|].
    intros x Hx. apply (subnet_prefix_in base cfg x Hb Hf) in Hx.
    pose proof (subnet_first_bounds base cfg Hb Hf). unfold netip.in_prefix. lia.
  - destruct (CalculateSubnet_not_fits base cfg Hb Hf) as (e & -> & _). done.
Qed.

(** ** The history *)

Definition ret_of {E A} (m : outcome E A) : option A := match m with Ret a => Some a | _ => None end.

(** The first [maxHistory] entries, those that cannot be derived left out. *)
Lemma history_configs_spec {Sp} (calculate : string -> Sp -> outcome config_error poolConfiguration) M i spec h :
  Forall (fun e => calculate (H_Prefix e) spec <> Panic) h ->
  history_configs calculate M i spec h =
    Ret (omap (fun e => ret_of (calculate (H_Prefix e) spec)) (take (M - i) h)).
Proof.
  intros H. revert i. induction H as [|e h He H IH]; intros i; [by rewrite take_nil|]. cbn [history_configs].
  destruct (Nat.leb_spec M i); [by replace (M - i)%nat with O by lia|].
  replace (M - i)%nat with (S (M - (1 + i)))%nat by lia. cbn [take].
  destruct (calculate (H_Prefix e) spec) as [c|er|] eqn:E; [| |done]; rewrite IH; cbn [omap list_omap];
    by rewrite E.
Qed.

Lemma length_omap_le {A B} (f : A -> option B) l : (length (omap f l) <= length l)%nat.
Proof. induction l as [|x l IH]; cbn; [lia|]. destruct (f x); cbn; lia. Qed.

Lemma managed_history dp h b :
  h ∈ st_History (dp_Status dp) -> netiptext.ParsePrefix (H_Prefix h) = Some b -> b ∈ collectManagedPrefixes dp.
Proof.
  intros Hh Hb. unfold collectManagedPrefixes. apply elem_of_app. right.
  apply list_elem_of_omap. by exists h.
Qed.

Lemma managed_current dp b :
  st_CurrentPrefix (dp_Status dp) <> EmptyString ->
  netiptext.ParsePrefix (st_CurrentPrefix (dp_Status dp)) = Some b -> b ∈ collectManagedPrefixes dp.
Proof.
  intros Hne Hb. unfold collectManagedPrefixes. rewrite decide_False, Hb by done. apply elem_of_app. left.
  by apply list_elem_of_here.
Qed.

(** ** Building, for every mode *)

(** Where the configurations of a DynamicPrefix may lie: the first in the current
    prefix, each in a prefix of the status. *)
Definition configs_ok (dp : DynamicPrefix) (configs : list poolConfiguration) : Prop :=
  (length configs <= 1 + getMaxHistory dp)%nat /\
  (exists c rest, configs = c :: rest /\
     forall base, netiptext.ParsePrefix (st_CurrentPrefix (dp_Status dp)) = Some base -> config_at base c) /\
  Forall (fun c => exists m, m ∈ collectManagedPrefixes dp /\ netip.prefix6 m /\ config_at m c) configs.

(** The same when of the first only [Q] is known: what the status lists may be
    left over from an earlier prefix. *)
Definition configs_from (Q : poolConfiguration -> Prop) (dp : DynamicPrefix) (configs : list poolConfiguration) : Prop :=
  (length configs <= 1 + getMaxHistory dp)%nat /\
  exists c rest, configs = c :: rest /\ Q c /\
    Forall (fun c => exists m, m ∈ collectManagedPrefixes dp /\ netip.prefix6 m /\ config_at m c) rest.

Lemma configs_from_ok dp base configs :
  netiptext.ParsePrefix (st_CurrentPrefix (dp_Status dp)) = Some base -> netip.prefix6 base ->
  st_CurrentPrefix (dp_Status dp) <> EmptyString ->
  configs_from (config_at base) dp configs -> configs_ok dp configs.
Proof.
  intros Hbase H6 Hne (Hlen & c & rest & -> & Hc & Hrest). split; [done|]. split.
  - exists c, rest. split; [done|]. intros b Hb. by simplify_eq.
  - constructor; [|done]. exists base. split; [by apply managed_current|done].
Qed.

(** A status of which everything listed is [Q], as everything derived from the
    current prefix is. *)
Definition status_from (Q : poolConfiguration -> Prop) (dp : DynamicPrefix) (base : netip.Prefix) : Prop :=
  netiptext.ParsePrefix (st_CurrentPrefix (dp_Status dp)) = Some base /\ netip.prefix6 base /\
  (forall c, config_at base c -> Q c) /\
  (forall name c, findAddressRangeInStatus dp name = Some c -> Q c) /\
  (forall name c, findSubnetInStatus dp name = Some c -> Q c) /\
  Forall (fun h => exists b, netiptext.ParsePrefix (H_Prefix h) = Some b /\ netip.prefix6 b)
    (st_History (dp_Status dp)).

Section BuildMode.
Context {Sp : Type} (findSpec : DynamicPrefix -> string -> option Sp)
        (findInStatus : DynamicPrefix -> string -> option poolConfiguration)
        (calculate : string -> Sp -> outcome config_error poolConfiguration).
Hypothesis calculate_at : forall s base spec c,
  netiptext.ParsePrefix s = Some base -> netip.prefix6 base ->
  calculate s spec <> Panic /\ (calculate s spec = Ret c -> config_at base c).

Lemma history_configs_total M spec h :
  Forall (fun e => exists b, netiptext.ParsePrefix (H_Prefix e) = Some b /\ netip.prefix6 b) h ->
  history_configs calculate M 0 spec h =
    Ret (omap (fun e => ret_of (calculate (H_Prefix e) spec)) (take M h)).
Proof.
  intros H. rewrite history_configs_spec; [by rewrite Nat.sub_0_r|]. eapply Forall_impl; [exact H|].
  intros e (b & Hb & H6). by apply (calculate_at _ b spec (mkPoolConfig false "" "" "") Hb H6).
Qed.

Lemma buildModeConfigs_from Q dp kind name base :
  status_from Q dp base -> (forall c, findInStatus dp name = Some c -> Q c) ->
  match buildModeConfigs findSpec findInStatus calculate dp kind name (getMaxHistory dp) with
  | Ret configs => configs_from Q dp configs
  | Fail e => findInStatus dp name = None
  | Panic => False
  end.
Proof.
  intros (Hbase & H6 & HQ & _ & _ & Hh) Hst. unfold buildModeConfigs. cbv zeta.
  set (cur := match findInStatus dp name with Some c => Ret c | None => _ end).
  assert (match cur with Ret c => Q c | Fail _ => findInStatus dp name = None | Panic => False end) as Hcur.
  { unfold cur. destruct (findInStatus dp name) as [c|] eqn:E; [by apply Hst|].
    destruct (findSpec dp name) as [sp|]; [|done].
    destruct (calculate _ sp) as [c|e|] eqn:Ec; cbn; [|done|].
    - by apply HQ, (calculate_at _ base sp c Hbase H6).
    - by apply (calculate_at _ base sp (mkPoolConfig false "" "" "") Hbase H6). }
  destruct cur as [c|e|]; [|exact Hcur|done]. cbn [obind]. destruct (findSpec dp name) as [sp|].
  2:{ split; [cbn; lia|]. by exists c, []. }
  rewrite history_configs_total by done. cbn [obind]. split.
  - cbn [length]. apply le_n_S. etrans; [apply length_omap_le|]. rewrite length_take. lia.
  - eexists c, _. split; [done|]. split; [done|].
    apply Forall_forall. intros c' (e & He & Hc')%list_elem_of_omap.
    apply elem_of_take in He as (i & He & _). apply list_elem_of_lookup_2 in He.
    rewrite Forall_forall in Hh. destruct (Hh e He) as (b & Hb & Hb6).
    exists b. split; [by eapply managed_history|]. split; [done|].
    destruct (calculate (H_Prefix e) sp) eqn:E; [|done..]. cbn in Hc'. simplify_eq.
    by apply (calculate_at (H_Prefix e) b sp c' Hb Hb6).
Qed.
End BuildMode.

Lemma raw_config_at s base :
  netiptext.ParsePrefix s = Some base -> netip.prefix6 base ->
  config_at base (mkPoolConfig false EmptyString EmptyString s).
Proof. intros Hs H6. split; [|done]. by exists base. Qed.

Lemma buildRawPrefixConfigs_from Q dp base : status_from Q dp base ->
  configs_from Q dp (buildRawPrefixConfigs dp (getMaxHistory dp)).
Proof.
  intros (Hbase & H6 & HQ & _ & _ & Hh). unfold buildRawPrefixConfigs. split.
  - cbn. rewrite length_fmap, length_take. lia.
  - eexists _, _. split; [done|]. split; [by apply HQ, raw_config_at|].
    apply Forall_fmap, Forall_take. rewrite !Forall_forall in *. intros e He.
    destruct (Hh e He) as (b & Hb & Hb6). exists b. split; [by eapply managed_history|].
    split; [done|by apply raw_config_at].
Qed.

Lemma status_from_nonempty Q dp base : status_from Q dp base -> st_CurrentPrefix (dp_Status dp) <> EmptyString.
Proof. intros (Hb & _) E. by rewrite E in Hb. Qed.

(** * Properties *)

(** What was not found when the configurations cannot be built. *)
Definition not_in_status (dp : DynamicPrefix) (ar sn : option string) : Prop :=
  (exists name, ar = Some name /\ name <> EmptyString /\ findAddressRangeInStatus dp name = None) \/
  (exists name, sn = Some name /\ name <> EmptyString /\ findSubnetInStatus dp name = None).

Lemma buildPoolConfigurations_from Q dp base ar sn :
  status_from Q dp base ->
  match buildPoolConfigurations dp ar sn with
  | Ret configs => configs_from Q dp configs
  | Fail _ => not_in_status dp ar sn
  | Panic => False
  end.
Proof.
  intros Hst. pose proof Hst as (_ & _ & _ & Har & Hsn & _). unfold buildPoolConfigurations, not_in_status.
  rewrite decide_False by by eapply status_from_nonempty. cbv zeta.
  pose proof (buildRawPrefixConfigs_from Q dp base Hst) as Hraw.
  assert (forall name, name <> EmptyString -> ar = Some name ->
    match buildAddressRangeConfigs dp name (getMaxHistory dp) with
    | Ret configs => configs_from Q dp configs
    | Fail e => findAddressRangeInStatus dp name = None
    | Panic => False
    end) as Hrange.
  { intros name _ _. eapply buildModeConfigs_from; [apply calculateAddressRangeConfig_at|done|intros c; apply Har]. }
  assert (forall name, name <> EmptyString -> sn = Some name ->
    match buildSubnetConfigs dp name (getMaxHistory dp) with
    | Ret configs => configs_from Q dp configs
    | Fail e => findSubnetInStatus dp name = None
    | Panic => False
    end) as Hsub.
  { intros name _ _. eapply buildModeConfigs_from; [apply calculateSubnetConfig_at|done|intros c; apply Hsn]. }
  destruct ar as [[|c1 ar1]|]; [|specialize (Hrange (String c1 ar1) ltac:(discriminate) eq_refl);
    destruct (buildAddressRangeConfigs _ _ _); eauto|].
  all: destruct sn as [[|c2 sn2]|]; [exact Hraw| |exact Hraw].
  all: specialize (Hsub (String c2 sn2) ltac:(discriminate) eq_refl); destruct (buildSubnetConfigs _ _ _); eauto 6.
Qed.

Lemma status_ok_from dp : status_ok dp ->
  exists base, status_from (config_at base) dp base.
Proof. intros ((base & Hb & H6 & Har & Hsn) & Hh). exists base. unfold status_from. eauto 7. Qed.

Lemma buildPoolConfigurations_cases dp ar sn :
  status_ok dp ->
  match buildPoolConfigurations dp ar sn with
  | Ret configs => configs_ok dp configs
  | Fail _ => not_in_status dp ar sn
  | Panic => False
  end.
Proof.
  intros (base & Hst)%status_ok_from. pose proof (buildPoolConfigurations_from _ _ _ ar sn Hst) as H.
  destruct (buildPoolConfigurations dp ar sn); [|done..].
  eapply configs_from_ok; [apply Hst..| |exact H]. by eapply status_from_nonempty.
Qed.

(** C11 For any status whose ranges and subnets are those of its current prefix - every
    one the DynamicPrefix reconciler writes except a degraded one, which may keep those
    of an earlier prefix - the configurations of a pool are built without a panic, at most one per remembered prefix plus the
    current one; the first describes addresses of the current prefix and each of
    the others addresses of one prefix of the status, so nothing the operator
    writes to a pool lies outside the prefixes it manages.  It fails only when a
    range or subnet was asked for that the status does not have. *)
Theorem built_configs_managed (dp : DynamicPrefix) (addressRangeName subnetName : option string) :
  status_ok dp ->
  match buildPoolConfigurations dp addressRangeName subnetName with
  | Ret configs => configs_ok dp configs
  | Fail _ => (exists name, addressRangeName = Some name /\ name <> EmptyString /\
                            findAddressRangeInStatus dp name = None) \/
              (exists name, subnetName = Some name /\ name <> EmptyString /\ findSubnetInStatus dp name = None)
  | Panic => False
  end.
Proof. exact (buildPoolConfigurations_cases dp addressRangeName subnetName). Qed.

Definition sample_history (s : string) : PrefixHistoryEntry := mkHistory s None (Some 0) PrefixStateDraining.

Definition sample_pool_dp (limit : option Z) (history : list string) : DynamicPrefix :=
  mkDynamicPrefix "home" false true 1 None
    (mkSpec (mkAcquisition None None None) [mkRangeSpec "lb" "::f000" "::f0ff"] []
       (mkTransition TransitionModeSimple <$> limit))
    (mkStatusOf "2001:db8:2::/48" (Some SourceRouterAdvertisement) None
       [mkRangeStatus "lb" "2001:db8:2::f000" "2001:db8:2::f0ff" "2001:db8:2::f000/120"] []
       (sample_history <$> history) []).

Lemma find_list_Forall {A} (P : A -> Prop) (t : A -> bool) l x : Forall P l -> List.find t l = Some x -> P x.
Proof. intros H [Hin _]%List.find_some. rewrite Forall_forall in H. by apply H, list_elem_of_In. Qed.

(** A checklist for concrete statuses. *)
Lemma status_ok_of dp base :
  netiptext.ParsePrefix (st_CurrentPrefix (dp_Status dp)) = Some base -> netip.prefix6 base ->
  Forall (fun ar => config_at base (mkPoolConfig true (RS_Start ar) (RS_End ar) (RS_CIDR ar)))
    (st_AddressRanges (dp_Status dp)) ->
  Forall (fun s => config_at base (mkPoolConfig false EmptyString EmptyString (SS_CIDR s))) (st_Subnets (dp_Status dp)) ->
  Forall (fun h => exists b, netiptext.ParsePrefix (H_Prefix h) = Some b /\ netip.prefix6 b)
    (st_History (dp_Status dp)) ->
  status_ok dp.
Proof.
  intros Hb H6 Hr Hs Hh. split; [|done]. exists base. split; [done|]. split; [done|]. split.
  - intros name c (ar & Hf & ->)%fmap_Some. by apply (find_list_Forall _ _ _ _ Hr) in Hf.
  - intros name c (x & Hf & ->)%fmap_Some. by apply (find_list_Forall _ _ _ _ Hs) in Hf.
Qed.

Lemma in_prefix_check p x : (netip.first_num p <=? x) && (x <=? netip.last_num p) = true -> netip.in_prefix p x.
Proof. intros [?%Z.leb_le ?%Z.leb_le]%andb_true_iff. by split. Qed.

Lemma in_prefix_sub q p :
  (netip.first_num p <=? netip.first_num q) && (netip.last_num q <=? netip.last_num p) = true ->
  forall x, netip.in_prefix q x -> netip.in_prefix p x.
Proof. intros [?%Z.leb_le ?%Z.leb_le]%andb_true_iff x. unfold netip.in_prefix. lia. Qed.

Lemma sample_status_ok limit history :
  Forall (fun s => exists b, netiptext.ParsePrefix s = Some b /\ netip.prefix6 b) history ->
  status_ok (sample_pool_dp limit history).
Proof.
  intros Hh. apply (status_ok_of _ (prefix_of_string "2001:db8:2::/48")).
  - vm_compute. reflexivity.
  - by apply prefix6_of_string.
  - repeat constructor.
    + exists (prefix_of_string "2001:db8:2::f000/120"). split; [vm_compute; reflexivity|].
      split; [by apply prefix6_of_string|]. apply in_prefix_sub. vm_compute. reflexivity.
    + exists (addr_of_string "2001:db8:2::f000"), (addr_of_string "2001:db8:2::f0ff").
      split; [vm_compute; reflexivity|]. split; [split; [apply addr_of_string_wf|vm_compute; reflexivity]|].
      split; [vm_compute; reflexivity|]. split; [split; [apply addr_of_string_wf|vm_compute; reflexivity]|].
      split; [vm_compute; discriminate|]. split; apply in_prefix_check; vm_compute; reflexivity.
  - constructor.
  - cbn. apply Forall_fmap. exact Hh.
Qed.

Lemma sample_old_ok : Forall (fun s => exists b, netiptext.ParsePrefix s = Some b /\ netip.prefix6 b) ["2001:db8:1::/48"].
Proof.
  constructor; [|constructor]. exists (prefix_of_string "2001:db8:1::/48").
  split; [vm_compute; reflexivity|by apply prefix6_of_string].
Qed.

(** Range mode: the range of the status, then the same range of the old prefix. *)
Lemma built_configs_managed_witness :
  buildPoolConfigurations (sample_pool_dp None ["2001:db8:1::/48"]) (Some "lb") None =
    Ret [mkPoolConfig true "2001:db8:2::f000" "2001:db8:2::f0ff" "2001:db8:2::f000/120";
         mkPoolConfig true "2001:db8:1::f000" "2001:db8:1::f0ff" "2001:db8:1::f000/120"] /\
  configs_ok (sample_pool_dp None ["2001:db8:1::/48"])
    [mkPoolConfig true "2001:db8:2::f000" "2001:db8:2::f0ff" "2001:db8:2::f000/120";
     mkPoolConfig true "2001:db8:1::f000" "2001:db8:1::f0ff" "2001:db8:1::f000/120"].
Proof.
  assert (buildPoolConfigurations (sample_pool_dp None ["2001:db8:1::/48"]) (Some "lb") None =
    Ret [mkPoolConfig true "2001:db8:2::f000" "2001:db8:2::f0ff" "2001:db8:2::f000/120";
         mkPoolConfig true "2001:db8:1::f000" "2001:db8:1::f0ff" "2001:db8:1::f000/120"]) as E
    by (vm_compute; reflexivity).
  split; [exact E|].
  pose proof (built_configs_managed (sample_pool_dp None ["2001:db8:1::/48"]) (Some "lb") None
                (sample_status_ok _ _ sample_old_ok)) as H.
  rewrite E in H. exact H.
Defined.

(** Without a range or a subnet the pool gets the current prefix and the
    first entries of the history, up to the limit.  The history is kept oldest
    first, so when it is longer than the limit - the limit was lowered since the
    last rotation - it is the newest draining prefix, the one most likely still
    in use, that the pool loses. *)
Theorem raw_configs_keep_oldest (dp : DynamicPrefix) :
  st_CurrentPrefix (dp_Status dp) <> EmptyString ->
  let raw s := mkPoolConfig false EmptyString EmptyString s in
  let configs := raw (st_CurrentPrefix (dp_Status dp)) ::
                   ((fun h => raw (H_Prefix h)) <$> take (getMaxHistory dp) (st_History (dp_Status dp))) in
  buildPoolConfigurations dp None None = Ret configs /\
  (NoDup (st_CurrentPrefix (dp_Status dp) :: (H_Prefix <$> st_History (dp_Status dp))) ->
   (getMaxHistory dp < length (st_History (dp_Status dp)))%nat ->
   forall newest, last (st_History (dp_Status dp)) = Some newest -> H_Prefix newest ∉ pc_cidr <$> configs).
Proof.
  intros Hne raw configs. split; [unfold buildPoolConfigurations; by rewrite decide_False|].
  intros [Hc Hnd]%NoDup_cons Hlt newest Hlast. unfold configs. cbn [fmap list_fmap pc_cidr raw].
  rewrite <- list_fmap_compose, not_elem_of_cons. clear configs.
  set (h := st_History (dp_Status dp)) in *. split.
  - intros E. apply Hc. rewrite <- E. apply list_elem_of_fmap_2, list_elem_of_lookup.
    rewrite last_lookup in Hlast. eauto.
  - intros (e & He & Hin)%list_elem_of_fmap. cbn in He.
    apply elem_of_take in Hin as (i & Hi & Hlti). rewrite last_lookup in Hlast.
    assert (i = pred (length h)) as ->; [|lia].
    apply (NoDup_lookup (H_Prefix <$> h) i (pred (length h)) (H_Prefix e)); [done| |].
    + by rewrite list_lookup_fmap, Hi.
    + by rewrite list_lookup_fmap, Hlast, <- He.
Qed.

Lemma raw_configs_keep_oldest_witness :
  let dp := sample_pool_dp (Some 1) ["2001:db8::/48"; "2001:db8:1::/48"] in
  buildPoolConfigurations dp None None =
    Ret [mkPoolConfig false "" "" "2001:db8:2::/48"; mkPoolConfig false "" "" "2001:db8::/48"] /\
  "2001:db8:1::/48" ∉ ["2001:db8:2::/48"; "2001:db8::/48"].
Proof.
  intros dp. destruct (raw_configs_keep_oldest dp) as [H1 H2]; [done|]. split; [exact H1|].
  refine (H2 _ _ (sample_history "2001:db8:1::/48") eq_refl); [by apply (bool_decide_unpack _)|vm_compute; lia].
Defined.
