(* ===== verification/PoolBackends.v ===== *)
(** * The pool backends

    The updates and releases of [internal/controller/poolsync_backends.go],
    [poolsync_controller.go] and [kubevip_backend.go]: what each kind of pool does
    with the configurations of PoolConfigs.v.  Three share a list field with the
    user (Ownership.v, ListBackends.v); Calico's pool holds one CIDR, so draining
    prefixes become sibling objects; kube-vip's ConfigMap holds comma-separated
    lists under keys.  Answers of the API server are arguments. *)

From S2P Require Import Prelude GoStrings Netip NetipText Policy AddressRange Receivers Factory DynamicPrefix.
From S2P Require Import Ownership ListBackends PoolConfigs.

(** ** Lists shared with the user *)

(** [config.useAddressRange && config.start != "" && config.end != ""]. *)
Definition has_range (c : poolConfiguration) : bool :=
  pc_useAddressRange c && negb (bool_decide (pc_start c = EmptyString)) &&
  negb (bool_decide (pc_end c = EmptyString)).

Definition blockEntry (c : poolConfiguration) : ownedEntry :=
  let b := if has_range c then mkBlock None (Some (pc_start c)) (Some (pc_end c)) EmptyString
           else mkBlock (Some (pc_cidr c)) None None EmptyString in
  mkOwned (ItemBlock b) (blockKey b).

Definition cidrEntry (c : poolConfiguration) : ownedEntry :=
  mkOwned (ItemString (pc_cidr c)) (canonicalEntry (pc_cidr c)).

Definition addressEntry (c : poolConfiguration) : option ownedEntry :=
  let entry := if has_range c then pc_start c +:+ "-" +:+ pc_end c else pc_cidr c in
  if decide (entry = EmptyString) then None else Some (mkOwned (ItemString entry) (canonicalAddressEntry entry)).

Definition updateLoadBalancerIPPool (now : string) (updateErr : option error) (configs : list poolConfiguration)
    (managedPrefixes : list netip.Prefix) (p : pool) : pool * (bool * option error) :=
  let record := parseOwnershipRecord (recordFor p AnnotationManagedBlocks) in
  syncOwnedList now updateErr AnnotationManagedBlocks (blockEntry <$> configs) blockKeyOf
    (ownedBlockItem managedPrefixes record) p.

Definition updateCIDRGroup (now : string) (updateErr : option error) (configs : list poolConfiguration)
    (managedPrefixes : list netip.Prefix) (p : pool) : pool * (bool * option error) :=
  let record := parseOwnershipRecord (recordFor p AnnotationManagedCIDRs) in
  syncOwnedList now updateErr AnnotationManagedCIDRs (cidrEntry <$> configs) cidrKeyOf
    (ownedCIDRItem managedPrefixes record) p.

(** The ownership test may panic on an entry; [None]. *)
Definition metallb_update (now : string) (updateErr : option error) (configs : list poolConfiguration)
    (managedPrefixes : list netip.Prefix) (p : pool) : option (pool * (bool * option error)) :=
  let record := parseOwnershipRecord (recordFor p AnnotationManagedAddresses) in
  _ ← mapM (ownedAddressItem managedPrefixes record) (existing p);
  Some (syncOwnedList now updateErr AnnotationManagedAddresses (omap addressEntry configs) addressKeyOf
          (address_owned managedPrefixes record) p).

Definition lb_release : pool -> pool * (bool * option error) :=
  releaseRecordedSlice AnnotationManagedBlocks blockKeyOf.
Definition cidr_release : pool -> pool * (bool * option error) :=
  releaseRecordedSlice AnnotationManagedCIDRs cidrKeyOf.
Definition metallb_release : pool -> pool * (bool * option error) :=
  releaseRecordedSlice AnnotationManagedAddresses addressKeyOf.

(** ** Calico *)

Definition calicoCIDRForConfig (c : poolConfiguration) : outcome error string :=
  if negb (pc_useAddressRange c) then
    if decide (pc_cidr c = EmptyString) then Fail (errors_New "calico IPPool requires a CIDR configuration")
    else Ret (pc_cidr c)
  else
    match exactCIDRForAddressRange (pc_start c) (pc_end c) with
    | Panic => Panic
    | Fail _ => Fail (errors_New "invalid address range")
    | Ret (cidr, true) => Ret cidr
    | Ret (_, false) =>
        Fail (errors_New ("calico IPPool spec.cidr can only represent exact CIDR ranges; " +:+ pc_start c +:+
                          "-" +:+ pc_end c +:+ " is not CIDR-aligned"))
    end.

(** A string field, and a list of strings. *)
Inductive nested_string : Type := StrAbsent | StrWrongType | StrFound (s : string).
Inductive nested_strings : Type := StrsAbsent | StrsWrongType | StrsFound (l : list string).

Definition str_value (f : nested_string) : string := match f with StrFound s => s | _ => EmptyString end.

#[global] Instance nested_string_eq_dec : EqDecision nested_string.
Proof. solve_decision. Defined.
#[global] Instance nested_strings_eq_dec : EqDecision nested_strings.
Proof. solve_decision. Defined.

Record calicoPool : Type := mkCalico {
  cp_cidr : nested_string;
  cp_allowedUses : nested_strings;
  cp_labels : gmap string string;
  cp_annotations : gmap string string
}.

#[global] Instance calicoPool_eq_dec : EqDecision calicoPool.
Proof. solve_decision. Defined.

Definition set_cidr (cidr : string) (p : calicoPool) : calicoPool :=
  mkCalico (StrFound cidr) (cp_allowedUses p) (cp_labels p) (cp_annotations p).
Definition set_calico_annotations (a : gmap string string) (p : calicoPool) : calicoPool :=
  mkCalico (cp_cidr p) (cp_allowedUses p) (cp_labels p) a.

Definition LabelManagedBy : string := "app.kubernetes.io/managed-by".
Definition LabelManagedByValue : string := "dynamic-prefix-operator".
Definition LabelDynamicPrefixName : string := "dynamic-prefix.io/name".
Definition LabelCalicoParentPool : string := "dynamic-prefix.io/parent-pool".
Definition AnnotationName : string := "dynamic-prefix.io/name".
Definition AnnotationSubnet : string := "dynamic-prefix.io/subnet".
Definition AnnotationAddressRange : string := "dynamic-prefix.io/address-range".
Definition AnnotationKubevipKey : string := "dynamic-prefix.io/kubevip-key".

Definition newCalicoSibling (now parentName : string) (parent : calicoPool) (cidr : string) : calicoPool :=
  mkCalico (StrFound cidr)
    (match cp_allowedUses parent with StrsFound l => StrsFound l | _ => StrsAbsent end)
    (<[LabelManagedBy := LabelManagedByValue]> (<[LabelCalicoParentPool := parentName]>
       {[LabelDynamicPrefixName := default EmptyString (cp_annotations parent !! AnnotationName)]}))
    {[AnnotationLastSync := now]}.

(** [client.MatchingLabels]. *)
Definition is_sibling (parentName : string) (p : calicoPool) : bool :=
  bool_decide (cp_labels p !! LabelManagedBy = Some LabelManagedByValue /\
               cp_labels p !! LabelCalicoParentPool = Some parentName).

Section Calico.
(** The name of a sibling is a hash of its CIDR; a range over a map visits its
    entries in some order. *)
Context (siblingPoolName : string -> string -> string).
Context (range_map : gmap string string -> list (string * string)).

(** What the API server answers to each call, by object name. *)
Record calico_api : Type := mkCalicoAPI {
  api_now : string;
  api_get : string -> option error;        (* an error other than NotFound *)
  api_update : string -> option error;
  api_create : string -> option error;
  api_list : option error;
  api_delete : string -> option error      (* an error other than NotFound *)
}.

(** The siblings to be: a range that is no CIDR is skipped. [None]: a panic. *)
Fixpoint expected_siblings (parentName : string) (configs : list poolConfiguration) (acc : gmap string string)
    : option (gmap string string) :=
  match configs with
  | [] => Some acc
  | c :: rest =>
      match calicoCIDRForConfig c with
      | Panic => None
      | Fail _ => expected_siblings parentName rest acc
      | Ret cidr => expected_siblings parentName rest (<[siblingPoolName parentName cidr := cidr]> acc)
      end
  end.

(** The pools of the cluster, whether anything changed, the error. *)
Fixpoint ensure_siblings (env : calico_api) (parentName : string) (parent : calicoPool)
    (expected : list (string * string)) (pools : gmap string calicoPool) (changed : bool)
    : gmap string calicoPool * (bool * option error) :=
  match expected with
  | [] => (pools, (changed, None))
  | (name, cidr) :: rest =>
      match api_get env name with
      | Some e => (pools, (changed, Some (Errorf ("failed to read draining Calico IPPool " +:+ name) e)))
      | None =>
          match pools !! name with
          | Some sibling =>
              match cp_cidr sibling with
              | StrWrongType => (pools, (changed, Some (errors_New "failed to read sibling spec.cidr")))
              | StrAbsent | StrFound _ =>
                  if decide (str_value (cp_cidr sibling) = cidr)
                  then ensure_siblings env parentName parent rest pools changed
                  else match api_update env name with
                       | Some e => (pools, (changed, Some (Errorf ("failed to update draining Calico IPPool " +:+ name) e)))
                       | None => ensure_siblings env parentName parent rest
                                   (<[name := set_cidr cidr sibling]> pools) true
                       end
              end
          | None =>
              match api_create env name with
              | Some e => (pools, (changed, Some (Errorf ("failed to create draining Calico IPPool " +:+ name) e)))
              | None => ensure_siblings env parentName parent rest
                          (<[name := newCalicoSibling (api_now env) parentName parent cidr]> pools) true
              end
          end
      end
  end.

Fixpoint delete_siblings (env : calico_api) (expected : gmap string string) (items : list (string * calicoPool))
    (pools : gmap string calicoPool) (changed : bool) : gmap string calicoPool * (bool * option error) :=
  match items with
  | [] => (pools, (changed, None))
  | (name, _) :: rest =>
      if decide (is_Some (expected !! name)) then delete_siblings env expected rest pools changed
      else match api_delete env name with
           | Some e => (pools, (changed, Some (Errorf ("failed to delete drained Calico IPPool " +:+ name) e)))
           | None => delete_siblings env expected rest (delete name pools) true
           end
  end.

(** [None]: a panic. *)
Definition syncDrainingSiblings (env : calico_api) (parentName : string) (parent : calicoPool)
    (drainingConfigs : list poolConfiguration) (pools : gmap string calicoPool)
    : option (gmap string calicoPool * (bool * option error)) :=
  expected ← expected_siblings parentName drainingConfigs empty;
  match ensure_siblings env parentName parent (range_map expected) pools false with
  | (pools1, (changed, Some e)) => Some (pools1, (changed, Some e))
  | (pools1, (changed, None)) =>
      match api_list env with
      | Some e => Some (pools1, (changed, Some (Errorf "failed to list draining Calico IPPools" e)))
      | None =>
          let items := filter (fun '(_, p) => is_sibling parentName p = true) (map_to_list pools1) in
          Some (delete_siblings env expected items pools1 changed)
      end
  end.

(** The parent, the pools of the cluster, whether anything was written, the error. *)
Definition calico_update (env : calico_api) (parentName : string) (parent : calicoPool)
    (configs : list poolConfiguration) (pools : gmap string calicoPool)
    : option (calicoPool * gmap string calicoPool * (bool * option error)) :=
  match configs with
  | [] => Some (parent, pools, (false, None))
  | current :: draining =>
      match calicoCIDRForConfig current with
      | Panic => None
      | Fail e => Some (parent, pools, (false, Some e))
      | Ret cidr =>
          match syncDrainingSiblings env parentName parent draining pools with
          | None => None
          | Some (pools1, (_, Some e)) => Some (parent, pools1, (false, Some e))
          | Some (pools1, (siblingsChanged, None)) =>
              match cp_allowedUses parent with
              | StrsWrongType => Some (parent, pools1, (false, Some (errors_New "failed to read spec.allowedUses")))
              | StrsAbsent | StrsFound _ =>
                  match cp_cidr parent with
                  | StrWrongType => Some (parent, pools1, (false, Some (errors_New "failed to read spec.cidr")))
                  | StrAbsent | StrFound _ =>
                      let recorded := bool_decide (default EmptyString (cp_annotations parent !! AnnotationManagedCIDR) = cidr) in
                      if (bool_decide (str_value (cp_cidr parent) = cidr) && recorded)%bool
                      then Some (parent, pools1, (siblingsChanged, None))
                      else
                        let parent' := set_calico_annotations
                          (<[AnnotationLastSync := api_now env]>
                             (<[AnnotationManagedCIDR := formatOwnershipRecord [cidr]]> (cp_annotations parent)))
                          (set_cidr cidr parent) in
                        Some (parent', pools1, (true, api_update env parentName))
                  end
              end
          end
      end
  end.

Definition calico_release (env : calico_api) (parentName : string) (parent : calicoPool)
    (pools : gmap string calicoPool) : option (calicoPool * gmap string calicoPool * (bool * option error)) :=
  match syncDrainingSiblings env parentName parent [] pools with
  | None => None
  | Some (pools1, (changed, Some e)) => Some (parent, pools1, (changed, Some e))
  | Some (pools1, (changed, None)) =>
      if decide (is_Some (cp_annotations parent !! AnnotationManagedCIDR))
      then Some (set_calico_annotations (delete AnnotationManagedCIDR (cp_annotations parent)) parent, pools1, (true, None))
      else Some (parent, pools1, (changed, None))
  end.
End Calico.

(** ** The list backends as one *)

Inductive list_backend : Type := CiliumPool | CIDRGroup | MetalLB.

Definition list_recordKey (b : list_backend) : string :=
  match b with
  | CiliumPool => AnnotationManagedBlocks
  | CIDRGroup => AnnotationManagedCIDRs
  | MetalLB => AnnotationManagedAddresses
  end.

Definition list_keyOf (b : list_backend) : item -> string :=
  match b with CiliumPool => blockKeyOf | CIDRGroup => cidrKeyOf | MetalLB => addressKeyOf end.

Definition list_owned (b : list_backend) : list netip.Prefix -> ownershipRecord -> item -> bool :=
  match b with CiliumPool => ownedBlockItem | CIDRGroup => ownedCIDRItem | MetalLB => address_owned end.

Definition list_desired (b : list_backend) (configs : list poolConfiguration) : list ownedEntry :=
  match b with
  | CiliumPool => blockEntry <$> configs
  | CIDRGroup => cidrEntry <$> configs
  | MetalLB => omap addressEntry configs
  end.

Definition list_ok (b : list_backend) : ownedEntry -> Prop :=
  match b with CiliumPool => block_ok | CIDRGroup => cidr_ok | MetalLB => address_ok end.

Definition list_update (b : list_backend) (now : string) (updateErr : option error)
    (configs : list poolConfiguration) (managedPrefixes : list netip.Prefix) (p : pool)
    : option (pool * (bool * option error)) :=
  match b with
  | CiliumPool => Some (updateLoadBalancerIPPool now updateErr configs managedPrefixes p)
  | CIDRGroup => Some (updateCIDRGroup now updateErr configs managedPrefixes p)
  | MetalLB => metallb_update now updateErr configs managedPrefixes p
  end.

Definition list_release (b : list_backend) : pool -> pool * (bool * option error) :=
  match b with CiliumPool => lb_release | CIDRGroup => cidr_release | MetalLB => metallb_release end.

(** * Lemmas on the list backends *)

#[export] Instance list_laws b managed : OwnedListLaws (list_keyOf b) (list_owned b managed) (list_ok b).
Proof. destruct b; apply _. Qed.

Lemma list_recordKey_ne b : list_recordKey b <> AnnotationLastSync.
Proof. by destruct b. Qed.

Lemma addr6_nozone a : addr6 a -> netip.hasZone a = false.
Proof. intros [_ Hz]. unfold netip.hasZone, netip.Zone. rewrite Hz. by rewrite andb_false_r. Qed.

(** ** What is written has a key *)

Lemma config_cidr_text base c : config_at base c -> entry_text (pc_cidr c).
Proof. intros [(q & Hq & _) _]. left. eauto. Qed.

Lemma config_range_text base c : config_at base c -> has_range c = true ->
  entry_text (pc_start c) /\ entry_text (pc_end c).
Proof.
  intros [_ H] Hr. unfold has_range in Hr. apply andb_true_iff in Hr as [[Hu _]%andb_true_iff _].
  rewrite Hu in H. destruct H as (a & b & Ha & Ha6 & Hb & Hb6 & _).
  split; right; eexists; (split; [eassumption|by apply addr6_nozone]).
Qed.

Lemma blockKey_cidr s : s <> EmptyString ->
  blockKey (mkBlock (Some s) None None EmptyString) = "cidr=" +:+ canonicalEntry s.
Proof. by destruct s. Qed.

Lemma blockKey_range s t : s <> EmptyString -> t <> EmptyString ->
  blockKey (mkBlock None (Some s) (Some t) EmptyString) = "range=" +:+ canonicalEntry s +:+ "-" +:+ canonicalEntry t.
Proof. intros Hs Ht. unfold blockKey. cbn [blk_cidr blk_start blk_stop default]. cbv zeta. by rewrite !decide_False. Qed.

Lemma blockEntry_ok base c : config_at base c -> block_ok (blockEntry c).
Proof.
  intros H. unfold blockEntry. destruct (has_range c) eqn:Hr.
  - destruct (config_range_text base c H Hr) as [Hs He]. right. exists (pc_start c), (pc_end c).
    do 3 (split; [done|]). apply blockKey_range; by apply entry_text_ne.
  - left. exists (pc_cidr c). pose proof (config_cidr_text base c H). split; [done|]. split; [done|].
    apply blockKey_cidr. by apply entry_text_ne.
Qed.

Lemma cidrEntry_ok base c : config_at base c -> cidr_ok (cidrEntry c).
Proof. intros H. exists (pc_cidr c). split; [by eapply config_cidr_text|done]. Qed.

Lemma addressEntry_ok base c e : config_at base c -> addressEntry c = Some e -> address_ok e.
Proof.
  intros H. unfold addressEntry. cbv zeta. case_decide; [done|]. intros [= <-]. destruct (has_range c) eqn:Hr.
  - destruct (config_range_text base c H Hr) as [Hs He]. right. exists (pc_start c), (pc_end c).
    do 3 (split; [done|]). by apply canonicalAddressEntry_pair.
  - left. exists (pc_cidr c). pose proof (config_cidr_text base c H). split; [done|]. split; [done|].
    by apply canonicalAddressEntry_text.
Qed.

(** A configuration of some IPv6 prefix. *)
Definition config_good (c : poolConfiguration) : Prop := exists base, netip.prefix6 base /\ config_at base c.

Lemma list_desired_ok b configs : Forall config_good configs -> desired_ok (list_ok b) (list_desired b configs).
Proof.
  intros H. rewrite Forall_forall in H. unfold desired_ok. apply Forall_forall. destruct b; cbn [list_desired list_ok].
  - intros e (c & -> & Hc)%list_elem_of_fmap. right. destruct (H c Hc) as (base & _ & ?). by eapply blockEntry_ok.
  - intros e (c & -> & Hc)%list_elem_of_fmap. right. destruct (H c Hc) as (base & _ & ?). by eapply cidrEntry_ok.
  - intros e (c & Hc & He)%list_elem_of_omap. right. destruct (H c Hc) as (base & _ & ?). by eapply addressEntry_ok.
Qed.

(** ** No panic *)

Lemma addressRangeWithinManaged_total start end_ ms :
  Forall netip.prefix6 ms -> is_Some (addressRangeWithinManaged start end_ ms).
Proof.
  intros H. induction H as [|m ms Hm _ IH]; [by eexists|]. cbn [addressRangeWithinManaged].
  destruct (if 0 <? netip.Compare start end_ then (end_, start) else (start, end_)) as [lo hi].
  destruct (negb _); [done|]. rewrite lastAddrOfPrefix_6 by done. by destruct (_ && _)%bool; eauto.
Qed.

Lemma isManagedAddressEntry_total entry ms : Forall netip.prefix6 ms -> is_Some (isManagedAddressEntry entry ms).
Proof.
  intros H. unfold isManagedAddressEntry. cbv zeta.
  repeat first [by eexists | by apply addressRangeWithinManaged_total | case_match].
Qed.

Lemma ownedAddressItem_total ms r x : Forall netip.prefix6 ms -> is_Some (ownedAddressItem ms r x).
Proof.
  intros H. destruct x; cbn; [|by eexists..]. unfold isOwnedAddressEntry.
  destruct (negb _); [by apply isManagedAddressEntry_total|by eexists].
Qed.

(** An update is a pass over the shared list. *)
Lemma list_update_pass b now configs ms p : Forall netip.prefix6 ms ->
  list_update b now None configs ms p =
  Some (sync_pass (list_keyOf b) (list_owned b ms) (list_recordKey b) now (list_desired b configs) p).
Proof.
  intros H. destruct b; [done|done|]. cbn [list_update]. unfold metallb_update.
  assert (is_Some (mapM (ownedAddressItem ms (parseOwnershipRecord (recordFor p AnnotationManagedAddresses))) (existing p))) as [l ->].
  { induction (existing p) as [|x l IH]; [by eexists|]. cbn [mapM].
    destruct (ownedAddressItem_total ms (parseOwnershipRecord (recordFor p AnnotationManagedAddresses)) x H) as [y ->].
    destruct IH as [l' ->]. by eexists. }
  done.
Qed.

(** ** A pool's life: updates, then a release *)

Lemma last_cons_default {A} (x d : A) l : List.last (x :: l) d = List.last l x.
Proof. revert x. induction l as [|y l IH]; intros x; [done|]. cbn in *. destruct l; [done|]. by rewrite (IH x). Qed.

Lemma last_fmap_default {A B} (f : A -> B) l d : f (List.last l d) = List.last (f <$> l) (f d).
Proof. induction l as [|x l IH]; [done|]. rewrite fmap_cons. destruct l as [|y l]; [done|]. exact IH. Qed.

Lemma last_default_in {A} (l : list A) d : l <> [] -> List.last l d ∈ l.
Proof.
  induction l as [|x l IH]; [done|]. intros _. destruct l as [|y l]; [by apply list_elem_of_here|].
  right. by apply IH.
Qed.

Record pool_pass : Type := mkPass {
  pp_now : string;
  pp_configs : list poolConfiguration;
  pp_managed : list netip.Prefix
}.

Definition pass_good (x : pool_pass) : Prop := Forall config_good (pp_configs x) /\ Forall netip.prefix6 (pp_managed x).

Fixpoint run_updates (b : list_backend) (passes : list pool_pass) (p : pool) : option pool :=
  match passes with
  | [] => Some p
  | x :: rest =>
      '(p', _) ← list_update b (pp_now x) None (pp_configs x) (pp_managed x) p;
      run_updates b rest p'
  end.

(** What a list holds that the operator and the user share: the user's entries and
    the operator's for the last configurations. *)
Definition pool_shared (b : list_backend) (user : list item) (configs : list poolConfiguration) : shared :=
  mkShared user (claim (pins (list_keyOf b) user) empty (list_desired b configs)).

Definition pool_holds (b : list_backend) (user : list item) (configs : list poolConfiguration) (p : pool) : Prop :=
  represents (list_keyOf b) (list_ok b) (list_recordKey b) (pool_shared b user configs) p /\
  existing p = user ++ (oe_value <$> sh_mine (pool_shared b user configs)).

Lemma update_holds b x user configs p : pass_good x -> pool_holds b user configs p ->
  exists p' res, list_update b (pp_now x) None (pp_configs x) (pp_managed x) p = Some (p', res) /\
    pool_holds b user (pp_configs x) p'.
Proof.
  intros [Hc Hm] [Hrep Hl]. rewrite list_update_pass by done.
  destruct (sync_pass_represents (list_keyOf b) (list_owned b (pp_managed x)) (list_ok b) (list_recordKey b)
    (list_recordKey_ne b) (pp_now x) (list_desired b (pp_configs x)) _ p Hrep) as [Hrep' Hl'];
    [by apply list_desired_ok|].
  destruct (sync_pass _ _ _ _ _ p) as [p' res] eqn:E. exists p', res. split; [done|by split].
Qed.

Lemma updates_hold b passes user configs p : Forall pass_good passes -> pool_holds b user configs p ->
  exists p', run_updates b passes p = Some p' /\ pool_holds b user (List.last (pp_configs <$> passes) configs) p'.
Proof.
  intros H. revert configs p. induction H as [|x passes Hx H IH]; intros configs p Hp; [by exists p|].
  destruct (update_holds b x user configs p Hx Hp) as (p1 & res & E & Hp1). cbn [run_updates].
  rewrite E. cbn. destruct (IH _ _ Hp1) as (p' & E' & Hp'). exists p'. split; [done|].
  change (pool_holds b user (List.last (pp_configs x :: (pp_configs <$> passes)) configs) p').
  by rewrite last_cons_default.
Qed.

Lemma first_update_holds b x p : pass_good x ->
  p_list p <> ListWrongType -> recordFor p (list_recordKey b) = None ->
  (forall e, e ∈ existing p -> list_owned b (pp_managed x) (parseOwnershipRecord None) e = false) ->
  exists p' res, list_update b (pp_now x) None (pp_configs x) (pp_managed x) p = Some (p', res) /\
    pool_holds b (existing p) (pp_configs x) p'.
Proof.
  intros [Hc Hm] Hw Hr Hown. rewrite list_update_pass by done.
  destruct (first_pass (keyOf := list_keyOf b) (owned := list_owned b (pp_managed x)) (ok := list_ok b)
    (list_recordKey b) (list_recordKey_ne b) (pp_now x) (list_desired b (pp_configs x)) p Hw Hr Hown) as [Hrep Hl];
    [by apply list_desired_ok|].
  destruct (sync_pass _ _ _ _ _ p) as [p' res] eqn:E. exists p', res. split; [done|by split].
Qed.

Lemma repeated_update b x user p : Forall netip.prefix6 (pp_managed x) -> pool_holds b user (pp_configs x) p ->
  list_update b (pp_now x) None (pp_configs x) (pp_managed x) p = Some (p, (false, None)).
Proof.
  intros Hm [Hrep Hl]. rewrite list_update_pass by done. f_equal.
  by apply (repeated_pass (ok := list_ok b) (list_recordKey b) (list_recordKey_ne b) _ _ user).
Qed.

Lemma release_holds b user configs p : pool_holds b user configs p ->
  list_release b p =
    (mkPoolObject (ListFound user) (delete (list_recordKey b) (p_annotations p)), (true, None)).
Proof.
  intros [Hrep _].
  pose proof (release_represents (owned := list_owned b []) (ok := list_ok b) (list_recordKey b) _ _ Hrep) as E.
  by destruct b.
Qed.

(** * Properties *)

(** C9 The life of a pool of any of the three list backends, from one the
    operator never wrote to and in which no entry looks managed, through any
    number of updates for any statuses, to the release: every update returns, the
    list is always the user's own list followed by one entry per configuration of
    the last status that the user has not pinned, repeating an update writes
    nothing, and the release leaves exactly the user's list and no record - no
    entry leaks, however many prefixes came and went. *)
Theorem pool_list_lifecycle (b : list_backend) (first : pool_pass) (later : list pool_pass) (p : pool) :
  Forall pass_good (first :: later) ->
  p_list p <> ListWrongType -> recordFor p (list_recordKey b) = None ->
  (forall e, e ∈ existing p -> list_owned b (pp_managed first) (parseOwnershipRecord None) e = false) ->
  let final := List.last later first in
  exists p', run_updates b (first :: later) p = Some p' /\
    existing p' = existing p ++
      (oe_value <$> claim (pins (list_keyOf b) (existing p)) empty (list_desired b (pp_configs final))) /\
    list_update b (pp_now final) None (pp_configs final) (pp_managed final) p' = Some (p', (false, None)) /\
    exists annotations, annotations !! list_recordKey b = None /\
      list_release b p' = (mkPoolObject (ListFound (existing p)) annotations, (true, None)).
Proof.
  intros [Hf Hl]%Forall_cons Hw Hr Hown final.
  destruct (first_update_holds b first p Hf Hw Hr Hown) as (p1 & res & E1 & Hp1).
  destruct (updates_hold b later (existing p) (pp_configs first) p1 Hl Hp1) as (p' & E' & Hp').
  rewrite <- (last_fmap_default pp_configs later first) in Hp'. fold final in Hp'.
  assert (pass_good final) as [_ Hm].
  { unfold final. destruct later as [|y l] eqn:El; [done|]. rewrite <- El in *.
    rewrite Forall_forall in Hl. apply Hl. apply last_default_in. by rewrite El. }
  exists p'. split; [cbn [run_updates]; by rewrite E1|]. split; [apply Hp'|].
  split; [by apply (repeated_update b final (existing p))|].
  exists (delete (list_recordKey b) (p_annotations p')). split; [apply lookup_delete_eq|].
  by apply (release_holds b _ (pp_configs final)).
Qed.

Lemma configs_ok_good dp configs : configs_ok dp configs -> Forall config_good configs.
Proof. intros (_ & _ & H). eapply Forall_impl; [exact H|]. intros c (m & _ & Hm & Hc). by exists m. Qed.

Lemma managed_all (P : netip.Prefix -> Prop) dp :
  (st_CurrentPrefix (dp_Status dp) = EmptyString \/
   exists base, netiptext.ParsePrefix (st_CurrentPrefix (dp_Status dp)) = Some base /\ P base) ->
  Forall (fun h => exists b, netiptext.ParsePrefix (H_Prefix h) = Some b /\ P b) (st_History (dp_Status dp)) ->
  Forall P (collectManagedPrefixes dp).
Proof.
  intros Hc Hh. unfold collectManagedPrefixes. apply Forall_app. split.
  - case_decide; [constructor|]. destruct Hc as [|(base & -> & H6)]; [done|]. by apply Forall_singleton.
  - apply Forall_forall. intros m (e & He & Hm)%list_elem_of_omap. rewrite Forall_forall in Hh.
    destruct (Hh e He) as (b & Hb' & Hb6). congruence.
Qed.

Lemma managed_prefix6 dp : status_ok dp -> Forall netip.prefix6 (collectManagedPrefixes dp).
Proof. intros ((base & Hb & H6 & _) & Hh). apply managed_all; eauto. Qed.

(** A pass for a status, as [syncPool] makes it. *)
Definition pass_for (now : string) (dp : DynamicPrefix) (ar sn : option string) : pool_pass :=
  mkPass now (match buildPoolConfigurations dp ar sn with Ret l => l | _ => [] end) (collectManagedPrefixes dp).

Lemma pass_for_good now dp ar sn : status_ok dp -> pass_good (pass_for now dp ar sn).
Proof.
  intros H. pose proof (buildPoolConfigurations_cases dp ar sn H) as Hc. split; cbn; [|by apply managed_prefix6].
  destruct (buildPoolConfigurations dp ar sn); [by eapply configs_ok_good|constructor|constructor].
Qed.

(** A MetalLB pool with an IPv4 range of the user's: a range of the current
    prefix, then after a rotation the same range of both prefixes. *)
Definition sample_pool : pool :=
  mkPoolObject (ListFound [ItemString "10.0.0.1-10.0.0.9"]) {["dynamic-prefix.io/name" := "home"]}.

Lemma pool_list_lifecycle_witness :
  let first := pass_for "t0" (sample_pool_dp None []) (Some "lb") None in
  let last := pass_for "t1" (sample_pool_dp None ["2001:db8:1::/48"]) (Some "lb") None in
  (exists p', run_updates MetalLB [first; last] sample_pool = Some p' /\
     existing p' = [ItemString "10.0.0.1-10.0.0.9"; ItemString "2001:db8:2::f000-2001:db8:2::f0ff";
                    ItemString "2001:db8:1::f000-2001:db8:1::f0ff"]) /\
  (exists p', run_updates MetalLB [first; last] sample_pool = Some p' /\
     exists annotations, list_release MetalLB p' =
       (mkPoolObject (ListFound [ItemString "10.0.0.1-10.0.0.9"]) annotations, (true, None))).
Proof.
  intros first last. split.
  - eexists. split; [vm_compute; reflexivity|vm_compute; reflexivity].
  - destruct (pool_list_lifecycle MetalLB first [last] sample_pool) as (p' & Hrun & _ & _ & ann & _ & Hrel).
    + constructor; [apply pass_for_good, sample_status_ok; constructor|].
      constructor; [apply pass_for_good, sample_status_ok, sample_old_ok|constructor].
    + done.
    + vm_compute. reflexivity.
    + intros e He. apply list_elem_of_singleton in He as ->. vm_compute. reflexivity.
    + exists p'. split; [exact Hrun|]. exists ann. exact Hrel.
Defined.

(** ** Recognising entries without a record *)

(** The addresses an entry of a list describes, in the forms each backend reads. *)
Inductive entry_span : list_backend -> item -> Z -> Z -> Prop :=
| span_prefix b s p : b <> CiliumPool -> netiptext.ParsePrefix s = Some p -> netip.prefix6 p ->
    entry_span b (ItemString s) (netip.first_num p) (netip.last_num p)
| span_address s a : netiptext.ParseAddr s = Some a -> addr6 a ->
    entry_span MetalLB (ItemString s) (netip.addr a) (netip.addr a)
| span_pair s t a e : netiptext.ParseAddr s = Some a -> addr6 a -> netiptext.ParseAddr t = Some e -> addr6 e ->
    entry_span MetalLB (ItemString (s +:+ "-" +:+ t))
      (Z.min (netip.addr a) (netip.addr e)) (Z.max (netip.addr a) (netip.addr e))
| span_block_prefix s p start stop rest : netiptext.ParsePrefix s = Some p -> netip.prefix6 p ->
    entry_span CiliumPool (ItemBlock (mkBlock (Some s) start stop rest)) (netip.first_num p) (netip.last_num p)
| span_block_range s t a e rest : netiptext.ParseAddr s = Some a -> addr6 a ->
    netiptext.ParseAddr t = Some e -> addr6 e ->
    entry_span CiliumPool (ItemBlock (mkBlock None (Some s) (Some t) rest))
      (Z.min (netip.addr a) (netip.addr e)) (Z.max (netip.addr a) (netip.addr e))
| span_block_address s a rest : netiptext.ParseAddr s = Some a -> addr6 a ->
    entry_span CiliumPool (ItemBlock (mkBlock None (Some s) None rest)) (netip.addr a) (netip.addr a).

Definition within_one (ms : list netip.Prefix) (lo hi : Z) : Prop :=
  exists m, m ∈ ms /\ netip.first_num m <= lo /\ hi <= netip.last_num m.

Lemma prefix_within p ms : netip.prefix6 p -> Forall netip.prefix6 ms ->
  isPrefixSubsetOfManaged p ms = true <-> within_one ms (netip.first_num p) (netip.last_num p).
Proof.
  intros Hp Hms. rewrite isPrefixSubsetOfManaged_6 by done. pose proof (first_num_le_last p Hp).
  unfold within_one, netip.in_prefix. split; intros (m & Hm & H'); exists m; (split; [done|]).
  - split; apply H'; lia.
  - intros x. lia.
Qed.

Lemma addr_contains ms a : addr6 a -> Forall netip.prefix6 ms ->
  forall m, m ∈ ms -> netip.Contains m a = true <-> netip.in_prefix m (netip.addr a).
Proof. intros [Hw Hz] Hms m Hm. rewrite Forall_forall in Hms. apply Contains6; auto. Qed.

Lemma existsb_within ms f lo hi :
  (forall m, m ∈ ms -> f m = true <-> netip.first_num m <= lo /\ hi <= netip.last_num m) ->
  existsb f ms = true <-> within_one ms lo hi.
Proof.
  intros H. rewrite existsb_exists. unfold within_one. split.
  - intros (m & Hm & Hf). apply list_elem_of_In in Hm. exists m. split; [done|]. by apply H.
  - intros (m & Hm & Hf). exists m. split; [by apply list_elem_of_In|]. by apply H.
Qed.

Lemma andb_leb_iff a b c d : (a <=? b) && (c <=? d) = true <-> a <= b /\ c <= d.
Proof. by rewrite andb_true_iff, !Z.leb_le. Qed.

Lemma addr6_not4 a : addr6 a -> netip.Is4 a = false.
Proof. intros [_ Hz]. unfold netip.Is4. by rewrite Hz. Qed.

Lemma addr6_text s a : netiptext.ParseAddr s = Some a -> addr6 a -> entry_text s.
Proof. intros H H6. right. exists a. split; [done|by apply addr6_nozone]. Qed.

Lemma parsed_prefix_not_addr s p : netiptext.ParsePrefix s = Some p -> TrimSpace s = s /\ cut_first "-" s = None.
Proof.
  intros H. assert (entry_text s) as Ht by (left; eauto).
  split; [by apply TrimSpace_bytes, entry_text_key_bytes|by apply cut_first_none, entry_text_nodash].
Qed.

Lemma isManagedAddressEntry_prefix s p ms : netiptext.ParsePrefix s = Some p -> netip.prefix6 p ->
  isManagedAddressEntry s ms = Some (isPrefixSubsetOfManaged p ms).
Proof.
  intros Hs Hp. destruct (parsed_prefix_not_addr s p Hs) as [Ht Hc]. unfold isManagedAddressEntry.
  rewrite Ht, Hc, Hs, prefix6_not4 by done. rewrite decide_False; [done|]. by intros ->.
Qed.

Lemma isManagedAddressEntry_address s a ms : netiptext.ParseAddr s = Some a -> addr6 a ->
  isManagedAddressEntry s ms = Some (addrInManagedPrefixes a ms).
Proof.
  intros Hs Ha. assert (entry_text s) as Ht by by eapply addr6_text.
  unfold isManagedAddressEntry. cbv zeta.
  rewrite (TrimSpace_bytes s), (cut_first_none _ s), Hs by (by apply entry_text_nodash || by apply entry_text_key_bytes).
  rewrite decide_False by by apply entry_text_ne. rewrite addr6_not4 by done.
  destruct (netiptext.ParsePrefix s) as [p|] eqn:Hp; [|done].
  apply ParsePrefix_not_addr in Hp. congruence.
Qed.

Lemma isManagedAddressEntry_pair s t a e ms :
  netiptext.ParseAddr s = Some a -> addr6 a -> netiptext.ParseAddr t = Some e -> addr6 e ->
  isManagedAddressEntry (s +:+ "-" +:+ t) ms = addressRangeWithinManaged a e ms.
Proof.
  intros Hs Ha Ht He. assert (entry_text s) as Hs' by by eapply addr6_text.
  assert (entry_text t) as Ht' by by eapply addr6_text.
  unfold isManagedAddressEntry. cbv zeta.
  rewrite (TrimSpace_bytes (_ +:+ _)) by (rewrite !str_all_app, (entry_text_key_bytes s), (entry_text_key_bytes t) by done; done).
  change (s +:+ "-" +:+ t) with (s +:+ String "-" (EmptyString +:+ t)). rewrite append_nil_l.
  rewrite cut_first_app by by apply entry_text_nodash.
  rewrite !TrimSpace_bytes, Hs, Ht, !addr6_not4 by (done || by apply entry_text_key_bytes).
  rewrite decide_False; [done|]. by destruct s.
Qed.

Lemma ranges_within a e ms : addr6 a -> addr6 e -> Forall netip.prefix6 ms ->
  addressRangeWithinManaged a e ms = Some true <->
  within_one ms (Z.min (netip.addr a) (netip.addr e)) (Z.max (netip.addr a) (netip.addr e)).
Proof.
  intros Ha He Hms. rewrite addressRangeWithinManaged_6 by done.
  rewrite <- (existsb_within ms _ _ _ (fun m _ => andb_leb_iff _ _ _ _)). split; [by intros [= ->]|by intros ->].
Qed.

(** An entry of a list without a record counts as the operator's exactly when
    all the addresses it describes lie in one managed prefix - for an entry that
    is a prefix, an address, or a range in either order, in the form of each
    backend.  Containment, not overlap: a user's entry that only straddles a
    managed prefix is never claimed, and so never deleted. *)
Theorem unrecorded_owned_is_contained (b : list_backend) (x : item) (lo hi : Z) (ms : list netip.Prefix) :
  entry_span b x lo hi -> Forall netip.prefix6 ms ->
  list_owned b ms (parseOwnershipRecord None) x = true <-> within_one ms lo hi.
Proof.
  intros Hspan Hms. destruct Hspan as [b s p Hb Hs Hp|s a Hs Ha|s t a e Hs Ha Ht He|s p st en r Hs Hp
    |s t a e r Hs Ha Ht He|s a r Hs Ha]; cbn [list_owned].
  - rewrite <- prefix_within by done. destruct b; [done| |]; cbn.
    + unfold isOwnedCIDR. cbn. by rewrite Hs.
    + unfold address_owned. cbn. rewrite (isManagedAddressEntry_prefix s p), bool_decide_eq_true by done.
      split; [by intros [= ->]|by intros ->].
  - unfold address_owned. cbn. rewrite (isManagedAddressEntry_address s a), bool_decide_eq_true by done.
    unfold addrInManagedPrefixes. rewrite <- (existsb_within ms (fun m => netip.Contains m a)).
    + split; [by intros [= ->]|by intros ->].
    + intros m Hm. by apply (addr_contains ms).
  - unfold address_owned. rewrite bool_decide_eq_true. cbn [ownedAddressItem].
    unfold isOwnedAddressEntry. cbn [parseOwnershipRecord rec_present negb].
    rewrite (isManagedAddressEntry_pair s t a e) by done. by apply ranges_within.
  - cbn. unfold isOwnedBlock, isManagedBlock. cbn. rewrite Hs, prefix6_not4 by done. by apply prefix_within.
  - cbn. unfold isOwnedBlock, isManagedBlock. cbn. rewrite Hs, addr6_not4 by done.
    assert (t <> EmptyString) as Hne by by apply entry_text_ne; eapply addr6_text.
    destruct t as [|c t]; [done|]. rewrite Ht, addr6_not4 by done. apply existsb_within. intros m Hm.
    rewrite andb_true_iff, !(addr_contains ms) by done. unfold netip.in_prefix. lia.
  - cbn. unfold isOwnedBlock, isManagedBlock. cbn. rewrite Hs, addr6_not4 by done. apply existsb_within. intros m Hm.
    rewrite andb_true_iff, !(addr_contains ms) by done. unfold netip.in_prefix. lia.
Qed.

(** A range that straddles the end of a managed prefix is the user's. *)
Lemma unrecorded_owned_is_contained_witness :
  list_owned MetalLB [prefix_of_string "2001:db8:1::/48"] (parseOwnershipRecord None)
    (ItemString ("2001:db8:1:ffff::1" +:+ "-" +:+ "2001:db8:2::1")) = true <->
  within_one [prefix_of_string "2001:db8:1::/48"]
    (Z.min (netip.addr (addr_of_string "2001:db8:1:ffff::1")) (netip.addr (addr_of_string "2001:db8:2::1")))
    (Z.max (netip.addr (addr_of_string "2001:db8:1:ffff::1")) (netip.addr (addr_of_string "2001:db8:2::1"))).
Proof.
  apply unrecorded_owned_is_contained.
  - apply span_pair; [vm_compute; reflexivity|split; [apply addr_of_string_wf|vm_compute; reflexivity]
      |vm_compute; reflexivity|split; [apply addr_of_string_wf|vm_compute; reflexivity]].
  - constructor; [by apply prefix6_of_string|constructor].
Defined.
