(* ===== verification/CalicoSiblings.v ===== *)
(** * Calico's draining siblings

    What [syncDrainingSiblings] of PoolBackends.v reaches when the API server
    answers: one labelled pool per prefix that is still draining, no other, and
    nothing to do the second time. *)

From S2P Require Import Prelude GoStrings Netip NetipText Policy AddressRange Receivers Factory DynamicPrefix.
From S2P Require Import Ownership ListBackends PoolConfigs PoolBackends.

(** An API server that answers every call. *)
Definition api_quiet (env : calico_api) : Prop :=
  (forall n, api_get env n = None) /\ (forall n, api_update env n = None) /\
  (forall n, api_create env n = None) /\ api_list env = None /\ (forall n, api_delete env n = None).

(** Every pool's CIDR can be read. *)
Definition readable (pools : gmap string calicoPool) : Prop :=
  forall n p, pools !! n = Some p -> cp_cidr p <> StrWrongType.

Section Siblings.
Context (siblingPoolName : string -> string -> string).
Context (range_map : gmap string string -> list (string * string)).
Context (range_map_perm : forall m, Permutation (range_map m) (map_to_list m)).
Context (env : calico_api) (quiet : api_quiet env) (parentName : string) (parent : calicoPool).

Lemma newCalicoSibling_is_sibling now cidr : is_sibling parentName (newCalicoSibling now parentName parent cidr) = true.
Proof. apply bool_decide_eq_true. split; cbn; [apply lookup_insert_eq|]. rewrite lookup_insert_ne by done. apply lookup_insert_eq. Qed.

Lemma set_cidr_is_sibling c p : is_sibling parentName (set_cidr c p) = is_sibling parentName p.
Proof. done. Qed.

(** What is left under a name that should hold [cidr]. *)
Definition ensured (old : option calicoPool) (cidr : string) : calicoPool :=
  match old with
  | None => newCalicoSibling (api_now env) parentName parent cidr
  | Some p => if decide (str_value (cp_cidr p) = cidr) then p else set_cidr cidr p
  end.

(** A new sibling is labelled; one that was there keeps its labels. *)
Lemma ensured_is_sibling old cidr :
  is_sibling parentName (ensured old cidr) = match old with Some p => is_sibling parentName p | None => true end.
Proof. destruct old as [p|]; cbn; [by case_decide|apply newCalicoSibling_is_sibling]. Qed.

(** Nothing to do for a name. *)
Definition ensured_already (old : option calicoPool) (cidr : string) : Prop :=
  exists p, old = Some p /\ str_value (cp_cidr p) = cidr.

Lemma ensured_cidr old cidr : str_value (cp_cidr (ensured old cidr)) = cidr.
Proof. destruct old as [p|]; cbn; [by case_decide|done]. Qed.

Lemma ensured_again old cidr : ensured (Some (ensured old cidr)) cidr = ensured old cidr.
Proof. unfold ensured at 1. by rewrite decide_True by apply ensured_cidr. Qed.

Lemma ensure_siblings_ok l pools changed :
  NoDup l.*1 -> readable pools ->
  exists pools' changed',
    ensure_siblings env parentName parent l pools changed = (pools', (changed || changed', None)%bool) /\
    (forall n, pools' !! n = match (list_to_map l : gmap string string) !! n with
                             | Some cidr => Some (ensured (pools !! n) cidr)
                             | None => pools !! n
                             end) /\
    (changed' = false -> pools' = pools) /\
    (Forall (fun x => ensured_already (pools !! x.1) x.2) l -> changed' = false).
Proof.
  destruct quiet as (Hget & Hup & Hcr & _ & _).
  revert pools changed. induction l as [|[n cidr] l IH]; intros pools changed Hnd Hread.
  { exists pools, false. cbn. rewrite orb_false_r. split; [done|]. by split; [|split]. }
  cbn [fmap list_fmap fst] in Hnd. apply NoDup_cons in Hnd as [Hn Hnd].
  assert ((list_to_map l : gmap string string) !! n = None) as Hl by by apply not_elem_of_list_to_map_1.
  cbn [ensure_siblings list_to_map foldr fst snd]. rewrite Hget.
  assert (forall p, cp_cidr p <> StrWrongType ->
    exists pools' changed',
      ensure_siblings env parentName parent l (<[n := p]> pools) true = (pools', (changed || changed', None)%bool) /\
      (forall k, pools' !! k = match (list_to_map l : gmap string string) !! k with
                               | Some c => Some (ensured (<[n := p]> pools !! k) c)
                               | None => <[n := p]> pools !! k
                               end) /\ changed' = true) as Hrec.
  { intros p Hp. destruct (IH (<[n := p]> pools) true Hnd) as (pools' & ch & E & Hk & _ & _).
    { intros k q Hq. apply lookup_insert_Some in Hq as [[_ <-]|[_ Hq]]; [done|by apply (Hread k)]. }
    exists pools', true. rewrite E. by rewrite orb_true_r. }
  assert (forall k p, ensured (pools !! n) cidr = p ->
    match (list_to_map l : gmap string string) !! k with
    | Some c => Some (ensured (<[n := p]> pools !! k) c)
    | None => <[n := p]> pools !! k
    end = match (<[n := cidr]> (list_to_map l : gmap string string)) !! k with
          | Some c => Some (ensured (pools !! k) c)
          | None => pools !! k
          end) as Hmap.
  { intros k p <-. destruct (decide (k = n)) as [->|Hk].
    - by rewrite Hl, !lookup_insert_eq.
    - by rewrite !lookup_insert_ne by done. }
  destruct (pools !! n) as [p|] eqn:Hpn; [|].
  - assert (exists pools' changed',
      (if decide (str_value (cp_cidr p) = cidr) then ensure_siblings env parentName parent l pools changed
       else ensure_siblings env parentName parent l (<[n := set_cidr cidr p]> pools) true) =
      (pools', (changed || changed', None)%bool) /\
      (forall k, pools' !! k = match (<[n := cidr]> (list_to_map l : gmap string string)) !! k with
                               | Some c => Some (ensured (pools !! k) c)
                               | None => pools !! k
                               end) /\ (changed' = false -> pools' = pools) /\
      (Forall (fun x => ensured_already (pools !! x.1) x.2) ((n, cidr) :: l) -> changed' = false)) as H.
    { case_decide as Hc.
      - destruct (IH pools changed Hnd Hread) as (pools' & ch & E & Hk & Hch & Hal). exists pools', ch.
        split; [done|]. split; [|split; [done|by intros [_ ?]%Forall_cons; apply Hal]].
        intros k. rewrite Hk, <- (Hmap k p); [by rewrite (insert_id pools n p)|].
        cbn. by rewrite decide_True.
      - destruct (Hrec (set_cidr cidr p)) as (pools' & ch & E & Hk & ->); [done|]. exists pools', true.
        split; [done|]. split; [intros k; rewrite Hk; apply Hmap; cbn; by rewrite decide_False|]. split; [done|].
        intros [(q & Hq & Hqc) _]%Forall_cons. cbn in Hq, Hqc. congruence. }
    pose proof (Hread n p Hpn) as Hw. destruct (cp_cidr p) as [| |s] eqn:Ec; [|done|].
    + cbn [str_value] in *. rewrite Hup. exact H.
    + cbn [str_value] in *. rewrite Hup. exact H.
  - rewrite Hcr. destruct (Hrec (newCalicoSibling (api_now env) parentName parent cidr)) as (pools' & ch & E & Hk & ->); [done|].
    exists pools', true. split; [done|]. split; [intros k; rewrite Hk; by apply Hmap|]. split; [done|].
    intros [(q & Hq & _) _]%Forall_cons. cbn in Hq. congruence.
Qed.

Lemma delete_siblings_ok (expected : gmap string string) items pools changed :
  exists changed',
    delete_siblings env expected items pools changed =
      (foldl (fun m n => delete n m) pools (filter (fun n => expected !! n = None) items.*1),
       (changed || changed', None)%bool) /\
    (changed' = false <-> filter (fun n => expected !! n = None) items.*1 = []).
Proof.
  destruct quiet as (_ & _ & _ & _ & Hdel).
  revert pools changed. induction items as [|[n p] items IH]; intros pools changed.
  { exists false. cbn. by rewrite orb_false_r. }
  cbn [delete_siblings fmap list_fmap fst]. destruct (decide (is_Some (expected !! n))) as [[c Hc]|Hn].
  - rewrite filter_cons_False by by rewrite Hc. apply IH.
  - apply eq_None_not_Some in Hn. rewrite Hdel, filter_cons_True by done.
    destruct (IH (delete n pools) true) as (ch & E & _). exists true. rewrite E. by rewrite orb_true_r.
Qed.

Lemma foldl_delete_lookup (ns : list string) (m : gmap string calicoPool) k :
  foldl (fun m n => delete n m) m ns !! k = if decide (k ∈ ns) then None else m !! k.
Proof.
  revert m. induction ns as [|n ns IH]; intros m; cbn [foldl]; [by rewrite decide_False by apply not_elem_of_nil|].
  rewrite IH. destruct (decide (k ∈ ns)); [by rewrite decide_True by by right|].
  destruct (decide (k = n)) as [->|Hk].
  - rewrite lookup_delete_eq, decide_True by apply list_elem_of_here. done.
  - rewrite lookup_delete_ne by done. rewrite decide_False; [done|]. by intros [?|?]%elem_of_cons.
Qed.

(** The pools after a sync with the expected siblings [E]. *)
Definition settled (E : gmap string string) (pools pools' : gmap string calicoPool) : Prop :=
  forall n, pools' !! n = match E !! n with
    | Some cidr => Some (ensured (pools !! n) cidr)
    | None => match pools !! n with
              | Some p => if is_sibling parentName p then None else Some p
              | None => None
              end
    end.

Lemma range_map_lookup (E : gmap string string) : (list_to_map (range_map E) : gmap string string) = E.
Proof.
  transitivity (list_to_map (map_to_list E) : gmap string string); [|apply list_to_map_to_list].
  apply list_to_map_proper; [|apply range_map_perm]. rewrite range_map_perm. apply NoDup_fst_map_to_list.
Qed.

Lemma syncDrainingSiblings_settles configs E pools :
  expected_siblings siblingPoolName parentName configs empty = Some E -> readable pools ->
  exists pools' changed,
    syncDrainingSiblings siblingPoolName range_map env parentName parent configs pools =
      Some (pools', (changed, None)) /\
    settled E pools pools' /\ (changed = false -> pools' = pools) /\
    ((forall n cidr, E !! n = Some cidr -> ensured_already (pools !! n) cidr) ->
     (forall n p, pools !! n = Some p -> is_sibling parentName p = true -> is_Some (E !! n)) -> changed = false).
Proof.
  intros HE Hread. unfold syncDrainingSiblings. rewrite HE. cbn [mbind option_bind].
  assert (NoDup (range_map E).*1) as Hnd by (rewrite range_map_perm; apply NoDup_fst_map_to_list).
  destruct (ensure_siblings_ok (range_map E) pools false Hnd Hread) as (pools1 & ch1 & -> & Hk1 & Hch1 & Hal1).
  rewrite range_map_lookup in Hk1. destruct quiet as (_ & _ & _ & Hlist & _). rewrite Hlist.
  set (items := filter _ (map_to_list pools1)).
  destruct (delete_siblings_ok E items pools1 (false || ch1)) as (ch2 & -> & Hch2). eexists _, _. split; [done|].
  assert (forall n, n ∈ filter (fun n => E !! n = None) items.*1 <->
    E !! n = None /\ exists p, pools !! n = Some p /\ is_sibling parentName p = true) as Hin.
  { intros n. rewrite list_elem_of_filter. split.
    - intros [Hn ((n' & p) & -> & Hp)%list_elem_of_fmap]. cbn in *. split; [done|].
      apply list_elem_of_filter in Hp as [Hs Hp%elem_of_map_to_list]. rewrite Hk1, Hn in Hp. eauto.
    - intros [Hn (p & Hp & Hs)]. split; [done|]. apply list_elem_of_fmap. exists (n, p). split; [done|].
      apply list_elem_of_filter. split; [done|]. apply elem_of_map_to_list. by rewrite Hk1, Hn. }
  split; [|split].
  - intros n. rewrite foldl_delete_lookup, Hk1. destruct (E !! n) as [c|] eqn:En.
    + rewrite decide_False; [done|]. intros [? _]%Hin. congruence.
    + destruct (decide (n ∈ _)) as [(_ & p & -> & ->)%Hin|Hn]; [done|].
      destruct (pools !! n) as [p|] eqn:Hp; [|done]. destruct (is_sibling parentName p) eqn:Hs; [|done].
      exfalso. apply Hn, Hin. eauto.
  - intros [->%Hch1 Hc2]%orb_false_iff. rewrite (proj1 Hch2 Hc2). done.
  - intros Hall Hsib. apply orb_false_iff. split.
    + apply Hal1, Forall_forall. intros [n c] Hnc. apply Hall. rewrite <- (range_map_lookup E).
      by apply elem_of_list_to_map_1.
    + apply Hch2, elem_of_nil_inv. intros n [Hn (p & Hp & Hs)]%Hin. destruct (Hsib n p Hp Hs). congruence.
Qed.

Lemma settled_readable E pools pools' : readable pools -> settled E pools pools' -> readable pools'.
Proof.
  intros Hread H n p Hn. rewrite H in Hn. destruct (E !! n) as [c|].
  - injection Hn as <-. destruct (pools !! n) as [q|] eqn:Hq; cbn; [|done].
    case_decide; [by apply (Hread n)|done].
  - destruct (pools !! n) as [q|] eqn:Hq; [|done]. destruct (is_sibling _ q); [done|].
    injection Hn as <-. by apply (Hread n).
Qed.

Lemma settled_done E pools pools' : settled E pools pools' ->
  (forall n cidr, E !! n = Some cidr -> ensured_already (pools' !! n) cidr) /\
  (forall n p, pools' !! n = Some p -> is_sibling parentName p = true -> is_Some (E !! n)).
Proof.
  intros H. split.
  - intros n c Hn. rewrite H, Hn. eexists. split; [done|apply ensured_cidr].
  - intros n p. rewrite H. destruct (E !! n) as [c|]; [by eexists|]. destruct (pools !! n) as [q|]; [|done].
    destruct (is_sibling _ q) eqn:Hq; [done|]. intros [= <-]. congruence.
Qed.
End Siblings.

(** ** The siblings to be *)

Lemma calicoCIDRForConfig_total base c : config_at base c -> calicoCIDRForConfig c <> Panic.
Proof.
  intros [_ H]. unfold calicoCIDRForConfig. destruct (pc_useAddressRange c); cbn [negb]; [|by case_decide].
  destruct H as (a & b & Ha & Ha6 & Hb & Hb6 & Hle & _). rewrite (exactCIDR_6 _ _ a b) by done.
  by case_match.
Qed.

Definition drains (configs : list poolConfiguration) (cidr : string) : Prop :=
  exists c, c ∈ configs /\ calicoCIDRForConfig c = Ret cidr.

Lemma expected_siblings_spec (siblingPoolName : string -> string -> string) parentName configs acc :
  (forall c1 c2, siblingPoolName parentName c1 = siblingPoolName parentName c2 -> c1 = c2) ->
  Forall (fun c => calicoCIDRForConfig c <> Panic) configs ->
  (forall n c, acc !! n = Some c -> n = siblingPoolName parentName c) ->
  exists E, expected_siblings siblingPoolName parentName configs acc = Some E /\
    forall n c, E !! n = Some c <-> n = siblingPoolName parentName c /\ (drains configs c \/ acc !! n = Some c).
Proof.
  intros Hinj H. revert acc. induction H as [|c configs Hc H IH]; intros acc Hacc.
  { exists acc. split; [done|]. intros n c. split; [|by intros [_ [(? & Hin%not_elem_of_nil & _)|?]]].
    intros Hn. split; [by apply Hacc|by right]. }
  cbn [expected_siblings]. assert (forall x, drains (c :: configs) x <-> calicoCIDRForConfig c = Ret x \/ drains configs x) as Hd.
  { intros x. split.
    - intros (c' & [->|Hin]%elem_of_cons & Hx); [by left|right; by exists c'].
    - intros [Hx|(c' & Hin & Hx)]; [exists c; split; [apply list_elem_of_here|done]|exists c'; split; [by right|done]]. }
  destruct (calicoCIDRForConfig c) as [cidr|e|] eqn:Ec; [| |done].
  - destruct (IH (<[siblingPoolName parentName cidr := cidr]> acc)) as (E & -> & HE).
    { intros n x. rewrite lookup_insert_Some. intros [[<- <-]|[_ ?]]; [done|by apply Hacc]. }
    exists E. split; [done|]. intros n x. rewrite HE, Hd, lookup_insert_Some. split.
    + intros [-> [Hx|[[E1 <-]|[_ ?]]]]; (split; [done|]); eauto.
    + intros [-> [[[= ->]|Hx]|Hx]]; (split; [done|]); [right; left; done|by left|].
      right. destruct (decide (cidr = x)) as [->|Hne]; [by left|right]. split; [|done]. intros E'. by apply Hinj in E'.
  - destruct (IH acc Hacc) as (E & -> & HE). exists E. split; [done|]. intros n x. rewrite HE, Hd.
    split; [intros [? [?|?]]; auto|]. intros [? [[?|?]|?]]; auto. discriminate.
Qed.

(** ** The whole pool *)

Lemma formatOne cidr : formatOwnershipRecord [cidr] = cidr.
Proof. done. Qed.

Section Pool.
Context (siblingPoolName : string -> string -> string).
Context (range_map : gmap string string -> list (string * string)).
Context (range_map_perm : forall m, Permutation (range_map m) (map_to_list m)).
Context (env : calico_api) (quiet : api_quiet env) (parentName : string).

(** What an update leaves of the parent. *)
Definition pointed_at (cidr : string) (parent : calicoPool) : Prop :=
  str_value (cp_cidr parent) = cidr /\ cp_annotations parent !! AnnotationManagedCIDR = Some cidr.

Lemma calico_update_spec parent current draining cidr E pools :
  calicoCIDRForConfig current = Ret cidr -> cidr <> EmptyString ->
  expected_siblings siblingPoolName parentName draining empty = Some E ->
  readable pools -> cp_cidr parent <> StrWrongType -> cp_allowedUses parent <> StrsWrongType ->
  exists parent' pools' changed,
    calico_update siblingPoolName range_map env parentName parent (current :: draining) pools =
      Some (parent', pools', (changed, None)) /\
    pointed_at cidr parent' /\ settled env parentName parent E pools pools' /\
    cp_cidr parent' <> StrWrongType /\ cp_allowedUses parent' <> StrsWrongType /\
    (pointed_at cidr parent ->
     (forall n c, E !! n = Some c -> ensured_already (pools !! n) c) ->
     (forall n p, pools !! n = Some p -> is_sibling parentName p = true -> is_Some (E !! n)) ->
     parent' = parent /\ pools' = pools /\ changed = false).
Proof.
  intros Hc Hne HE Hread Hcw Huw. unfold calico_update. rewrite Hc.
  destruct (syncDrainingSiblings_settles siblingPoolName range_map range_map_perm env quiet parentName parent
    draining E pools HE Hread) as (pools' & ch & -> & Hset & Hch & Hdone).
  destruct quiet as (_ & Hup & _).
  assert (exists parent' changed,
    (let recorded := bool_decide (default EmptyString (cp_annotations parent !! AnnotationManagedCIDR) = cidr) in
     if (bool_decide (str_value (cp_cidr parent) = cidr) && recorded)%bool then Some (parent, pools', (ch, None))
     else Some (set_calico_annotations (<[AnnotationLastSync := api_now env]>
                  (<[AnnotationManagedCIDR := formatOwnershipRecord [cidr]]> (cp_annotations parent)))
                  (set_cidr cidr parent), pools', (true, api_update env parentName))) =
      Some (parent', pools', (changed, None)) /\ pointed_at cidr parent' /\
    cp_cidr parent' <> StrWrongType /\ cp_allowedUses parent' <> StrsWrongType /\
    (pointed_at cidr parent -> parent' = parent /\ changed = ch)) as (parent' & ch' & E1 & Hp & Hcw' & Huw' & Hsame).
  { cbv zeta. destruct (bool_decide _ && _)%bool eqn:Eb.
    - exists parent, ch. apply andb_true_iff in Eb as [Eb1%bool_decide_eq_true Eb2%bool_decide_eq_true].
      split; [done|]. split; [split; [done|]|by split; [|split]].
      destruct (cp_annotations parent !! AnnotationManagedCIDR); cbn in *; congruence.
    - eexists _, true. rewrite Hup. split; [done|]. split.
      + split; cbn; [done|]. rewrite lookup_insert_ne by done. by rewrite lookup_insert_eq.
      + split; [done|]. split; [done|]. intros [E1 E2]. rewrite E1, E2 in Eb. cbn in Eb.
        by rewrite bool_decide_true in Eb. }
  exists parent', pools', ch'. split.
  { destruct (cp_allowedUses parent); [|done|]; destruct (cp_cidr parent); done. }
  do 4 (split; [done|]). intros Hpt Hall Hsib. destruct (Hsame Hpt) as [-> ->].
  pose proof (Hdone Hall Hsib) as Hf. split; [done|]. split; [by apply Hch|done].
Qed.

Lemma calico_release_spec parent pools : readable pools ->
  exists parent' pools' changed,
    calico_release siblingPoolName range_map env parentName parent pools = Some (parent', pools', (changed, None)) /\
    cp_cidr parent' = cp_cidr parent /\ cp_annotations parent' !! AnnotationManagedCIDR = None /\
    settled env parentName parent empty pools pools'.
Proof.
  intros Hread. unfold calico_release.
  destruct (syncDrainingSiblings_settles siblingPoolName range_map range_map_perm env quiet parentName parent
    [] empty pools eq_refl Hread) as (pools' & ch & -> & Hset & _ & _).
  destruct (decide (is_Some _)) as [Hs|Hn%eq_None_not_Some]; eexists _, pools', _; (split; [done|]); (split; [done|]); (split; [|done]).
  - cbn. apply lookup_delete_eq.
  - done.
Qed.
End Pool.


(** A pool that follows a rotation: one sibling for the old prefix, the sibling of
    an older one removed, a user's pool untouched. *)
Definition sample_siblingName (parent cidr : string) : string := parent +:+ "-" +:+ cidr.

Definition sample_api : calico_api := mkCalicoAPI "t1" (fun _ => None) (fun _ => None) (fun _ => None) None (fun _ => None).

Definition sample_parent : calicoPool :=
  mkCalico (StrFound "2001:db8:1::/48") (StrsFound ["LoadBalancer"]) empty {[AnnotationName := "home"]}.

Definition sample_pools : gmap string calicoPool :=
  {[ "lb-2001:db8::/48" := newCalicoSibling "t0" "lb" sample_parent "2001:db8::/48";
     "user" := mkCalico (StrFound "10.0.0.0/16") StrsAbsent empty empty ]}.

Definition sample_raw (s : string) : poolConfiguration := mkPoolConfig false EmptyString EmptyString s.

Lemma sample_raw_good s : match netiptext.ParsePrefix s with Some p => netip.Is6 (netip.ip p) | None => false end = true ->
  config_good (sample_raw s).
Proof.
  intros H. destruct (netiptext.ParsePrefix s) as [p|] eqn:Hp; [|done].
  assert (netip.prefix6 p) as H6 by by eapply ParsePrefix6. exists p. split; [done|by apply raw_config_at].
Qed.

