(* ===== verification/KubeVip.v ===== *)
(** * kube-vip's ConfigMap

    [internal/controller/kubevip_backend.go]: one ConfigMap holds every pool as a
    comma-separated value under a key; the pool's annotation names the key to
    manage, the ownership record which entries of the map are the operator's. *)

From S2P Require Import Prelude GoStrings Netip NetipText Policy AddressRange Receivers Factory DynamicPrefix.
From S2P Require Import Ownership ListBackends PoolConfigs PoolBackends.

Record configMap : Type := mkConfigMap {
  cm_name : string;
  cm_namespace : string;
  cm_data : option (gmap string string);   (* [None]: not a map of strings *)
  cm_annotations : gmap string string
}.

(** [^(cidr|range)-[a-z0-9]([-a-z0-9]*[a-z0-9])?$]. *)
Definition lower_alnum (c : ascii) : bool :=
  let n := byte_code c in (((97 <=? n) && (n <=? 122)) || ((48 <=? n) && (n <=? 57)))%bool.

Fixpoint last_byte (s : string) : option ascii :=
  match s with
  | EmptyString => None
  | String c EmptyString => Some c
  | String _ s' => last_byte s'
  end.

Definition dns_label (s : string) : bool :=
  match s, last_byte s with
  | String c _, Some l => lower_alnum c && lower_alnum l && str_all (fun x => lower_alnum x || bool_decide (x = "-"%char)) s
  | _, _ => false
  end.

Definition kubevipKeyPattern (key : string) : bool :=
  match cut_first "-" key with
  | Some (kind, rest) => bool_decide (kind = "cidr" \/ kind = "range") && dns_label rest
  | None => false
  end.

Definition kubevipKeyFor (p : configMap) : string + error :=
  let key := TrimSpace (default EmptyString (cm_annotations p !! AnnotationKubevipKey)) in
  if decide (key = EmptyString) then
    inr (errors_New ("ConfigMap " +:+ cm_namespace p +:+ "/" +:+ cm_name p +:+
                     " is bound to a DynamicPrefix but has no " +:+ AnnotationKubevipKey +:+ " annotation"))
  else if kubevipKeyPattern key then inl key
  else inr (errors_New (AnnotationKubevipKey +:+ "=" +:+ key +:+ " is not a kube-vip pool key")).

(** The empty string: nothing to write. *)
Definition kubevipEntryFor (wantRange : bool) (config : poolConfiguration) : outcome error string :=
  if wantRange then
    if has_range config then Ret (pc_start config +:+ "-" +:+ pc_end config)
    else if decide (pc_cidr config = EmptyString) then Ret EmptyString
    else match netiptext.ParsePrefix (pc_cidr config) with
         | None => Fail (errors_New ("cannot render " +:+ pc_cidr config +:+ " as a kube-vip range"))
         | Some parsed =>
             (let* last := wrap_err (fun s => Errorf ("cannot render " +:+ pc_cidr config +:+ " as a kube-vip range")
                                              (errors_New s)) (lastAddrOfPrefix parsed) in
              Ret (netiptext.AddrString (netip.ip (netip.Masked parsed)) +:+ "-" +:+ netiptext.AddrString last))%go
         end
  else if pc_useAddressRange config then
    match exactCIDRForAddressRange (pc_start config) (pc_end config) with
    | Panic => Panic
    | Fail _ => Fail (errors_New ("cannot render the address range " +:+ pc_start config +:+ "-" +:+ pc_end config))
    | Ret (cidr, true) => Ret cidr
    | Ret (_, false) => Fail (errors_New ("address range " +:+ pc_start config +:+ "-" +:+ pc_end config +:+
                                          " is not CIDR-aligned"))
    end
  else Ret (pc_cidr config).

Fixpoint kubevipEntries (wantRange : bool) (configs : list poolConfiguration) : outcome error (list string) :=
  match configs with
  | [] => Ret []
  | c :: rest =>
      (let* entry := kubevipEntryFor wantRange c in
       let* entries := kubevipEntries wantRange rest in
       Ret (if decide (entry = EmptyString) then entries else entry :: entries))%go
  end.

Definition wants_range (key : string) : bool := String.prefix "range-" key.

Definition kubevipEntriesFor (key : string) (configs : list poolConfiguration) : outcome error (list string) :=
  kubevipEntries (wants_range key) configs.

Definition splitKubevipEntries (value : string) : list string :=
  if decide (TrimSpace value = EmptyString) then []
  else filter (fun e => e <> EmptyString) (TrimSpace <$> split_on "," value).

(** [strings.Join(entries, ",")]. *)
Definition joined (entries : list string) : string := join "," entries.

Definition stripOwnedEntries (value : string) (record : ownershipRecord) : string * bool :=
  let entries := splitKubevipEntries value in
  (joined (filter (fun e => owns record (canonicalAddressEntry e) = false) entries),
   existsb (fun e => owns record (canonicalAddressEntry e)) entries).

Definition setOrDeleteKubevipKey (key value : string) (data : gmap string string) : gmap string string :=
  if decide (value = EmptyString) then delete key data else <[key := value]> data.

Definition canonicalEntries (entries : list string) : list string := canonicalAddressEntry <$> entries.

(** One key of the sweep: what is left of its value. *)
Definition sweep_key (record : ownershipRecord) (skip : string -> bool) (key value : string) : option string :=
  if (skip key || negb (kubevipKeyPattern key))%bool then Some value
  else let (kept, dropped) := stripOwnedEntries value record in
       if dropped then if decide (kept = EmptyString) then None else Some kept else Some value.

(** The loop over the map's keys: each is visited once, so their order is free. *)
Definition sweep (record : ownershipRecord) (skip : string -> bool) (data : gmap string string) : gmap string string :=
  map_imap (sweep_key record skip) data.

Definition sweep_changes (record : ownershipRecord) (skip : string -> bool) (data : gmap string string) : bool :=
  existsb (fun '(key, value) => negb (skip key || negb (kubevipKeyPattern key)) &&
                                (stripOwnedEntries value record).2) (map_to_list data).

(** The closure [owned] of the update. *)
Definition kubevip_owned (record : ownershipRecord) (managedPrefixes : list netip.Prefix) (entry : string) : option bool :=
  if negb (rec_present record) then isManagedAddressEntry entry managedPrefixes
  else Some (owns record (canonicalAddressEntry entry)).

(** The ConfigMap in memory, whether it was written, the error; [None]: a panic. *)
Definition kubevip_update (now : string) (updateErr : option error) (configs : list poolConfiguration)
    (managedPrefixes : list netip.Prefix) (p : configMap) : option (configMap * (bool * option error)) :=
  match kubevipKeyFor p with
  | inr e => Some (p, (false, Some e))
  | inl key =>
      match kubevipEntriesFor key configs with
      | Panic => None
      | Fail e => Some (p, (false, Some e))
      | Ret desired =>
          match cm_data p with
          | None => Some (p, (false, Some (errors_New "failed to read the ConfigMap data")))
          | Some data =>
              let record := parseOwnershipRecord (cm_annotations p !! AnnotationManagedKubevipEntries) in
              let entries := splitKubevipEntries (default EmptyString (data !! key)) in
              mine ← mapM (kubevip_owned record managedPrefixes) entries;
              let preserved := fst <$> filter (fun '(_, b) => b = false) (zip entries mine) in
              let pinned := canonicalAddressEntry <$> preserved in
              let managed := excludePinned (dedupePreservingOrder desired) pinned in
              let data1 := sweep record (fun k => bool_decide (k = key)) data in
              let changed := sweep_changes record (fun k => bool_decide (k = key)) data in
              let value := joined (preserved ++ managed) in
              let differs := negb (bool_decide (default EmptyString (data1 !! key) = value)) in
              let data2 := if differs then setOrDeleteKubevipKey key value data1 else data1 in
              let recordValue := formatOwnershipRecord (canonicalEntries managed) in
              if (negb (changed || differs) &&
                  bool_decide (cm_annotations p !! AnnotationManagedKubevipEntries = Some recordValue))%bool
              then Some (p, (false, None))
              else Some (mkConfigMap (cm_name p) (cm_namespace p) (Some data2)
                           (<[AnnotationLastSync := now]>
                              (<[AnnotationManagedKubevipEntries := recordValue]> (cm_annotations p))),
                         (true, updateErr))
          end
      end
  end.

Definition kubevip_release (p : configMap) : configMap * (bool * option error) :=
  match cm_annotations p !! AnnotationManagedKubevipEntries with
  | None => (p, (false, None))
  | Some recordValue =>
      let record := parseOwnershipRecord (Some recordValue) in
      match cm_data p with
      | None => (p, (false, Some (errors_New "failed to read the ConfigMap data")))
      | Some data =>
          (mkConfigMap (cm_name p) (cm_namespace p) (Some (sweep record (fun _ => false) data))
             (delete AnnotationManagedKubevipEntries (cm_annotations p)), (true, None))
      end
  end.

(** * Values and entries *)

Definition entries_of (data : gmap string string) (key : string) : list string :=
  splitKubevipEntries (default EmptyString (data !! key)).

(** An entry the operator writes: an address or prefix, or two printed addresses. *)
Definition kv_text (e : string) : Prop :=
  entry_text e \/ exists s t, entry_text s /\ entry_text t /\ canonicalEntry s = s /\ canonicalEntry t = t /\ e = s +:+ "-" +:+ t.

Lemma kv_text_key e : kv_text e -> key_text e.
Proof.
  intros [H|(s & t & Hs & Ht & _ & _ & ->)]; apply key_text_bytes.
  - by apply entry_text_ne.
  - by apply entry_text_key_bytes.
  - by destruct s.
  - rewrite !str_all_app, (entry_text_key_bytes s Hs), (entry_text_key_bytes t Ht). done.
Qed.

Lemma kv_text_canonical e : kv_text e ->
  canonicalEntry (TrimSpace (canonicalAddressEntry e)) = canonicalEntry (TrimSpace e) /\
  address_ok (mkOwned (ItemString e) (canonicalAddressEntry e)).
Proof.
  intros [H|(s & t & Hs & Ht & Es & Et & ->)].
  - rewrite canonicalAddressEntry_text by done. split; [|left; eauto].
    rewrite !TrimSpace_bytes by (apply entry_text_key_bytes; [done||by apply entry_text_canonical]).
    apply canonicalEntry_idem.
  - rewrite canonicalAddressEntry_pair, Es, Et by done. split; [done|].
    right. exists s, t. rewrite Es, Et. done.
Qed.

Lemma TrimSpace_key_text k : key_text k -> TrimSpace k = k.
Proof. by intros (_ & ? & _). Qed.

(** Joining entries and splitting again. *)
Lemma split_joined es : Forall key_text es -> splitKubevipEntries (joined es) = es.
Proof.
  intros H. unfold splitKubevipEntries. change (filter _ _) with (record_items (formatOwnershipRecord es)).
  rewrite record_items_format by done. case_decide as Ht; [|done].
  destruct es as [|k [|k2 es]]; [done| |].
  - inversion H as [|? ? Hk]; subst. change (joined [k]) with k in Ht. rewrite TrimSpace_key_text in Ht by done. by destruct Hk.
  - exfalso. pose proof (record_items_format (k :: k2 :: es) H) as E. unfold record_items in E.
    assert (forall s, TrimSpace s = EmptyString -> str_all (not_byte ",") s = true) as Hcomma by apply TrimSpace_empty_nocomma.
    apply Hcomma in Ht. unfold joined in Ht. change (join "," (k :: k2 :: es)) with (k +:+ String "," (join "," (k2 :: es))) in Ht.
    rewrite str_all_app in Ht. cbn in Ht. by rewrite andb_false_r in Ht.
Qed.

(** What is written: desired entries, none of which the user has. *)
Lemma dedupe_from_sub e seen items : e ∈ dedupe_from seen items -> e ∈ items.
Proof.
  revert seen. induction items as [|x items IH]; intros seen; [done|]. cbn [dedupe_from]. case_decide.
  - intros He%IH. by right.
  - intros [->|He%IH]%elem_of_cons; [apply list_elem_of_here|by right].
Qed.

Lemma managed_sub e desired pinned : e ∈ excludePinned (dedupePreservingOrder desired) pinned ->
  e ∈ desired /\ forall u, u ∈ pinned -> canonicalEntry (TrimSpace u) <> canonicalEntry (TrimSpace e).
Proof.
  unfold excludePinned. cbv zeta. intros [Hn He]%list_elem_of_filter. split; [by eapply dedupe_from_sub|].
  intros u Hu E. apply Hn. rewrite <- E. apply elem_of_list_to_set, list_elem_of_fmap. eauto.
Qed.

(** The record of what is written decides by the normal form of an entry. *)
Lemma record_by_key managed e : Forall kv_text managed ->
  owns (parseOwnershipRecord (Some (formatOwnershipRecord (canonicalEntries managed)))) (canonicalAddressEntry e) =
  bool_decide (canonicalAddressEntry e ∈ canonicalAddressEntry <$> managed).
Proof.
  intros Hm. set (es := (fun e => mkOwned (ItemString e) (canonicalAddressEntry e)) <$> managed).
  assert (Forall address_ok es) as Hok.
  { apply Forall_fmap. eapply Forall_impl; [exact Hm|]. intros x Hx. by apply kv_text_canonical. }
  pose proof (ol_recorded (OwnedListLaws := address_laws []) es (ItemString e) Hok) as E.
  unfold es in E. rewrite <- list_fmap_compose in E. exact E.
Qed.

(** It separates the user's entries from the operator's. *)
Lemma record_separates (user managed : list string) :
  Forall kv_text managed ->
  (forall e, e ∈ managed -> forall u, u ∈ canonicalAddressEntry <$> user -> canonicalEntry (TrimSpace u) <> canonicalEntry (TrimSpace e)) ->
  let r := parseOwnershipRecord (Some (formatOwnershipRecord (canonicalEntries managed))) in
  (forall e, e ∈ managed -> owns r (canonicalAddressEntry e) = true) /\
  (forall u, u ∈ user -> owns r (canonicalAddressEntry u) = false).
Proof.
  intros Hm Hu r. split; intros e He; unfold r; rewrite record_by_key by done.
  - apply bool_decide_true. by apply list_elem_of_fmap_2.
  - apply bool_decide_false. intros (c & E & Hc)%list_elem_of_fmap.
    apply (Hu c Hc (canonicalAddressEntry e)); [by apply list_elem_of_fmap_2|].
    rewrite E. rewrite Forall_forall in Hm. by apply kv_text_canonical, Hm.
Qed.

(** ** The sweep of other keys *)

Lemma sweep_lookup r skip data k :
  sweep r skip data !! k = v ← data !! k; sweep_key r skip k v.
Proof. unfold sweep. apply map_lookup_imap. Qed.

Lemma stripOwnedEntries_none value r :
  (stripOwnedEntries value r).2 = false <->
  forall e, e ∈ splitKubevipEntries value -> owns r (canonicalAddressEntry e) = false.
Proof.
  cbn. split.
  - intros H e He. apply not_true_is_false. intros Ho.
    assert (existsb (fun e => owns r (canonicalAddressEntry e)) (splitKubevipEntries value) = true); [|congruence].
    apply existsb_exists. exists e. by rewrite <- list_elem_of_In.
  - intros H. apply not_true_is_false. intros (e & He & Ho)%existsb_exists.
    apply list_elem_of_In, H in He. congruence.
Qed.

Lemma sweep_quiet r skip data :
  (forall k v, data !! k = Some v -> skip k = false -> kubevipKeyPattern k = true ->
     forall e, e ∈ splitKubevipEntries v -> owns r (canonicalAddressEntry e) = false) ->
  sweep r skip data = data /\ sweep_changes r skip data = false.
Proof.
  intros H. split.
  - apply map_eq. intros k. rewrite sweep_lookup. destruct (data !! k) as [v|] eqn:Hk; [|done]. cbn.
    unfold sweep_key. destruct (skip k) eqn:Es; [done|]. destruct (kubevipKeyPattern k) eqn:Ep; [|done]. cbn [orb negb].
    specialize (H k v Hk Es Ep). apply stripOwnedEntries_none in H.
    destruct (stripOwnedEntries v r) as [kept dropped]. cbn in H. by rewrite H.
  - apply not_true_is_false. intros ([k v] & Hin & Hs)%existsb_exists. apply list_elem_of_In, elem_of_map_to_list in Hin.
    apply andb_true_iff in Hs as [Hs Hd]. apply negb_true_iff, orb_false_iff in Hs as [Es Ep%negb_false_iff].
    specialize (H k v Hin Es Ep). apply stripOwnedEntries_none in H. congruence.
Qed.

(** * One key's life *)

Lemma kubevip_owned_unrecorded ms r entries :
  rec_present r = false -> (forall e, e ∈ entries -> isManagedAddressEntry e ms = Some false) ->
  mapM (kubevip_owned r ms) entries = Some ((fun _ => false) <$> entries).
Proof.
  intros Hr H. induction entries as [|e entries IH]; [done|]. cbn [mapM].
  assert (kubevip_owned r ms e = Some false) as ->.
  { unfold kubevip_owned. rewrite Hr. apply H, list_elem_of_here. }
  cbn [mbind option_bind]. rewrite IH; [done|]. intros x Hx. apply H. by right.
Qed.

Lemma kubevip_owned_recorded ms r entries : rec_present r = true ->
  mapM (kubevip_owned r ms) entries = Some ((fun e => owns r (canonicalAddressEntry e)) <$> entries).
Proof.
  intros Hr. induction entries as [|e entries IH]; [done|]. cbn [mapM].
  assert (kubevip_owned r ms e = Some (owns r (canonicalAddressEntry e))) as ->.
  { unfold kubevip_owned. by rewrite Hr. }
  cbn [mbind option_bind]. by rewrite IH.
Qed.

Lemma preserved_filter (f : string -> bool) entries :
  fst <$> filter (fun '(_, b) => b = false) (zip entries (f <$> entries)) = filter (fun e => f e = false) entries.
Proof.
  induction entries as [|e entries IH]; [done|]. cbn [fmap list_fmap zip zip_with].
  destruct (f e) eqn:E.
  - rewrite !filter_cons_False by congruence. exact IH.
  - rewrite !filter_cons_True by done. cbn [fmap list_fmap fst]. by rewrite <- IH.
Qed.

(** An update, given what is the user's in the managed key. *)
Lemma kubevip_update_result now configs ms p key desired data user (own : string -> bool) :
  kubevipKeyFor p = inl key -> kubevipEntriesFor key configs = Ret desired -> cm_data p = Some data ->
  let r := parseOwnershipRecord (cm_annotations p !! AnnotationManagedKubevipEntries) in
  mapM (kubevip_owned r ms) (entries_of data key) = Some (own <$> entries_of data key) ->
  filter (fun e => own e = false) (entries_of data key) = user ->
  sweep r (fun k => bool_decide (k = key)) data = data ->
  sweep_changes r (fun k => bool_decide (k = key)) data = false ->
  let managed := excludePinned (dedupePreservingOrder desired) (canonicalAddressEntry <$> user) in
  let value := joined (user ++ managed) in
  let recordValue := formatOwnershipRecord (canonicalEntries managed) in
  let differs := negb (bool_decide (default EmptyString (data !! key) = value)) in
  kubevip_update now None configs ms p =
    Some (if (negb differs && bool_decide (cm_annotations p !! AnnotationManagedKubevipEntries = Some recordValue))%bool
          then (p, (false, None))
          else (mkConfigMap (cm_name p) (cm_namespace p)
                  (Some (if differs then setOrDeleteKubevipKey key value data else data))
                  (<[AnnotationLastSync := now]>
                     (<[AnnotationManagedKubevipEntries := recordValue]> (cm_annotations p))), (true, None))).
Proof.
  intros Hk Hd Hc r Hmap Hf Hs1 Hs2 managed value recordValue differs. unfold kubevip_update. rewrite Hk, Hd, Hc.
  cbv zeta. fold r. fold (entries_of data key). rewrite Hmap. cbn [mbind option_bind].
  rewrite preserved_filter, Hf, Hs1, Hs2. fold managed value recordValue differs. cbn [orb].
  by destruct (negb differs && _)%bool.
Qed.

Lemma entries_set key value data : splitKubevipEntries value = [] \/ value <> EmptyString ->
  entries_of (setOrDeleteKubevipKey key value data) key = splitKubevipEntries value.
Proof.
  intros H. unfold setOrDeleteKubevipKey, entries_of. case_decide as Hv.
  - subst. by rewrite lookup_delete_eq.
  - by rewrite lookup_insert_eq.
Qed.

Lemma set_other key value data k : k <> key -> setOrDeleteKubevipKey key value data !! k = data !! k.
Proof. intros H. unfold setOrDeleteKubevipKey. case_decide; [by rewrite lookup_delete_ne|by rewrite lookup_insert_ne]. Qed.

Lemma value_written key value data :
  default EmptyString ((if negb (bool_decide (default EmptyString (data !! key) = value))
                        then setOrDeleteKubevipKey key value data else data) !! key) = value.
Proof.
  destruct (decide (default EmptyString (data !! key) = value)) as [E|E].
  - by rewrite bool_decide_true.
  - rewrite bool_decide_false by done. cbn [negb]. unfold setOrDeleteKubevipKey. case_decide as Hv.
    + by rewrite lookup_delete_eq, Hv.
    + by rewrite lookup_insert_eq.
Qed.

Lemma kubevipKeyFor_annotations p a d :
  a !! AnnotationKubevipKey = cm_annotations p !! AnnotationKubevipKey ->
  kubevipKeyFor (mkConfigMap (cm_name p) (cm_namespace p) d a) = kubevipKeyFor p.
Proof. intros H. unfold kubevipKeyFor. cbn [cm_annotations cm_name cm_namespace]. by rewrite H. Qed.

(** A swept value keeps the entries the record does not name. *)
Lemma sweep_entries r skip data k : skip k = false -> kubevipKeyPattern k = true ->
  (forall e, e ∈ filter (fun e => owns r (canonicalAddressEntry e) = false) (entries_of data k) -> key_text e) ->
  entries_of (sweep r skip data) k =
    filter (fun e => owns r (canonicalAddressEntry e) = false) (entries_of data k).
Proof.
  intros Hs Hk Ht. unfold entries_of at 1. rewrite sweep_lookup. destruct (data !! k) as [v|] eqn:Hv.
  - cbn [mbind option_bind]. unfold sweep_key. rewrite Hs, Hk. cbn [negb orb].
    unfold entries_of in Ht |- *. rewrite Hv in Ht |- *. cbn [default] in Ht |- *.
    destruct (stripOwnedEntries v r) as [kept dropped] eqn:Es.
    assert (kept = joined (filter (fun e => owns r (canonicalAddressEntry e) = false) (splitKubevipEntries v))) as Hkept
      by (unfold stripOwnedEntries in Es; congruence).
    destruct dropped.
    + case_decide as Hke; cbn [default]; rewrite <- (split_joined (filter _ (splitKubevipEntries v))) by (by apply Forall_forall);
        by rewrite <- Hkept, ?Hke.
    + cbn [default]. symmetry. apply filter_all_true. apply (proj1 (stripOwnedEntries_none v r)). by rewrite Es.
  - unfold entries_of. by rewrite Hv.
Qed.

Lemma sweep_other r data k : (forall v e, data !! k = Some v -> kubevipKeyPattern k = true ->
    e ∈ splitKubevipEntries v -> owns r (canonicalAddressEntry e) = false) ->
  sweep r (fun _ => false) data !! k = data !! k.
Proof.
  intros H. rewrite sweep_lookup. destruct (data !! k) as [v|]; [|done]. cbn. unfold sweep_key.
  destruct (kubevipKeyPattern k); [|done]. cbn [orb negb].
  assert ((stripOwnedEntries v r).2 = false) as Hd by (apply stripOwnedEntries_none; intros e; by apply H).
  destruct (stripOwnedEntries v r) as [kept dropped]. cbn in Hd. by rewrite Hd.
Qed.

Lemma kubevipKeyFor_pattern p key : kubevipKeyFor p = inl key -> kubevipKeyPattern key = true.
Proof. unfold kubevipKeyFor. cbv zeta. case_decide; [done|]. destruct (kubevipKeyPattern _) eqn:E; [|done]. by intros [= <-]. Qed.

(** What the first update of a key leaves. *)
Definition key_holds (p : configMap) (key : string) (data0 : gmap string string) (user managed : list string)
    (p' : configMap) : Prop :=
  exists data', cm_data p' = Some data' /\ default EmptyString (data' !! key) = joined (user ++ managed) /\
    (forall k, k <> key -> data' !! k = data0 !! k) /\
    cm_annotations p' !! AnnotationManagedKubevipEntries = Some (formatOwnershipRecord (canonicalEntries managed)) /\
    kubevipKeyFor p' = inl key.

Lemma kubevip_first_update now configs ms p key desired data :
  kubevipKeyFor p = inl key -> kubevipEntriesFor key configs = Ret desired -> cm_data p = Some data ->
  cm_annotations p !! AnnotationManagedKubevipEntries = None ->
  (forall e, e ∈ entries_of data key -> isManagedAddressEntry e ms = Some false) ->
  let user := entries_of data key in
  let managed := excludePinned (dedupePreservingOrder desired) (canonicalAddressEntry <$> user) in
  exists p', kubevip_update now None configs ms p = Some (p', (true, None)) /\ key_holds p key data user managed p'.
Proof.
  intros Hk Hd Hc Hr Hown user managed.
  destruct (sweep_quiet (parseOwnershipRecord (cm_annotations p !! AnnotationManagedKubevipEntries))
    (fun k => bool_decide (k = key)) data) as [Hs1 Hs2].
  { intros k v _ _ _ e _. rewrite Hr. by apply bool_decide_false, not_elem_of_empty. }
  rewrite (kubevip_update_result now configs ms p key desired data user (fun _ => false)); try done.
  - rewrite Hr, (bool_decide_false (None = _)), andb_false_r by done. eexists. split; [done|].
    eexists. split; [done|]. split; [apply value_written|]. split; [|split].
    + intros k Hne. destruct (negb _); [by apply set_other|done].
    + cbn. rewrite lookup_insert_ne by done. apply lookup_insert_eq.
    + rewrite kubevipKeyFor_annotations; [done|]. by rewrite !lookup_insert_ne.
  - rewrite Hr. by apply kubevip_owned_unrecorded.
  - by apply filter_all_true.
Qed.

(** A later update with the same configurations, and the release. *)
Lemma kubevip_repeat now configs ms p0 p key desired data0 user :
  kubevipEntriesFor key configs = Ret desired -> Forall kv_text desired -> Forall key_text user ->
  let managed := excludePinned (dedupePreservingOrder desired) (canonicalAddressEntry <$> user) in
  (forall k v e, data0 !! k = Some v -> k <> key -> kubevipKeyPattern k = true -> e ∈ splitKubevipEntries v ->
     canonicalAddressEntry e ∉ canonicalAddressEntry <$> managed) ->
  key_holds p0 key data0 user managed p ->
  kubevip_update now None configs ms p = Some (p, (false, None)) /\
  exists p' data', kubevip_release p = (p', (true, None)) /\ cm_data p' = Some data' /\
    entries_of data' key = user /\ (forall k, k <> key -> data' !! k = data0 !! k) /\
    cm_annotations p' !! AnnotationManagedKubevipEntries = None.
Proof.
  intros Hd Hdt Hut managed Hother (data & Hc & Hv & Ho & Hr & Hk).
  assert (Forall kv_text managed) as Hmt.
  { apply Forall_forall. intros e He. apply managed_sub in He as [He _]. rewrite Forall_forall in Hdt. auto. }
  destruct (record_separates user managed Hmt) as [Hmine Huser].
  { intros e He. by apply (proj2 (managed_sub e desired _ He)). }
  set (r := parseOwnershipRecord (Some (formatOwnershipRecord (canonicalEntries managed)))) in *.
  assert (entries_of data key = user ++ managed) as He.
  { unfold entries_of. rewrite Hv. apply split_joined, Forall_app. split; [done|].
    eapply Forall_impl; [exact Hmt|apply kv_text_key]. }
  assert (filter (fun e => owns r (canonicalAddressEntry e) = false) (entries_of data key) = user) as Hf.
  { rewrite He, filter_app, filter_all_true by done. rewrite filter_all_false; [apply app_nil_r|].
    intros e Hin. rewrite Hmine by done. done. }
  assert (forall k v e, data !! k = Some v -> k <> key -> kubevipKeyPattern k = true -> e ∈ splitKubevipEntries v ->
    owns r (canonicalAddressEntry e) = false) as Hoth.
  { intros k v e Hkv Hne Hp Hin. rewrite Ho in Hkv by done. specialize (Hother k v e Hkv Hne Hp Hin).
    unfold r. rewrite record_by_key by done. by apply bool_decide_false. }
  pose proof (kubevipKeyFor_pattern p key Hk) as Hpat. split.
  - destruct (sweep_quiet r (fun k => bool_decide (k = key)) data) as [Hs1 Hs2].
    { intros k v Hkv Hne%bool_decide_eq_false Hp e. by apply (Hoth k v). }
    rewrite (kubevip_update_result now configs ms p key desired data user (fun e => owns r (canonicalAddressEntry e)));
      rewrite ?Hr; try done.
    + fold managed. rewrite Hv, !bool_decide_true by done. done.
    + by apply kubevip_owned_recorded.
  - unfold kubevip_release. rewrite Hr, Hc. eexists _, _. split; [done|]. split; [done|]. fold r. split; [|split].
    + rewrite sweep_entries; [done|done|done|]. rewrite Hf. intros e. rewrite Forall_forall in Hut. apply Hut.
    + intros k Hne. rewrite <- Ho by done. apply sweep_other. intros v e Hkv Hp. by apply (Hoth k v).
    + cbn. apply lookup_delete_eq.
Qed.

(** What the configurations of a status are rendered as. *)
Definition printed (c : poolConfiguration) : Prop :=
  canonicalEntry (pc_start c) = pc_start c /\ canonicalEntry (pc_end c) = pc_end c.

Lemma AddrString_text a : addr6 a ->
  entry_text (netiptext.AddrString a) /\ canonicalEntry (netiptext.AddrString a) = netiptext.AddrString a.
Proof.
  intros Ha. assert (netiptext.ParseAddr (netiptext.AddrString a) = Some a) as E.
  { apply ParseAddr_String; [apply Ha|]. unfold netip.IsValidAddr. by rewrite (proj2 Ha). }
  split; [right; exists a; split; [done|by apply addr6_nozone]|]. unfold canonicalEntry. by rewrite E.
Qed.

Lemma kubevipEntryFor_text wantRange c : config_good c -> printed c ->
  exists r, kubevipEntryFor wantRange c = r /\
    match r with Ret e => e <> EmptyString /\ kv_text e | Fail _ => wantRange = false | Panic => False end.
Proof.
  intros (base & Hbase & Hc) [Es Ee]. eexists. split; [done|]. pose proof (config_cidr_text base c Hc) as Ht.
  unfold kubevipEntryFor. destruct wantRange.
  - destruct (has_range c) eqn:Hr.
    + destruct (config_range_text base c Hc Hr) as [Hs He]. split; [by destruct (pc_start c)|].
      right. exists (pc_start c), (pc_end c). done.
    + rewrite decide_False by by apply entry_text_ne. destruct Hc as [(q & Hq & Hq6 & _) _]. rewrite Hq.
      rewrite lastAddrOfPrefix_6 by done. cbn [wrap_err obind]. destruct (Masked6_ip q Hq6) as [Hm _].
      assert (addr6 (netip.mkAddr (netip.last_num q) (netip.z6 EmptyString))) as Hl.
      { split; [|done]. apply addr6_wf. pose proof (first_num_bounds q Hq6). pose proof (first_num_le_last q Hq6). lia. }
      destruct (AddrString_text _ Hm) as [H1 H2], (AddrString_text _ Hl) as [H3 H4].
      set (s := netiptext.AddrString (netip.ip (netip.Masked q))) in *. set (t := netiptext.AddrString (netip.mkAddr _ _)) in *.
      split; [|right; by exists s, t]. apply entry_text_ne in H1. by destruct s.
  - destruct Hc as [_ Hc]. destruct (pc_useAddressRange c); [|by split; [apply entry_text_ne|left]].
    destruct Hc as (a & b & Ha & Ha6 & Hb & Hb6 & Hle & _). rewrite (exactCIDR_6 _ _ a b) by done.
    destruct (bool_decide _); [|done].
    assert (netip.Is6 a = true) as H6 by (unfold netip.Is6; by rewrite (proj2 Ha6)).
    destruct (RangeToCIDR_spec a b (proj1 Ha6) (proj1 Hb6) H6) as ((Hwf & Hv & _) & _).
    assert (entry_text (netiptext.PrefixString (RangeToCIDR a b))) as Hte by (left; eexists; by apply ParsePrefix_String).
    split; [by apply entry_text_ne|by left].
Qed.

(** Rendering never panics, and for a range key never fails. *)
Lemma kubevipEntriesFor_texts key configs : Forall config_good configs -> Forall printed configs ->
  match kubevipEntriesFor key configs with
  | Ret desired => Forall kv_text desired /\ length desired = length configs
  | Fail _ => wants_range key = false
  | Panic => False
  end.
Proof.
  unfold kubevipEntriesFor. generalize (wants_range key). intros w Hg Hp.
  induction Hg as [|c configs Hc Hg IH]; [by cbn|]. inversion Hp as [|? ? Hpc Hps]; subst. cbn [kubevipEntries].
  destruct (kubevipEntryFor_text w c Hc Hpc) as (r & -> & Hr). destruct r as [e|er|]; [|exact Hr|done].
  destruct Hr as [Hne Hte]. cbn [obind]. specialize (IH Hps). destruct (kubevipEntries w configs) as [l|er|]; [|exact IH|done].
  cbn [obind]. rewrite decide_False by done. destruct IH as [IH1 IH2]. split; [by constructor|cbn; lia].
Qed.

(** * Properties *)

(** C33 One range key of kube-vip's ConfigMap and one list of configurations, from before
    the operator wrote to the map: rendering cannot fail; and where no other pool key
    holds an entry equal to one it writes, the first update appends the rendered
    configurations the user has not pinned to the user's own entries, leaves every
    other key alone and records what it wrote; repeated, it writes nothing; the release
    leaves the user's entries, the other keys and no record. *)
Theorem kubevip_key_lifecycle (now later : string) (p : configMap) (key : string) (data : gmap string string)
    (configs : list poolConfiguration) (ms : list netip.Prefix) :
  kubevipKeyFor p = inl key -> wants_range key = true -> cm_data p = Some data ->
  cm_annotations p !! AnnotationManagedKubevipEntries = None ->
  Forall config_good configs -> Forall printed configs ->
  let user := entries_of data key in
  Forall key_text user -> (forall e, e ∈ user -> isManagedAddressEntry e ms = Some false) ->
  exists desired, kubevipEntriesFor key configs = Ret desired /\ length desired = length configs /\
  let managed := excludePinned (dedupePreservingOrder desired) (canonicalAddressEntry <$> user) in
  ((forall k v e, data !! k = Some v -> k <> key -> kubevipKeyPattern k = true -> e ∈ splitKubevipEntries v ->
      canonicalAddressEntry e ∉ canonicalAddressEntry <$> managed) ->
   exists p1 data1, kubevip_update now None configs ms p = Some (p1, (true, None)) /\
     cm_data p1 = Some data1 /\ entries_of data1 key = user ++ managed /\
     (forall k, k <> key -> data1 !! k = data !! k) /\
     kubevip_update later None configs ms p1 = Some (p1, (false, None)) /\
     exists p2 data2, kubevip_release p1 = (p2, (true, None)) /\ cm_data p2 = Some data2 /\
       entries_of data2 key = user /\ (forall k, k <> key -> data2 !! k = data !! k) /\
       cm_annotations p2 !! AnnotationManagedKubevipEntries = None).
Proof.
  intros Hk Hw Hc Hr Hg Hp user Hut Hown. pose proof (kubevipEntriesFor_texts key configs Hg Hp) as Hd.
  destruct (kubevipEntriesFor key configs) as [desired|e|] eqn:Ed; [|congruence|done]. destruct Hd as [Hdt Hlen].
  exists desired. split; [done|]. split; [done|]. intros managed Hother.
  destruct (kubevip_first_update now configs ms p key desired data Hk Ed Hc Hr Hown) as (p1 & E1 & Hh).
  fold user managed in Hh.
  destruct (kubevip_repeat later configs ms p p1 key desired data user Ed Hdt Hut Hother Hh)
    as (E2 & p2 & data2 & E3 & Hc2 & He2 & Ho2 & Hr2).
  destruct Hh as (data1 & Hc1 & Hv1 & Ho1 & _). exists p1, data1. split; [done|]. split; [done|]. split.
  { unfold entries_of. rewrite Hv1. apply split_joined, Forall_app. split; [done|].
    apply Forall_forall. intros e He. apply managed_sub in He as [He _]. rewrite Forall_forall in Hdt.
    by apply kv_text_key, Hdt. }
  split; [done|]. split; [done|]. by exists p2, data2.
Qed.

Definition sample_configMap (cidr_home cidr_lab : string) : configMap :=
  mkConfigMap "kubevip" "kube-system"
    (Some {[ "range-home" := cidr_home; "range-lab" := cidr_lab ]})
    {[ AnnotationKubevipKey := "range-home"; AnnotationName := "home" ]}.

Definition sample_range : poolConfiguration :=
  mkPoolConfig true "2001:db8:2::f000" "2001:db8:2::f0ff" "2001:db8:2::f000/120".

Lemma sample_range_good : config_good sample_range.
Proof.
  destruct (sample_status_ok None [] (Forall_nil_2 _)) as ((base & Hb & H6 & Hr & _) & _).
  exists base. split; [exact H6|]. by apply (Hr "lb").
Qed.

Lemma kubevip_key_lifecycle_witness :
  exists desired, kubevipEntriesFor "range-home" [sample_range] = Ret desired /\
  exists p1 data1, kubevip_update "t0" None [sample_range] [prefix_of_string "2001:db8:2::/48"]
      (sample_configMap "10.0.0.1-10.0.0.9" "10.0.1.1-10.0.1.9") = Some (p1, (true, None)) /\
    cm_data p1 = Some data1 /\
    entries_of data1 "range-home" = ["10.0.0.1-10.0.0.9"; "2001:db8:2::f000-2001:db8:2::f0ff"].
Proof.
  destruct (kubevip_key_lifecycle "t0" "t1" (sample_configMap "10.0.0.1-10.0.0.9" "10.0.1.1-10.0.1.9") "range-home"
    {[ "range-home" := "10.0.0.1-10.0.0.9"; "range-lab" := "10.0.1.1-10.0.1.9" ]} [sample_range]
    [prefix_of_string "2001:db8:2::/48"]) as (desired & Hd & _ & H).
  - vm_compute. reflexivity.
  - reflexivity.
  - reflexivity.
  - vm_compute. reflexivity.
  - constructor; [apply sample_range_good|constructor].
  - constructor; [split; vm_compute; reflexivity|constructor].
  - constructor; [|constructor]. split; [done|]. split; vm_compute; reflexivity.
  - intros e He. apply list_elem_of_singleton in He as ->. vm_compute. reflexivity.
  - exists desired. split; [exact Hd|].
    assert (desired = ["2001:db8:2::f000-2001:db8:2::f0ff"]) as E.
    { assert (kubevipEntriesFor "range-home" [sample_range] = Ret ["2001:db8:2::f000-2001:db8:2::f0ff"]) as E
        by (vm_compute; reflexivity). rewrite E in Hd. by injection Hd as <-. }
    destruct H as (p1 & data1 & E1 & Hc & He & _).
    + intros k v e Hk Hne _ Hin. apply lookup_insert_Some in Hk as [[<- _]|[_ Hk]]; [done|].
      apply lookup_singleton_Some in Hk as [<- <-]. apply list_elem_of_singleton in Hin as ->.
      rewrite E. vm_compute. intros [H|H]%elem_of_cons; [discriminate|by apply elem_of_nil in H].
    + exists p1, data1. split; [exact E1|]. split; [exact Hc|]. rewrite He, E. vm_compute. reflexivity.
Defined.

(** The sweep of the keys a pool no longer manages goes by the record alone,
    which names entries and not the key they were written to: once the operator
    has recorded an entry, an update that writes removes an equal entry from
    every other pool key, also when the user put it there. *)
Theorem kubevip_sweeps_any_key (now : string) (configs : list poolConfiguration) (ms : list netip.Prefix)
    (p p1 : configMap) (key k : string) (data : gmap string string) (rv e : string) :
  kubevipKeyFor p = inl key -> cm_data p = Some data ->
  cm_annotations p !! AnnotationManagedKubevipEntries = Some rv ->
  k <> key -> kubevipKeyPattern k = true -> Forall key_text (entries_of data k) -> e ∈ entries_of data k ->
  owns (parseOwnershipRecord (Some rv)) (canonicalAddressEntry e) = true ->
  forall written, kubevip_update now None configs ms p = Some (p1, (written, None)) ->
  written = true /\ exists data1, cm_data p1 = Some data1 /\ e ∉ entries_of data1 k.
Proof.
  intros Hk Hc Hr Hne Hp Ht He Ho written. unfold kubevip_update. rewrite Hk, Hc, Hr. cbv zeta.
  destruct (kubevipEntriesFor key configs) as [desired|er|]; [|done..].
  destruct (mapM _ _) as [mine|]; [|done]. cbn [mbind option_bind].
  set (r := parseOwnershipRecord (Some rv)) in *. set (value := joined _). set (rec := formatOwnershipRecord _).
  assert (sweep_changes r (fun k => bool_decide (k = key)) data = true) as ->.
  { unfold entries_of in He. destruct (data !! k) as [v|] eqn:Hv; [|by apply not_elem_of_nil in He].
    apply existsb_exists. exists (k, v). split; [by apply list_elem_of_In, elem_of_map_to_list|].
    rewrite bool_decide_false, Hp by done. cbn. apply existsb_exists. exists e. by rewrite <- list_elem_of_In. }
  cbn [orb negb andb]. intros [= <- <-]. split; [done|]. eexists. split; [done|].
  assert (e ∉ entries_of (sweep r (fun k => bool_decide (k = key)) data) k) as Hn.
  { rewrite sweep_entries; [|by apply bool_decide_false|done|].
    - intros [H _]%list_elem_of_filter. congruence.
    - intros x [_ Hx]%list_elem_of_filter. rewrite Forall_forall in Ht. auto. }
  unfold entries_of in Hn |- *. by destruct (negb _); rewrite ?set_other.
Qed.

(** The pool of the home network, and the same range the user also gave the lab. *)
Lemma kubevip_sweeps_any_key_witness :
  let p := mkConfigMap "kubevip" "kube-system"
    (Some {[ "range-home" := "2001:db8:1::f000-2001:db8:1::f0ff"; "range-lab" := "2001:db8:1::f000-2001:db8:1::f0ff,10.0.1.1-10.0.1.9" ]})
    {[ AnnotationKubevipKey := "range-home"; AnnotationManagedKubevipEntries := "2001:db8:1::f000-2001:db8:1::f0ff" ]} in
  exists p1, kubevip_update "t1" None [sample_range] [] p = Some (p1, (true, None)) /\
    exists data1, cm_data p1 = Some data1 /\ "2001:db8:1::f000-2001:db8:1::f0ff" ∉ entries_of data1 "range-lab".
Proof.
  intros p. eexists. split; [vm_compute; reflexivity|].
  eapply (kubevip_sweeps_any_key "t1" [sample_range] [] p _ "range-home" "range-lab").
  - vm_compute. reflexivity.
  - reflexivity.
  - vm_compute. reflexivity.
  - discriminate.
  - vm_compute. reflexivity.
  - repeat (constructor; [split; [done|split; vm_compute; reflexivity]|]). constructor.
  - vm_compute. left.
  - vm_compute. reflexivity.
  - vm_compute. reflexivity.
Defined.
