(* ===== verification/PoolSync.v ===== *)
(** * The pool sync reconciler

    [Reconcile], [syncPool], [releasePool] and [getPools] of
    [internal/controller/poolsync_controller.go], the failure state and the
    PoolsSynced condition of [poolsync_condition.go], and [conditions_apply.go].
    A backend is the interface [poolBackend] (Go's interface of that name), so the
    reconciler is verified once for all of them; the API server's answers are
    arguments.  Log lines and metrics are not modelled, events are. *)

From stdpp Require Import sorting.
From S2P Require Import Prelude GoStrings Metrics Netip NetipText Policy Receivers Factory DynamicPrefix Ownership.
From S2P Require Import ListBackends PoolConfigs PoolBackends CalicoSiblings KubeVip.


(** ** Which pools are failing *)

Record poolStateKey : Type := mkKey { k_backend : string; k_pool : string }.

#[global] Instance poolStateKey_eq_dec : EqDecision poolStateKey.
Proof. solve_decision. Defined.

#[global] Program Instance poolStateKey_countable : Countable poolStateKey :=
  inj_countable' (fun k => (k_backend k, k_pool k)) (fun '(b, p) => mkKey b p) _.
Next Obligation. by intros []. Qed.

Definition key_String (k : poolStateKey) : string := k_backend k +:+ " " +:+ k_pool k.

(** For each DynamicPrefix its failing pools and their errors. *)
Abbreviation poolSyncState := (gmap string (gmap poolStateKey string)) (only parsing).

Definition verdict : Type := ConditionStatus * string * string.

(** [sort.Strings]. *)
Definition string_le (a b : string) : Prop := String.leb a b = true.
#[global] Instance string_le_dec a b : Decision (string_le a b).
Proof. unfold string_le. apply _. Defined.
Definition sort_strings (l : list string) : list string := merge_sort string_le l.

Definition failing_of (s : poolSyncState) (dpName : string) : gmap poolStateKey string :=
  default empty (s !! dpName).

Definition conditionFor (s : poolSyncState) (dpName : string) : poolSyncState * verdict :=
  let pools := failing_of s dpName in
  match map_to_list pools with
  | [] => (delete dpName s, (ConditionTrue, "PoolsSynced", "All referencing pools are in sync"))
  | entries =>
      let names := sort_strings (key_String ∘ fst <$> entries) in
      let first := default EmptyString
        (snd <$> List.find (fun e => bool_decide (Some (key_String e.1) = names !! 0%nat)) entries) in
      (s, (ConditionFalse, "PoolSyncFailed",
           itoa (Z.of_nat (List.length names)) +:+ " pool(s) are not in sync: " +:+ join ", " names +:+
           " (" +:+ first +:+ ")"))
  end.

(** An error is given by its text. *)
Definition record (dpName : string) (key : poolStateKey) (syncErr : option string) (s : poolSyncState)
    : poolSyncState * verdict :=
  let pools := failing_of s dpName in
  let pools' := match syncErr with
                | Some text => <[key := text]> pools
                | None => delete key pools
                end in
  conditionFor (<[dpName := pools']> s) dpName.

Definition forget (dpName : string) (s : poolSyncState) : poolSyncState := delete dpName s.

Definition forgetEntries (match_ : poolStateKey -> bool) (s : poolSyncState) : poolSyncState * list string :=
  let affected := filter (fun '(_, pools) => existsb match_ (map_to_list pools).*1 = true) (map_to_list s) in
  ((fun pools => filter (fun '(k, _) => match_ k = false) pools) <$> s, sort_strings affected.*1).

(** ** The condition *)

Definition ConditionTypePoolsSynced : string := "PoolsSynced".

Section Conditions.
Context (FindStatusCondition : list Condition -> string -> option Condition).

(** The entry to apply and whether it differs from what the object has. *)
Definition conditionApplyEntry (now : Z) (dp : DynamicPrefix) (condType : string) (status : ConditionStatus)
    (reason : string) (msg : message) : Condition * bool :=
  let entry t := mkCondition condType status (dp_Generation dp) t reason msg in
  match FindStatusCondition (st_Conditions (dp_Status dp)) condType with
  | None => (entry (Some now), true)
  | Some existing =>
      (entry (if decide (C_Status existing = status) then C_LastTransitionTime existing else Some now),
       negb (bool_decide (C_Status existing = status) && bool_decide (C_Reason existing = reason) &&
             bool_decide (C_Message existing = msg) && bool_decide (C_ObservedGeneration existing = dp_Generation dp)))
  end.
End Conditions.

(** ** Backends *)

Inductive api_error : Type := NotFound | OtherError (e : error).

(** An object as the reconciler sees it. *)
Class PoolObject (Obj : Type) : Type := {
  o_annotations : Obj -> gmap string string;
  o_set_annotations : gmap string string -> Obj -> Obj
}.

(** [World] is what a backend reads and writes besides the pool itself. *)
Record poolBackend (World Obj : Type) : Type := mkBackend {
  b_name : string;
  b_namespaced : bool;
  b_update : list poolConfiguration -> list netip.Prefix -> World -> Obj -> option (World * Obj * (bool * option error));
  b_release : World -> Obj -> option (World * Obj * (bool * option error))
}.
Arguments mkBackend {World Obj}.
Arguments b_name {World Obj}.
Arguments b_namespaced {World Obj}.
Arguments b_update {World Obj}.
Arguments b_release {World Obj}.

Inductive pool_event : Type :=
| EvPoolSyncFailed (pool : string)
| EvPoolUpdated (pool : string) (configs : nat)
| EvPoolReleased (pool : string).

(** A DynamicPrefix read: the object, or an error. *)
Inductive dp_answer : Type := DPFound (dp : DynamicPrefix) | DPError (e : api_error).

Section Sync.
Context {World Obj : Type} `{HPO : !PoolObject Obj}.
Context (FindStatusCondition : list Condition -> string -> option Condition).
Context (error_text : error -> string) (config_text : config_error -> string).

(** The API server during a reconcile: reading a DynamicPrefix, applying one
    condition of it, writing the pool. *)
Record sync_env : Type := mkSyncEnv {
  se_now : Z;
  se_get : string -> dp_answer;
  se_apply : string -> Condition -> option api_error;
  se_update : Obj -> option error
}.

(** The failure state, the conditions applied, the pools written (for Calico also
    when only its siblings were), the events, what backends touched besides, the
    calls on the metrics. *)
Record sync_state : Type := mkSyncState {
  ss_failing : poolSyncState;
  ss_applied : list (string * Condition);
  ss_written : list Obj;
  ss_events : list pool_event;
  ss_world : World;
  ss_metrics : list metric
}.

Definition set_failing (f : poolSyncState) (s : sync_state) : sync_state :=
  mkSyncState f (ss_applied s) (ss_written s) (ss_events s) (ss_world s) (ss_metrics s).
Definition add_applied (dpName : string) (c : Condition) (s : sync_state) : sync_state :=
  mkSyncState (ss_failing s) (ss_applied s ++ [(dpName, c)]) (ss_written s) (ss_events s) (ss_world s) (ss_metrics s).
Definition add_event (e : pool_event) (s : sync_state) : sync_state :=
  mkSyncState (ss_failing s) (ss_applied s) (ss_written s) (ss_events s ++ [e]) (ss_world s) (ss_metrics s).
Definition add_written (o : Obj) (s : sync_state) : sync_state :=
  mkSyncState (ss_failing s) (ss_applied s) (ss_written s ++ [o]) (ss_events s) (ss_world s) (ss_metrics s).
Definition set_world (w : World) (s : sync_state) : sync_state :=
  mkSyncState (ss_failing s) (ss_applied s) (ss_written s) (ss_events s) w (ss_metrics s).
Definition add_metric (m : metric) (s : sync_state) : sync_state :=
  mkSyncState (ss_failing s) (ss_applied s) (ss_written s) (ss_events s) (ss_world s) (ss_metrics s ++ [m]).

Definition writePoolsSyncedCondition (env : sync_env) (dpName : string) (v : verdict) (s : sync_state) : sync_state :=
  let '(status, reason, message) := v in
  let failed e s := match e with NotFound => set_failing (forget dpName (ss_failing s)) s | OtherError _ => s end in
  match se_get env dpName with
  | DPError e => failed e s
  | DPFound dp =>
      let (entry, changed) := conditionApplyEntry FindStatusCondition (se_now env) dp ConditionTypePoolsSynced
                                status reason (MsgText message) in
      if negb changed then s
      else match se_apply env dpName entry with
           | None => add_applied dpName entry s
           | Some e => failed e s
           end
  end.

Definition updatePoolsSyncedCondition (env : sync_env) (dpName : string) (key : poolStateKey)
    (syncErr : option string) (s : sync_state) : sync_state :=
  let (failing, v) := record dpName key syncErr (ss_failing s) in
  writePoolsSyncedCondition env dpName v (set_failing failing s).

Definition releasePoolsSyncedEntries (env : sync_env) (match_ : poolStateKey -> bool) (s : sync_state) : sync_state :=
  let (failing, affected) := forgetEntries match_ (ss_failing s) in
  foldl (fun s dpName =>
    let (failing, v) := conditionFor (ss_failing s) dpName in
    writePoolsSyncedCondition env dpName v (set_failing failing s)) (set_failing failing s) affected.

(** The records [releasePool] drops whatever backend wrote them. *)
Definition stray_records : list string :=
  [AnnotationManagedBlocks; AnnotationManagedCIDRs; AnnotationManagedAddresses; AnnotationManagedCIDR;
   AnnotationManagedKubevipEntries; AnnotationLastSync].

Definition drop_annotations (keys : list string) (a : gmap string string) : gmap string string :=
  foldl (fun a k => delete k a) a keys.

(** [None]: a panic. [poolKey] is the object's name and the request's. *)
Definition releasePool (env : sync_env) (poolKey : string) (pool : Obj) (backend : poolBackend World Obj)
    (s : sync_state) : option (sync_state * option error) :=
  match b_release backend (ss_world s) pool with
  | None => None
  | Some (w, _, (_, Some e)) =>
      Some (set_world w s, Some (Errorf ("failed to release " +:+ b_name backend +:+ " pool " +:+ poolKey) e))
  | Some (w, pool1, (changed, None)) =>
      let s1 := set_world w s in
      let annotations := o_annotations pool1 in
      let strayRecords := existsb (fun k => bool_decide (is_Some (annotations !! k))) stray_records in
      if (negb changed && negb strayRecords)%bool then Some (s1, None)
      else
        let pool2 := o_set_annotations (drop_annotations stray_records annotations) pool1 in
        match se_update env pool2 with
        | Some e => Some (s1, Some (Errorf ("failed to release pool " +:+ poolKey) e))
        | None =>
            let s2 := releasePoolsSyncedEntries env
              (fun key => bool_decide (k_backend key = b_name backend) && bool_decide (k_pool key = poolKey))
              (add_metric (MForgetPool (b_name backend) poolKey) (add_written pool2 s1)) in
            Some (add_event (EvPoolReleased poolKey) s2, None)
        end
  end.

Definition waitingRequeue : Z := 30 * time_Second.

(** [RequeueAfter] (0: none) and the error. *)
Definition syncPool (env : sync_env) (reqString : string) (pool : Obj) (backend : poolBackend World Obj)
    (s : sync_state) : option (sync_state * (Z * option error)) :=
  let annotations := o_annotations pool in
  let release s := '(s', err) ← releasePool env reqString pool backend s; Some (s', (0, err)) in
  match annotations !! AnnotationName with
  | None => if hasOwnershipRecord annotations then release s else Some (s, (0, None))
  | Some dpName =>
      let stateKey := mkKey (b_name backend) reqString in
      match se_get env dpName with
      | DPError NotFound => if hasOwnershipRecord annotations then release s else Some (s, (0, None))
      | DPError (OtherError e) => Some (s, (0, Some e))
      | DPFound dp =>
          if decide (st_CurrentPrefix (dp_Status dp) = EmptyString) then Some (s, (waitingRequeue, None))
          else
            match buildPoolConfigurations dp (annotations !! AnnotationAddressRange) (annotations !! AnnotationSubnet) with
            | Panic => None
            | Fail e =>
                Some (updatePoolsSyncedCondition env dpName stateKey (Some (config_text e))
                        (add_metric (MPoolSyncFailed (b_name backend) dpName reqString) (add_event (EvPoolSyncFailed reqString) s)),
                      (0, Some (Errorf ("failed to build pool configurations for " +:+ reqString)
                                  (errors_New (config_text e)))))
            | Ret configs =>
                match b_update backend configs (collectManagedPrefixes dp) (ss_world s) pool with
                | None => None
                | Some (w, _, (_, Some e)) =>
                    Some (updatePoolsSyncedCondition env dpName stateKey (Some (error_text e))
                            (add_metric (MPoolSyncFailed (b_name backend) dpName reqString)
                               (add_event (EvPoolSyncFailed reqString) (set_world w s))), (0, Some e))
                | Some (w, pool', (updated, None)) =>
                    let s1 := set_world w s in
                    let s2 := if updated then add_event (EvPoolUpdated reqString (List.length configs)) (add_written pool' s1)
                              else s1 in
                    Some (updatePoolsSyncedCondition env dpName stateKey None (add_metric (MPoolSynced (b_name backend) dpName reqString) s2), (0, None))
                end
            end
      end
  end.

(** ** Reconciling a name *)

(** What reading the name under a backend's kind gives. *)
Inductive pool_answer : Type := PoolFound (o : Obj) | PoolError (e : api_error).

Definition namespaced_name (ns name : string) : string := ns +:+ "/" +:+ name.

(** The matches, and the last error other than NotFound. *)
Definition getPools (backends : list (poolBackend World Obj)) (read : poolBackend World Obj -> pool_answer)
    (ns : string) : list (Obj * poolBackend World Obj) + option error :=
  let probed := filter (fun b => b_namespaced b = negb (bool_decide (ns = EmptyString))) backends in
  let matches := omap (fun b => match read b with PoolFound o => Some (o, b) | PoolError _ => None end) probed in
  let errs := omap (fun b => match read b with PoolError (OtherError e) => Some e | _ => None end) probed in
  match matches with
  | [] => inr (last errs)
  | _ => inl matches
  end.

(** [errors.Join] of the failures, by their list; the soonest requeue. *)
Fixpoint sync_all (env : sync_env) (reqString : string) (matches : list (Obj * poolBackend World Obj))
    (result : Z) (errs : list error) (s : sync_state) : option (sync_state * (Z * list error)) :=
  match matches with
  | [] => Some (s, (result, errs))
  | (pool, backend) :: rest =>
      '(s', (after, err)) ← syncPool env reqString pool backend s;
      match err with
      | Some e => sync_all env reqString rest result (errs ++ [e]) s'
      | None =>
          let result' := if ((0 <? after) && ((result =? 0) || (after <? result)))%bool then after else result in
          sync_all env reqString rest result' errs s'
      end
  end.

Definition Reconcile (env : sync_env) (backends : list (poolBackend World Obj))
    (read : poolBackend World Obj -> pool_answer) (ns name : string) (s : sync_state)
    : option (sync_state * (Z * list error)) :=
  let reqString := namespaced_name ns name in
  match getPools backends read ns with
  | inr (Some e) => Some (s, (0, [e]))
  | inr None => Some (releasePoolsSyncedEntries env (fun key => bool_decide (k_pool key = reqString)) s, (0, []))
  | inl matches =>
      '(s', (result, errs)) ← sync_all env reqString matches 0 [] s;
      Some (s', (if decide (errs = []) then result else 0, errs))
  end.
End Sync.

(** ** The backends *)

Definition schema_GVK : Type := string * string * string.   (* group, version, kind *)

(** An object of one of the kinds; Calico's pool with its name. *)
Inductive object : Type :=
| ListObject (p : pool)
| CalicoObject (name : string) (p : calicoPool)
| ConfigMapObject (p : configMap).

#[export] Instance object_annotations : PoolObject object := {|
  o_annotations o := match o with
                     | ListObject p => p_annotations p
                     | CalicoObject _ p => cp_annotations p
                     | ConfigMapObject p => cm_annotations p
                     end;
  o_set_annotations a o := match o with
                           | ListObject p => ListObject (mkPoolObject (p_list p) a)
                           | CalicoObject n p => CalicoObject n (set_calico_annotations a p)
                           | ConfigMapObject p => ConfigMapObject (mkConfigMap (cm_name p) (cm_namespace p) (cm_data p) a)
                           end
|}.

Section Backends.
Context (siblingPoolName : string -> string -> string) (range_map : gmap string string -> list (string * string)).
Context (env : calico_api) (updateErr : option error).

(** The other IPPools of the cluster. *)
Definition world : Type := gmap string calicoPool.
Definition backend_result : Type := option (world * object * (bool * option error)).

(** A backend only meets objects of its own kind. *)
Definition wrong_kind (w : world) (o : object) : backend_result :=
  Some (w, o, (false, Some (errors_New "failed to read the object"))).

Definition on_list (f : pool -> option (pool * (bool * option error))) (w : world) (o : object) : backend_result :=
  match o with
  | ListObject p => '(p', r) ← f p; Some (w, ListObject p', r)
  | _ => wrong_kind w o
  end.

Definition on_calico (f : string -> calicoPool -> world -> option (calicoPool * world * (bool * option error)))
    (w : world) (o : object) : backend_result :=
  match o with
  | CalicoObject n p => '(p', w', r) ← f n p w; Some (w', CalicoObject n p', r)
  | _ => wrong_kind w o
  end.

Definition on_configMap (f : configMap -> option (configMap * (bool * option error))) (w : world) (o : object)
    : backend_result :=
  match o with
  | ConfigMapObject p => '(p', r) ← f p; Some (w, ConfigMapObject p', r)
  | _ => wrong_kind w o
  end.

Definition ciliumLoadBalancerIPPoolBackend : poolBackend world object :=
  mkBackend "cilium-load-balancer-ip-pool" false
    (fun configs ms => on_list (fun p => Some (updateLoadBalancerIPPool (api_now env) updateErr configs ms p)))
    (on_list (fun p => Some (lb_release p))).

Definition ciliumCIDRGroupBackend : poolBackend world object :=
  mkBackend "cilium-cidr-group" false
    (fun configs ms => on_list (fun p => Some (updateCIDRGroup (api_now env) updateErr configs ms p)))
    (on_list (fun p => Some (cidr_release p))).

Definition metalLBIPAddressPoolBackend : poolBackend world object :=
  mkBackend "metallb-ip-address-pool" true
    (fun configs ms => on_list (metallb_update (api_now env) updateErr configs ms))
    (on_list (fun p => Some (metallb_release p))).

Definition calicoIPPoolBackend : poolBackend world object :=
  mkBackend "calico-ip-pool" false
    (fun configs _ => on_calico (fun n p w => calico_update siblingPoolName range_map env n p configs w))
    (on_calico (fun n p w => calico_release siblingPoolName range_map env n p w)).

Definition kubevipConfigMapBackend : poolBackend world object :=
  mkBackend "kubevip-configmap" true
    (fun configs ms => on_configMap (kubevip_update (api_now env) updateErr configs ms))
    (on_configMap (fun p => Some (kubevip_release p))).

Definition backendForGVK (gvk : schema_GVK) : option (poolBackend world object) :=
  let '(group, _, kind) := gvk in
  if decide (group = "cilium.io" /\ kind = "CiliumLoadBalancerIPPool") then Some ciliumLoadBalancerIPPoolBackend
  else if decide (group = "cilium.io" /\ kind = "CiliumCIDRGroup") then Some ciliumCIDRGroupBackend
  else if decide (group = "metallb.io" /\ kind = "IPAddressPool") then Some metalLBIPAddressPoolBackend
  else if decide (group = "projectcalico.org" /\ kind = "IPPool") then Some calicoIPPoolBackend
  else if decide (group = EmptyString /\ kind = "ConfigMap") then Some kubevipConfigMapBackend
  else None.

Fixpoint backends_from (seen : list schema_GVK) (gvks : list schema_GVK) : list (poolBackend world object) :=
  match gvks with
  | [] => []
  | gvk :: rest =>
      if decide (gvk ∈ seen) then backends_from seen rest
      else match backendForGVK gvk with
           | None => backends_from seen rest
           | Some b => b :: backends_from (gvk :: seen) rest
           end
  end.

Definition backendsForGVKs (gvks : list schema_GVK) : list (poolBackend world object) := backends_from [] gvks.
End Backends.

(** * The failure state *)

Lemma conditionFor_state s dp : failing_of (conditionFor s dp).1 dp = failing_of s dp /\
  forall dp', dp' <> dp -> (conditionFor s dp).1 !! dp' = s !! dp'.
Proof.
  unfold conditionFor. cbv zeta. destruct (map_to_list (failing_of s dp)) as [|e l] eqn:El; cbn [fst]; [|done].
  apply map_to_list_empty_iff in El. split; [|intros dp' H; by apply lookup_delete_ne].
  unfold failing_of at 1. by rewrite lookup_delete_eq, El.
Qed.

Lemma conditionFor_verdict s dp :
  let pools := failing_of s dp in
  (pools = empty -> (conditionFor s dp).2 = (ConditionTrue, "PoolsSynced", "All referencing pools are in sync")) /\
  (pools <> empty -> exists names first, Permutation names (key_String <$> (map_to_list pools).*1) /\
     (conditionFor s dp).2 = (ConditionFalse, "PoolSyncFailed",
       itoa (Z.of_nat (List.length names)) +:+ " pool(s) are not in sync: " +:+ join ", " names +:+ " (" +:+ first +:+ ")")).
Proof.
  intros pools. unfold conditionFor. fold pools. cbv zeta. split; intros H.
  - by rewrite (proj2 (map_to_list_empty_iff pools) H).
  - destruct (map_to_list pools) as [|e l] eqn:El; [by apply map_to_list_empty_iff in El|]. cbn [snd].
    eexists _, _. split; [|done]. unfold sort_strings. rewrite merge_sort_Permutation.
    by rewrite <- list_fmap_compose.
Qed.

Lemma record_state s dp key err :
  (forall k, failing_of (record dp key err s).1 dp !! k = if decide (k = key) then err else failing_of s dp !! k) /\
  (forall dp', dp' <> dp -> (record dp key err s).1 !! dp' = s !! dp').
Proof.
  unfold record. cbv zeta. set (pools' := match err with Some t => <[key := t]> _ | None => delete key _ end).
  destruct (conditionFor_state (<[dp := pools']> s) dp) as [H1 H2]. split.
  - intros k. rewrite H1. unfold failing_of at 1. rewrite lookup_insert_eq. unfold default, id; cbn. unfold pools'.
    destruct (decide (k = key)) as [->|Hk]; destruct err;
      rewrite ?lookup_insert_eq, ?lookup_delete_eq, ?lookup_insert_ne, ?lookup_delete_ne by done; done.
  - intros dp' H. rewrite H2 by done. by apply lookup_insert_ne.
Qed.

(** ** What was recorded *)

Record sync_outcome : Type := mkOutcome { so_dp : string; so_key : poolStateKey; so_err : option string }.

Definition run_records (h : list sync_outcome) (s : poolSyncState) : poolSyncState :=
  foldl (fun s o => (record (so_dp o) (so_key o) (so_err o) s).1) s h.

(** The error of the last sync of a pool under a DynamicPrefix. *)
Definition last_outcome (h : list sync_outcome) (dp : string) (key : poolStateKey) : option string :=
  foldl (fun acc o => if decide (so_dp o = dp /\ so_key o = key) then so_err o else acc) None h.

Lemma run_records_last h dp key :
  failing_of (run_records h empty) dp !! key = last_outcome h dp key.
Proof.
  induction h as [|o h IH] using rev_ind; [done|]. unfold run_records, last_outcome. rewrite !foldl_snoc.
  fold (run_records h empty) (last_outcome h dp key).
  destruct (record_state (run_records h empty) (so_dp o) (so_key o) (so_err o)) as [H1 H2].
  destruct (decide (so_dp o = dp)) as [<-|Hdp].
  - rewrite H1. destruct (decide (key = so_key o)) as [->|Hk]; [by rewrite decide_True|].
    rewrite decide_False; [done|]. intros [_ ?]. congruence.
  - unfold failing_of at 1. rewrite H2 by congruence. rewrite decide_False; [exact IH|]. by intros [? _].
Qed.

(** C20 The PoolsSynced condition of a DynamicPrefix describes all its pools, not
    the one reconciled last: after any sequence of outcomes it is true exactly
    when no pool's last outcome under it was a failure, and otherwise its message
    names precisely the failing pools, each once. *)
Theorem poolsSynced_describes_all (h : list sync_outcome) (dp : string) :
  let verdict := (conditionFor (run_records h empty) dp).2 in
  ((forall key, last_outcome h dp key = None) ->
     verdict = (ConditionTrue, "PoolsSynced", "All referencing pools are in sync")) /\
  ((exists key, is_Some (last_outcome h dp key)) ->
     exists (keys : list poolStateKey) names first,
       NoDup keys /\ (forall key, key ∈ keys <-> is_Some (last_outcome h dp key)) /\
       Permutation names (key_String <$> keys) /\
       verdict = (ConditionFalse, "PoolSyncFailed",
         itoa (Z.of_nat (List.length keys)) +:+ " pool(s) are not in sync: " +:+ join ", " names +:+
         " (" +:+ first +:+ ")")).
Proof.
  intros verdict. destruct (conditionFor_verdict (run_records h empty) dp) as [Ht Hf]. split.
  - intros H. apply Ht, map_eq. intros key. by rewrite run_records_last, H, lookup_empty.
  - intros (key & Hkey). destruct Hf as (names & first & Hp & E).
    { intros E. rewrite <- run_records_last, E, lookup_empty in Hkey. by destruct Hkey. }
    exists (map_to_list (failing_of (run_records h empty) dp)).*1, names, first.
    split; [apply NoDup_fst_map_to_list|]. split; [|split; [exact Hp|]].
    + intros k. rewrite <- run_records_last, list_elem_of_fmap. split.
      * intros ([k' t] & -> & Hin%elem_of_map_to_list). cbn. eauto.
      * intros [t Hin]. exists (k, t). split; [done|]. by apply elem_of_map_to_list.
    + unfold verdict. rewrite E. by rewrite (Permutation_length Hp), length_fmap.
Qed.

Lemma poolsSynced_describes_all_witness :
  let h := [mkOutcome "home" (mkKey "cilium-cidr-group" "/a") (Some "denied");
            mkOutcome "home" (mkKey "calico-ip-pool" "/b") None] in
  exists keys names first, NoDup keys /\ (forall key : poolStateKey, key ∈ keys <-> is_Some (last_outcome h "home" key)) /\
    Permutation names (key_String <$> keys) /\
    (conditionFor (run_records h empty) "home").2 = (ConditionFalse, "PoolSyncFailed",
       itoa (Z.of_nat (List.length keys)) +:+ " pool(s) are not in sync: " +:+ join ", " names +:+ " (" +:+ first +:+ ")").
Proof.
  intros h. apply (poolsSynced_describes_all h "home"). exists (mkKey "cilium-cidr-group" "/a"). by eexists.
Defined.

(** * One sync *)

Section SyncLemmas.
Context {World Obj : Type} `{HPO : !PoolObject Obj}.
Context (Find : list Condition -> string -> option Condition).
Context (error_text : error -> string) (config_text : config_error -> string).
Abbreviation backend := (poolBackend World Obj).
Abbreviation state := (@sync_state World Obj).
Abbreviation env := (@sync_env Obj).

(** Writing a condition changes neither pools nor events, and the failure state at
    most by forgetting that DynamicPrefix. *)
Lemma writePoolsSyncedCondition_spec (e : env) dp v (s : state) :
  let s' := writePoolsSyncedCondition Find e dp v s in
  ss_world s' = ss_world s /\ ss_written s' = ss_written s /\ ss_events s' = ss_events s /\
  (ss_failing s' = ss_failing s \/ ss_failing s' = delete dp (ss_failing s)).
Proof.
  destruct v as [[status reason] msg]. unfold writePoolsSyncedCondition. cbv zeta.
  destruct (se_get e dp) as [d|[|er]]; cbn; [|by auto..].
  destruct (conditionApplyEntry _ _ _ _ _ _ _) as [entry ch]. destruct (negb ch); [by auto|].
  destruct (se_apply e dp entry) as [[|er]|]; cbn; by auto.
Qed.

Lemma updatePoolsSyncedCondition_spec (e : env) dp key err (s : state) :
  let s' := updatePoolsSyncedCondition Find e dp key err s in
  ss_world s' = ss_world s /\ ss_written s' = ss_written s /\ ss_events s' = ss_events s /\
  (forall dp', dp' <> dp -> ss_failing s' !! dp' = ss_failing s !! dp') /\
  (forall k, failing_of (ss_failing s') dp !! k = (if decide (k = key) then err else failing_of (ss_failing s) dp !! k)
             \/ failing_of (ss_failing s') dp !! k = None).
Proof.
  unfold updatePoolsSyncedCondition. destruct (record_state (ss_failing s) dp key err) as [H1 H2].
  destruct (record dp key err (ss_failing s)) as [f v]. cbn [fst] in *.
  destruct (writePoolsSyncedCondition_spec e dp v (set_failing f s)) as (Hw & Hp & He & Hf).
  cbv zeta. split; [done|]. split; [done|]. split; [done|]. cbn [ss_failing set_failing] in Hf. split.
  - intros dp' H. destruct Hf as [->| ->]; [by apply H2|]. rewrite lookup_delete_ne by done. by apply H2.
  - intros k. destruct Hf as [->| ->]; [left; apply H1|right]. unfold failing_of. by rewrite lookup_delete_eq.
Qed.

(** ** Forgetting entries *)

Lemma forgetEntries_state m s dp key :
  failing_of (forgetEntries m s).1 dp !! key = if m key then None else failing_of s dp !! key.
Proof.
  unfold forgetEntries, failing_of. cbn [fst]. rewrite lookup_fmap. destruct (s !! dp) as [pools|]; cbn.
  - destruct (m key) eqn:Hm.
    + apply map_lookup_filter_None. right. intros x _. cbn. congruence.
    + destruct (pools !! key) as [t|] eqn:Hk.
      * by apply map_lookup_filter_Some.
      * apply map_lookup_filter_None. by left.
  - by destruct (m key).
Qed.

Lemma fold_conditions_failing (e : env) dps (s : state) :
  let s' := foldl (fun s dpName =>
    let (failing, v) := conditionFor (ss_failing s) dpName in
    writePoolsSyncedCondition Find e dpName v (set_failing failing s)) s dps in
  ss_world s' = ss_world s /\ ss_written s' = ss_written s /\ ss_events s' = ss_events s /\
  forall dp key, failing_of (ss_failing s) dp !! key = None -> failing_of (ss_failing s') dp !! key = None.
Proof.
  revert s. induction dps as [|d dps IH]; intros s; [done|]. cbn [foldl].
  destruct (conditionFor_state (ss_failing s) d) as [Hc1 Hc2].
  destruct (conditionFor (ss_failing s) d) as [f v] eqn:Ec. cbn [fst] in *.
  destruct (writePoolsSyncedCondition_spec e d v (set_failing f s)) as (Hw & Hp & He & Hf).
  set (s1 := writePoolsSyncedCondition Find e d v (set_failing f s)) in *.
  destruct (IH s1) as (Hw' & Hp' & He' & Hf'). cbv zeta in *. rewrite Hw', Hp', He'.
  split; [done|]. split; [done|]. split; [done|]. intros dp key H. apply Hf'.
  assert (failing_of f dp !! key = None) as Hfn.
  { destruct (decide (dp = d)) as [->|Hd]; [by rewrite Hc1|]. unfold failing_of in H |- *. by rewrite Hc2. }
  cbn [ss_failing set_failing] in Hf. destruct Hf as [->| ->]; [done|].
  unfold failing_of in Hfn |- *. destruct (decide (dp = d)) as [->|Hd]; [by rewrite lookup_delete_eq|by rewrite lookup_delete_ne].
Qed.

Lemma releasePoolsSyncedEntries_spec (e : env) m (s : state) :
  let s' := releasePoolsSyncedEntries Find e m s in
  ss_world s' = ss_world s /\ ss_written s' = ss_written s /\ ss_events s' = ss_events s /\
  forall dp key, m key = true -> failing_of (ss_failing s') dp !! key = None.
Proof.
  unfold releasePoolsSyncedEntries. pose proof (forgetEntries_state m (ss_failing s)) as Hfe.
  destruct (forgetEntries m (ss_failing s)) as [f dps]. cbn [fst] in *.
  destruct (fold_conditions_failing e dps (set_failing f s)) as (Hw & Hp & He & Hf). cbv zeta.
  split; [done|]. split; [done|]. split; [done|]. intros dp key Hk. apply Hf. cbn. by rewrite Hfe, Hk.
Qed.

Lemma drop_annotations_lookup keys (a : gmap string string) k :
  drop_annotations keys a !! k = if decide (k ∈ keys) then None else a !! k.
Proof.
  revert a. induction keys as [|x keys IH]; intros a; cbn [drop_annotations foldl]; [by rewrite decide_False by apply not_elem_of_nil|].
  fold (drop_annotations keys (delete x a)). rewrite IH.
  destruct (decide (k ∈ keys)); [by rewrite decide_True by by right|].
  destruct (decide (k = x)) as [->|Hk].
  - rewrite lookup_delete_eq, decide_True by apply list_elem_of_here. done.
  - rewrite lookup_delete_ne by done. rewrite decide_False; [done|]. by intros [?|?]%elem_of_cons.
Qed.

(** * Properties *)

(** A release that succeeds is final: the pool it writes carries no record of
    any pool backend, and no DynamicPrefix goes on naming the pool as failing; it
    announces itself once.  When nothing is written there was nothing to drop. *)
Theorem release_is_final (e : env) (poolKey : string) (pool : Obj) (b : backend) (s s' : state) :
  (forall a o, o_annotations (o_set_annotations a o) = a) ->
  releasePool Find e poolKey pool b s = Some (s', None) ->
  (exists written, ss_written s' = ss_written s ++ [written] /\
     (forall k, k ∈ stray_records -> o_annotations written !! k = None) /\
     ss_events s' = ss_events s ++ [EvPoolReleased poolKey] /\
     forall dp, failing_of (ss_failing s') dp !! mkKey (b_name b) poolKey = None) \/
  (ss_written s' = ss_written s /\ ss_events s' = ss_events s /\
   exists w o, b_release b (ss_world s) pool = Some (w, o, (false, None)) /\
     forall k, k ∈ stray_records -> o_annotations o !! k = None).
Proof.
  intros Hset. unfold releasePool. destruct (b_release b (ss_world s) pool) as [[[w pool1] [changed [er|]]]|]; [done| |done].
  cbv zeta. destruct (negb changed && _)%bool eqn:Eb.
  - intros [= <-]. right. cbn. apply andb_true_iff in Eb as [Ec%negb_true_iff Es%negb_true_iff]. subst.
    split; [done|]. split; [done|]. exists w, pool1. split; [done|]. intros k Hk. apply eq_None_not_Some. intros Hs.
    assert (existsb (fun k => bool_decide (is_Some (o_annotations pool1 !! k))) stray_records = true); [|congruence].
    apply existsb_exists. exists k. split; [by apply list_elem_of_In|by apply bool_decide_true].
  - destruct (se_update e _) as [er|]; [done|]. intros [= <-]. left.
    set (pool2 := o_set_annotations _ pool1). set (m := fun key : poolStateKey => _).
    destruct (releasePoolsSyncedEntries_spec e m
      (add_metric (MForgetPool (b_name b) poolKey) (add_written pool2 (set_world w s)))) as (_ & Hp & He & Hf).
    exists pool2. cbn [add_event ss_written ss_events ss_failing]. rewrite Hp, He.
    cbn [ss_written ss_events add_metric add_written set_world]. split; [done|]. split.
    + intros k Hk. assert (o_annotations pool2 = drop_annotations stray_records (o_annotations pool1)) as -> by apply Hset.
      rewrite drop_annotations_lookup. by rewrite decide_True.
    + split; [done|]. intros dp. apply Hf. unfold m. cbn. by rewrite !bool_decide_true.
Qed.

(** What becomes of a failure verdict when the pool moves on.  Syncing a pool
    touches the verdict of the DynamicPrefix it names now and of no other, so a
    pool re-pointed while it was failing leaves the old resource reporting it;
    and a pool that is de-annotated before anything was ever written to it is
    passed over, verdict and all. *)
Theorem verdicts_of_moved_pools (e : env) (req : string) (pool : Obj) (b : backend) (s s' : state)
    (res : Z * option error) :
  syncPool Find error_text config_text e req pool b s = Some (s', res) ->
  (forall dpName d, o_annotations pool !! AnnotationName = Some dpName -> se_get e dpName = DPFound d ->
     forall old key, old <> dpName -> failing_of (ss_failing s') old !! key = failing_of (ss_failing s) old !! key) /\
  (o_annotations pool !! AnnotationName = None -> hasOwnershipRecord (o_annotations pool) = false ->
     s' = s /\ res = (0, None)).
Proof.
  intros H. unfold syncPool in H. split.
  - intros dpName d Hn Hd old key Hne. rewrite Hn, Hd in H. case_decide; [by simplify_eq|].
    assert (forall err (s1 : state), ss_failing s1 = ss_failing s ->
      failing_of (ss_failing (updatePoolsSyncedCondition Find e dpName (mkKey (b_name b) req) err s1)) old !! key =
      failing_of (ss_failing s) old !! key) as Hu.
    { intros err s1 E. unfold failing_of.
      destruct (updatePoolsSyncedCondition_spec e dpName (mkKey (b_name b) req) err s1) as (_ & _ & _ & Ho & _).
      by rewrite Ho, E. }
    destruct (buildPoolConfigurations _ _ _) as [configs|er|]; [| |done].
    + destruct (b_update b _ _ _ _) as [[[w o] [upd [er|]]]|]; [| |done]; simplify_eq; apply Hu; [done|by destruct upd].
    + simplify_eq. by apply Hu.
  - intros Hn Hr. rewrite Hn, Hr in H. by simplify_eq.
Qed.

(** ** Reconciling a name *)

Lemma omap_pointwise {A B} (f g : A -> option B) (l : list A) : (forall x, f x = g x) -> omap f l = omap g l.
Proof. intros H. induction l as [|x l IH]; [done|]. cbn. rewrite H. by destruct (g x); rewrite IH. Qed.

(** The outcomes of the matches, in order. *)
Inductive sync_chain (e : env) (req : string) : list (Obj * backend) -> state -> list (Z * option error) -> state -> Prop :=
| chain_nil s : sync_chain e req [] s [] s
| chain_cons o b rest s s1 s2 r rs :
    syncPool Find error_text config_text e req o b s = Some (s1, r) -> sync_chain e req rest s1 rs s2 ->
    sync_chain e req ((o, b) :: rest) s (r :: rs) s2.

Definition failures (rs : list (Z * option error)) : list error := omap snd rs.
Definition requeues (rs : list (Z * option error)) : list Z :=
  omap (fun r => match r.2 with None => if 0 <? r.1 then Some r.1 else None | Some _ => None end) rs.

(** The soonest of the requeues asked for, 0 when there is none. *)
Definition soonest (acc : Z) (l : list Z) : Z :=
  foldl (fun acc a => if ((acc =? 0) || (a <? acc))%bool then a else acc) acc l.

Lemma soonest_spec acc l : 0 <= acc -> Forall (fun a => 0 < a) l ->
  let r := soonest acc l in
  (r = 0 <-> acc = 0 /\ l = []) /\ (r <> 0 -> (r = acc \/ r ∈ l) /\ (acc <> 0 -> r <= acc) /\ Forall (fun a => r <= a) l).
Proof.
  intros Hacc H. revert acc Hacc. induction H as [|a l Ha H IH]; intros acc Hacc; cbn [soonest foldl].
  - split; [tauto|]. intros Hr. split; [by left|]. split; [lia|constructor].
  - fold (soonest (if ((acc =? 0) || (a <? acc))%bool then a else acc) l).
    set (acc' := if ((acc =? 0) || (a <? acc))%bool then a else acc). assert (0 < acc' /\ (acc' = a \/ acc' = acc) /\ acc' <= a /\ (acc <> 0 -> acc' <= acc)) as (H1 & H2 & H3 & H4).
    { unfold acc'. destruct (Z.eqb_spec acc 0), (Z.ltb_spec a acc); cbn; lia. }
    destruct (IH acc' ltac:(lia)) as [I1 I2]. cbv zeta in *. split; [|intros Hr].
    + split; [intros E; apply I1 in E; lia|by intros [_ ?]].
    + destruct (I2 Hr) as (J1 & J2 & J3). split; [|split].
      * destruct J1 as [J1|J1]; [|right; by right]. destruct H2 as [H2|H2]; [right; rewrite J1, H2; apply list_elem_of_here|left; congruence].
      * intros Hn. specialize (J2 ltac:(lia)). lia.
      * constructor; [specialize (J2 ltac:(lia)); lia|done].
Qed.

Lemma sync_all_chain (e : env) req matches result errs (s s' : state) out :
  sync_all Find error_text config_text e req matches result errs s = Some (s', out) ->
  exists rs : list (Z * option error),
    sync_chain e req matches s rs s' /\ out = (soonest result (requeues rs), errs ++ failures rs).
Proof.
  revert result errs s. induction matches as [|[o b] rest IH]; intros result errs s H; cbn [sync_all] in H.
  - simplify_eq. exists []. split; [constructor|]. cbn. by rewrite app_nil_r.
  - destruct (syncPool _ _ _ e req o b s) as [[s1 [after err]]|] eqn:E; [|done]. cbn [mbind option_bind] in H.
    destruct err as [er|].
    + apply IH in H as (rs & Hc & ->). exists ((after, Some er) :: rs). split; [by econstructor|].
      cbn. by rewrite <- app_assoc.
    + apply IH in H as (rs & Hc & ->). exists ((after, None) :: rs). split; [by econstructor|].
      cbn. destruct (0 <? after); [|done]. cbn. done.
Qed.

(** The backends of the requested scope whose object was read. *)
Definition found (backends : list backend) (read : backend -> pool_answer) (ns : string) : list (Obj * backend) :=
  omap (fun b => match read b with PoolFound o => Some (o, b) | PoolError _ => None end)
    (filter (fun b => b_namespaced b = negb (bool_decide (ns = EmptyString))) backends).

Lemma getPools_found backends read ns : found backends read ns <> [] -> getPools backends read ns = inl (found backends read ns).
Proof. unfold getPools, found. cbv zeta. by destruct (omap _ _). Qed.

(** C14 A reconcile of a name syncs every object found under it, each once and in
    the backends' order, whether or not an earlier one failed; it returns the
    failures in that order, and without any the soonest of the delays asked for
    (0 when none was). *)
Theorem reconcile_syncs_all (e : env) (backends : list backend) (read : backend -> pool_answer) (ns name : string)
    (s s' : state) (requeue : Z) (errs : list error) :
  found backends read ns <> [] ->
  Reconcile Find error_text config_text e backends read ns name s = Some (s', (requeue, errs)) ->
  exists rs, sync_chain e (namespaced_name ns name) (found backends read ns) s rs s' /\
    errs = failures rs /\
    (errs <> [] -> requeue = 0) /\
    (errs = [] -> (requeue = 0 <-> requeues rs = []) /\
                  (requeue <> 0 -> requeue ∈ requeues rs /\ Forall (fun a => requeue <= a) (requeues rs))).
Proof.
  intros Hf H. unfold Reconcile in H. rewrite getPools_found in H by done.
  destruct (sync_all _ _ _ e _ _ 0 [] s) as [[s1 [r es]]|] eqn:E; [|done]. cbn [mbind option_bind] in H.
  apply sync_all_chain in E as (rs & Hc & Eo). cbn [app] in Eo. injection Eo as -> ->. injection H as -> <- <-.
  exists rs. split; [done|]. split; [done|]. split; [intros Hne; by rewrite decide_False|].
  intros ->. rewrite decide_True by done.
  assert (Forall (fun a => 0 < a) (requeues rs)) as Hpos.
  { apply Forall_forall. intros a ([after err] & _ & Ha)%list_elem_of_omap. cbn in Ha. destruct err; [done|].
    destruct (Z.ltb_spec 0 after); by simplify_eq. }
  destruct (soonest_spec 0 (requeues rs) (Z.le_refl 0) Hpos) as [H1 H2]. split; [rewrite H1; tauto|].
  intros Hr. destruct (H2 Hr) as ([Hr'|Hin] & _ & Hle); [done|]. by split.
Qed.

(** A kind whose object cannot be read - the API server answered with an
    error - counts as absent as soon as another kind has an object of that name:
    the reconcile does exactly what it would do without that object and reports
    no error for it, so nothing retries the pool that was not synced.  Only when
    nothing at all was found is the last of the errors returned. *)
Theorem read_error_counts_as_absent (e : env) (backends : list backend) (read : backend -> pool_answer)
    (ns name : string) (s : state) :
  let absent b := match read b with PoolError _ => PoolError NotFound | a => a end in
  (found backends read ns <> [] ->
   Reconcile Find error_text config_text e backends read ns name s =
   Reconcile Find error_text config_text e backends absent ns name s) /\
  (found backends read ns = [] ->
   forall b er, b ∈ backends -> b_namespaced b = negb (bool_decide (ns = EmptyString)) -> read b = PoolError (OtherError er) ->
   exists er', Reconcile Find error_text config_text e backends read ns name s = Some (s, (0, [er']))).
Proof.
  intros absent. split.
  - intros Hf. assert (found backends absent ns = found backends read ns) as E.
    { unfold found. apply omap_pointwise. intros b. unfold absent. by destruct (read b). }
    unfold Reconcile. by rewrite !getPools_found by congruence; rewrite ?E.
  - intros Hf b er Hin Hns Hb. unfold Reconcile, getPools. unfold found in Hf. rewrite Hf.
    set (errs := omap _ _). assert (er ∈ errs) as He.
    { apply list_elem_of_omap. exists b. rewrite Hb. split; [|done]. by apply list_elem_of_filter. }
    destruct (last errs) as [er'|] eqn:El; [by exists er'|]. apply last_None in El. rewrite El in He. by apply not_elem_of_nil in He.
Qed.
End SyncLemmas.

(** ** A concrete reconciler *)

Definition sample_env : sync_env (Obj := object) :=
  mkSyncEnv 7 (fun n => if decide (n = "home") then DPFound (sample_pool_dp None []) else DPError NotFound)
    (fun _ _ => None) (fun _ => None).

Definition sample_state (f : gmap string (gmap poolStateKey string)) : sync_state (World := world) (Obj := object) :=
  mkSyncState f [] [] [] empty [].

Definition sample_text {A} (_ : A) : string := "error".

Definition sample_group : poolBackend world object := ciliumCIDRGroupBackend sample_api None.
Definition sample_lb : poolBackend world object := ciliumLoadBalancerIPPoolBackend sample_api None.

Definition sample_object (annotations : gmap string string) : object :=
  ListObject (mkPoolObject (ListFound [ItemString "2001:db8:2::/48"; ItemString "10.0.0.0/8"]) annotations).

Lemma object_annotations_law (a : gmap string string) (o : object) : o_annotations (o_set_annotations a o) = a.
Proof. by destruct o. Qed.

(** A released CIDR group that was failing under two resources. *)
Lemma release_is_final_witness :
  let key := mkKey "cilium-cidr-group" "/lan" in
  let s := sample_state {[ "home" := {[ key := "denied" ]} ]} in
  exists s', releasePool list_FindStatusCondition sample_env "/lan"
      (sample_object {[ AnnotationManagedCIDRs := "2001:db8:2::/48" ]}) sample_group s = Some (s', None) /\
    failing_of (ss_failing s') "home" !! key = None /\ length (ss_written s') = 1%nat.
Proof.
  intros key s. eexists. split; [vm_compute; reflexivity|].
  destruct (release_is_final list_FindStatusCondition sample_env "/lan"
    (sample_object {[ AnnotationManagedCIDRs := "2001:db8:2::/48" ]}) sample_group s
    (match releasePool list_FindStatusCondition sample_env "/lan"
       (sample_object {[ AnnotationManagedCIDRs := "2001:db8:2::/48" ]}) sample_group s with
     | Some (x, _) => x | None => s end) object_annotations_law) as [(w & Hw & _ & _ & Hf)|(_ & _ & w & o & Hrel & _)].
  - vm_compute. reflexivity.
  - split; [apply (Hf "home")|]. vm_compute. reflexivity.
  - vm_compute in Hrel. discriminate.
Defined.

(** Re-pointed from "lab" to "home"; and de-annotated without a record. *)
Lemma verdicts_of_moved_pools_witness :
  let key := mkKey "cilium-cidr-group" "/lan" in
  let s := sample_state {[ "lab" := {[ key := "no such range" ]} ]} in
  (exists s' res, syncPool list_FindStatusCondition sample_text sample_text sample_env "/lan"
      (sample_object {[ AnnotationName := "home" ]}) sample_group s = Some (s', res) /\
    failing_of (ss_failing s') "lab" !! key = Some "no such range") /\
  (exists s' res, syncPool list_FindStatusCondition sample_text sample_text sample_env "/lan"
      (sample_object empty) sample_group s = Some (s', res) /\ s' = s).
Proof.
  intros key s. split.
  - eexists _, _. split; [vm_compute; reflexivity|].
    etransitivity; [|exact (eq_refl : failing_of (ss_failing s) "lab" !! key = Some "no such range")].
    eapply (verdicts_of_moved_pools list_FindStatusCondition sample_text sample_text sample_env "/lan"
      (sample_object {[ AnnotationName := "home" ]}) sample_group s).
    + vm_compute. reflexivity.
    + vm_compute. reflexivity.
    + reflexivity.
    + discriminate.
  - eexists _, _. split; [vm_compute; reflexivity|].
    eapply (verdicts_of_moved_pools list_FindStatusCondition sample_text sample_text sample_env "/lan"
      (sample_object empty) sample_group s); vm_compute; reflexivity.
Defined.

(** A pool and a CIDR group of one name. *)
Definition sample_read (b : poolBackend world object) : pool_answer (Obj := object) :=
  PoolFound (sample_object {[ AnnotationName := "home" ]}).

Lemma reconcile_syncs_all_witness :
  exists s' requeue errs rs,
    Reconcile list_FindStatusCondition sample_text sample_text sample_env [sample_lb; sample_group] sample_read "" "lan"
      (sample_state empty) = Some (s', (requeue, errs)) /\
    sync_chain list_FindStatusCondition sample_text sample_text sample_env "/lan"
      (found [sample_lb; sample_group] sample_read "") (sample_state empty) rs s' /\ length rs = 2%nat.
Proof.
  destruct (Reconcile list_FindStatusCondition sample_text sample_text sample_env [sample_lb; sample_group] sample_read "" "lan"
      (sample_state empty)) as [[s' [requeue errs]]|] eqn:E; [|vm_compute in E; discriminate].
  destruct (reconcile_syncs_all list_FindStatusCondition sample_text sample_text sample_env [sample_lb; sample_group]
    sample_read "" "lan" (sample_state empty) s' requeue errs) as (rs & Hc & _).
  - intros H%(f_equal length). vm_compute in H. discriminate.
  - exact E.
  - exists s', requeue, errs, rs. split; [reflexivity|]. split; [exact Hc|].
    inversion Hc as [|? ? ? ? ? ? ? ? ? Hc2]; subst. inversion Hc2 as [|? ? ? ? ? ? ? ? ? Hc3]; subst.
    inversion Hc3; subst. reflexivity.
Defined.

(** The CIDR group of that name cannot be read. *)
Definition sample_read_error (b : poolBackend world object) : pool_answer (Obj := object) :=
  if decide (b_name b = "cilium-cidr-group") then PoolError (OtherError (errors_New "timeout"))
  else PoolFound (sample_object {[ AnnotationName := "home" ]}).

Lemma read_error_counts_as_absent_witness :
  Reconcile list_FindStatusCondition sample_text sample_text sample_env [sample_lb; sample_group] sample_read_error "" "lan"
    (sample_state empty) =
  Reconcile list_FindStatusCondition sample_text sample_text sample_env [sample_lb; sample_group]
    (fun b => match sample_read_error b with PoolError _ => PoolError NotFound | a => a end) "" "lan" (sample_state empty).
Proof.
  apply (read_error_counts_as_absent list_FindStatusCondition sample_text sample_text sample_env [sample_lb; sample_group]
    sample_read_error "" "lan" (sample_state empty)). intros H%(f_equal length). vm_compute in H. discriminate.
Defined.
