(* ===== verification/ServiceAddrs.v ===== *)
(** * Addresses of a LoadBalancer Service

    The calculations of [internal/controller/servicesync_controller.go]: the
    addresses a Service should carry - one in the current prefix and one in each
    remembered prefix - from a suffix, or from the address it has been assigned,
    by host part, by offset in an address range or by offset in a subnet.  The
    byte loops are written as in the source and proved to be arithmetic on 128-bit
    numbers. *)

From S2P Require Import Prelude GoStrings Netip NetipText Policy Subnet AddressRange Receivers Factory.
From S2P Require Import DynamicPrefix Ownership PoolConfigs PoolBackends.

(** ** Byte arithmetic *)

(** Byte [i] of [combinePrefixSuffix]; the mask is a [byte]. *)
Definition combine_byte (prefixBytes suffixBytes : list Z) (prefixLen : Z) (i : nat) : Z :=
  let bitPos := Z.of_nat i * 8 in
  if bitPos + 8 <=? prefixLen then nth i prefixBytes 0
  else if prefixLen <=? bitPos then nth i suffixBytes 0
  else
    let mask := Z.shiftl 255 (8 - (prefixLen - bitPos)) mod 256 in
    Z.lor (Z.land (nth i prefixBytes 0) mask) (Z.land (nth i suffixBytes 0) (Z.lxor mask 255)).

Definition combinePrefixSuffix (pfx : netip.Prefix) (suffixBytes : list Z) : netip.Addr :=
  let prefixBytes := netip.As16 (netip.ip pfx) in
  let prefixLen := netip.Bits pfx in
  netip.AddrFrom16 (combine_byte prefixBytes suffixBytes prefixLen <$> seq 0 16).

(** The loop from byte [n - 1] down to byte 0; [offset] holds the bytes from [n]
    on, [borrow] is 0 or 1. *)
Fixpoint offset_loop (n : nat) (baseBytes targetBytes : list Z) (borrow : Z) (offset : list Z) : list Z * Z :=
  match n with
  | O => (offset, borrow)
  | S i =>
      let t := nth i targetBytes 0 in
      let b := nth i baseBytes 0 in
      let d := (t - b - borrow) mod 256 in
      let borrow' := if ((t <? b) || ((t =? b) && (borrow =? 1)))%bool then 1 else 0 in
      offset_loop i baseBytes targetBytes borrow' (d :: offset)
  end.

Definition calculateIPOffset (base target : netip.Addr) : list Z * bool :=
  let (offset, borrow) := offset_loop 16 (netip.As16 base) (netip.As16 target) 0 [] in
  (offset, borrow =? 0).

(** The same with a [uint16] carry. *)
Fixpoint apply_loop (n : nat) (baseBytes offset : list Z) (carry : Z) (result : list Z) : list Z * Z :=
  match n with
  | O => (result, carry)
  | S i =>
      let sum := (nth i baseBytes 0 + nth i offset 0 + carry) mod 65536 in
      apply_loop i baseBytes offset (Z.shiftr sum 8) (Z.land sum 255 :: result)
  end.

Definition applyIPOffset (base : netip.Addr) (offset : list Z) : netip.Addr * bool :=
  let (result, carry) := apply_loop 16 (netip.As16 base) offset 0 [] in
  (netip.AddrFrom16 result, carry =? 0).

(** [None]: not within the window. *)
Definition offsetAddressWithin (base last : netip.Addr) (offset : list Z) : option netip.Addr :=
  let (addr, ok) := applyIPOffset base offset in
  if negb ok then None
  else if ((netip.Compare addr base <? 0) || (netip.Compare last addr <? 0))%bool then None
  else Some addr.

(** ** Errors *)

Inductive service_error : Type :=
| ErrSvcSuffix (suffix : string)
| ErrSvcNoPrefix
| ErrSvcPrefixText (s : string)
| ErrSvcAddress (s : string)
| ErrSvcUndefined (kind name : string)
| ErrSvcRange (e : range_error)
| ErrSvcSubnet (e : subnet_error)
| ErrSvcBelow (kind name : string) (a : netip.Addr).

(** ** The remembered prefixes *)

(** The loops over [dp.Status.History]: stop at [maxHistory], skip an entry that
    does not parse or for which [address] has no answer. *)
Fixpoint history_addrs (address : netip.Prefix -> outcome service_error (option netip.Addr))
    (maxHistory i : nat) (history : list PrefixHistoryEntry) : outcome service_error (list string) :=
  match history with
  | [] => Ret []
  | histEntry :: rest =>
      if (maxHistory <=? i)%nat then Ret []
      else match netiptext.ParsePrefix (H_Prefix histEntry) with
           | None => history_addrs address maxHistory (1 + i) rest
           | Some histPrefix =>
               (let* histIP := address histPrefix in
                let* l := history_addrs address maxHistory (1 + i) rest in
                Ret (option_list (netiptext.AddrString <$> histIP) ++ l))%go
           end
  end.

(** ** The four modes *)

(** All addresses, and the current one. *)
Definition calculateSuffixIPs (dp : DynamicPrefix) (suffix : string) : outcome service_error (list string * string) :=
  match netiptext.ParseAddr suffix with
  | None => Fail (ErrSvcSuffix suffix)
  | Some suffixAddr =>
      if netip.Is4 suffixAddr then Fail (ErrSvcSuffix suffix)
      else
        let suffixBytes := netip.As16 suffixAddr in
        if decide (st_CurrentPrefix (dp_Status dp) = EmptyString) then Fail ErrSvcNoPrefix
        else
          match netiptext.ParsePrefix (st_CurrentPrefix (dp_Status dp)) with
          | None => Fail (ErrSvcPrefixText (st_CurrentPrefix (dp_Status dp)))
          | Some currentPrefix =>
              let currentIP := netiptext.AddrString (combinePrefixSuffix currentPrefix suffixBytes) in
              (let* older := history_addrs (fun p => Ret (Some (combinePrefixSuffix p suffixBytes)))
                               (getMaxHistory dp) 0 (st_History (dp_Status dp)) in
               Ret (currentIP :: older, currentIP))%go
          end
  end.

(** [None]: the address belongs to no managed prefix. *)
Definition calculateInferredSuffixIPs (dp : DynamicPrefix) (currentAddr : netip.Addr) (maxHistory : nat)
    : outcome service_error (option (string * list string)) :=
  match netiptext.ParsePrefix (st_CurrentPrefix (dp_Status dp)) with
  | None => Ret None
  | Some currentPrefix =>
      let inManaged :=
        (netip.Contains currentPrefix currentAddr ||
         existsb (fun entry => match netiptext.ParsePrefix (H_Prefix entry) with
                               | Some p => netip.Contains p currentAddr
                               | None => false
                               end) (take maxHistory (st_History (dp_Status dp))))%bool in
      if negb inManaged then Ret None
      else
        let suffixBytes := netip.As16 currentAddr in
        let currentIP := netiptext.AddrString (combinePrefixSuffix currentPrefix suffixBytes) in
        (let* older := history_addrs (fun p => Ret (Some (combinePrefixSuffix p suffixBytes)))
                         maxHistory 0 (st_History (dp_Status dp)) in
         Ret (Some (currentIP, currentIP :: older)))%go
  end.

Definition calculateAddressRangeIPs (dp : DynamicPrefix) (currentAddr : netip.Addr) (addressRangeName : string)
    (maxHistory : nat) : outcome service_error (string * list string) :=
  match List.find (fun s => bool_decide (rs_Name s = addressRangeName)) (sp_AddressRanges (dp_Spec dp)) with
  | None => Fail (ErrSvcUndefined "address range" addressRangeName)
  | Some rangeSpec =>
      match netiptext.ParsePrefix (st_CurrentPrefix (dp_Status dp)) with
      | None => Fail (ErrSvcPrefixText (st_CurrentPrefix (dp_Status dp)))
      | Some currentPrefix =>
          let cfg := mkAddressRangeConfig (rs_Name rangeSpec) (rs_Start rangeSpec) (rs_End rangeSpec) in
          (let* currentRange := wrap_err ErrSvcRange (CalculateAddressRange currentPrefix cfg) in
           let (offset, ok) := calculateIPOffset (AR_Start currentRange) currentAddr in
           if negb ok then Fail (ErrSvcBelow "address range" (rs_Name rangeSpec) currentAddr)
           else
             let currentPrefixIP := netiptext.AddrString currentAddr in
             let* older := history_addrs (fun histPrefix =>
                 match CalculateAddressRange histPrefix cfg with
                 | Panic => Panic
                 | Fail _ => Ret None
                 | Ret histRange => Ret (offsetAddressWithin (AR_Start histRange) (AR_End histRange) offset)
                 end) maxHistory 0 (st_History (dp_Status dp)) in
             Ret (currentPrefixIP, currentPrefixIP :: older))%go
      end
  end.

Definition calculateSubnetIPs (dp : DynamicPrefix) (currentAddr : netip.Addr) (subnetName : string)
    (maxHistory : nat) : outcome service_error (string * list string) :=
  match List.find (fun s => bool_decide (ss_Name s = subnetName)) (sp_Subnets (dp_Spec dp)) with
  | None => Fail (ErrSvcUndefined "subnet" subnetName)
  | Some subnetSpec =>
      match netiptext.ParsePrefix (st_CurrentPrefix (dp_Status dp)) with
      | None => Fail (ErrSvcPrefixText (st_CurrentPrefix (dp_Status dp)))
      | Some currentPrefix =>
          let cfg := mkSubnetConfig (ss_Name subnetSpec) (ss_Offset subnetSpec) (ss_PrefixLength subnetSpec) in
          (let* currentSubnet := wrap_err ErrSvcSubnet (CalculateSubnet currentPrefix cfg) in
           let (offset, ok) := calculateIPOffset (netip.ip (S_CIDR currentSubnet)) currentAddr in
           if negb ok then Fail (ErrSvcBelow "subnet" (ss_Name subnetSpec) currentAddr)
           else
             let currentPrefixIP := netiptext.AddrString currentAddr in
             let* older := history_addrs (fun histPrefix =>
                 match CalculateSubnet histPrefix cfg with
                 | Panic => Panic
                 | Fail _ => Ret None
                 | Ret histSubnet =>
                     match lastAddrOfPrefix (S_CIDR histSubnet) with
                     | Panic => Panic
                     | Fail _ => Ret None
                     | Ret histLast => Ret (offsetAddressWithin (netip.ip (S_CIDR histSubnet)) histLast offset)
                     end
                 end) maxHistory 0 (st_History (dp_Status dp)) in
             Ret (currentPrefixIP, currentPrefixIP :: older))%go
      end
  end.

(** ** Choosing a mode *)

Definition AnnotationServiceAddressRange : string := "dynamic-prefix.io/service-address-range".
Definition AnnotationServiceSubnet : string := "dynamic-prefix.io/service-subnet".
Definition AnnotationSuffix : string := "dynamic-prefix.io/suffix".

(** Reading a Go map of strings: the empty string when absent. *)
Definition ann (annotations : gmap string string) (key : string) : string := default EmptyString (annotations !! key).

(** The first non-empty of two annotations. *)
Definition either_annotation (annotations : gmap string string) (key fallback : string) : string :=
  if decide (ann annotations key = EmptyString) then ann annotations fallback else ann annotations key.

(** A panic aside, this only fails on an assigned address that does not parse;
    the failures of the range and subnet modes are logged. *)
Definition calculateServiceIPs (dp : DynamicPrefix) (annotations : gmap string string) (currentServiceIP : string)
    : outcome service_error (list string * string) :=
  let maxHistory := getMaxHistory dp in
  match netiptext.ParseAddr currentServiceIP with
  | None => Fail (ErrSvcAddress currentServiceIP)
  | Some currentAddr =>
      let addressRangeName := either_annotation annotations AnnotationServiceAddressRange AnnotationAddressRange in
      let subnetName := either_annotation annotations AnnotationServiceSubnet AnnotationSubnet in
      let or_current r :=
        match r with
        | Panic => Panic
        | Fail _ => Ret ([currentServiceIP], currentServiceIP)
        | Ret (currentPrefixIP, allIPs) => Ret (allIPs, currentPrefixIP)
        end in
      if decide (addressRangeName <> EmptyString) then
        or_current (calculateAddressRangeIPs dp currentAddr addressRangeName maxHistory)
      else if decide (subnetName <> EmptyString) then
        or_current (calculateSubnetIPs dp currentAddr subnetName maxHistory)
      else
        (let* inferred := calculateInferredSuffixIPs dp currentAddr maxHistory in
         match inferred with
         | None | Some (EmptyString, _) => Ret ([currentServiceIP], currentServiceIP)
         | Some (currentPrefixIP, allIPs) => Ret (allIPs, currentPrefixIP)
         end)%go
  end.

(** [svc.Status.LoadBalancer.Ingress], by the IP of each entry (empty for a host
    name): the first IPv6 address, else the first address. *)
Definition getCurrentServiceIP (ingress : list string) : string :=
  let ips := filter (fun ip => ip <> EmptyString) ingress in
  match List.find (fun ip => match netiptext.ParseAddr ip with Some a => netip.Is6 a | None => false end) ips with
  | Some ip => ip
  | None => default EmptyString (head ips)
  end.

(** The addresses, or how long to wait for them, in seconds. *)
Inductive service_answer : Type :=
| Addresses (allIPs : list string) (currentIP : string)
| WaitFor (seconds : Z).

Inductive addresses_error : Type :=
| ErrFromSuffix (suffix : string) (e : service_error)
| ErrServiceIPs (e : service_error).

Definition addressesForService (dp : DynamicPrefix) (ingress : list string) (annotations : gmap string string)
    : outcome addresses_error service_answer :=
  match annotations !! AnnotationSuffix with
  | Some (String _ _ as suffix) =>
      (let* r := wrap_err (ErrFromSuffix suffix) (calculateSuffixIPs dp suffix) in
       Ret (Addresses r.1 r.2))%go
  | _ =>
      let currentServiceIP := getCurrentServiceIP ingress in
      if decide (currentServiceIP = EmptyString) then Ret (WaitFor 5)
      else
        (let* r := wrap_err ErrServiceIPs (calculateServiceIPs dp annotations currentServiceIP) in
         Ret (Addresses r.1 r.2))%go
  end.

(** * Lemmas *)

(** ** Grafting a host part *)

(** The address of [p] with the host part of the number [x]. *)
Definition host_in (p : netip.Prefix) (x : Z) : netip.Addr :=
  netip.mkAddr (netip.first_num p + x mod 2 ^ (128 - netip.Bits p)) (netip.z6 EmptyString).

Lemma combine_byte_combined bits base suffix i :
  0 <= bits <= 128 -> (i < 16)%nat ->
  combine_byte (netip.As16 base) (netip.As16 suffix) bits i = combined_byte bits base suffix i.
Proof.
  intros Hb Hi. unfold combine_byte, combined_byte. rewrite !nth_As16 by done.
  pose proof (Z.div_mod bits 8 ltac:(lia)). pose proof (Z.mod_pos_bound bits 8 ltac:(lia)).
  destruct (Z.leb_spec (Z.of_nat i * 8 + 8) bits), (Z.ltb_spec (Z.of_nat i) (bits / 8)); try lia; try done.
  destruct (Z.leb_spec bits (Z.of_nat i * 8)), (Z.eqb_spec (Z.of_nat i) (bits / 8)),
    (Z.ltb_spec 0 (bits mod 8)); try lia; try done.
  cbn [andb]. unfold partial_mask. by replace (bits - Z.of_nat i * 8) with (bits mod 8) by lia.
Qed.

Lemma combinePrefixSuffix_6 p a :
  netip.prefix6 p -> netip.addr_wf a -> combinePrefixSuffix p (netip.As16 a) = host_in p (netip.addr a).
Proof.
  intros Hp (Ha & _). pose proof (prefix6_bits p Hp) as Hb. unfold combinePrefixSuffix, netip.AddrFrom16, host_in.
  f_equal. rewrite (list_fmap_ext _ (combined_byte (netip.Bits p) (netip.ip p) a)).
  - rewrite combined_value by eauto with netip. done.
  - intros i x [-> Hi]%lookup_seq. by apply combine_byte_combined.
Qed.

Lemma host_in_prefix p x : netip.prefix6 p -> netip.in_prefix p (netip.addr (host_in p x)) /\ addr6 (host_in p x).
Proof.
  intros Hp. pose proof (prefix6_bits p Hp). pose proof (first_num_bounds p Hp).
  pose proof (Z.mod_pos_bound x (2 ^ (128 - netip.Bits p)) (pow2_pos (128 - netip.Bits p) ltac:(lia))).
  unfold netip.in_prefix, netip.last_num in *. cbn [host_in netip.addr].
  split; [lia|]. split; [|done]. apply addr6_wf. lia.
Qed.

(** ** Subtraction and addition, byte by byte *)

Lemma be_value_snoc l d : netip.be_value (l ++ [d]) = netip.be_value l * 256 + d.
Proof. unfold netip.be_value. by rewrite foldl_app. Qed.

Lemma take_snoc_nth n (l : list Z) : (n < length l)%nat -> take (S n) l = take n l ++ [nth n l 0].
Proof. intros H. apply take_S_r. rewrite nth_lookup. destruct (lookup_lt_is_Some_2 l n H) as [x ->]. done. Qed.

Lemma nth_byte_ok (l : list Z) n : Forall byte_ok l -> byte_ok (nth n l 0).
Proof.
  intros H. rewrite nth_lookup. destruct (l !! n) as [x|] eqn:E; [|by cbn].
  by apply (Forall_lookup_1 _ l n).
Qed.

Lemma offset_loop_spec n bb tb borrow acc :
  (n <= length bb)%nat -> (n <= length tb)%nat -> Forall byte_ok bb -> Forall byte_ok tb -> 0 <= borrow <= 1 ->
  exists l borrow', offset_loop n bb tb borrow acc = (l ++ acc, borrow') /\ length l = n /\ Forall byte_ok l /\
    0 <= borrow' <= 1 /\
    netip.be_value l = netip.be_value (take n tb) - netip.be_value (take n bb) - borrow + borrow' * 256 ^ Z.of_nat n.
Proof.
  intros Hb Ht Hbb Htb. revert borrow acc Hb Ht. induction n as [|n IH]; intros borrow acc Hb Ht Hbo; cbn [offset_loop].
  { exists [], borrow. rewrite !take_0. repeat split; [constructor|cbn; lia..]. }
  pose proof (nth_byte_ok tb n Htb) as Hbt. pose proof (nth_byte_ok bb n Hbb) as Hbn.
  rewrite !take_snoc_nth, !be_value_snoc by lia.
  set (t := nth n tb 0) in *. set (b := nth n bb 0) in *. cbv zeta.
  set (borrow1 := if ((t <? b) || ((t =? b) && (borrow =? 1)))%bool then 1 else 0). unfold byte_ok in *.
  assert (0 <= borrow1 <= 1 /\ (t - b - borrow) mod 256 = t - b - borrow + 256 * borrow1) as [H1 Hd].
  { unfold borrow1. destruct (Z.ltb_spec t b), (Z.eqb_spec t b), (Z.eqb_spec borrow 1); cbn [andb orb];
      (split; [lia|]); symmetry;
      (destruct (decide (t - b - borrow < 0)); [apply (Z.mod_unique_pos _ _ (-1))|apply (Z.mod_unique_pos _ _ 0)]; lia). }
  destruct (IH borrow1 ((t - b - borrow) mod 256 :: acc)) as (l & borrow' & -> & Hl & Hok & Hbo' & Hv); [lia..|].
  exists (l ++ [(t - b - borrow) mod 256]), borrow'. rewrite <- app_assoc, length_app, Hl, be_value_snoc, Hv, Hd.
  split; [done|]. split; [cbn; lia|]. split.
  { apply Forall_app. split; [done|]. constructor; [|constructor]. rewrite <- Hd. by apply Z.mod_pos_bound. }
  split; [done|]. rewrite Nat2Z.inj_succ, Z.pow_succ_r by lia. lia.
Qed.

Lemma apply_loop_spec n bb off carry acc :
  (n <= length bb)%nat -> (n <= length off)%nat -> Forall byte_ok bb -> Forall byte_ok off -> 0 <= carry <= 1 ->
  exists l carry', apply_loop n bb off carry acc = (l ++ acc, carry') /\ length l = n /\ Forall byte_ok l /\
    0 <= carry' <= 1 /\
    netip.be_value l + carry' * 256 ^ Z.of_nat n = netip.be_value (take n bb) + netip.be_value (take n off) + carry.
Proof.
  intros Hb Ho Hbb Hoo. revert carry acc Hb Ho. induction n as [|n IH]; intros carry acc Hb Ho Hc; cbn [apply_loop].
  { exists [], carry. rewrite !take_0. repeat split; [constructor|cbn; lia..]. }
  pose proof (nth_byte_ok off n Hoo) as Hbo. pose proof (nth_byte_ok bb n Hbb) as Hbn.
  rewrite !take_snoc_nth, !be_value_snoc by lia.
  set (b := nth n bb 0) in *. set (o := nth n off 0) in *. cbv zeta. unfold byte_ok in *.
  rewrite (Z.mod_small (b + o + carry)) by lia. change 255 with (Z.ones 8). rewrite Z.land_ones, Z.shiftr_div_pow2 by done.
  change (2 ^ 8) with 256. pose proof (Z.div_mod (b + o + carry) 256 ltac:(lia)) as Hdm.
  pose proof (Z.mod_pos_bound (b + o + carry) 256 ltac:(lia)) as Hm.
  destruct (IH ((b + o + carry) / 256) ((b + o + carry) mod 256 :: acc)) as (l & carry' & -> & Hl & Hok & Hc' & Hv); [lia..|].
  exists (l ++ [(b + o + carry) mod 256]), carry'. rewrite <- app_assoc, length_app, Hl, be_value_snoc.
  split; [done|]. split; [cbn; lia|]. split; [by apply Forall_app; split; [|constructor]|].
  split; [done|]. rewrite Nat2Z.inj_succ, Z.pow_succ_r by lia. lia.
Qed.

Lemma As16_bytes a : Forall byte_ok (netip.As16 a).
Proof. apply Forall_fmap, Forall_true. intros. apply byte_of_ok. Qed.

Lemma calculateIPOffset_spec base target :
  0 <= netip.addr base < 2 ^ 128 -> 0 <= netip.addr target < 2 ^ 128 ->
  exists off, calculateIPOffset base target = (off, netip.addr base <=? netip.addr target) /\
    length off = 16%nat /\ Forall byte_ok off /\
    netip.be_value off = (netip.addr target - netip.addr base) mod 2 ^ 128.
Proof.
  intros Hb Ht. unfold calculateIPOffset.
  destruct (offset_loop_spec 16 (netip.As16 base) (netip.As16 target) 0 []) as (l & bo & E & Hl & Hok & Hbo & Hv);
    [done..|apply As16_bytes|apply As16_bytes|lia|].
  rewrite E, app_nil_r. rewrite !firstn_all2, !be_value_As16 in Hv by (rewrite ?length_As16; lia || done).
  pose proof (be_value_bound16 l Hok Hl). change (256 ^ Z.of_nat 16) with (2 ^ 128) in Hv.
  exists l. split; [|split; [done|split; [done|]]].
  - f_equal. destruct (Z.leb_spec (netip.addr base) (netip.addr target)), (Z.eqb_spec bo 0); (done || lia).
  - apply (Z.mod_unique_pos _ _ (- bo)); lia.
Qed.

Lemma applyIPOffset_spec base off :
  0 <= netip.addr base < 2 ^ 128 -> length off = 16%nat -> Forall byte_ok off ->
  applyIPOffset base off =
    (netip.mkAddr ((netip.addr base + netip.be_value off) mod 2 ^ 128) (netip.z6 EmptyString),
     netip.addr base + netip.be_value off <? 2 ^ 128).
Proof.
  intros Hb Hlo Hoo. unfold applyIPOffset.
  destruct (apply_loop_spec 16 (netip.As16 base) off 0 []) as (l & c & E & Hl & Hok & Hc & Hv);
    [done|by rewrite Hlo|apply As16_bytes|done|lia|].
  rewrite E, app_nil_r. rewrite !firstn_all2, be_value_As16 in Hv by (rewrite ?length_As16, ?Hlo; lia || done).
  pose proof (be_value_bound16 l Hok Hl). change (256 ^ Z.of_nat 16) with (2 ^ 128) in Hv.
  unfold netip.AddrFrom16. f_equal; [f_equal; apply (Z.mod_unique_pos _ _ c); lia|].
  destruct (Z.ltb_spec (netip.addr base + netip.be_value off) (2 ^ 128)), (Z.eqb_spec c 0); (done || lia).
Qed.

(** The window test is on numbers. *)
Lemma offsetAddressWithin_spec base last off :
  addr6 base -> addr6 last -> length off = 16%nat -> Forall byte_ok off ->
  offsetAddressWithin base last off =
    if netip.addr base + netip.be_value off <=? netip.addr last
    then Some (netip.mkAddr (netip.addr base + netip.be_value off) (netip.z6 EmptyString)) else None.
Proof.
  intros [(Hb & _) Hbz] [(Hl & _) Hlz] Ho Hoo. unfold offsetAddressWithin. rewrite applyIPOffset_spec by done.
  pose proof (be_value_bound16 off Hoo Ho).
  destruct base as [b bz], last as [l lz]. cbn [netip.addr netip.z] in *. subst bz lz.
  destruct (Z.ltb_spec (b + netip.be_value off) (2 ^ 128)); cbn [negb].
  - rewrite Z.mod_small by lia. rewrite !Compare6.
    destruct (Z.compare_spec (b + netip.be_value off) b), (Z.compare_spec l (b + netip.be_value off)),
      (Z.leb_spec (b + netip.be_value off) l); cbn; (done || lia).
  - destruct (Z.leb_spec (b + netip.be_value off) l); [lia|done].
Qed.

(** ** The remembered prefixes *)

(** The prefixes of the history within the limit that parse. *)
Definition remembered (maxHistory : nat) (history : list PrefixHistoryEntry) : list netip.Prefix :=
  omap (fun e => netiptext.ParsePrefix (H_Prefix e)) (take maxHistory history).

Lemma history_addrs_spec f (g : netip.Prefix -> option netip.Addr) maxHistory i history :
  (forall p, p ∈ remembered (maxHistory - i) history -> f p = Ret (g p)) ->
  history_addrs f maxHistory i history =
    Ret (netiptext.AddrString <$> omap g (remembered (maxHistory - i) history)).
Proof.
  revert i. induction history as [|e rest IH]; intros i Hf; cbn [history_addrs].
  { unfold remembered. by rewrite take_nil. }
  destruct (Nat.leb_spec maxHistory i).
  { by replace (maxHistory - i)%nat with 0%nat by lia. }
  unfold remembered in *. replace (maxHistory - i)%nat with (S (maxHistory - (1 + i))) in * by lia.
  cbn [firstn omap list_omap] in *. destruct (netiptext.ParsePrefix (H_Prefix e)) as [p|]; [|by apply IH].
  rewrite Hf by apply list_elem_of_here. cbn [obind]. rewrite IH by (intros; apply Hf; by apply list_elem_of_further).
  cbn [obind omap list_omap]. by destruct (g p).
Qed.

(** A status the reconciler writes: a current prefix and a history of IPv6
    prefixes, by their texts. *)
Definition tracked (dp : DynamicPrefix) (current : netip.Prefix) : Prop :=
  netiptext.ParsePrefix (st_CurrentPrefix (dp_Status dp)) = Some current /\ netip.prefix6 current /\
  forall p, p ∈ remembered (getMaxHistory dp) (st_History (dp_Status dp)) -> netip.prefix6 p.

(** The specification of the first two modes: the host part of [x] in the current
    prefix and in every remembered one. *)
Definition hosts_of (dp : DynamicPrefix) (current : netip.Prefix) (x : Z) : list string :=
  (fun p => netiptext.AddrString (host_in p x)) <$>
    current :: remembered (getMaxHistory dp) (st_History (dp_Status dp)).

Lemma history_hosts dp current a :
  tracked dp current -> netip.addr_wf a ->
  history_addrs (fun p => Ret (Some (combinePrefixSuffix p (netip.As16 a)))) (getMaxHistory dp) 0
    (st_History (dp_Status dp)) =
  Ret ((fun p => netiptext.AddrString (host_in p (netip.addr a))) <$>
         remembered (getMaxHistory dp) (st_History (dp_Status dp))).
Proof.
  intros (_ & _ & Hh) Ha.
  rewrite (history_addrs_spec _ (fun p => Some (host_in p (netip.addr a)))); rewrite Nat.sub_0_r.
  - f_equal. induction (remembered _ _) as [|p l IH]; [done|]. cbn. f_equal. apply IH.
    intros q Hq. apply Hh. by apply list_elem_of_further.
  - intros p Hp. by rewrite combinePrefixSuffix_6 by eauto.
Qed.

Lemma tracked_nonempty dp current : tracked dp current -> st_CurrentPrefix (dp_Status dp) <> EmptyString.
Proof. intros (H & _) E. rewrite E in H. vm_compute in H. done. Qed.

Lemma calculateSuffixIPs_6 dp current suffix a :
  tracked dp current -> netiptext.ParseAddr suffix = Some a -> netip.Is6 a = true ->
  calculateSuffixIPs dp suffix =
    Ret (hosts_of dp current (netip.addr a), netiptext.AddrString (host_in current (netip.addr a))).
Proof.
  intros Ht Hs H6. pose proof Ht as (Hc & Hp & _). pose proof (ParseAddr_wf _ _ Hs) as [Hwf _].
  unfold calculateSuffixIPs. rewrite Hs, Hc, decide_False by by eapply tracked_nonempty.
  assert (netip.Is4 a = false) as -> by (unfold netip.Is4, netip.Is6 in *; by destruct (netip.z a)).
  cbv zeta. rewrite (history_hosts dp current a Ht Hwf), combinePrefixSuffix_6 by done. done.
Qed.

Lemma AddrString_ne a : netip.addr_wf a -> netip.IsValidAddr a = true -> netiptext.AddrString a <> EmptyString.
Proof. intros Ha Hv E. pose proof (ParseAddr_String a Ha Hv) as H. rewrite E in H. vm_compute in H. done. Qed.

(** The managed prefixes the inferred mode accepts an address from. *)
Definition in_window (dp : DynamicPrefix) (current : netip.Prefix) (x : Z) : Prop :=
  exists p, p ∈ current :: remembered (getMaxHistory dp) (st_History (dp_Status dp)) /\ netip.in_prefix p x.

Lemma contains_remembered a n history :
  existsb (fun entry => match netiptext.ParsePrefix (H_Prefix entry) with
                        | Some p => netip.Contains p a
                        | None => false
                        end) (take n history) = true <->
  exists p, p ∈ remembered n history /\ netip.Contains p a = true.
Proof.
  rewrite existsb_exists. unfold remembered. split.
  - intros (e & He & H). destruct (netiptext.ParsePrefix (H_Prefix e)) as [p|] eqn:E; [|done].
    exists p. split; [|done]. apply list_elem_of_omap. exists e. split; [by apply list_elem_of_In|done].
  - intros (p & (e & He & E)%list_elem_of_omap & H). exists e. split; [by apply list_elem_of_In|]. by rewrite E.
Qed.

Lemma inferred_hosts dp current a :
  tracked dp current -> addr6 a -> in_window dp current (netip.addr a) ->
  calculateInferredSuffixIPs dp a (getMaxHistory dp) =
    Ret (Some (netiptext.AddrString (host_in current (netip.addr a)), hosts_of dp current (netip.addr a))).
Proof.
  intros Ht [Ha Hz] Hin. pose proof Ht as (Hc & Hp & Hh). unfold calculateInferredSuffixIPs. rewrite Hc. cbv zeta.
  rewrite (history_hosts dp current a Ht Ha), combinePrefixSuffix_6 by done.
  assert (netip.Contains current a || existsb (fun entry => match netiptext.ParsePrefix (H_Prefix entry) with
            | Some p => netip.Contains p a | None => false end)
            (take (getMaxHistory dp) (st_History (dp_Status dp))) = true)%bool as ->; [|done].
  apply orb_true_iff. destruct Hin as (p & [->|Hq]%elem_of_cons & Hin).
  - left. by apply Contains6.
  - right. apply contains_remembered. exists p. split; [done|]. apply Contains6; [by apply Hh|done..].
Qed.

Lemma not_inferred dp current a :
  tracked dp current -> netip.Is4 a = true \/ (addr6 a /\ ~ in_window dp current (netip.addr a)) ->
  calculateInferredSuffixIPs dp a (getMaxHistory dp) = Ret None.
Proof.
  intros Ht Ha. pose proof Ht as (Hc & Hp & Hh). unfold calculateInferredSuffixIPs. rewrite Hc. cbv zeta.
  assert (forall p, p ∈ current :: remembered (getMaxHistory dp) (st_History (dp_Status dp)) ->
            netip.Contains p a = false) as Hno.
  { intros p Hin. assert (netip.prefix6 p) as Hp6 by (apply elem_of_cons in Hin as [->|?]; [done|by apply Hh]).
    destruct Ha as [H4|[[Hwf Hz] Hw]].
    - apply bool_decide_eq_true in H4. unfold netip.Contains. unfold netip.BitLen. rewrite H4, (prefix6_z p Hp6). by case_match.
    - apply not_true_iff_false. intros Hc'. apply Contains6 in Hc'; [|done..]. apply Hw. by exists p. }
  assert (netip.Contains current a || existsb (fun entry => match netiptext.ParsePrefix (H_Prefix entry) with
            | Some p => netip.Contains p a | None => false end)
            (take (getMaxHistory dp) (st_History (dp_Status dp))) = false)%bool as ->; [|done].
  apply orb_false_iff. split; [apply Hno, list_elem_of_here|].
  apply not_true_iff_false. rewrite contains_remembered. intros (p & Hin & H).
  rewrite Hno in H by by apply list_elem_of_further. done.
Qed.

(** What the Service asks for when neither a range nor a subnet is named. *)
Definition unnamed (annotations : gmap string string) : Prop :=
  either_annotation annotations AnnotationServiceAddressRange AnnotationAddressRange = EmptyString /\
  either_annotation annotations AnnotationServiceSubnet AnnotationSubnet = EmptyString.

Lemma calculateServiceIPs_inferred dp current annotations s a :
  tracked dp current -> unnamed annotations -> netiptext.ParseAddr s = Some a -> addr6 a ->
  in_window dp current (netip.addr a) ->
  calculateServiceIPs dp annotations s =
    Ret (hosts_of dp current (netip.addr a), netiptext.AddrString (host_in current (netip.addr a))).
Proof.
  intros Ht [Hr Hs] Ha H6 Hin. pose proof Ht as (_ & Hp & _). unfold calculateServiceIPs. rewrite Ha, Hr, Hs.
  rewrite !decide_False by (intros H; by apply H). rewrite (inferred_hosts dp current a) by done. cbn [obind].
  destruct (host_in_prefix current (netip.addr a) Hp) as [_ [Hwf _]].
  pose proof (AddrString_ne (host_in current (netip.addr a)) Hwf eq_refl). by destruct (netiptext.AddrString _).
Qed.

(** ** Offsets in a window *)

Lemma range_of_prefix base cfg ar :
  netip.prefix6 base -> CalculateAddressRange base cfg = Ret ar ->
  addr6 (AR_Start ar) /\ addr6 (AR_End ar) /\
  netip.in_prefix base (netip.addr (AR_Start ar)) /\ netip.in_prefix base (netip.addr (AR_End ar)).
Proof.
  intros Hb Har. destruct (CalculateAddressRange_cases base cfg Hb) as (_ & _ & Hiff & Hin).
  destruct (Hin ar Har) as (Hs & He & _). destruct (proj1 (Hiff ar) Har) as (so & eo & _ & _ & _ & E).
  pose proof (first_num_bounds base Hb). unfold netip.in_prefix in *.
  subst ar. cbn in *. repeat split; try done; cbn; lia.
Qed.

Lemma subnet_of_prefix base cfg s :
  netip.prefix6 base -> CalculateSubnet base cfg = Ret s ->
  netip.prefix6 (S_CIDR s) /\ addr6 (netip.ip (S_CIDR s)) /\ forall x, netip.in_prefix (S_CIDR s) x -> netip.in_prefix base x.
Proof.
  intros Hb Hs. destruct (decide (fits base cfg)) as [Hf|Hf].
  - rewrite CalculateSubnet_fits in Hs by done. injection Hs as <-. cbn [S_CIDR].
    pose proof (subnet_prefix6 base cfg Hb Hf) as H6. split; [done|].
    split; [split; [apply H6|by apply prefix6_z]|].
    intros x Hx. apply (subnet_prefix_in base cfg x Hb Hf) in Hx.
    pose proof (subnet_first_bounds base cfg Hb Hf). unfold netip.in_prefix. lia.
  - destruct (CalculateSubnet_not_fits base cfg Hb Hf) as (e & E & _). congruence.
Qed.

(** The text of an address of a prefix. *)
Definition text_in (p : netip.Prefix) (s : string) : Prop :=
  exists a, netiptext.ParseAddr s = Some a /\ addr6 a /\ netip.in_prefix p (netip.addr a).

Lemma text_in_addr p a : addr6 a -> netip.in_prefix p (netip.addr a) -> text_in p (netiptext.AddrString a).
Proof.
  intros [Hwf Hz] Hin. exists a. split; [|by split]. apply ParseAddr_String; [done|].
  unfold netip.IsValidAddr. by rewrite Hz.
Qed.

(** A window inside [p]: an address moved into it is an address of [p]. *)
Lemma moved_in p base last off a :
  netip.prefix6 p -> addr6 base -> addr6 last -> netip.in_prefix p (netip.addr base) ->
  netip.in_prefix p (netip.addr last) -> length off = 16%nat -> Forall byte_ok off ->
  offsetAddressWithin base last off = Some a -> text_in p (netiptext.AddrString a).
Proof.
  intros Hp Hb Hl Hinb Hinl Ho Hoo. rewrite offsetAddressWithin_spec by done.
  destruct (Z.leb_spec (netip.addr base + netip.be_value off) (netip.addr last)); [|done]. intros [= <-].
  pose proof (be_value_bound16 off Hoo Ho). pose proof (first_num_bounds p Hp).
  unfold netip.in_prefix in *. apply text_in_addr; [|unfold netip.in_prefix; cbn; lia].
  split; [|done]. apply addr6_wf. lia.
Qed.

(** The answer of the range and subnet modes: the assigned address itself, and
    addresses of remembered prefixes. *)
Definition keeps_assigned (dp : DynamicPrefix) (a : netip.Addr) (r : outcome service_error (string * list string)) : Prop :=
  match r with
  | Ret (c, l) =>
      c = netiptext.AddrString a /\ exists older, l = c :: older /\
        forall s, s ∈ older -> exists p, p ∈ remembered (getMaxHistory dp) (st_History (dp_Status dp)) /\ text_in p s
  | Fail _ => True
  | Panic => False
  end.

Lemma history_window dp f (g : netip.Prefix -> option netip.Addr) s :
  (forall p, p ∈ remembered (getMaxHistory dp) (st_History (dp_Status dp)) ->
     f p = Ret (g p) /\ forall a, g p = Some a -> text_in p (netiptext.AddrString a)) ->
  keeps_assigned dp s
    (let* older := history_addrs f (getMaxHistory dp) 0 (st_History (dp_Status dp)) in
     Ret (netiptext.AddrString s, netiptext.AddrString s :: older))%go.
Proof.
  intros Hf. rewrite (history_addrs_spec f g); rewrite Nat.sub_0_r; [|intros p Hp; by apply Hf].
  cbn [obind keeps_assigned]. split; [done|]. eexists. split; [done|].
  intros x (a & -> & (p & Hp & Ha)%list_elem_of_omap)%list_elem_of_fmap. exists p. split; [done|]. by apply Hf.
Qed.

Lemma range_mode_keeps dp current a name :
  tracked dp current -> netip.addr_wf a ->
  keeps_assigned dp a (calculateAddressRangeIPs dp a name (getMaxHistory dp)).
Proof.
  intros (Hc & Hp & Hh) [Ha _]. unfold calculateAddressRangeIPs. case_match; [|done]. rewrite Hc. cbv zeta.
  set (cfg := mkAddressRangeConfig _ _ _).
  destruct (CalculateAddressRange_cases current cfg Hp) as (Hnp & _).
  destruct (CalculateAddressRange current cfg) as [ar|e|] eqn:Har; [|done..]. cbn [wrap_err obind].
  destruct (range_of_prefix current cfg ar Hp Har) as ([[Hs _] _] & _).
  destruct (calculateIPOffset_spec (AR_Start ar) a Hs Ha) as (off & -> & Ho & Hoo & _). case_match; [done|].
  apply (history_window dp _ (fun p => match CalculateAddressRange p cfg with
                                       | Ret r => offsetAddressWithin (AR_Start r) (AR_End r) off
                                       | _ => None end)).
  intros p Hin. pose proof (Hh p Hin) as H6. destruct (CalculateAddressRange_cases p cfg H6) as (Hnp' & _).
  destruct (CalculateAddressRange p cfg) as [r|e|] eqn:Hr; [|done..]. split; [done|]. intros x Hx.
  destruct (range_of_prefix p cfg r H6 Hr) as (Hrs & Hre & Hins & Hine).
  exact (moved_in p _ _ off x H6 Hrs Hre Hins Hine Ho Hoo Hx).
Qed.

Lemma subnet_mode_keeps dp current a name :
  tracked dp current -> netip.addr_wf a ->
  keeps_assigned dp a (calculateSubnetIPs dp a name (getMaxHistory dp)).
Proof.
  intros (Hc & Hp & Hh) [Ha _]. unfold calculateSubnetIPs. case_match; [|done]. rewrite Hc. cbv zeta.
  set (cfg := mkSubnetConfig _ _ _).
  assert (forall p, netip.prefix6 p -> CalculateSubnet p cfg <> Panic) as Hnp.
  { intros p H6. destruct (decide (fits p cfg)) as [Hf|Hf]; [by rewrite CalculateSubnet_fits|].
    by destruct (CalculateSubnet_not_fits p cfg H6 Hf) as (e & -> & _). }
  pose proof (Hnp current Hp) as Hn.
  destruct (CalculateSubnet current cfg) as [sn|e|] eqn:Hsn; [|done..]. cbn [wrap_err obind].
  destruct (subnet_of_prefix current cfg sn Hp Hsn) as (_ & [[Hs _] _] & _).
  destruct (calculateIPOffset_spec (netip.ip (S_CIDR sn)) a Hs Ha) as (off & -> & Ho & Hoo & _). case_match; [done|].
  apply (history_window dp _ (fun p => match CalculateSubnet p cfg with
          | Ret h => offsetAddressWithin (netip.ip (S_CIDR h)) (netip.mkAddr (netip.last_num (S_CIDR h)) (netip.z6 EmptyString)) off
          | _ => None end)).
  intros p Hin. pose proof (Hh p Hin) as H6. pose proof (Hnp p H6) as Hn'.
  destruct (CalculateSubnet p cfg) as [h|e|] eqn:Hr; [|done..].
  destruct (subnet_of_prefix p cfg h H6 Hr) as (Hh6 & Hst & Hsub). rewrite lastAddrOfPrefix_6 by done.
  split; [done|]. intros x Hx. pose proof (first_num_bounds _ Hh6) as [? ?]. pose proof (first_num_le_last _ Hh6).
  assert (netip.in_prefix (S_CIDR h) (netip.addr (netip.ip (S_CIDR h)))) as Hin0 by by apply in_prefix_block.
  refine (moved_in p _ _ off x H6 Hst _ _ _ Ho Hoo Hx).
  - split; [apply addr6_wf; lia|done].
  - by apply Hsub.
  - apply Hsub. unfold netip.in_prefix. cbn. lia.
Qed.

(** No mode panics. *)
Lemma calculateSuffixIPs_total dp current suffix : tracked dp current -> calculateSuffixIPs dp suffix <> Panic.
Proof.
  intros Ht. pose proof Ht as (Hc & _). unfold calculateSuffixIPs.
  destruct (netiptext.ParseAddr suffix) as [a|] eqn:Ha; [|done]. apply ParseAddr_wf in Ha as [Ha _].
  case_match; [done|]. case_decide; [done|]. rewrite Hc. cbv zeta. by rewrite (history_hosts dp current a Ht Ha).
Qed.

Lemma calculateServiceIPs_total dp current annotations s : tracked dp current -> calculateServiceIPs dp annotations s <> Panic.
Proof.
  intros Ht. pose proof Ht as (Hc & _). unfold calculateServiceIPs.
  destruct (netiptext.ParseAddr s) as [a|] eqn:Ha; [|done]. apply ParseAddr_wf in Ha as [Ha _]. cbv zeta.
  case_decide; [|case_decide].
  - pose proof (range_mode_keeps dp current a (either_annotation annotations AnnotationServiceAddressRange AnnotationAddressRange) Ht Ha) as Hk.
    by destruct (calculateAddressRangeIPs _ _ _ _) as [[? ?]| |].
  - pose proof (subnet_mode_keeps dp current a (either_annotation annotations AnnotationServiceSubnet AnnotationSubnet) Ht Ha) as Hk.
    by destruct (calculateSubnetIPs _ _ _ _) as [[? ?]| |].
  - unfold calculateInferredSuffixIPs. rewrite Hc. cbv zeta. case_match; [done|].
    rewrite (history_hosts dp current a Ht Ha). cbn [obind]. by case_match.
Qed.

(** The current address comes first. *)
Lemma ret_inj {E A} (a b : A) : @Ret E A a = Ret b -> a = b.
Proof. by intros [= ->]. Qed.

Lemma some_inj {A} (a b : A) : Some a = Some b -> a = b.
Proof. by intros [= ->]. Qed.

Lemma calculateSuffixIPs_head dp suffix r : calculateSuffixIPs dp suffix = Ret r -> head r.1 = Some r.2.
Proof.
  unfold calculateSuffixIPs. repeat (case_match; try done). intros (older & _ & E)%obind_ret.
  apply ret_inj in E as <-. cbn [fst snd]. reflexivity.
Qed.

Lemma calculateServiceIPs_head dp annotations s r : calculateServiceIPs dp annotations s = Ret r -> head r.1 = Some r.2.
Proof.
  unfold calculateServiceIPs. destruct (netiptext.ParseAddr s) as [a|]; [|done]. cbv zeta.
  assert (forall m : outcome service_error (string * list string),
    (forall c l, m = Ret (c, l) -> head l = Some c) ->
    match m with Panic => Panic | Fail _ => Ret ([s], s) | Ret (c, l) => Ret (l, c) end = @Ret service_error _ r ->
    head r.1 = Some r.2) as Hm.
  { intros [[c l]|e|] Hm; [intros <-%ret_inj; by apply Hm|intros <-%ret_inj; reflexivity|done]. }
  case_decide; [|case_decide].
  - apply Hm. intros c l. unfold calculateAddressRangeIPs. repeat (case_match; try done).
    intros (ar & _ & E)%obind_ret. destruct (calculateIPOffset _ _) as [off []]; cbn [negb] in E; [|done].
    apply obind_ret in E as (older & _ & E). apply ret_inj in E. apply pair_equal_spec in E as [<- <-]. reflexivity.
  - apply Hm. intros c l. unfold calculateSubnetIPs. repeat (case_match; try done).
    intros (ar & _ & E)%obind_ret. destruct (calculateIPOffset _ _) as [off []]; cbn [negb] in E; [|done].
    apply obind_ret in E as (older & _ & E). apply ret_inj in E. apply pair_equal_spec in E as [<- <-]. reflexivity.
  - intros (inferred & Hi & E)%obind_ret. destruct inferred as [[c l]|]; [|apply ret_inj in E as <-; cbn [fst snd]; reflexivity].
    assert (head l = Some c) as Hl.
    { revert Hi. unfold calculateInferredSuffixIPs. destruct (netiptext.ParsePrefix _); [|intros [=]]. cbv zeta.
      destruct (negb _); [intros [=]|].
      intros (older & _ & E')%obind_ret. apply ret_inj, some_inj, pair_equal_spec in E' as [<- <-]. reflexivity. }
    destruct c; apply ret_inj in E as <-; cbn [fst snd]; [reflexivity|exact Hl].
Qed.

Lemma addressesForService_head dp ingress annotations l c :
  addressesForService dp ingress annotations = Ret (Addresses l c) -> head l = Some c.
Proof.
  unfold addressesForService. destruct (annotations !! AnnotationSuffix) as [[|ch suffix]|].
  2: { intros (r & Hr%wrap_err_ret & E)%obind_ret. injection E as <- <-. by eapply calculateSuffixIPs_head. }
  all: case_decide; [done|]; intros (r & Hr%wrap_err_ret & E)%obind_ret; injection E as <- <-;
    by eapply calculateServiceIPs_head.
Qed.

Lemma addressesForService_total dp current ingress annotations :
  tracked dp current -> addressesForService dp ingress annotations <> Panic.
Proof.
  intros Ht. unfold addressesForService.
  assert (forall suffix, calculateSuffixIPs dp suffix <> Panic) as Hs by (intros; by eapply calculateSuffixIPs_total).
  assert (forall s, calculateServiceIPs dp annotations s <> Panic) as Hc by (intros; by eapply calculateServiceIPs_total).
  destruct (annotations !! AnnotationSuffix) as [[|ch suffix]|].
  2: { specialize (Hs (String ch suffix)). by destruct (calculateSuffixIPs _ _). }
  all: case_decide; [done|]; specialize (Hc (getCurrentServiceIP ingress)); by destruct (calculateServiceIPs _ _ _).
Qed.

(** ** Host parts *)

Lemma host_in_mod p q x :
  netip.prefix6 p -> netip.prefix6 q -> netip.Bits p = netip.Bits q ->
  netip.addr (host_in p x) mod 2 ^ (128 - netip.Bits q) = x mod 2 ^ (128 - netip.Bits q).
Proof.
  intros Hp Hq Hb. pose proof (prefix6_bits q Hq). pose proof (pow2_pos (128 - netip.Bits q) ltac:(lia)).
  unfold host_in, netip.first_num. cbn [netip.addr]. rewrite Hb.
  rewrite Z.add_comm, Z.mod_add, Z.mod_mod by lia. done.
Qed.

Lemma host_in_host p q x :
  netip.prefix6 p -> netip.prefix6 q -> netip.Bits p = netip.Bits q ->
  host_in p (netip.addr (host_in q x)) = host_in p x.
Proof.
  intros Hp Hq Hb. pose proof (host_in_mod q p x Hq Hp (eq_sym Hb)) as E.
  generalize dependent (netip.addr (host_in q x)). intros y E. unfold host_in. by rewrite E.
Qed.

(** An address of the prefix is its own graft. *)
Lemma host_in_self p a : netip.prefix6 p -> addr6 a -> netip.in_prefix p (netip.addr a) -> host_in p (netip.addr a) = a.
Proof.
  intros Hp [_ Hz] Hin. pose proof (prefix6_bits p Hp). pose proof (pow2_pos (128 - netip.Bits p) ltac:(lia)).
  apply in_prefix_block in Hin; [|done]. unfold host_in, netip.first_num. rewrite <- Hin.
  pose proof (Z.div_mod (netip.addr a) (2 ^ (128 - netip.Bits p)) ltac:(lia)).
  destruct a as [x xz]. cbn in *. subst xz. f_equal. lia.
Qed.

Lemma hosts_of_ext dp current x y :
  (forall p, p ∈ current :: remembered (getMaxHistory dp) (st_History (dp_Status dp)) -> host_in p x = host_in p y) ->
  hosts_of dp current x = hosts_of dp current y.
Proof.
  intros H. unfold hosts_of. apply list_fmap_ext. intros i p Hp%list_elem_of_lookup_2. by rewrite H.
Qed.

(** The previous prefix of a status is remembered when it is the newest entry of a
    history within its limit. *)
Lemma newest_remembered dp e p :
  last (st_History (dp_Status dp)) = Some e -> netiptext.ParsePrefix (H_Prefix e) = Some p ->
  (length (st_History (dp_Status dp)) <= getMaxHistory dp)%nat ->
  p ∈ remembered (getMaxHistory dp) (st_History (dp_Status dp)).
Proof.
  intros Hl Hp Hn. unfold remembered. rewrite take_ge by done. apply list_elem_of_omap. exists e. split; [|done].
  by apply last_Some_elem_of.
Qed.

(** * Properties *)

(** C34 The offset of an address from a base and its addition to another, byte by
    byte with borrow and carry, are the difference and the sum of the numbers modulo
    2^128: the subtraction reports a failure exactly for an address below the base,
    the addition exactly when the sum does not fit in 128 bits; adding the offset back
    gives the address, and adding it to another base within a window gives the
    address at the same distance exactly when that lies in the window - never a
    wrapped one. *)
Theorem offset_roundtrip (base target base' last' : netip.Addr) :
  addr6 base -> addr6 target -> addr6 base' -> addr6 last' ->
  exists off ok, calculateIPOffset base target = (off, ok) /\
    netip.be_value off = (netip.addr target - netip.addr base) mod 2 ^ 128 /\
    (ok = true <-> netip.addr base <= netip.addr target) /\
    (ok = true -> applyIPOffset base off = (target, true)) /\
    (exists a fits, applyIPOffset base' off = (a, fits) /\ addr6 a /\
       netip.addr a = (netip.addr base' + netip.be_value off) mod 2 ^ 128 /\
       (fits = true <-> netip.addr base' + netip.be_value off < 2 ^ 128)) /\
    (ok = true -> forall a, offsetAddressWithin base' last' off = Some a <->
       addr6 a /\ netip.addr a - netip.addr base' = netip.addr target - netip.addr base /\
       netip.addr a <= netip.addr last').
Proof.
  intros Hb Ht Hb' Hl'. pose proof Hb as [[Hb1 _] _]. pose proof Ht as [[Ht1 _] Htz]. pose proof Hb' as [[Hb2 _] _].
  pose proof Hl' as [[Hl1 _] _].
  destruct (calculateIPOffset_spec base target Hb1 Ht1) as (off & -> & Ho & Hoo & Hv).
  exists off, (netip.addr base <=? netip.addr target). split; [done|]. split; [done|]. split; [apply Z.leb_le|].
  rewrite Z.leb_le. split; [|split].
  - intros Hle. rewrite applyIPOffset_spec by done. rewrite Hv, (Z.mod_small (_ - _)) by lia.
    replace (netip.addr base + (netip.addr target - netip.addr base)) with (netip.addr target) by lia.
    rewrite Z.mod_small by done. rewrite (proj2 (Z.ltb_lt _ _)) by lia. destruct target; cbn in *. by subst.
  - rewrite applyIPOffset_spec by done. eexists _, _. split; [done|]. rewrite Z.ltb_lt.
    split; [split; [split; [by apply Z.mod_pos_bound|done]|done]|]. by split.
  - intros Hle a. rewrite offsetAddressWithin_spec by done. rewrite Z.mod_small in Hv by lia. rewrite Hv.
    destruct (Z.leb_spec (netip.addr base' + (netip.addr target - netip.addr base)) (netip.addr last')).
    + split; [intros [= <-]; unfold addr6, netip.addr_wf; cbn [netip.addr netip.z]; split_and!; (done || lia)|].
      intros ([_ Haz] & He & _). destruct a as [x xz]. cbn in *. subst xz. do 2 f_equal. lia.
    + split; [done|]. lia.
Qed.

(** Within the window, and past the end of the address space. *)
Lemma offset_roundtrip_witness :
  let base := addr_of_string "2001:db8:2::f000" in
  let target := addr_of_string "2001:db8:2::f010" in
  let base' := addr_of_string "2001:db8:1::f000" in
  let high := addr_of_string "ffff:ffff:ffff:ffff:ffff:ffff:ffff:fff8" in
  exists off ok, calculateIPOffset base target = (off, ok) /\ ok = true /\
    offsetAddressWithin base' (addr_of_string "2001:db8:1::f0ff") off = Some (addr_of_string "2001:db8:1::f010") /\
    applyIPOffset high off = (addr_of_string "::8", false).
Proof.
  intros base target base' high.
  destruct (offset_roundtrip base target base' (addr_of_string "2001:db8:1::f0ff")) as (off & ok & E & Ev & Hok & _ & _ & Hw).
  1-4: split; [apply addr_of_string_wf|vm_compute; reflexivity].
  destruct (offset_roundtrip base target high high) as (off' & ok' & E' & _ & _ & _ & (a & fits & Ea & [_ Haz] & Hav & Hf) & _).
  1-4: split; [apply addr_of_string_wf|vm_compute; reflexivity].
  rewrite E in E'. injection E' as <- <-.
  assert (ok = true) as Ht by (apply Hok; vm_compute; discriminate).
  exists off, ok. split; [exact E|]. split; [exact Ht|]. split.
  - apply (Hw Ht).
    split; [split; [apply addr_of_string_wf|vm_compute; reflexivity]|]. split; [reflexivity|vm_compute; discriminate].
  - rewrite Ea. rewrite Ev in Hav, Hf. f_equal.
    + destruct a as [x xz]. cbn in Haz, Hav. subst xz x. vm_compute. reflexivity.
    + apply not_true_iff_false. rewrite Hf. vm_compute. discriminate.
Defined.


(** A concrete status is tracked when its prefixes parse to IPv6. *)
Lemma tracked_check dp :
  match netiptext.ParsePrefix (st_CurrentPrefix (dp_Status dp)) with
  | Some p => netip.Is6 (netip.ip p) | None => false end = true ->
  forallb (fun p => netip.Is6 (netip.ip p)) (remembered (getMaxHistory dp) (st_History (dp_Status dp))) = true ->
  tracked dp (prefix_of_string (st_CurrentPrefix (dp_Status dp))).
Proof.
  intros Hc Hh. split; [|split].
  - unfold prefix_of_string. by destruct (netiptext.ParsePrefix _).
  - by apply prefix6_of_string.
  - intros p Hp. rewrite forallb_forall in Hh. pose proof (Hh p (proj1 (list_elem_of_In _ _) Hp)) as H6.
    apply list_elem_of_omap in Hp as (e & _ & E). by apply (ParsePrefix6 (H_Prefix e)).
Qed.

Definition sample_service_dp (current : string) (history : list string) : DynamicPrefix :=
  mkDynamicPrefix "home" false true 1 None
    (mkSpec (mkAcquisition None None None) [mkRangeSpec "lb" "::f000" "::f0ff"] []
       (Some (mkTransition TransitionModeHA 2)))
    (mkStatusOf current (Some SourceRouterAdvertisement) None [] [] (sample_history <$> history) []).


(** Without a range or a subnet the mode settles: as long as the prefixes in
    play have one length, it derives the same addresses from whichever of them the
    Service holds; an address outside every managed prefix, or an IPv4 one, is
    left as it is. *)
Theorem inferred_mode_settles (dp : DynamicPrefix) (current : netip.Prefix) (annotations : gmap string string)
    (s : string) (a : netip.Addr) :
  tracked dp current -> unnamed annotations -> netiptext.ParseAddr s = Some a ->
  (addr6 a -> in_window dp current (netip.addr a) ->
     (forall p, p ∈ remembered (getMaxHistory dp) (st_History (dp_Status dp)) -> netip.Bits p = netip.Bits current) ->
     exists l c, calculateServiceIPs dp annotations s = Ret (l, c) /\
       forall s', s' ∈ l -> calculateServiceIPs dp annotations s' = Ret (l, c)) /\
  (netip.Is4 a = true \/ (addr6 a /\ ~ in_window dp current (netip.addr a)) ->
     calculateServiceIPs dp annotations s = Ret ([s], s)).
Proof.
  intros Ht Hu Hs. pose proof Ht as (_ & Hp & Hh). split.
  - intros Ha Hin Hb. do 2 eexists. split; [exact (calculateServiceIPs_inferred dp current _ _ a Ht Hu Hs Ha Hin)|].
    set (window := current :: remembered (getMaxHistory dp) (st_History (dp_Status dp))) in *.
    assert (forall p, p ∈ window -> netip.prefix6 p /\ netip.Bits p = netip.Bits current) as Hw.
    { intros p [->|Hq]%elem_of_cons; [done|]. split; [by apply Hh|by apply Hb]. }
    intros s' (q & -> & Hq)%list_elem_of_fmap. fold window in Hq. destruct (Hw q Hq) as [Hq6 Hqb].
    destruct (host_in_prefix q (netip.addr a) Hq6) as [Hqin Hqa].
    assert (forall p, p ∈ window -> host_in p (netip.addr (host_in q (netip.addr a))) = host_in p (netip.addr a)) as Heq.
    { intros p Hpw. destruct (Hw p Hpw) as [Hp6 Hpb]. apply host_in_host; congruence. }
    assert (netiptext.ParseAddr (netiptext.AddrString (host_in q (netip.addr a))) = Some (host_in q (netip.addr a))) as Hps
      by (apply ParseAddr_String; [apply Hqa|reflexivity]).
    rewrite (calculateServiceIPs_inferred dp current annotations _ _ Ht Hu Hps Hqa)
      by (exists q; split; [exact Hq|exact Hqin]).
    rewrite (hosts_of_ext dp current _ (netip.addr a) Heq). by rewrite (Heq current (list_elem_of_here _ _)).
  - intros Ha. destruct Hu as [Hr Hn]. unfold calculateServiceIPs. rewrite Hs, Hr, Hn.
    rewrite !decide_False by (intros H; by apply H). by rewrite (not_inferred dp current).
Qed.

Lemma inferred_mode_settles_witness :
  let dp := sample_service_dp "2001:db8:2::/48" ["2001:db8:1::/48"] in
  (exists l c, calculateServiceIPs dp empty "2001:db8:1::f010" = Ret (l, c) /\
     forall s', s' ∈ l -> calculateServiceIPs dp empty s' = Ret (l, c)) /\
  calculateServiceIPs dp empty "192.0.2.1" = Ret (["192.0.2.1"], "192.0.2.1").
Proof.
  intros dp.
  assert (tracked dp (prefix_of_string "2001:db8:2::/48")) as Ht
    by (apply (tracked_check dp); vm_compute; reflexivity).
  assert (unnamed empty) as Hu by (split; vm_compute; reflexivity).
  split.
  - destruct (inferred_mode_settles dp (prefix_of_string "2001:db8:2::/48") empty "2001:db8:1::f010"
      (addr_of_string "2001:db8:1::f010") Ht Hu) as [H _]; [vm_compute; reflexivity|]. apply H.
    + split; [apply addr_of_string_wf|vm_compute; reflexivity].
    + exists (prefix_of_string "2001:db8:1::/48"). split; [apply list_elem_of_further, list_elem_of_here|].
      apply in_prefix_check. vm_compute. reflexivity.
    + intros p [->|Hp]%elem_of_cons; [vm_compute; reflexivity|by apply elem_of_nil in Hp].
  - destruct (inferred_mode_settles dp (prefix_of_string "2001:db8:2::/48") empty "192.0.2.1"
      (addr_of_string "192.0.2.1") Ht Hu) as [_ H]; [vm_compute; reflexivity|]. apply H.
    left. vm_compute. reflexivity.
Defined.

(** With a range or a subnet named the calculation never fails, but what it
    asks for first is always the address the Service already has, whatever the
    current prefix is: the rest are addresses of remembered prefixes, so after a
    rotation no address of the new prefix is ever asked for. *)
Theorem named_modes_never_rotate (dp : DynamicPrefix) (current : netip.Prefix) (annotations : gmap string string)
    (s : string) (a : netip.Addr) :
  tracked dp current -> netiptext.ParseAddr s = Some a -> ~ unnamed annotations ->
  exists l c, calculateServiceIPs dp annotations s = Ret (c :: l, c) /\ netiptext.ParseAddr c = Some a /\
    forall s', s' ∈ l -> exists p, p ∈ remembered (getMaxHistory dp) (st_History (dp_Status dp)) /\ text_in p s'.
Proof.
  intros Ht Hs Hn. pose proof (ParseAddr_wf s a Hs) as [Hwf Hv]. unfold calculateServiceIPs. rewrite Hs. cbv zeta.
  set (range := either_annotation _ AnnotationServiceAddressRange _) in *.
  set (subnet := either_annotation _ AnnotationServiceSubnet _) in *.
  assert (forall r, keeps_assigned dp a r -> exists l c,
    match r with Panic => Panic | Fail _ => Ret ([s], s) | Ret (cur, all) => Ret (all, cur) end =
      @Ret service_error _ (c :: l, c) /\ netiptext.ParseAddr c = Some a /\
    forall s', s' ∈ l -> exists p, p ∈ remembered (getMaxHistory dp) (st_History (dp_Status dp)) /\ text_in p s') as Hk.
  { intros [[cur all]|e|]; cbn [keeps_assigned]; [|intros _; exists [], s; split; [done|]; split; [done|]|done].
    - intros (-> & older & -> & Ho). exists older, (netiptext.AddrString a). split; [done|]. split; [|exact Ho].
      by apply ParseAddr_String.
    - intros s' H. by apply elem_of_nil in H. }
  destruct (decide (range <> EmptyString)) as [Hr|Hr%dec_stable].
  { apply Hk. by eapply range_mode_keeps. }
  destruct (decide (subnet <> EmptyString)) as [Hsn|Hsn%dec_stable].
  { apply Hk. by eapply subnet_mode_keeps. }
  destruct Hn. by split.
Qed.

(** After the rotation of [rotation_keeps_serving_witness] a Service that names the
    range still asks for its old address only. *)
Lemma named_modes_never_rotate_witness :
  let dp := sample_service_dp "2001:db8:2::/48" ["2001:db8:1::/48"] in
  let annotations := {[ AnnotationServiceAddressRange := "lb" ]} in
  calculateServiceIPs dp annotations "2001:db8:1::f010" = Ret (["2001:db8:1::f010"], "2001:db8:1::f010") /\
  exists l c, calculateServiceIPs dp annotations "2001:db8:1::f010" = Ret (c :: l, c) /\
    netiptext.ParseAddr c = Some (addr_of_string "2001:db8:1::f010").
Proof.
  intros dp annotations. split; [vm_compute; reflexivity|].
  destruct (named_modes_never_rotate dp (prefix_of_string "2001:db8:2::/48") annotations "2001:db8:1::f010"
    (addr_of_string "2001:db8:1::f010")) as (l & c & E & Hc & _).
  - apply (tracked_check dp); vm_compute; reflexivity.
  - vm_compute. reflexivity.
  - intros [H _]. vm_compute in H. discriminate.
  - exists l, c. split; [exact E|exact Hc].
Defined.
