(* ===== verification/ServiceSync.v ===== *)
(** * Services in HA mode

    The annotations [internal/controller/servicesync_controller.go] keeps on a
    LoadBalancer Service: the requested addresses, the external-dns targets, the
    records of what was written, the nudge of Cilium's L2 announcer, their release,
    and the reconcile that composes them with the calculations of
    [ServiceAddrs].  The API server and the decision whether Cilium needs the
    nudge are parameters. *)

From stdpp Require Import sorting.
From S2P Require Import Prelude GoStrings Netip NetipText Policy Subnet AddressRange Receivers Factory.
From S2P Require Import DynamicPrefix Ownership PoolConfigs PoolBackends PoolSync ServiceAddrs.

Definition AnnotationCiliumIPs : string := "lbipam.cilium.io/ips".
Definition AnnotationKubevipLBIPs : string := "kube-vip.io/loadbalancerIPs".
Definition AnnotationLBProvider : string := "dynamic-prefix.io/lb-provider".
Definition AnnotationExternalDNSTarget : string := "external-dns.alpha.kubernetes.io/target".
Definition AnnotationExternalDNSTargetNew : string := "external-dns.kubernetes.io/target".
Definition AnnotationSkipExternalDNSUpdate : string := "dynamic-prefix.io/skip-external-dns-update".
Definition AnnotationL2Nudge : string := "dynamic-prefix.io/l2-announce-nudge".
Definition AnnotationSkipL2Nudge : string := "dynamic-prefix.io/skip-l2-nudge".
Definition AnnotationForceL2Nudge : string := "dynamic-prefix.io/force-l2-nudge".
Definition AnnotationValueTrue : string := "true".

(** A Service: its type, its annotations (a nil map reads as an empty one), the
    IPs of its load-balancer status. *)
Record Service : Type := mkService {
  sv_LoadBalancer : bool;
  sv_annotations : gmap string string;
  sv_ingress : list string
}.

(** ** Target keys *)

Definition DefaultExternalDNSTargetAnnotationKeys : list string :=
  [AnnotationExternalDNSTarget; AnnotationExternalDNSTargetNew].
Definition knownExternalDNSTargetAnnotationKeys : list string :=
  [AnnotationExternalDNSTarget; AnnotationExternalDNSTargetNew].

(** The configured keys, or the default when there are none. *)
Definition targetAnnotationKeys (configured : list string) : list string :=
  match configured with [] => DefaultExternalDNSTargetAnnotationKeys | _ => configured end.

Definition releasableTargetAnnotationKeys (configured : list string) : list string :=
  filter (fun k => k ∉ targetAnnotationKeys configured) knownExternalDNSTargetAnnotationKeys.

Fixpoint firstAnnotationValue (annotations : gmap string string) (keys : list string) : string :=
  match keys with
  | [] => EmptyString
  | key :: keys' => match annotations !! key with Some v => v | None => firstAnnotationValue annotations keys' end
  end.

Definition allAnnotationsEqual (annotations : gmap string string) (keys : list string) (want : string) : bool :=
  forallb (fun key => bool_decide (ann annotations key = want)) keys.

(** ** Entries that stay *)

(** The entry is not an IPv6 address of a managed prefix. *)
Definition unmanaged (managedPrefixes : list netip.Prefix) (raw : string) : bool :=
  match netiptext.ParseAddr raw with
  | None => true
  | Some a => if (netip.Is4 a || netip.Is4In6 a)%bool then true
              else negb (existsb (fun p => netip.Contains p a) managedPrefixes)
  end.

(** The entries of a comma-separated annotation, trimmed, the empty ones left
    out, are those [parseOwnershipRecord] reads. *)
Definition extractUnmanagedIPs (ipsAnnotation : string) (managedPrefixes : list netip.Prefix) : list string :=
  filter (fun raw => unmanaged managedPrefixes raw = true) (record_items ipsAnnotation).

Definition preserveUnownedIPs (ipsAnnotation : string) (record : ownershipRecord)
    (managedPrefixes : list netip.Prefix) : list string :=
  if negb (rec_present record) then extractUnmanagedIPs ipsAnnotation managedPrefixes
  else filter (fun raw => owns record raw = false) (record_items ipsAnnotation).

(** ** Providers *)

Inductive lb_provider : Type := lbProviderCilium | lbProviderKubevip.

#[global] Instance lb_provider_eq_dec : EqDecision lb_provider.
Proof. solve_decision. Defined.

(** [None]: no provider this operator knows. *)
Definition lbAddressAnnotationFor (annotations : gmap string string) : option (lb_provider * string) :=
  let value := TrimSpace (ann annotations AnnotationLBProvider) in
  if decide (value = EmptyString \/ value = "cilium") then Some (lbProviderCilium, AnnotationCiliumIPs)
  else if decide (value = "kube-vip") then Some (lbProviderKubevip, AnnotationKubevipLBIPs)
  else None.

Definition otherLBAddressAnnotation (field : string) : string :=
  if decide (field = AnnotationCiliumIPs) then AnnotationKubevipLBIPs else AnnotationCiliumIPs.

(** An annotation with a value, or none. *)
Definition set_or_delete (key value : string) (annotations : gmap string string) : gmap string string :=
  if decide (value = EmptyString) then delete key annotations else <[key := value]> annotations.

Definition writeLBAddresses (annotations newAnnotations : gmap string string) (field addresses : string)
    (record : ownershipRecord) (managedPrefixes : list netip.Prefix) : gmap string string * bool :=
  let differs := negb (bool_decide (ann annotations field = addresses)) in
  let new1 := if differs then <[field := addresses]> newAnnotations else newAnnotations in
  let abandoned := otherLBAddressAnnotation field in
  if decide (ann annotations abandoned = EmptyString) then (new1, differs)
  else
    let remaining := join "," (preserveUnownedIPs (ann annotations abandoned) record managedPrefixes) in
    (set_or_delete abandoned remaining new1, true).

(** ** External DNS *)

(** [slices.Sort] of the non-empty addresses. *)
Definition assignedLoadBalancerIPs (ingress : list string) : list string :=
  Policy.sort_strings (filter (fun ip => ip <> EmptyString) ingress).

(** Taking the operator's entries out of the target under [key]. *)
Definition release_target (annotations : gmap string string) (record : ownershipRecord)
    (managedPrefixes : list netip.Prefix) (acc : gmap string string * bool) (key : string) : gmap string string * bool :=
  match annotations !! key with
  | None => acc
  | Some v => (set_or_delete key (join "," (preserveUnownedIPs v record managedPrefixes)) acc.1, true)
  end.

Definition release_targets (annotations : gmap string string) (record : ownershipRecord)
    (managedPrefixes : list netip.Prefix) (keys : list string) (newAnnotations : gmap string string)
    : gmap string string * bool :=
  foldl (release_target annotations record managedPrefixes) (newAnnotations, false) keys.

Record dns_result : Type := mkDNS {
  dns_annotations : gmap string string;
  dns_deferred : bool;
  dns_updated : bool
}.

Definition syncExternalDNSTarget (configured ingress : list string) (annotations newAnnotations : gmap string string)
    (currentIP : string) (managedPrefixes : list netip.Prefix) (skipExternalDNS : bool) : dns_result :=
  let targetKeys := targetAnnotationKeys configured in
  let targetRecord := parseOwnershipRecord (annotations !! AnnotationManagedTargets) in
  if negb skipExternalDNS then
    let (new1, released) := release_targets annotations targetRecord managedPrefixes
                              (releasableTargetAnnotationKeys configured) newAnnotations in
    let existingTarget := firstAnnotationValue annotations targetKeys in
    let preservedTargets := preserveUnownedIPs existingTarget targetRecord managedPrefixes in
    let finalTargetStr := join "," (dedupePreservingOrder (preservedTargets ++ [currentIP])) in
    let assignedIPs := assignedLoadBalancerIPs ingress in
    let dnsTargetReady := (bool_decide (assignedIPs = []) || bool_decide (currentIP ∈ assignedIPs))%bool in
    let settled := allAnnotationsEqual annotations targetKeys finalTargetStr in
    let publish := (negb settled && dnsTargetReady)%bool in
    let deferred := (negb settled && negb dnsTargetReady)%bool in
    let new2 := if publish then foldl (fun new key => <[key := finalTargetStr]> new) new1 targetKeys else new1 in
    let managedTargetStr := formatOwnershipRecord (excludePinned [currentIP] preservedTargets) in
    let record_moves := (allAnnotationsEqual new2 targetKeys finalTargetStr &&
                         negb (bool_decide (ann annotations AnnotationManagedTargets = managedTargetStr)))%bool in
    let new3 := if record_moves then <[AnnotationManagedTargets := managedTargetStr]> new2 else new2 in
    mkDNS new3 deferred (released || publish || record_moves)
  else
    if negb (rec_present targetRecord) then mkDNS newAnnotations false false
    else
      let step new key :=
        match annotations !! key with
        | None => new
        | Some v =>
            let releasedStr := join "," (preserveUnownedIPs v targetRecord managedPrefixes) in
            if decide (v = releasedStr) then new else set_or_delete key releasedStr new
        end in
      let new1 := foldl step newAnnotations knownExternalDNSTargetAnnotationKeys in
      mkDNS (delete AnnotationManagedTargets new1) false true.

(** ** The L2 announcer *)

(** [fnv.New64a]. *)
Definition fnv64a (bs : list Z) : Z :=
  foldl (fun h b => (Z.lxor h b * 1099511628211) mod 2 ^ 64) 14695981039346656037 bs.

(** [strconv.FormatUint(n, 16)]: at most sixteen digits. *)
Fixpoint hex_digits (fuel : nat) (n : Z) : string :=
  match fuel with
  | O => EmptyString
  | S fuel' => (if n <? 16 then EmptyString else hex_digits fuel' (n / 16)) +:+ String (netiptext.digit (n mod 16)) EmptyString
  end.
Definition format_hex (n : Z) : string := hex_digits 16 n.

Definition fingerprintAddresses (ips : list string) : string :=
  format_hex (fnv64a (concat ((fun ip => (byte_code <$> String.list_ascii_of_string ip) ++ [0]) <$> Policy.sort_strings ips))).

(** The API server as a reconcile meets it: the clock's text, reading a
    DynamicPrefix, writing the Service, and what the decider says ([None]: there
    is none). *)
Record svc_env : Type := mkSvcEnv {
  sve_now : string;
  sve_get : string -> dp_answer;
  sve_update : gmap string string -> option error;
  sve_nudge_needed : option bool
}.

Inductive svc_failure : Type :=
| FailGetService (e : error)
| FailGetPrefix (name : string) (e : error)
| FailAddresses (e : addresses_error)
| FailProvider (value : string)
| FailUpdate (e : error)
| FailRelease (e : error)
| FailNudge (e : error).

Inductive svc_event : Type := EvInvalidLBProvider | EvServiceReleased.

(** The successful writes in order, the events, the requeue in seconds, the
    error. *)
Record svc_result : Type := mkSvcResult {
  sr_writes : list (gmap string string);
  sr_events : list svc_event;
  sr_after : Z;
  sr_err : option svc_failure
}.

Definition svc_done (after : Z) : svc_result := mkSvcResult [] [] after None.
Definition svc_failed (e : svc_failure) : svc_result := mkSvcResult [] [] 0 (Some e).

Definition requeueIfDNSTargetDeferred (after : Z) (deferred : bool) : Z :=
  if (negb deferred || (0 <? after))%bool then after else 60.

Definition nudgeL2Announcer (env : svc_env) (annotations : gmap string string) (ingress : list string)
    (currentIP : string) : svc_result :=
  if decide (ann annotations AnnotationSkipL2Nudge = AnnotationValueTrue) then svc_done 0
  else if (negb (bool_decide (ann annotations AnnotationForceL2Nudge = AnnotationValueTrue)) &&
           bool_decide (sve_nudge_needed env = Some false))%bool then svc_done 0
  else
    let assigned := assignedLoadBalancerIPs ingress in
    if decide (currentIP ∈ assigned) then
      let fingerprint := fingerprintAddresses assigned in
      if decide (ann annotations AnnotationL2Nudge = fingerprint) then svc_done 0
      else
        let newAnnotations := <[AnnotationL2Nudge := fingerprint]> annotations in
        match sve_update env newAnnotations with
        | Some e => svc_failed (FailNudge e)
        | None => mkSvcResult [newAnnotations] [] 0 None
        end
    else svc_done 60.

(** ** Release *)

(** The fields and the records describing them. *)
Definition released_fields : list (string * string) :=
  [(AnnotationCiliumIPs, AnnotationManagedIPs); (AnnotationKubevipLBIPs, AnnotationManagedIPs);
   (AnnotationExternalDNSTarget, AnnotationManagedTargets)].

Definition release_field (annotations : gmap string string) (acc : gmap string string * bool)
    (field : string * string) : gmap string string * bool :=
  let '(newAnnotations, changed) := acc in
  let '(fieldKey, recordKey) := field in
  match annotations !! recordKey with
  | None => (newAnnotations, changed)
  | Some recordValue =>
      let record := parseOwnershipRecord (Some recordValue) in
      let remaining := join "," (preserveUnownedIPs (ann annotations fieldKey) record []) in
      (delete recordKey (set_or_delete fieldKey remaining newAnnotations), true)
  end.

Definition releaseService (env : svc_env) (annotations : gmap string string) : svc_result :=
  let (new1, changed) := foldl (release_field annotations) (annotations, false) released_fields in
  if negb changed then svc_done 0
  else
    let newAnnotations := delete AnnotationL2Nudge (delete AnnotationLastSync new1) in
    match sve_update env newAnnotations with
    | Some e => svc_failed (FailRelease e)
    | None => mkSvcResult [newAnnotations] [EvServiceReleased] 0 None
    end.

(** ** Reconcile *)

Definition in_ha_mode (dp : DynamicPrefix) : bool :=
  match sp_Transition (dp_Spec dp) with
  | None => false
  | Some t => bool_decide (tr_Mode t = TransitionModeHA)
  end.

(** The annotations for a Service with these addresses, and whether they differ
    from what it has. *)
Record sync_plan : Type := mkPlan {
  pl_annotations : gmap string string;
  pl_updated : bool;
  pl_deferred : bool
}.

Definition plan_annotations (configured ingress : list string) (annotations : gmap string string)
    (lbAddressField : string) (allIPs : list string) (currentIP : string)
    (managedPrefixes : list netip.Prefix) : sync_plan :=
  let ipsRecord := parseOwnershipRecord (annotations !! AnnotationManagedIPs) in
  let preservedIPs := preserveUnownedIPs (ann annotations lbAddressField) ipsRecord managedPrefixes in
  let claimedIPs := excludePinned allIPs preservedIPs in
  let finalIPsStr := join "," (dedupePreservingOrder (preservedIPs ++ allIPs)) in
  let (new1, updated1) := writeLBAddresses annotations annotations lbAddressField finalIPsStr ipsRecord managedPrefixes in
  let managedIPsStr := formatOwnershipRecord claimedIPs in
  let updated2 := negb (bool_decide (ann annotations AnnotationManagedIPs = managedIPsStr)) in
  let new2 := if updated2 then <[AnnotationManagedIPs := managedIPsStr]> new1 else new1 in
  let skipExternalDNS := bool_decide (ann annotations AnnotationSkipExternalDNSUpdate = AnnotationValueTrue) in
  let dns := syncExternalDNSTarget configured ingress annotations new2 currentIP managedPrefixes skipExternalDNS in
  mkPlan (dns_annotations dns) (updated1 || updated2 || dns_updated dns) (dns_deferred dns).

(** Writing the plan, then the nudge, which sees the Service as it was written. *)
Definition apply_plan (env : svc_env) (provider : lb_provider) (annotations : gmap string string)
    (ingress : list string) (currentIP : string) (plan : sync_plan) : svc_result :=
  let stamped := <[AnnotationLastSync := sve_now env]> (pl_annotations plan) in
  match (if pl_updated plan then sve_update env stamped else None) with
  | Some e => svc_failed (FailUpdate e)
  | None =>
      let (writes, current) := if pl_updated plan then ([stamped], stamped) else ([], annotations) in
      if decide (provider = lbProviderCilium) then
        let nudge := nudgeL2Announcer env current ingress currentIP in
        match sr_err nudge with
        | Some e => mkSvcResult writes [] (sr_after nudge) (Some e)
        | None => mkSvcResult (writes ++ sr_writes nudge) []
                    (requeueIfDNSTargetDeferred (sr_after nudge) (pl_deferred plan)) None
        end
      else mkSvcResult writes [] (requeueIfDNSTargetDeferred 0 (pl_deferred plan)) None
  end.

Definition sync_service (configured : list string) (env : svc_env) (svc : Service) (dp : DynamicPrefix)
    : option svc_result :=
  let annotations := sv_annotations svc in
  match addressesForService dp (sv_ingress svc) annotations with
  | Panic => None
  | Fail e => Some (svc_failed (FailAddresses e))
  | Ret (WaitFor wait) => Some (svc_done wait)
  | Ret (Addresses allIPs currentIP) =>
      if decide (allIPs = [] \/ currentIP = EmptyString) then Some (svc_done 30)
      else
        match lbAddressAnnotationFor annotations with
        | None => Some (mkSvcResult [] [EvInvalidLBProvider] 0 (Some (FailProvider (ann annotations AnnotationLBProvider))))
        | Some (provider, lbAddressField) =>
            let plan := plan_annotations configured (sv_ingress svc) annotations lbAddressField allIPs currentIP
                          (collectManagedPrefixes dp) in
            Some (apply_plan env provider annotations (sv_ingress svc) currentIP plan)
        end
  end.

(** [None]: a panic. *)
Definition Reconcile (configured : list string) (env : svc_env) (read : Service + api_error) : option svc_result :=
  match read with
  | inr NotFound => Some (svc_done 0)
  | inr (OtherError e) => Some (svc_failed (FailGetService e))
  | inl svc =>
      let annotations := sv_annotations svc in
      let release_or after := if hasOwnershipRecord annotations then releaseService env annotations else svc_done after in
      if negb (sv_LoadBalancer svc) then Some (svc_done 0)
      else
        match annotations !! AnnotationName with
        | None => Some (release_or 0)
        | Some dpName =>
            match sve_get env dpName with
            | DPError NotFound => Some (release_or 30)
            | DPError (OtherError e) => Some (svc_failed (FailGetPrefix dpName e))
            | DPFound dp =>
                if negb (in_ha_mode dp) then Some (release_or 0)
                else if decide (st_CurrentPrefix (dp_Status dp) = EmptyString) then Some (svc_done 30)
                else sync_service configured env svc dp
            end
        end
  end.

(** * Lemmas *)

(** ** A comma-separated field shared with the user *)

(** The entries of a normal form the text already has. *)
Definition keys_of (l : list string) : gset string := list_to_set (canonicalEntry <$> l).

Lemma elem_keys_of c l : c ∈ keys_of l <-> exists x, x ∈ l /\ canonicalEntry x = c.
Proof.
  unfold keys_of. rewrite elem_of_list_to_set, list_elem_of_fmap. split; intros (x & H1 & H2); exists x; by split.
Qed.

Lemma keys_of_cons x l : keys_of (x :: l) = {[canonicalEntry x]} ∪ keys_of l.
Proof. done. Qed.

Lemma keys_seen x l (seen : gset string) : canonicalEntry x ∈ seen -> keys_of (x :: l) ∪ seen = keys_of l ∪ seen.
Proof.
  intros H. rewrite keys_of_cons, (union_comm_L {[_]}), <- union_assoc_L.
  by rewrite (subseteq_union_1_L {[_]} seen) by by apply singleton_subseteq_l.
Qed.

Lemma keys_new x l (seen : gset string) : keys_of (x :: l) ∪ seen = keys_of l ∪ ({[canonicalEntry x]} ∪ seen).
Proof. by rewrite keys_of_cons, (union_comm_L {[_]}), <- union_assoc_L. Qed.

Lemma dedupe_from_app seen l1 l2 :
  dedupe_from seen (l1 ++ l2) = dedupe_from seen l1 ++ dedupe_from (keys_of l1 ∪ seen) l2.
Proof.
  revert seen. induction l1 as [|x l1 IH]; intros seen; cbn [app dedupe_from].
  { unfold keys_of. cbn. by rewrite union_empty_l_L. }
  case_decide as Hx.
  - by rewrite IH, keys_seen.
  - cbn [app]. by rewrite IH, keys_new.
Qed.

Lemma dedupe_from_elem seen l x : x ∈ dedupe_from seen l -> x ∈ l /\ canonicalEntry x ∉ seen.
Proof.
  revert seen. induction l as [|y l IH]; intros seen; cbn [dedupe_from]; [by intros ?%elem_of_nil|].
  case_decide.
  - intros [? ?]%IH. split; [by apply list_elem_of_further|done].
  - intros [->|[Hin Hn]%IH]%elem_of_cons; [split; [apply list_elem_of_here|done]|].
    split; [by apply list_elem_of_further|]. intros Hs. apply Hn, elem_of_union_r, Hs.
Qed.

Lemma dedupe_from_keys seen l : keys_of (dedupe_from seen l) ∪ seen = keys_of l ∪ seen.
Proof.
  revert seen. induction l as [|y l IH]; intros seen; cbn [dedupe_from]; [done|]. case_decide as Hy.
  - by rewrite IH, keys_seen.
  - by rewrite !keys_new, IH.
Qed.

Lemma dedupe_from_idem seen l : dedupe_from seen (dedupe_from seen l) = dedupe_from seen l.
Proof.
  revert seen. induction l as [|y l IH]; intros seen; cbn [dedupe_from]; [done|]. case_decide; [apply IH|].
  cbn [dedupe_from]. rewrite decide_False by done. by rewrite IH.
Qed.

Lemma dedupe_keys l : keys_of (dedupePreservingOrder l) = keys_of l.
Proof. pose proof (dedupe_from_keys empty l) as H. by rewrite !union_empty_r_L in H. Qed.

(** Deduplicating the head first changes nothing. *)
Lemma dedupe_app l1 l2 :
  dedupePreservingOrder (l1 ++ l2) = dedupePreservingOrder l1 ++ dedupe_from (keys_of l1) l2.
Proof. unfold dedupePreservingOrder. by rewrite dedupe_from_app, union_empty_r_L. Qed.

Lemma dedupe_app_head l1 l2 :
  dedupePreservingOrder (dedupePreservingOrder l1 ++ l2) = dedupePreservingOrder (l1 ++ l2).
Proof.
  rewrite !dedupe_app, dedupe_keys. f_equal. apply dedupe_from_idem.
Qed.

Lemma excludePinned_clean l pinned : Forall key_text l -> Forall key_text pinned ->
  excludePinned l pinned = filter (fun c => canonicalEntry c ∉ keys_of pinned) l.
Proof.
  intros Hl Hp. unfold excludePinned. cbv zeta.
  assert (list_to_set ((fun p => canonicalEntry (TrimSpace p)) <$> pinned) = keys_of pinned) as ->.
  { unfold keys_of. f_equal. apply list_fmap_ext. intros i x Hx. rewrite Forall_lookup in Hp.
    by destruct (Hp i x Hx) as (_ & -> & _). }
  induction Hl as [|x l (Hx1 & Hx2 & Hx3) Hl IH]; [done|]. rewrite !filter_cons, IH, Hx2. done.
Qed.

(** The field and its record hold the user's entries [U] and the operator's
    [mine]. *)
Definition comma_state (U mine : list string) (existing : string) (record : option string) : Prop :=
  dedupePreservingOrder U = U /\ Forall key_text U /\ Forall key_text mine /\
  existing = join "," (dedupePreservingOrder (U ++ mine)) /\
  record = Some (formatOwnershipRecord (excludePinned mine U)).

Lemma Forall_dedupe P l : Forall P l -> Forall P (dedupePreservingOrder l).
Proof. rewrite !Forall_forall. intros H x [Hx _]%dedupe_from_elem. by apply H. Qed.

Lemma Forall_kept {A} (P Q : A -> Prop) `{!forall x, Decision (Q x)} (l : list A) : Forall P l -> Forall P (filter Q l).
Proof. rewrite !Forall_forall. intros HP x [_ Hx]%list_elem_of_filter. by apply HP. Qed.

Lemma items_of_join l : Forall key_text l -> record_items (join "," l) = l.
Proof. exact (record_items_format l). Qed.

(** Reading the field back separates the two. *)
Lemma comma_preserve U mine existing record ms :
  comma_state U mine existing record -> preserveUnownedIPs existing (parseOwnershipRecord record) ms = U.
Proof.
  intros (HU & HkU & Hkm & -> & ->). unfold preserveUnownedIPs. cbn [parseOwnershipRecord rec_present negb].
  rewrite (items_of_join (dedupePreservingOrder (U ++ mine))) by by apply Forall_dedupe, Forall_app.
  rewrite dedupe_app, HU, filter_app.
  assert (Forall key_text (excludePinned mine U)) as Hke.
  { rewrite excludePinned_clean by done. by apply Forall_kept. }
  rewrite filter_all_true, filter_all_false; [apply app_nil_r| |]; intros x Hx; rewrite (owns_format (excludePinned mine U)) by done.
  - apply dedupe_from_elem in Hx as [Hx Hn]. rewrite bool_decide_true; [done|].
    apply list_elem_of_fmap. exists x. split; [done|]. rewrite excludePinned_clean by done. by apply list_elem_of_filter.
  - apply bool_decide_false. intros (c & Hc & Hin)%list_elem_of_fmap. rewrite excludePinned_clean in Hin by done.
    apply list_elem_of_filter in Hin as [Hn _]. apply Hn, elem_keys_of. by exists x.
Qed.

Lemma comma_next U mine existing record mine' ms :
  comma_state U mine existing record -> Forall key_text mine' ->
  let preserved := preserveUnownedIPs existing (parseOwnershipRecord record) ms in
  comma_state U mine' (join "," (dedupePreservingOrder (preserved ++ mine')))
    (Some (formatOwnershipRecord (excludePinned mine' preserved))).
Proof.
  intros Hs Hm. rewrite (comma_preserve U mine) by done. destruct Hs as (HU & HkU & _). by repeat split.
Qed.

Lemma comma_first existing mine ms :
  Forall key_text (record_items existing) -> Forall key_text mine ->
  let preserved := preserveUnownedIPs existing (parseOwnershipRecord None) ms in
  comma_state (dedupePreservingOrder preserved) mine (join "," (dedupePreservingOrder (preserved ++ mine)))
    (Some (formatOwnershipRecord (excludePinned mine preserved))).
Proof.
  intros He Hm preserved.
  assert (Forall key_text preserved) as Hp by by apply Forall_kept.
  split; [apply dedupe_from_idem|]. split; [by apply Forall_dedupe|]. split; [done|].
  rewrite dedupe_app_head. split; [done|]. do 2 f_equal. rewrite !excludePinned_clean by eauto using Forall_dedupe.
  by rewrite dedupe_keys.
Qed.

(** A field nobody wrote to an address of a managed prefix has no entry equal to
    one the operator writes. *)
Lemma canonical_addr x s a : netiptext.ParseAddr s = Some a -> canonicalEntry x = canonicalEntry s -> netiptext.ParseAddr x = Some a.
Proof.
  intros Hs. unfold canonicalEntry at 2. rewrite Hs. pose proof (ParseAddr_wf s a Hs) as [Ha Hv].
  unfold canonicalEntry. destruct (netiptext.ParseAddr x) as [b|] eqn:Hx.
  - intros E. apply ParseAddr_wf in Hx as [Hb Hbv]. f_equal. by apply AddrString_inj.
  - destruct (netiptext.ParsePrefix x) as [p|] eqn:Hp.
    + intros E. apply ParsePrefix_wf in Hp as [Hpw Hpv]. pose proof (ParseAddr_PrefixString p Hpw Hpv) as Hn.
      rewrite E, ParseAddr_String in Hn by done. done.
    + intros ->. by rewrite ParseAddr_String in Hx.
Qed.

Lemma managed_not_pinned existing s ms :
  Forall key_text (record_items existing) -> unmanaged ms s = false ->
  canonicalEntry s ∉ keys_of (preserveUnownedIPs existing (parseOwnershipRecord None) ms).
Proof.
  intros He Hs (x & Hx & E)%elem_keys_of. apply list_elem_of_filter in Hx as [Hu _]. unfold unmanaged in *.
  destruct (netiptext.ParseAddr s) as [a|] eqn:Ha; [|done]. rewrite (canonical_addr x s a) in Hu by done. congruence.
Qed.

(** ** Writing annotations *)

Lemma set_or_delete_lookup key v m k :
  set_or_delete key v m !! k = if decide (k = key) then (if decide (v = EmptyString) then None else Some v) else m !! k.
Proof.
  unfold set_or_delete. destruct (decide (v = EmptyString)), (decide (k = key)) as [->|]; by simplify_map_eq.
Qed.

Lemma ann_set_or_delete key v m : ann (set_or_delete key v m) key = v.
Proof. unfold ann. rewrite set_or_delete_lookup, decide_True by done. by case_decide as H; [rewrite H|]. Qed.

Lemma ann_same m m' k : m' !! k = m !! k -> ann m' k = ann m k.
Proof. unfold ann. by intros ->. Qed.

Lemma insert_all_lookup (keys : list string) (v : string) (m : gmap string string) k :
  foldl (fun new key => <[key := v]> new) m keys !! k = if decide (k ∈ keys) then Some v else m !! k.
Proof.
  revert m. induction keys as [|key keys IH]; intros m; cbn [foldl].
  { rewrite decide_False by by intros ?%elem_of_nil. done. }
  rewrite IH. destruct (decide (k ∈ keys)) as [Hk|Hk].
  { rewrite decide_True by by apply list_elem_of_further. done. }
  destruct (decide (k = key)) as [->|Hne].
  - rewrite lookup_insert_eq, decide_True by apply list_elem_of_here. done.
  - rewrite lookup_insert_ne, decide_False; [done|by intros [?|?]%elem_of_cons|done].
Qed.

Lemma join_ne x l : x <> EmptyString -> join "," (x :: l) <> EmptyString.
Proof. destruct x as [|c x]; [done|]. by destruct l. Qed.

(** Releasing leaves the other keys alone. *)
Lemma release_targets_other annotations record ms keys new k :
  k ∉ keys -> (release_targets annotations record ms keys new).1 !! k = new !! k.
Proof.
  unfold release_targets. change (new !! k) with ((new, false).1 !! k). generalize (new, false). clear new.
  induction keys as [|key keys IH]; intros acc Hk; [done|].
  cbn [foldl]. apply not_elem_of_cons in Hk as [Hne Hk]. rewrite IH by done. unfold release_target.
  destruct (annotations !! key) as [v|]; [|done]. cbn [fst]. by rewrite set_or_delete_lookup, decide_False.
Qed.

(** The keys external DNS is concerned with. *)
Definition dns_keys (configured : list string) : list string :=
  AnnotationManagedTargets :: targetAnnotationKeys configured ++ knownExternalDNSTargetAnnotationKeys.

Lemma releasable_sub configured k : k ∈ releasableTargetAnnotationKeys configured ->
  k ∈ knownExternalDNSTargetAnnotationKeys /\ k ∉ targetAnnotationKeys configured.
Proof. by intros [? ?]%list_elem_of_filter. Qed.

Lemma syncExternalDNSTarget_other configured ingress annotations new currentIP ms skip k :
  k ∉ dns_keys configured ->
  dns_annotations (syncExternalDNSTarget configured ingress annotations new currentIP ms skip) !! k = new !! k.
Proof.
  intros [Hm [Ht Hk]%not_elem_of_app]%not_elem_of_cons. unfold syncExternalDNSTarget. destruct skip; cbn [negb].
  - destruct (rec_present _); cbn [negb dns_annotations]; [|done]. rewrite lookup_delete_ne by done.
    generalize dependent knownExternalDNSTargetAnnotationKeys. intros keys Hk. revert new.
    induction keys as [|key keys IH]; intros new; [done|]. cbn [foldl]. apply not_elem_of_cons in Hk as [Hne Hk].
    rewrite IH by done. destruct (annotations !! key); [|done]. case_decide; [done|].
    by rewrite set_or_delete_lookup, decide_False.
  - pose proof (release_targets_other annotations (parseOwnershipRecord (annotations !! AnnotationManagedTargets)) ms
      (releasableTargetAnnotationKeys configured) new k) as Hr.
    destruct (release_targets _ _ _ _ _) as [new1 released]. cbn [fst dns_annotations] in *.
    rewrite <- Hr by by intros [? _]%releasable_sub. cbv zeta.
    set (publish := (negb _ && _)%bool). set (moves := (allAnnotationsEqual _ _ _ && _)%bool).
    destruct moves; [rewrite lookup_insert_ne by done|]; destruct publish; try done;
      by rewrite insert_all_lookup, decide_False.
Qed.

(** ** The plan *)

Definition lb_fields : list string := [AnnotationCiliumIPs; AnnotationKubevipLBIPs].

(** The configured target keys are none of the operator's other annotations. *)
Definition keys_ok (configured : list string) : Prop :=
  forall k, k ∈ [AnnotationCiliumIPs; AnnotationKubevipLBIPs; AnnotationManagedIPs; AnnotationManagedTargets;
                 AnnotationSkipExternalDNSUpdate; AnnotationLastSync; AnnotationL2Nudge] ->
  k ∉ targetAnnotationKeys configured.

Lemma keys_ok_other configured k : keys_ok configured ->
  k ∈ [AnnotationCiliumIPs; AnnotationKubevipLBIPs; AnnotationManagedIPs; AnnotationSkipExternalDNSUpdate] ->
  k ∉ dns_keys configured.
Proof.
  intros Hok Hk [->|[Ht|Hn]%elem_of_app]%elem_of_cons.
  - repeat (apply elem_of_cons in Hk as [Hk|Hk]; [discriminate Hk|]). by apply elem_of_nil in Hk.
  - apply (Hok k); [|done]. repeat (apply elem_of_cons in Hk as [->|Hk]; [set_solver|]). by apply elem_of_nil in Hk.
  - repeat (apply elem_of_cons in Hn as [->|Hn];
      [repeat (apply elem_of_cons in Hk as [Hk|Hk]; [discriminate Hk|]); by apply elem_of_nil in Hk|]).
    by apply elem_of_nil in Hn.
Qed.

(** Membership in a list of constants. *)
Ltac list_mem := apply (bool_decide_unpack _); vm_compute; exact I.

Lemma lb_field_cases field : field ∈ lb_fields -> field = AnnotationCiliumIPs \/ field = AnnotationKubevipLBIPs.
Proof. intros [->|[->|H%elem_of_nil]%elem_of_cons]%elem_of_cons; [by left|by right|done]. Qed.

Lemma other_field field : field ∈ lb_fields -> otherLBAddressAnnotation field ∈ lb_fields /\ otherLBAddressAnnotation field <> field.
Proof. intros [->| ->]%lb_field_cases; (split; [list_mem|discriminate]). Qed.

Lemma lb_field_keys configured field : keys_ok configured -> field ∈ lb_fields ->
  (field ∉ dns_keys configured) /\ (AnnotationManagedIPs ∉ dns_keys configured) /\ field <> AnnotationManagedIPs.
Proof.
  intros Hok Hf. assert (AnnotationManagedIPs ∉ dns_keys configured) by (apply keys_ok_other; [done|list_mem]).
  apply lb_field_cases in Hf as [->| ->]; (split; [apply keys_ok_other; [done|list_mem]|done]).
Qed.

(** What a plan says about the two address fields and their record. *)
Lemma plan_addresses configured ingress annotations field allIPs currentIP ms :
  keys_ok configured -> field ∈ lb_fields ->
  let preserved := preserveUnownedIPs (ann annotations field) (parseOwnershipRecord (annotations !! AnnotationManagedIPs)) ms in
  let claimed := formatOwnershipRecord (excludePinned allIPs preserved) in
  let pl := pl_annotations (plan_annotations configured ingress annotations field allIPs currentIP ms) in
  ann pl field = join "," (dedupePreservingOrder (preserved ++ allIPs)) /\
  ann pl AnnotationManagedIPs = claimed /\
  (is_Some (annotations !! AnnotationManagedIPs) \/ claimed <> EmptyString -> pl !! AnnotationManagedIPs = Some claimed) /\
  ann pl (otherLBAddressAnnotation field) =
    (if decide (ann annotations (otherLBAddressAnnotation field) = EmptyString) then EmptyString
     else join "," (preserveUnownedIPs (ann annotations (otherLBAddressAnnotation field))
                      (parseOwnershipRecord (annotations !! AnnotationManagedIPs)) ms)).
Proof.
  intros Hok Hf. pose proof (other_field field Hf) as [Hof Hne].
  destruct (lb_field_keys configured field Hok Hf) as (Hk & Hm & Hfm).
  destruct (lb_field_keys configured _ Hok Hof) as (Hok' & _ & Hofm).
  cbv zeta. unfold plan_annotations. cbv zeta.
  set (preserved := preserveUnownedIPs (ann annotations field) _ ms).
  set (final := join "," (dedupePreservingOrder (preserved ++ allIPs))).
  set (claimed := formatOwnershipRecord (excludePinned allIPs preserved)).
  unfold writeLBAddresses. set (other := otherLBAddressAnnotation field) in *.
  set (new1 := if negb (bool_decide (ann annotations field = final)) then <[field:=final]> annotations else annotations).
  assert (forall k, k <> field -> new1 !! k = annotations !! k) as Hn1.
  { intros k Hkf. unfold new1. case_match; [by rewrite lookup_insert_ne|done]. }
  assert (ann new1 field = final) as Hnf.
  { unfold new1. case_bool_decide; cbn [negb]; [done|]. unfold ann. by rewrite lookup_insert_eq. }
  set (rest := join "," (preserveUnownedIPs (ann annotations other) _ ms)).
  set (pair := if decide (ann annotations other = EmptyString) then _ else _).
  assert (ann pair.1 field = final /\ pair.1 !! AnnotationManagedIPs = annotations !! AnnotationManagedIPs /\
          ann pair.1 other = (if decide (ann annotations other = EmptyString) then EmptyString else rest)) as (Hp1 & Hp2 & Hp3).
  { unfold pair. destruct (decide (ann annotations other = EmptyString)) as [He|He]; cbn [fst].
    - split; [done|]. split; [by apply Hn1|]. unfold ann. by rewrite Hn1.
    - rewrite ann_set_or_delete, set_or_delete_lookup, decide_False by done. split; [|split; [by apply Hn1|done]].
      rewrite <- Hnf. apply ann_same. by rewrite set_or_delete_lookup, decide_False. }
  destruct pair as [new1' updated1]. cbn [fst] in *. cbn [pl_annotations].
  match goal with |- context [syncExternalDNSTarget _ _ _ ?n _ _ ?sk] => set (new2 := n); set (skip := sk) end.
  set (d := dns_annotations _).
  assert (forall k, k ∉ dns_keys configured -> d !! k = new2 !! k) as Hd by (intros; by apply syncExternalDNSTarget_other).
  rewrite (ann_same new2 d field), (ann_same new2 d other), (ann_same new2 d AnnotationManagedIPs), (Hd AnnotationManagedIPs)
    by auto. clear Hd. clearbody d. unfold new2. case_bool_decide as Hc; cbn [negb].
  - split; [exact Hp1|]. split; [unfold ann in *; by rewrite Hp2|]. split; [|exact Hp3].
    intros Hs. rewrite Hp2. unfold ann in Hc. destruct (annotations !! AnnotationManagedIPs) as [v|]; cbn in *; [by rewrite Hc|].
    destruct Hs as [[? ?]|Hs]; congruence.
  - unfold ann. rewrite lookup_insert_eq, !lookup_insert_ne by done. split; [exact Hp1|]. split; [done|]. split; [done|exact Hp3].
Qed.

(** ** Release *)

Definition text_option (s : string) : option string := if decide (s = EmptyString) then None else Some s.

Lemma default_text s : default EmptyString (text_option s) = s.
Proof. unfold text_option. by case_decide as H; [rewrite H|]. Qed.

Lemma release_field_lookup annotations acc fk rk k :
  (release_field annotations acc (fk, rk)).1 !! k =
  match annotations !! rk with
  | None => acc.1 !! k
  | Some v =>
      if decide (k = rk) then None
      else if decide (k = fk) then
        text_option (join "," (preserveUnownedIPs (ann annotations fk) (parseOwnershipRecord (Some v)) []))
      else acc.1 !! k
  end.
Proof.
  destruct acc as [m b]. cbn [release_field]. destruct (annotations !! rk) as [v|]; cbn [fst]; [|done].
  destruct (decide (k = rk)) as [->|Hk]; [by rewrite lookup_delete_eq|].
  by rewrite lookup_delete_ne, set_or_delete_lookup by done.
Qed.

Lemma release_field_changed annotations acc fk rk :
  (release_field annotations acc (fk, rk)).2 = match annotations !! rk with None => acc.2 | Some _ => true end.
Proof. destruct acc. cbn. by destruct (annotations !! rk). Qed.

(** What a release writes, key by key. *)
Definition released_value (annotations : gmap string string) (k : string) : option string :=
  (foldl (release_field annotations) (annotations, false) released_fields).1 !! k.

Lemma releaseService_writes env annotations :
  is_Some (annotations !! AnnotationManagedIPs) \/ is_Some (annotations !! AnnotationManagedTargets) ->
  (forall w, sve_update env w = None) ->
  exists w, releaseService env annotations = mkSvcResult [w] [EvServiceReleased] 0 None /\
    w !! AnnotationLastSync = None /\ w !! AnnotationL2Nudge = None /\
    forall k, k <> AnnotationLastSync -> k <> AnnotationL2Nudge -> w !! k = released_value annotations k.
Proof.
  intros Hr Hu. unfold releaseService, released_value.
  assert ((foldl (release_field annotations) (annotations, false) released_fields).2 = true) as Hc.
  { unfold released_fields. cbn [foldl]. rewrite !release_field_changed.
    by destruct (annotations !! AnnotationManagedIPs), (annotations !! AnnotationManagedTargets), Hr as [[? ?]|[? ?]]. }
  destruct (foldl _ _ _) as [new1 changed]. cbn [fst snd] in *. rewrite Hc, Hu. eexists. split; [reflexivity|].
  split; [by rewrite lookup_delete_ne, lookup_delete_eq|]. split; [apply lookup_delete_eq|].
  intros k H1 H2. by rewrite !lookup_delete_ne.
Qed.

Lemma released_addresses annotations r :
  annotations !! AnnotationManagedIPs = Some r ->
  released_value annotations AnnotationManagedIPs = None /\
  forall field, field ∈ lb_fields -> released_value annotations field =
    text_option (join "," (preserveUnownedIPs (ann annotations field) (parseOwnershipRecord (Some r)) [])).
Proof.
  intros Hr. unfold released_value, released_fields. cbn [foldl]. split.
  - rewrite !release_field_lookup, Hr. by destruct (annotations !! AnnotationManagedTargets).
  - intros field [->|[->|H%elem_of_nil]%elem_of_cons]%elem_of_cons; [..|done];
      rewrite !release_field_lookup, Hr; by destruct (annotations !! AnnotationManagedTargets).
Qed.

Lemma released_targets annotations t :
  annotations !! AnnotationManagedTargets = Some t ->
  released_value annotations AnnotationManagedTargets = None /\
  released_value annotations AnnotationExternalDNSTarget =
    text_option (join "," (preserveUnownedIPs (ann annotations AnnotationExternalDNSTarget) (parseOwnershipRecord (Some t)) [])) /\
  released_value annotations AnnotationExternalDNSTargetNew = annotations !! AnnotationExternalDNSTargetNew.
Proof.
  intros Ht. unfold released_value, released_fields. cbn [foldl].
  rewrite !release_field_lookup, Ht. by destruct (annotations !! AnnotationManagedIPs).
Qed.

Lemma released_other annotations k :
  k ∉ [AnnotationCiliumIPs; AnnotationKubevipLBIPs; AnnotationExternalDNSTarget; AnnotationManagedTargets; AnnotationManagedIPs] ->
  released_value annotations k = annotations !! k.
Proof.
  intros Hk. unfold released_value, released_fields. cbn [foldl]. rewrite !release_field_lookup.
  do 5 apply not_elem_of_cons in Hk as [? Hk].
  destruct (annotations !! AnnotationManagedTargets), (annotations !! AnnotationManagedIPs); by rewrite ?decide_False by done.
Qed.
