(* ===== verification/ServiceLife.v ===== *)
(** * The life of a Service

    Reconciles of one Service in sequence, over the handler of [ServiceSync]: the
    requested addresses from before the operator wrote to a Service to their
    release, the external-dns targets that follow the assigned address, the
    Service at rest, and what any single reconcile may do. *)

From stdpp Require Import sorting.
From S2P Require Import Prelude GoStrings Netip NetipText Policy Subnet AddressRange Receivers Factory.
From S2P Require Import DynamicPrefix Ownership PoolConfigs PoolBackends PoolSync ServiceAddrs ServiceSync.

(** A plan that changes nothing is the annotations themselves. *)
Lemma release_targets_true annotations record ms keys acc :
  acc.2 = true -> (foldl (release_target annotations record ms) acc keys).2 = true.
Proof.
  revert acc. induction keys as [|key keys IH]; intros acc Hacc; [done|]. cbn [foldl]. apply IH. unfold release_target.
  by destruct (annotations !! key).
Qed.

Lemma release_targets_unchanged annotations record ms keys new :
  (release_targets annotations record ms keys new).2 = false -> (release_targets annotations record ms keys new).1 = new.
Proof.
  unfold release_targets. induction keys as [|key keys IH]; [done|]. cbn [foldl].
  unfold release_target at 2 4. destruct (annotations !! key); [|exact IH].
  by rewrite release_targets_true.
Qed.

Lemma syncExternalDNSTarget_unchanged configured ingress annotations new currentIP ms skip :
  let d := syncExternalDNSTarget configured ingress annotations new currentIP ms skip in
  dns_updated d = false -> dns_annotations d = new.
Proof.
  unfold syncExternalDNSTarget. destruct skip; cbn [negb].
  - by destruct (rec_present _); cbn.
  - pose proof (release_targets_unchanged annotations (parseOwnershipRecord (annotations !! AnnotationManagedTargets)) ms
      (releasableTargetAnnotationKeys configured) new) as Hr.
    destruct (release_targets _ _ _ _ _) as [new1 released]. cbn [fst snd dns_updated dns_annotations] in *. cbv zeta.
    set (publish := (negb _ && _)%bool). set (moves := (allAnnotationsEqual _ _ _ && _)%bool).
    intros [[-> ->]%orb_false_iff ->]%orb_false_iff. by apply Hr.
Qed.

Lemma plan_unchanged configured ingress annotations field allIPs currentIP ms :
  let plan := plan_annotations configured ingress annotations field allIPs currentIP ms in
  pl_updated plan = false -> pl_annotations plan = annotations.
Proof.
  unfold plan_annotations, writeLBAddresses. cbv zeta. set (final := join "," _).
  destruct (decide (ann annotations (otherLBAddressAnnotation field) = EmptyString)); cbn [pl_updated pl_annotations].
  - intros [[H1 H2]%orb_false_iff H3]%orb_false_iff. rewrite syncExternalDNSTarget_unchanged by exact H3. by rewrite H2, H1.
  - done.
Qed.

(** ** Reconciles of one Service *)

(** What was calculated for a reconcile. *)
Record service_pass : Type := mkPass {
  ps_ingress : list string;
  ps_allIPs : list string;
  ps_currentIP : string;
  ps_managed : list netip.Prefix
}.

Definition good_pass (p : service_pass) : Prop :=
  ps_allIPs p <> [] /\ ps_currentIP p <> EmptyString /\ Forall key_text (ps_allIPs p).

Section Passes.
Context (configured : list string) (provider : lb_provider) (field : string).

Definition pass_plan (annotations : gmap string string) (p : service_pass) : sync_plan :=
  plan_annotations configured (ps_ingress p) annotations field (ps_allIPs p) (ps_currentIP p) (ps_managed p).

(** A reconcile in HA mode that has addresses and reports no error: the
    annotations before and after. *)
Inductive service_step (annotations : gmap string string) : service_pass -> gmap string string -> Prop :=
| step_reconcile env dpName dp ingress allIPs currentIP res :
    annotations !! AnnotationName = Some dpName -> sve_get env dpName = DPFound dp -> in_ha_mode dp = true ->
    st_CurrentPrefix (dp_Status dp) <> EmptyString ->
    addressesForService dp ingress annotations = Ret (Addresses allIPs currentIP) ->
    lbAddressAnnotationFor annotations = Some (provider, field) ->
    Reconcile configured env (inl (mkService true annotations ingress)) = Some res -> sr_err res = None ->
    service_step annotations (mkPass ingress allIPs currentIP (collectManagedPrefixes dp))
      (default annotations (last (sr_writes res))).

Inductive service_run : gmap string string -> list service_pass -> gmap string string -> Prop :=
| service_run_nil a : service_run a [] a
| service_run_cons a p a1 ps a2 : service_step a p a1 -> service_run a1 ps a2 -> service_run a (p :: ps) a2.

Lemma nudge_writes env current ingress currentIP :
  let res := nudgeL2Announcer env current ingress currentIP in
  sr_writes res = [] \/ exists fingerprint, sr_writes res = [<[AnnotationL2Nudge := fingerprint]> current].
Proof.
  unfold nudgeL2Announcer. case_decide; [by left|]. destruct (_ && _)%bool; [by left|].
  case_decide; [|by left]. case_decide; [by left|]. destruct (sve_update env _); [by left|]. right. by eexists.
Qed.

(** The write is the plan, stamped; the nudge may add its own annotation. *)
Lemma apply_plan_final env annotations ingress currentIP plan :
  let res := apply_plan env provider annotations ingress currentIP plan in
  (pl_updated plan = false -> pl_annotations plan = annotations) -> sr_err res = None ->
  forall k, k <> AnnotationLastSync -> k <> AnnotationL2Nudge ->
  default annotations (last (sr_writes res)) !! k = pl_annotations plan !! k.
Proof.
  intros res Hsame Herr k H1 H2. unfold res, apply_plan in *. clear res.
  destruct (if pl_updated plan then sve_update env _ else None) as [e|]; [done|].
  set (current := if pl_updated plan then <[AnnotationLastSync := sve_now env]> (pl_annotations plan) else annotations).
  assert (current !! k = pl_annotations plan !! k) as Hc.
  { unfold current. destruct (pl_updated plan); [by rewrite lookup_insert_ne|]. by rewrite Hsame. }
  assert ((if pl_updated plan then ([<[AnnotationLastSync := sve_now env]> (pl_annotations plan)],
             <[AnnotationLastSync := sve_now env]> (pl_annotations plan)) else ([], annotations)) =
          (if pl_updated plan then [current] else [], current)) as Hpair by (unfold current; by destruct (pl_updated plan)).
  rewrite Hpair in *. cbv beta iota zeta in *.
  assert (default annotations (last (if pl_updated plan then [current] else [])) = current) as Hlast
    by (unfold current; by destruct (pl_updated plan)).
  destruct (decide (provider = lbProviderCilium)); [|cbn [sr_writes]; by rewrite Hlast].
  pose proof (nudge_writes env current ingress currentIP) as Hn.
  destruct (sr_err (nudgeL2Announcer env current ingress currentIP)); [done|]. cbn [sr_writes].
  destruct Hn as [->|[fp ->]]; [by rewrite app_nil_r, Hlast|].
  rewrite last_snoc. cbn. by rewrite lookup_insert_ne.
Qed.

Lemma service_step_plan annotations p annotations' :
  service_step annotations p annotations' -> good_pass p ->
  forall k, k <> AnnotationLastSync -> k <> AnnotationL2Nudge ->
  annotations' !! k = pl_annotations (pass_plan annotations p) !! k.
Proof.
  intros [env dpName dp ingress allIPs currentIP res Hn Hg Hha Hcp Ha Hp HR Herr] (Hall & Hcur & _) k H1 H2.
  cbn [ps_ingress ps_allIPs ps_currentIP ps_managed] in *. unfold pass_plan. cbn [ps_ingress ps_allIPs ps_currentIP ps_managed].
  unfold Reconcile in HR. cbn [sv_annotations sv_LoadBalancer negb] in HR. rewrite Hn, Hg, Hha in HR. cbn [negb] in HR.
  rewrite decide_False in HR by done. unfold sync_service in HR. cbn [sv_annotations sv_ingress] in HR.
  rewrite Ha, decide_False, Hp in HR by by intros [?|?]. injection HR as <-.
  apply apply_plan_final; [apply plan_unchanged|exact Herr|done..].
Qed.

(** The address annotations while the Service is in the operator's care. *)
Definition addresses_kept (U mine : list string) (annotations : gmap string string) : Prop :=
  comma_state U mine (ann annotations field) (annotations !! AnnotationManagedIPs) /\
  ann annotations (otherLBAddressAnnotation field) = EmptyString.

Context (Hkeys : keys_ok configured) (Hfield : field ∈ lb_fields).

(** The three annotations after a step. *)
Lemma service_step_addresses annotations p annotations' :
  service_step annotations p annotations' -> good_pass p ->
  ann annotations (otherLBAddressAnnotation field) = EmptyString ->
  let preserved := preserveUnownedIPs (ann annotations field) (parseOwnershipRecord (annotations !! AnnotationManagedIPs)) (ps_managed p) in
  let claimed := formatOwnershipRecord (excludePinned (ps_allIPs p) preserved) in
  is_Some (annotations !! AnnotationManagedIPs) \/ claimed <> EmptyString ->
  ann annotations' field = join "," (dedupePreservingOrder (preserved ++ ps_allIPs p)) /\
  annotations' !! AnnotationManagedIPs = Some claimed /\
  ann annotations' (otherLBAddressAnnotation field) = EmptyString.
Proof.
  intros Hs Hg Ho preserved claimed Hc. pose proof (service_step_plan _ _ _ Hs Hg) as Hk.
  destruct (other_field field Hfield) as [Hof _].
  destruct (plan_addresses configured (ps_ingress p) annotations field (ps_allIPs p) (ps_currentIP p) (ps_managed p) Hkeys Hfield)
    as (H1 & _ & H3 & H4).
  rewrite decide_True in H4 by exact Ho.
  assert (forall f, f ∈ lb_fields -> ann annotations' f = ann (pl_annotations (pass_plan annotations p)) f) as Hann.
  { intros f Hf. apply ann_same, Hk; by apply lb_field_cases in Hf as [->| ->]. }
  split; [rewrite (Hann field Hfield); exact H1|]. split; [|rewrite (Hann _ Hof); exact H4].
  rewrite Hk by discriminate. exact (H3 Hc).
Qed.

Lemma service_first annotations p annotations' s :
  service_step annotations p annotations' -> good_pass p ->
  annotations !! AnnotationManagedIPs = None -> ann annotations (otherLBAddressAnnotation field) = EmptyString ->
  Forall key_text (record_items (ann annotations field)) -> s ∈ ps_allIPs p -> unmanaged (ps_managed p) s = false ->
  addresses_kept (dedupePreservingOrder (preserveUnownedIPs (ann annotations field) (parseOwnershipRecord None) (ps_managed p)))
    (ps_allIPs p) annotations'.
Proof.
  intros Hs Hg Hr Ho Hclean Hin Hm. pose proof Hg as (_ & _ & Htext).
  pose proof (comma_first (ann annotations field) (ps_allIPs p) (ps_managed p) Hclean Htext) as Hstate. cbv zeta in Hstate.
  destruct (service_step_addresses _ _ _ Hs Hg Ho) as (H1 & H2 & H3); rewrite Hr in *.
  - right. set (preserved := preserveUnownedIPs _ _ _) in *.
    assert (Forall key_text preserved) as Hp by by apply Forall_kept.
    rewrite excludePinned_clean by done.
    pose proof (managed_not_pinned (ann annotations field) s (ps_managed p) Hclean Hm) as Hn. fold preserved in Hn.
    assert (s ∈ filter (fun c => canonicalEntry c ∉ keys_of preserved) (ps_allIPs p)) as Hf by by apply list_elem_of_filter.
    assert (Forall key_text (filter (fun c => canonicalEntry c ∉ keys_of preserved) (ps_allIPs p))) as Hft by by apply Forall_kept.
    destruct (filter _ _) as [|x l]; [by apply elem_of_nil in Hf|]. apply Forall_cons in Hft as [[Hx _] _]. by apply join_ne.
  - split; [|exact H3]. rewrite H1, H2. exact Hstate.
Qed.

Lemma service_next U mine annotations p annotations' :
  service_step annotations p annotations' -> good_pass p -> addresses_kept U mine annotations ->
  addresses_kept U (ps_allIPs p) annotations'.
Proof.
  intros Hs Hg [Hc Ho]. pose proof Hg as (_ & _ & Htext).
  destruct (service_step_addresses _ _ _ Hs Hg Ho) as (H1 & H2 & H3).
  { left. destruct Hc as (_ & _ & _ & _ & ->). by eexists. }
  split; [|exact H3]. rewrite H1, H2. by apply (comma_next U mine).
Qed.

Lemma service_kept U mine annotations ps annotations' :
  service_run annotations ps annotations' -> Forall good_pass ps -> addresses_kept U mine annotations ->
  addresses_kept U (List.last (ps_allIPs <$> ps) mine) annotations'.
Proof.
  intros Hr. revert mine. induction Hr as [a|a p a1 ps a2 Hs Hr IH]; intros mine Hg Hk; [done|].
  apply Forall_cons in Hg as [Hp Hg]. pose proof (IH _ Hg (service_next U mine _ _ _ Hs Hp Hk)) as H.
  cbn [fmap list_fmap]. destruct ps as [|p' ps]; [exact H|]. cbn [fmap list_fmap] in *.
  replace (List.last _ mine) with (List.last (ps_allIPs p' :: (ps_allIPs <$> ps)) (ps_allIPs p)); [exact H|].
  clear. revert p'. induction ps as [|q ps IH]; intros p'; [done|]. apply IH.
Qed.
End Passes.

Lemma has_record annotations k r :
  k ∈ [AnnotationManagedIPs; AnnotationManagedTargets] -> annotations !! k = Some r -> hasOwnershipRecord annotations = true.
Proof.
  intros Hk Hr. unfold hasOwnershipRecord. apply existsb_exists. exists k. rewrite Hr. split; [|done].
  apply list_elem_of_In. apply elem_of_cons in Hk as [->|[->|H%elem_of_nil]%elem_of_cons]; [list_mem..|done].
Qed.

(** ** External DNS in a plan *)

(** A plan ends with the DNS step, on annotations that differ from the Service's
    only in the address fields and their record. *)
Lemma plan_dns configured ingress annotations field allIPs currentIP ms :
  field ∈ lb_fields ->
  let plan := plan_annotations configured ingress annotations field allIPs currentIP ms in
  exists new, (forall k, k ∉ [AnnotationCiliumIPs; AnnotationKubevipLBIPs; AnnotationManagedIPs] -> new !! k = annotations !! k) /\
    let dns := syncExternalDNSTarget configured ingress annotations new currentIP ms
                 (bool_decide (ann annotations AnnotationSkipExternalDNSUpdate = AnnotationValueTrue)) in
    pl_annotations plan = dns_annotations dns /\ pl_deferred plan = dns_deferred dns.
Proof.
  intros Hf. unfold plan_annotations, writeLBAddresses. cbv zeta.
  destruct (other_field field Hf) as [Hof _].
  assert (forall f k, f ∈ lb_fields -> k ∉ [AnnotationCiliumIPs; AnnotationKubevipLBIPs; AnnotationManagedIPs] -> k <> f) as Hne.
  { intros f k Hfl Hk ->. apply lb_field_cases in Hfl as [->| ->]; apply Hk; list_mem. }
  assert (forall k, k ∉ [AnnotationCiliumIPs; AnnotationKubevipLBIPs; AnnotationManagedIPs] -> k <> AnnotationManagedIPs) as Hnm.
  { intros k Hk ->. apply Hk. list_mem. }
  set (final := join "," _). set (new1 := if negb (bool_decide (ann annotations field = final)) then _ else _).
  assert (forall k, k ∉ [AnnotationCiliumIPs; AnnotationKubevipLBIPs; AnnotationManagedIPs] -> new1 !! k = annotations !! k) as Hn1.
  { intros k Hk. unfold new1. case_match; [|done]. rewrite lookup_insert_ne; [done|]. apply not_eq_sym. by apply Hne. }
  destruct (decide (ann annotations (otherLBAddressAnnotation field) = EmptyString)); cbn [pl_annotations pl_deferred];
    (eexists; split; [|by split]); intros k Hk; case_match;
    rewrite ?lookup_insert_ne by (apply not_eq_sym; by apply Hnm);
    rewrite ?set_or_delete_lookup, ?decide_False by (by apply Hne); by apply Hn1.
Qed.

(** The target to publish. *)
Definition dns_target (configured : list string) (annotations : gmap string string) (currentIP : string)
    (ms : list netip.Prefix) : string :=
  join "," (dedupePreservingOrder
    (preserveUnownedIPs (firstAnnotationValue annotations (targetAnnotationKeys configured))
       (parseOwnershipRecord (annotations !! AnnotationManagedTargets)) ms ++ [currentIP])).

Definition dns_record (configured : list string) (annotations : gmap string string) (currentIP : string)
    (ms : list netip.Prefix) : string :=
  formatOwnershipRecord (excludePinned [currentIP]
    (preserveUnownedIPs (firstAnnotationValue annotations (targetAnnotationKeys configured))
       (parseOwnershipRecord (annotations !! AnnotationManagedTargets)) ms)).

Definition dns_ready (ingress : list string) (currentIP : string) : Prop :=
  assignedLoadBalancerIPs ingress = [] \/ currentIP ∈ assignedLoadBalancerIPs ingress.

Lemma allAnnotationsEqual_spec m keys want :
  allAnnotationsEqual m keys want = true <-> forall k, k ∈ keys -> ann m k = want.
Proof.
  unfold allAnnotationsEqual. rewrite forallb_forall. split.
  - intros H k Hk%list_elem_of_In. by apply H, bool_decide_eq_true in Hk.
  - intros H k Hk%list_elem_of_In. by apply bool_decide_eq_true, H.
Qed.

(** The DNS step of a Service that has not opted out, on annotations that have
    its targets. *)
Lemma dns_step configured ingress annotations new currentIP ms :
  keys_ok configured ->
  (forall k, k ∈ dns_keys configured -> new !! k = annotations !! k) ->
  let dns := syncExternalDNSTarget configured ingress annotations new currentIP ms false in
  let target := dns_target configured annotations currentIP ms in
  let settled := allAnnotationsEqual annotations (targetAnnotationKeys configured) target in
  (~ dns_ready ingress currentIP ->
     (forall k, k ∈ targetAnnotationKeys configured -> dns_annotations dns !! k = annotations !! k) /\
     (settled = false -> dns_deferred dns = true /\
        dns_annotations dns !! AnnotationManagedTargets = annotations !! AnnotationManagedTargets)) /\
  (dns_ready ingress currentIP \/ settled = true ->
     (forall k, k ∈ targetAnnotationKeys configured -> ann (dns_annotations dns) k = target) /\
     ann (dns_annotations dns) AnnotationManagedTargets = dns_record configured annotations currentIP ms /\
     (is_Some (annotations !! AnnotationManagedTargets) \/ dns_record configured annotations currentIP ms <> EmptyString ->
        is_Some (dns_annotations dns !! AnnotationManagedTargets))).
Proof.
  intros Hok Hnew. cbv zeta. unfold syncExternalDNSTarget. cbn [negb]. cbv zeta. fold (dns_target configured annotations currentIP ms).
  fold (dns_record configured annotations currentIP ms).
  set (target := dns_target configured annotations currentIP ms).
  set (mt := dns_record configured annotations currentIP ms).
  set (keys := targetAnnotationKeys configured). set (settled := allAnnotationsEqual annotations keys target).
  set (record := parseOwnershipRecord (annotations !! AnnotationManagedTargets)).
  pose proof (fun k => release_targets_other annotations record ms (releasableTargetAnnotationKeys configured) new k) as Hr.
  destruct (release_targets _ _ _ _ _) as [new1 released]. cbn [fst dns_annotations dns_deferred] in *.
  assert (AnnotationManagedTargets ∉ keys) as HmK by (apply Hok; list_mem).
  assert (forall k, k ∈ keys -> k <> AnnotationManagedTargets) as Hkm by (intros k Hk ->; by apply HmK).
  assert (forall k, k ∈ keys -> new1 !! k = annotations !! k) as H1.
  { intros k Hk. rewrite Hr by (intros [_ ?]%releasable_sub; done). apply Hnew.
    apply list_elem_of_further, elem_of_app. by left. }
  assert (new1 !! AnnotationManagedTargets = annotations !! AnnotationManagedTargets) as H2.
  { rewrite Hr; [apply Hnew, list_elem_of_here|]. intros [Hk _]%releasable_sub. revert Hk.
    apply (bool_decide_unpack _). vm_compute. exact I. }
  assert (allAnnotationsEqual new1 keys target = settled) as H3.
  { apply eq_bool_prop_intro. unfold settled. rewrite !Is_true_true, !allAnnotationsEqual_spec.
    split; intros H k Hk; rewrite <- (H k Hk); apply ann_same; by rewrite H1. }
  assert (((bool_decide (assignedLoadBalancerIPs ingress = []) || bool_decide (currentIP ∈ assignedLoadBalancerIPs ingress))%bool = true)
    <-> dns_ready ingress currentIP) as Hready by by rewrite orb_true_iff, !bool_decide_eq_true.
  set (ready := (bool_decide _ || bool_decide _)%bool) in *.
  split; intros Hrdy.
  - assert (ready = false) as -> by (apply not_true_is_false; by rewrite Hready).
    rewrite andb_false_r, H3. split.
    + intros k Hk. case_match; [rewrite lookup_insert_ne by by apply not_eq_sym, Hkm|]; by apply H1.
    + intros Hs. fold settled in Hs. rewrite Hs. cbn. by split.
  - set (new2 := if (negb settled && ready)%bool then _ else _).
    assert (forall k, k ∈ keys -> ann new2 k = target) as Hn2.
    { intros k Hk. unfold new2. destruct settled eqn:Hs; cbn [negb andb].
      - rewrite <- (proj1 (allAnnotationsEqual_spec annotations keys target) Hs k Hk). by apply ann_same, H1.
      - destruct Hrdy as [Hrdy|Hset]; [|subst settled; congruence].
        rewrite (proj2 Hready Hrdy). unfold ann. by rewrite insert_all_lookup, decide_True. }
    assert (new2 !! AnnotationManagedTargets = annotations !! AnnotationManagedTargets) as Hm2.
    { unfold new2. destruct (negb settled && ready)%bool; [|done]. by rewrite insert_all_lookup, decide_False. }
    rewrite (proj2 (allAnnotationsEqual_spec new2 keys target) Hn2). cbn [andb]. case_bool_decide as Hc; cbn [negb].
    + split; [done|]. split; [by rewrite (ann_same annotations)|]. rewrite Hm2. intros [H|H]; [done|].
      rewrite <- Hc in H. unfold ann in H. by destruct (annotations !! AnnotationManagedTargets).
    + split; [|unfold ann; rewrite lookup_insert_eq; split; [done|by eexists]].
      intros k Hk. rewrite <- (Hn2 k Hk). apply ann_same, lookup_insert_ne. by apply not_eq_sym, Hkm.
Qed.

Lemma dns_keys_clear configured k : keys_ok configured -> k ∈ dns_keys configured ->
  k ∉ [AnnotationCiliumIPs; AnnotationKubevipLBIPs; AnnotationManagedIPs].
Proof.
  intros Hok Hk Hin. apply (keys_ok_other configured k Hok); [|done].
  repeat (apply elem_of_cons in Hin as [->|Hin]; [list_mem|]). by apply elem_of_nil in Hin.
Qed.

(** The DNS annotations after a reconcile of a Service that has not opted out. *)
Lemma service_step_dns configured provider field annotations p annotations' :
  keys_ok configured -> field ∈ lb_fields -> service_step configured provider field annotations p annotations' ->
  good_pass p -> ann annotations AnnotationSkipExternalDNSUpdate <> AnnotationValueTrue ->
  let target := dns_target configured annotations (ps_currentIP p) (ps_managed p) in
  let settled := allAnnotationsEqual annotations (targetAnnotationKeys configured) target in
  (~ dns_ready (ps_ingress p) (ps_currentIP p) ->
     (forall k, k ∈ targetAnnotationKeys configured -> annotations' !! k = annotations !! k) /\
     (settled = false -> annotations' !! AnnotationManagedTargets = annotations !! AnnotationManagedTargets)) /\
  (dns_ready (ps_ingress p) (ps_currentIP p) \/ settled = true ->
     (forall k, k ∈ targetAnnotationKeys configured -> ann annotations' k = target) /\
     ann annotations' AnnotationManagedTargets = dns_record configured annotations (ps_currentIP p) (ps_managed p) /\
     (is_Some (annotations !! AnnotationManagedTargets) \/
        dns_record configured annotations (ps_currentIP p) (ps_managed p) <> EmptyString ->
        is_Some (annotations' !! AnnotationManagedTargets))).
Proof.
  intros Hok Hf Hs Hg Hskip. cbv zeta. pose proof (service_step_plan _ _ _ _ _ _ Hs Hg) as Hk. unfold pass_plan in Hk.
  destruct (plan_dns configured (ps_ingress p) annotations field (ps_allIPs p) (ps_currentIP p) (ps_managed p) Hf)
    as (new & Hnew & Hpl & _).
  rewrite Hpl, (bool_decide_false (ann annotations AnnotationSkipExternalDNSUpdate = AnnotationValueTrue)) in Hk by done.
  destruct (dns_step configured (ps_ingress p) annotations new (ps_currentIP p) (ps_managed p) Hok) as [H1 H2].
  { intros k Hkd. apply Hnew. by eapply dns_keys_clear. }
  assert (forall k, k ∈ targetAnnotationKeys configured -> k <> AnnotationLastSync /\ k <> AnnotationL2Nudge) as Hne.
  { intros k Hkt. split; intros ->; apply (Hok _) in Hkt; (done || list_mem). }
  split; intros Hr.
  - destruct (H1 Hr) as [Ha Hb]. split.
    + intros k Hkt. destruct (Hne k Hkt). rewrite Hk by done. by apply Ha.
    + intros Hst. rewrite Hk by discriminate. by apply Hb.
  - destruct (H2 Hr) as (Ha & Hb & Hd). split; [|split].
    + intros k Hkt. destruct (Hne k Hkt). rewrite <- (Ha k Hkt). by apply ann_same, Hk.
    + rewrite <- Hb. by apply ann_same, Hk.
    + by rewrite Hk.
Qed.

(** ** A Service at rest *)

Lemma release_targets_none annotations record ms keys new :
  (forall k, k ∈ keys -> annotations !! k = None) -> release_targets annotations record ms keys new = (new, false).
Proof.
  unfold release_targets. induction keys as [|key keys IH]; intros H; [done|]. cbn [foldl]. unfold release_target at 2.
  rewrite H by apply list_elem_of_here. apply IH. intros k Hk. apply H. by apply list_elem_of_further.
Qed.

(** No key that was de-configured is still there. *)
Definition none_releasable (configured : list string) (annotations : gmap string string) : Prop :=
  forall k, k ∈ releasableTargetAnnotationKeys configured -> annotations !! k = None.

(** Every configured key holds the user's targets and [currentIP]. *)
Definition targets_kept (configured : list string) (Ut : list string) (currentIP : string)
    (annotations : gmap string string) : Prop :=
  exists target, target <> EmptyString /\
    (forall k, k ∈ targetAnnotationKeys configured -> ann annotations k = target) /\
    comma_state Ut [currentIP] target (annotations !! AnnotationManagedTargets).

Lemma first_of_equal annotations keys target :
  keys <> [] -> target <> EmptyString -> (forall k, k ∈ keys -> ann annotations k = target) ->
  firstAnnotationValue annotations keys = target.
Proof.
  intros Hk Ht H. destruct keys as [|k keys]; [done|]. cbn. specialize (H k (list_elem_of_here _ _)). unfold ann in H.
  destruct (annotations !! k); [done|]. cbn in H. congruence.
Qed.

Lemma targetAnnotationKeys_ne configured : targetAnnotationKeys configured <> [].
Proof. by destruct configured. Qed.

Lemma targets_kept_read configured Ut c annotations currentIP ms :
  targets_kept configured Ut c annotations ->
  dns_target configured annotations currentIP ms = join "," (dedupePreservingOrder (Ut ++ [currentIP])) /\
  dns_record configured annotations currentIP ms = formatOwnershipRecord (excludePinned [currentIP] Ut).
Proof.
  intros (t & Ht & Hk & Hc). unfold dns_target, dns_record.
  rewrite (first_of_equal annotations _ t) by (done || apply targetAnnotationKeys_ne).
  by rewrite (comma_preserve Ut [c]) by done.
Qed.

Lemma dedupe_ne U x : key_text x -> Forall key_text U -> join "," (dedupePreservingOrder (U ++ [x])) <> EmptyString.
Proof.
  intros Hx HU. assert (Forall key_text (dedupePreservingOrder (U ++ [x]))) as Hd.
  { apply Forall_dedupe, Forall_app. split; [done|]. by constructor. }
  assert (dedupePreservingOrder (U ++ [x]) <> []) as Hne.
  { intros E. pose proof (dedupe_keys (U ++ [x])) as Hk. rewrite E in Hk.
    assert (canonicalEntry x ∈ keys_of (U ++ [x])) as Hin.
    { apply elem_keys_of. exists x. split; [apply elem_of_app; right; apply list_elem_of_here|done]. }
    rewrite <- Hk in Hin. unfold keys_of in Hin. cbn in Hin. by apply elem_of_empty in Hin. }
  destruct (dedupePreservingOrder (U ++ [x])) as [|y l]; [done|]. apply Forall_cons in Hd as [[Hy _] _]. by apply join_ne.
Qed.

Section Rest.
Context (configured : list string) (provider : lb_provider) (field : string).
Context (Hkeys : keys_ok configured) (Hfield : field ∈ lb_fields).

(** Annotations the operator only reads, and de-configured keys that are gone. *)
Lemma service_step_reads annotations p annotations' k :
  service_step configured provider field annotations p annotations' -> good_pass p ->
  none_releasable configured annotations ->
  k = AnnotationSkipExternalDNSUpdate \/ k ∈ releasableTargetAnnotationKeys configured ->
  ann annotations AnnotationSkipExternalDNSUpdate <> AnnotationValueTrue ->
  annotations' !! k = annotations !! k.
Proof.
  intros Hs Hg Hno Hk Hskip.
  assert ((k ∉ AnnotationManagedTargets :: targetAnnotationKeys configured) /\
          (k ∉ [AnnotationCiliumIPs; AnnotationKubevipLBIPs; AnnotationManagedIPs]) /\
          k <> AnnotationLastSync /\ k <> AnnotationL2Nudge) as (Hd & Hc & H1 & H2).
  { destruct Hk as [->|[Hkn Hkt]%releasable_sub].
    - split; [|split; [list_mem|done]]. intros [H|H]%elem_of_cons; [discriminate H|].
      apply (Hkeys AnnotationSkipExternalDNSUpdate); [list_mem|done].
    - apply elem_of_cons in Hkn as [->|[->|H%elem_of_nil]%elem_of_cons]; [..|done];
        (split; [by intros [H|H]%elem_of_cons|split; [list_mem|done]]). }
  rewrite (service_step_plan _ _ _ _ _ _ Hs Hg k H1 H2). unfold pass_plan.
  destruct (plan_dns configured (ps_ingress p) annotations field (ps_allIPs p) (ps_currentIP p) (ps_managed p) Hfield)
    as (new & Hnew & -> & _). rewrite bool_decide_false by done. rewrite <- (Hnew k Hc).
  unfold syncExternalDNSTarget. cbn [negb]. rewrite release_targets_none by exact Hno. cbv zeta. cbn [dns_annotations].
  set (publish := (negb _ && _)%bool). set (moves := (allAnnotationsEqual _ _ _ && _)%bool).
  apply not_elem_of_cons in Hd as [Hm Ht].
  destruct moves; [rewrite lookup_insert_ne by by apply not_eq_sym|]; (destruct publish; [|done]);
    by rewrite insert_all_lookup, decide_False.
Qed.

(** The targets after a reconcile that may publish, and after one that may not. *)
Lemma targets_next Ut c annotations p annotations' :
  service_step configured provider field annotations p annotations' -> good_pass p -> key_text (ps_currentIP p) ->
  ann annotations AnnotationSkipExternalDNSUpdate <> AnnotationValueTrue -> targets_kept configured Ut c annotations ->
  exists c', targets_kept configured Ut c' annotations' /\
    (dns_ready (ps_ingress p) (ps_currentIP p) -> c' = ps_currentIP p).
Proof.
  intros Hs Hg Hcur Hskip Hk. pose proof (targets_kept_read configured Ut c annotations (ps_currentIP p) (ps_managed p) Hk) as [Ht Hr].
  destruct (service_step_dns configured provider field annotations p annotations' Hkeys Hfield Hs Hg Hskip) as [H1 H2].
  rewrite Ht in *. rewrite Hr in H2. pose proof Hk as (t & Htne & Htk & (HU & HtU & Htm & Hte & Hrec)).
  assert (Forall key_text [ps_currentIP p]) as Htc by by constructor.
  set (T := join "," (dedupePreservingOrder (Ut ++ [ps_currentIP p]))) in *.
  set (settled := allAnnotationsEqual annotations (targetAnnotationKeys configured) T) in *.
  assert ((dns_ready (ps_ingress p) (ps_currentIP p) \/ settled = true) \/
          (~ dns_ready (ps_ingress p) (ps_currentIP p) /\ settled = false)) as [Hrdy|[Hrdy Hset]].
  { unfold dns_ready. destruct (decide (assignedLoadBalancerIPs (ps_ingress p) = [] \/
      ps_currentIP p ∈ assignedLoadBalancerIPs (ps_ingress p))), settled; tauto. }
  - destruct (H2 Hrdy) as (Ha & Hb & Hd). exists (ps_currentIP p). split; [|done].
    exists T. split; [by apply dedupe_ne|]. split; [exact Ha|].
    repeat (split; [done|]). destruct (Hd ltac:(left; rewrite Hrec; by eexists)) as [r Hr']. unfold ann in Hb.
    rewrite Hr' in *. cbn in Hb. by rewrite Hb.
  - destruct (H1 Hrdy) as [Ha Hb]. exists c. split; [|done]. exists t. split; [done|].
    split; [intros k Hkt; rewrite <- (Htk k Hkt); by apply ann_same, Ha|]. by rewrite (Hb Hset).
Qed.

Lemma targets_first annotations p annotations' :
  service_step configured provider field annotations p annotations' -> good_pass p -> key_text (ps_currentIP p) ->
  ann annotations AnnotationSkipExternalDNSUpdate <> AnnotationValueTrue ->
  annotations !! AnnotationManagedTargets = None ->
  Forall key_text (record_items (firstAnnotationValue annotations (targetAnnotationKeys configured))) ->
  unmanaged (ps_managed p) (ps_currentIP p) = false -> dns_ready (ps_ingress p) (ps_currentIP p) ->
  exists Ut, targets_kept configured Ut (ps_currentIP p) annotations'.
Proof.
  intros Hs Hg Hcur Hskip Hr Hclean Hm Hrdy.
  destruct (service_step_dns configured provider field annotations p annotations' Hkeys Hfield Hs Hg Hskip) as [_ H2].
  destruct (H2 (or_introl Hrdy)) as (Ha & Hb & Hd). unfold dns_target, dns_record in *. rewrite Hr in *.
  set (preserved := preserveUnownedIPs _ _ _) in *.
  assert (Forall key_text [ps_currentIP p]) as Htc by by constructor.
  pose proof (comma_first _ [ps_currentIP p] (ps_managed p) Hclean Htc) as Hst. cbv zeta in Hst. fold preserved in Hst.
  exists (dedupePreservingOrder preserved), (join "," (dedupePreservingOrder (preserved ++ [ps_currentIP p]))).
  assert (Forall key_text preserved) as Hp by by apply Forall_kept.
  split; [by apply dedupe_ne|]. split; [exact Ha|].
  destruct Hd as [r Hr']; [right|].
  - rewrite excludePinned_clean, filter_cons_True, filter_nil by (done || by apply managed_not_pinned).
    destruct Hcur as [Hne _]. by apply join_ne.
  - unfold ann in Hb. rewrite Hr' in *. cbn in Hb. rewrite Hb. exact Hst.
Qed.

(** Targets through a run. *)
Lemma targets_run Ut c annotations ps annotations' :
  service_run configured provider field annotations ps annotations' -> Forall good_pass ps ->
  Forall (fun p => key_text (ps_currentIP p)) ps -> none_releasable configured annotations ->
  ann annotations AnnotationSkipExternalDNSUpdate <> AnnotationValueTrue -> targets_kept configured Ut c annotations ->
  none_releasable configured annotations' /\ ann annotations' AnnotationSkipExternalDNSUpdate <> AnnotationValueTrue /\
  exists c', targets_kept configured Ut c' annotations' /\
    (forall p, last ps = Some p -> dns_ready (ps_ingress p) (ps_currentIP p) -> c' = ps_currentIP p) /\
    (ps = [] -> c' = c).
Proof.
  intros Hr. revert c. induction Hr as [a|a p a1 ps a2 Hs Hr IH]; intros c Hg Ht Hno Hskip Hk.
  { split; [done|]. split; [done|]. by exists c. }
  apply Forall_cons in Hg as [Hgp Hg], Ht as [Htp Ht].
  destruct (targets_next Ut c a p a1 Hs Hgp Htp Hskip Hk) as (c1 & Hk1 & Hc1).
  pose proof (fun k Hk => service_step_reads a p a1 k Hs Hgp Hno Hk Hskip) as Hread.
  destruct (IH c1 Hg Ht) as (Hno2 & Hskip2 & c2 & Hk2 & Hc2 & Hc2'); [| |exact Hk1|].
  { intros k Hkr. rewrite Hread by by right. by apply Hno. }
  { by rewrite (ann_same a) by (apply Hread; by left). }
  split; [done|]. split; [done|]. exists c2. split; [done|]. split; [|done].
  intros q Hq Hrdy. destruct ps as [|p' ps]; [|by apply Hc2].
  injection Hq as <-. rewrite (Hc2' eq_refl). by apply Hc1.
Qed.

(** A plan that changes nothing leaves the Service alone, the nudge aside. *)
Lemma service_step_quiet annotations p annotations' :
  service_step configured provider field annotations p annotations' -> good_pass p ->
  pl_updated (pass_plan configured field annotations p) = false ->
  forall k, k <> AnnotationL2Nudge -> annotations' !! k = annotations !! k.
Proof.
  intros [env dpName dp ingress allIPs currentIP res Hn Hget Hha Hcp Ha Hp HR Herr] (Hall & Hcur & _) Hquiet k Hk.
  cbn [ps_ingress ps_allIPs ps_currentIP ps_managed] in *. unfold pass_plan in Hquiet.
  cbn [ps_ingress ps_allIPs ps_currentIP ps_managed] in Hquiet.
  unfold Reconcile in HR. cbn [sv_annotations sv_LoadBalancer negb] in HR. rewrite Hn, Hget, Hha in HR. cbn [negb] in HR.
  rewrite decide_False in HR by done. unfold sync_service in HR. cbn [sv_annotations sv_ingress] in HR.
  rewrite Ha, decide_False, Hp in HR by by intros [?|?]. injection HR as <-. unfold apply_plan in *. rewrite Hquiet in *.
  destruct (decide (provider = lbProviderCilium)); [|done].
  pose proof (nudge_writes env annotations ingress currentIP) as Hw.
  destruct (sr_err (nudgeL2Announcer env annotations ingress currentIP)); [done|]. cbn [sr_writes app].
  destruct Hw as [->|[fp ->]]; [done|]. cbn. by rewrite lookup_insert_ne.
Qed.

(** At rest: addresses and targets are those of the pass. *)
Lemma plan_at_rest U Ut annotations p :
  addresses_kept field U (ps_allIPs p) annotations -> targets_kept configured Ut (ps_currentIP p) annotations ->
  none_releasable configured annotations -> ann annotations AnnotationSkipExternalDNSUpdate <> AnnotationValueTrue ->
  pl_updated (pass_plan configured field annotations p) = false.
Proof.
  intros [Hc Ho] Ht Hno Hskip. pose proof (targets_kept_read configured Ut _ annotations (ps_currentIP p) (ps_managed p) Ht) as [HT HR].
  destruct Ht as (t & _ & Htk & (_ & _ & _ & Hte & Hrec)).
  unfold pass_plan, plan_annotations. rewrite (comma_preserve U (ps_allIPs p)) by exact Hc.
  destruct Hc as (_ & _ & _ & Hf & Hr). rewrite <- Hf. unfold writeLBAddresses. rewrite bool_decide_true by done. cbn [negb].
  rewrite decide_True by exact Ho. cbv zeta.
  rewrite (bool_decide_true (ann annotations AnnotationManagedIPs = _)) by (unfold ann; by rewrite Hr).
  cbn [negb orb pl_updated]. rewrite bool_decide_false by done. unfold syncExternalDNSTarget. cbn [negb].
  rewrite release_targets_none by exact Hno. cbv zeta. cbn [dns_updated orb].
  fold (dns_target configured annotations (ps_currentIP p) (ps_managed p)).
  fold (dns_record configured annotations (ps_currentIP p) (ps_managed p)). rewrite HT, HR, <- Hte.
  assert (allAnnotationsEqual annotations (targetAnnotationKeys configured) t = true) as Hall by by apply allAnnotationsEqual_spec.
  rewrite Hall. cbn [negb andb orb].
  rewrite (bool_decide_true (ann annotations AnnotationManagedTargets = _)); [by rewrite andb_false_r|].
  unfold ann. by rewrite Hrec.
Qed.
End Rest.

(** * Properties *)

(** The requested addresses of a Service from before the operator wrote to it:
    through any number of reconciles - prefixes coming and going, the status of
    the Service changing - the field lists the user's entries followed by the
    calculated addresses the user does not have, each once, and the record
    exactly what the operator put there; once the Service is de-annotated a
    reconcile hands back the user's entries and drops the record. *)
Theorem service_lifecycle (configured : list string) (provider : lb_provider) (field : string)
    (annotations annotations' : gmap string string) (first : service_pass) (later : list service_pass) (s : string) :
  keys_ok configured -> field ∈ lb_fields ->
  annotations !! AnnotationManagedIPs = None -> ann annotations (otherLBAddressAnnotation field) = EmptyString ->
  Forall key_text (record_items (ann annotations field)) -> Forall good_pass (first :: later) ->
  s ∈ ps_allIPs first -> unmanaged (ps_managed first) s = false ->
  service_run configured provider field annotations (first :: later) annotations' ->
  let user := dedupePreservingOrder (preserveUnownedIPs (ann annotations field) (parseOwnershipRecord None) (ps_managed first)) in
  let current := List.last (ps_allIPs <$> later) (ps_allIPs first) in
  record_items (ann annotations' field) = dedupePreservingOrder (user ++ current) /\
  annotations' !! AnnotationManagedIPs = Some (formatOwnershipRecord (excludePinned current user)) /\
  forall env ingress, (forall w, sve_update env w = None) ->
    exists w, Reconcile configured env (inl (mkService true (delete AnnotationName annotations') ingress)) =
                Some (mkSvcResult [w] [EvServiceReleased] 0 None) /\
      w !! field = text_option (join "," user) /\ record_items (ann w field) = user /\
      w !! AnnotationManagedIPs = None /\ ann w (otherLBAddressAnnotation field) = EmptyString.
Proof.
  intros Hkeys Hf Hr Ho Hclean Hg Hin Hm Hrun user current.
  inversion Hrun as [|a p a1 ps a2 Hs Hrest]; subst. apply Forall_cons in Hg as [Hg1 Hg2].
  pose proof (service_first _ _ _ Hkeys Hf _ _ _ s Hs Hg1 Hr Ho Hclean Hin Hm) as Hk1.
  pose proof (service_kept _ _ _ Hkeys Hf _ _ _ _ _ Hrest Hg2 Hk1) as [Hk Hother]. fold user current in Hk.
  pose proof Hk as (HU & HtU & Htm & Hfield & Hrec).
  split; [rewrite Hfield; apply items_of_join; by apply Forall_dedupe, Forall_app|]. split; [exact Hrec|].
  intros env ingress Hu. set (released := delete AnnotationName annotations').
  assert (released !! AnnotationManagedIPs = annotations' !! AnnotationManagedIPs) as HrM by by apply lookup_delete_ne.
  assert (forall f, f ∈ lb_fields -> ann released f = ann annotations' f) as HrF.
  { intros f H. apply ann_same, lookup_delete_ne. by apply lb_field_cases in H as [->| ->]. }
  rewrite Hrec in HrM. destruct (other_field field Hf) as [Hof _].
  destruct (releaseService_writes env released) as (w & Hw & _ & _ & Hwk); [left; by rewrite HrM|done|].
  exists w. destruct (released_addresses released _ HrM) as [H1 H2].
  assert (forall f, f ∈ lb_fields -> w !! f = released_value released f) as Hwf
    by (intros f H; apply Hwk; by apply lb_field_cases in H as [->| ->]).
  assert (w !! field = text_option (join "," user)) as Hwv.
  { rewrite Hwf, H2, HrF by done. do 2 f_equal. rewrite <- Hrec. by apply (comma_preserve user current). }
  split.
  { unfold Reconcile. cbn [sv_LoadBalancer sv_annotations negb]. unfold released at 1. rewrite lookup_delete_eq. fold released.
    rewrite (has_record released AnnotationManagedIPs _ ltac:(list_mem) HrM). by rewrite Hw. }
  split; [exact Hwv|]. split; [unfold ann; rewrite Hwv, default_text; by apply items_of_join|].
  split; [rewrite Hwk by discriminate; exact H1|].
  unfold ann. rewrite Hwf, H2, HrF, Hother by done. rewrite default_text. reflexivity.
Qed.

(** A Service after one reconcile. *)
Definition reconciled (configured : list string) (env : svc_env) (svc : Service) : gmap string string :=
  match Reconcile configured env (inl svc) with
  | Some res => default (sv_annotations svc) (last (sr_writes res))
  | None => sv_annotations svc
  end.

Definition no_error (r : option svc_result) : bool :=
  match r with Some res => match sr_err res with None => true | Some _ => false end | None => false end.

Lemma reconciled_step configured provider field env dpName dp annotations ingress allIPs currentIP :
  annotations !! AnnotationName = Some dpName -> sve_get env dpName = DPFound dp -> in_ha_mode dp = true ->
  st_CurrentPrefix (dp_Status dp) <> EmptyString ->
  addressesForService dp ingress annotations = Ret (Addresses allIPs currentIP) ->
  lbAddressAnnotationFor annotations = Some (provider, field) ->
  no_error (Reconcile configured env (inl (mkService true annotations ingress))) = true ->
  service_step configured provider field annotations (mkPass ingress allIPs currentIP (collectManagedPrefixes dp))
    (reconciled configured env (mkService true annotations ingress)).
Proof.
  intros Hn Hg Hha Hc Ha Hp He. unfold reconciled, no_error in *.
  destruct (Reconcile configured env (inl (mkService true annotations ingress))) as [res|] eqn:HR; [|done].
  cbn [sv_annotations]. destruct (sr_err res) eqn:Herr; [done|].
  by apply (step_reconcile configured provider field annotations env dpName dp ingress allIPs currentIP res).
Qed.

Definition sample_svc_env (now : string) (dp : DynamicPrefix) : svc_env :=
  mkSvcEnv now (fun _ => DPFound dp) (fun _ => None) None.

Definition sample_annotations : gmap string string :=
  {[ AnnotationName := "home"; AnnotationSuffix := "::ffff:0:2"; AnnotationCiliumIPs := "198.51.100.10";
     AnnotationExternalDNSTarget := "example.com" ]}.

Lemma sample_key_text (l : list string) :
  forallb (fun k => negb (bool_decide (k = EmptyString)) && bool_decide (TrimSpace k = k) &&
                    str_all (not_byte ",") k)%bool l = true -> Forall key_text l.
Proof.
  intros H. apply Forall_forall. intros k Hk%list_elem_of_In. rewrite forallb_forall in H. specialize (H k Hk).
  apply andb_true_iff in H as [[H1%negb_true_iff%bool_decide_eq_false H2%bool_decide_eq_true]%andb_true_iff H3].
  by split.
Qed.

Lemma default_keys_ok : keys_ok [].
Proof.
  assert (Forall (fun k => k ∉ targetAnnotationKeys [])
    [AnnotationCiliumIPs; AnnotationKubevipLBIPs; AnnotationManagedIPs; AnnotationManagedTargets;
     AnnotationSkipExternalDNSUpdate; AnnotationLastSync; AnnotationL2Nudge]) as H by list_mem.
  rewrite Forall_forall in H. exact H.
Qed.

(** Two reconciles across a rotation, then the release. *)
Lemma service_lifecycle_witness :
  let before := sample_service_dp "2001:db8:1::/48" [] in
  let after := sample_service_dp "2001:db8:2::/48" ["2001:db8:1::/48"] in
  let a1 := reconciled [] (sample_svc_env "t1" before) (mkService true sample_annotations []) in
  let a2 := reconciled [] (sample_svc_env "t2" after) (mkService true a1 ["2001:db8:1::ffff:0:2"]) in
  a1 !! AnnotationCiliumIPs = Some "198.51.100.10,2001:db8:1::ffff:0:2" /\
  a2 !! AnnotationCiliumIPs = Some "198.51.100.10,2001:db8:2::ffff:0:2,2001:db8:1::ffff:0:2" /\
  record_items (ann a2 AnnotationCiliumIPs) =
    ["198.51.100.10"; "2001:db8:2::ffff:0:2"; "2001:db8:1::ffff:0:2"] /\
  exists w, Reconcile [] (sample_svc_env "t3" after) (inl (mkService true (delete AnnotationName a2) [])) =
              Some (mkSvcResult [w] [EvServiceReleased] 0 None) /\ w !! AnnotationCiliumIPs = Some "198.51.100.10".
Proof.
  intros before after a1 a2. split; [vm_compute; reflexivity|]. split; [vm_compute; reflexivity|].
  assert (service_run [] lbProviderCilium AnnotationCiliumIPs sample_annotations
    [mkPass [] ["2001:db8:1::ffff:0:2"] "2001:db8:1::ffff:0:2" (collectManagedPrefixes before);
     mkPass ["2001:db8:1::ffff:0:2"] ["2001:db8:2::ffff:0:2"; "2001:db8:1::ffff:0:2"] "2001:db8:2::ffff:0:2"
       (collectManagedPrefixes after)] a2) as Hrun.
  { eapply service_run_cons; [apply (reconciled_step [] lbProviderCilium AnnotationCiliumIPs (sample_svc_env "t1" before) "home" before)|
    eapply service_run_cons; [apply (reconciled_step [] lbProviderCilium AnnotationCiliumIPs (sample_svc_env "t2" after) "home" after)|
    apply service_run_nil]]; (vm_compute; (reflexivity || discriminate)). }
  destruct (service_lifecycle [] lbProviderCilium AnnotationCiliumIPs sample_annotations a2
    (mkPass [] ["2001:db8:1::ffff:0:2"] "2001:db8:1::ffff:0:2" (collectManagedPrefixes before))
    [mkPass ["2001:db8:1::ffff:0:2"] ["2001:db8:2::ffff:0:2"; "2001:db8:1::ffff:0:2"] "2001:db8:2::ffff:0:2"
       (collectManagedPrefixes after)] "2001:db8:1::ffff:0:2") as (Hitems & _ & Hrel).
  - exact default_keys_ok.
  - list_mem.
  - vm_compute. reflexivity.
  - vm_compute. reflexivity.
  - apply sample_key_text. vm_compute. reflexivity.
  - constructor; [|constructor; [|constructor]]; (split; [discriminate|]; split; [discriminate|]);
      apply sample_key_text; vm_compute; reflexivity.
  - apply list_elem_of_here.
  - vm_compute. reflexivity.
  - exact Hrun.
  - split; [rewrite Hitems; vm_compute; reflexivity|].
    destruct (Hrel (sample_svc_env "t3" after) []) as (w & Hw & Hf & _); [reflexivity|].
    exists w. split; [exact Hw|]. rewrite Hf. vm_compute. reflexivity.
Defined.



Lemma last_is_default {A} (x d : A) l : last (x :: l) = Some (List.last (x :: l) d).
Proof. revert x. induction l as [|y l IH]; intros x; [done|]. exact (IH y). Qed.

(** A Service the operator has not written to yet, that leaves external DNS to it. *)
Record fresh_service (configured : list string) (field : string) (annotations : gmap string string) : Prop := {
  fs_ips : annotations !! AnnotationManagedIPs = None;
  fs_targets : annotations !! AnnotationManagedTargets = None;
  fs_other : ann annotations (otherLBAddressAnnotation field) = EmptyString;
  fs_optin : ann annotations AnnotationSkipExternalDNSUpdate <> AnnotationValueTrue;
  fs_keys : none_releasable configured annotations;
  fs_ips_text : Forall key_text (record_items (ann annotations field));
  fs_targets_text : Forall key_text (record_items (firstAnnotationValue annotations (targetAnnotationKeys configured)))
}.

(** C25 The operator settles on a Service it has not written to yet that leaves external
    DNS to it, has nothing under the other provider's annotation and no entry under a DNS
    target key that is no longer configured: from a first reconcile that finds the
    current address assigned, or nothing assigned, through any number of them, once that
    is so again a further reconcile with the same prefixes and status changes no
    annotation but the nudge's - not even the time of the last sync. *)
Theorem service_settles (configured : list string) (provider : lb_provider) (field : string)
    (annotations a1 a2 : gmap string string) (first : service_pass) (later : list service_pass) :
  keys_ok configured -> field ∈ lb_fields -> fresh_service configured field annotations ->
  Forall (fun p => good_pass p /\ ps_currentIP p ∈ ps_allIPs p) (first :: later) ->
  unmanaged (ps_managed first) (ps_currentIP first) = false -> dns_ready (ps_ingress first) (ps_currentIP first) ->
  service_run configured provider field annotations (first :: later) a1 ->
  let p := List.last later first in
  dns_ready (ps_ingress p) (ps_currentIP p) -> service_step configured provider field a1 p a2 ->
  forall k, k <> AnnotationL2Nudge -> a2 !! k = a1 !! k.
Proof.
  intros Hkeys Hf [Hr Hrt Ho Hskip Hno Hclean Hcleant] Hg Hm Hrdy Hrun p Hrdyp Hstep.
  assert (Forall good_pass (first :: later) /\ Forall (fun p => key_text (ps_currentIP p)) (first :: later)) as [Hgood Htext].
  { split; (eapply Forall_impl; [exact Hg|]); intros q [Hq Hin]; [done|]. destruct Hq as (_ & _ & Hq).
    rewrite Forall_forall in Hq. by apply Hq. }
  assert (good_pass p) as Hgp.
  { rewrite Forall_forall in Hgood. apply Hgood. unfold p. rewrite <- (last_cons_default first first). by apply last_default_in. }
  assert (ps_currentIP first ∈ ps_allIPs first) as Hin by (apply Forall_cons in Hg as [[_ ?] _]; done).
  inversion Hrun as [|a q b qs c Hs Hrest]; subst. apply Forall_cons in Hgood as [Hg1 Hg2], Htext as [Ht1 Ht2].
  pose proof (service_first configured provider field Hkeys Hf _ _ _ _ Hs Hg1 Hr Ho Hclean Hin Hm) as Hk1.
  pose proof (service_kept configured provider field Hkeys Hf _ _ _ _ _ Hrest Hg2 Hk1) as Hka.
  rewrite <- (last_fmap_default ps_allIPs later first) in Hka. fold p in Hka.
  destruct (targets_first configured provider field Hkeys Hf _ _ _ Hs Hg1 Ht1 Hskip Hrt Hcleant Hm Hrdy) as (Ut & HT1).
  pose proof (fun k Hk => service_step_reads configured provider field Hkeys Hf _ _ _ k Hs Hg1 Hno Hk Hskip) as Hread.
  destruct (targets_run configured provider field Hkeys Hf Ut (ps_currentIP first) _ _ _ Hrest Hg2 Ht2) as (Hno2 & Hskip2 & c' & HT2 & Hlast & Hnil);
    [|by rewrite (ann_same annotations) by (apply Hread; by left)|exact HT1|].
  { intros k Hk. rewrite Hread by by right. by apply Hno. }
  assert (c' = ps_currentIP p) as ->.
  { unfold p in *. destruct later as [|q later']; [by apply Hnil|]. apply Hlast; [apply last_is_default|done]. }
  apply (service_step_quiet configured provider field _ p _ Hstep Hgp).
  by eapply plan_at_rest.
Qed.

(** A rotation, the reconcile that finds the new address assigned, and one more:
    the time of the last sync stays that of the third. *)
Lemma service_settles_witness :
  let before := sample_service_dp "2001:db8:1::/48" [] in
  let after := sample_service_dp "2001:db8:2::/48" ["2001:db8:1::/48"] in
  let assigned := ["2001:db8:2::ffff:0:2"; "2001:db8:1::ffff:0:2"] in
  let a1 := reconciled [] (sample_svc_env "t1" before) (mkService true sample_annotations []) in
  let a2 := reconciled [] (sample_svc_env "t2" after) (mkService true a1 ["2001:db8:1::ffff:0:2"]) in
  let a3 := reconciled [] (sample_svc_env "t3" after) (mkService true a2 assigned) in
  let a4 := reconciled [] (sample_svc_env "t4" after) (mkService true a3 assigned) in
  a3 !! AnnotationLastSync = Some "t3" /\ a4 !! AnnotationLastSync = a3 !! AnnotationLastSync.
Proof.
  intros before after assigned a1 a2 a3 a4. split; [vm_compute; reflexivity|].
  set (p1 := mkPass [] ["2001:db8:1::ffff:0:2"] "2001:db8:1::ffff:0:2" (collectManagedPrefixes before)).
  set (p2 := mkPass ["2001:db8:1::ffff:0:2"] assigned "2001:db8:2::ffff:0:2" (collectManagedPrefixes after)).
  set (p3 := mkPass assigned assigned "2001:db8:2::ffff:0:2" (collectManagedPrefixes after)).
  assert (service_run [] lbProviderCilium AnnotationCiliumIPs sample_annotations [p1; p2; p3] a3) as Hrun.
  { eapply service_run_cons; [apply (reconciled_step [] lbProviderCilium AnnotationCiliumIPs (sample_svc_env "t1" before) "home" before)|
    eapply service_run_cons; [apply (reconciled_step [] lbProviderCilium AnnotationCiliumIPs (sample_svc_env "t2" after) "home" after)|
    eapply service_run_cons; [apply (reconciled_step [] lbProviderCilium AnnotationCiliumIPs (sample_svc_env "t3" after) "home" after)|
    apply service_run_nil]]]; (vm_compute; (reflexivity || discriminate)). }
  apply (service_settles [] lbProviderCilium AnnotationCiliumIPs sample_annotations a3 a4 p1 [p2; p3]).
  - exact default_keys_ok.
  - list_mem.
  - constructor; try (vm_compute; (reflexivity || discriminate)).
    + intros k Hk. vm_compute in Hk. by apply elem_of_nil in Hk.
    + apply sample_key_text. vm_compute. reflexivity.
    + apply sample_key_text. vm_compute. reflexivity.
  - assert (Forall (fun p => good_pass p /\ ps_currentIP p ∈ ps_allIPs p) [p1; p2; p3]) as H.
    { constructor; [|constructor; [|constructor; [|constructor]]]; (split; [|list_mem]);
        (split; [discriminate|]; split; [discriminate|]); apply sample_key_text; vm_compute; reflexivity. }
    exact H.
  - vm_compute. reflexivity.
  - left. vm_compute. reflexivity.
  - exact Hrun.
  - right. list_mem.
  - apply (reconciled_step [] lbProviderCilium AnnotationCiliumIPs (sample_svc_env "t4" after) "home" after);
      (vm_compute; (reflexivity || discriminate)).
  - discriminate.
Defined.

(** A release takes the operator's targets out of the older spelling of the
    external-dns key and drops the record, but leaves the newer spelling, which
    the operator writes by default too, exactly as it is: without the record no
    later reconcile touches the Service, so the address stays published. *)
Theorem release_strands_new_target (configured : list string) (env : svc_env) (annotations : gmap string string)
    (ingress : list string) (record : string) :
  annotations !! AnnotationManagedTargets = Some record -> annotations !! AnnotationName = None ->
  (forall k, k ∈ [AnnotationManagedBlocks; AnnotationManagedCIDRs; AnnotationManagedCIDR; AnnotationManagedAddresses;
                  AnnotationManagedKubevipEntries] -> annotations !! k = None) ->
  (forall w, sve_update env w = None) ->
  exists w, Reconcile configured env (inl (mkService true annotations ingress)) =
              Some (mkSvcResult [w] [EvServiceReleased] 0 None) /\
    w !! AnnotationExternalDNSTarget =
      text_option (join "," (preserveUnownedIPs (ann annotations AnnotationExternalDNSTarget) (parseOwnershipRecord (Some record)) [])) /\
    w !! AnnotationExternalDNSTargetNew = annotations !! AnnotationExternalDNSTargetNew /\
    w !! AnnotationManagedTargets = None /\
    forall env', Reconcile configured env' (inl (mkService true w ingress)) = Some (svc_done 0).
Proof.
  intros Ht Hn Hother Hu.
  destruct (releaseService_writes env annotations) as (w & Hw & _ & _ & Hwk); [right; by rewrite Ht|done|].
  destruct (released_targets annotations record Ht) as (H1 & H2 & H3). exists w.
  pose proof (fun k => released_other annotations k) as Hsame.
  assert (w !! AnnotationManagedIPs = None) as Hips.
  { rewrite Hwk by discriminate. unfold released_value, released_fields. cbn [foldl]. rewrite !release_field_lookup, Ht.
    destruct (annotations !! AnnotationManagedIPs) eqn:E; [done|]. cbn [fst]. by rewrite E. }
  assert (hasOwnershipRecord w = false) as Hrec.
  { unfold hasOwnershipRecord. apply not_true_is_false. intros (k & Hin & Hk%bool_decide_eq_true)%existsb_exists.
    apply list_elem_of_In in Hin.
    apply elem_of_cons in Hin as [->|Hin]; [by rewrite Hips in Hk; destruct Hk|].
    apply elem_of_cons in Hin as [->|Hin]; [by rewrite Hwk, H1 in Hk by discriminate; destruct Hk|].
    assert (annotations !! k = None) as Hnone.
    { apply Hother. repeat (apply elem_of_cons in Hin as [->|Hin]; [list_mem|]). by apply elem_of_nil in Hin. }
    rewrite Hwk, Hsame, Hnone in Hk; [by destruct Hk|..];
      repeat (apply elem_of_cons in Hin as [->|Hin]; [first [discriminate|list_mem]|]); by apply elem_of_nil in Hin. }
  split; [|split; [rewrite Hwk by discriminate; exact H2|split; [rewrite Hwk by discriminate; exact H3|split]]].
  - unfold Reconcile. cbn [sv_LoadBalancer sv_annotations negb]. rewrite Hn.
    rewrite (has_record annotations AnnotationManagedTargets _ ltac:(list_mem) Ht). by rewrite Hw.
  - rewrite Hwk by discriminate. exact H1.
  - intros env'. unfold Reconcile. cbn [sv_LoadBalancer sv_annotations negb].
    rewrite Hwk, Hsame, Hn by (discriminate || list_mem). by rewrite Hrec.
Qed.

Lemma release_strands_new_target_witness :
  let dp := sample_service_dp "2001:db8:1::/48" [] in
  let a1 := delete AnnotationName (reconciled [] (sample_svc_env "t1" dp) (mkService true sample_annotations [])) in
  a1 !! AnnotationManagedTargets = Some "2001:db8:1::ffff:0:2" /\
  exists w, Reconcile [] (sample_svc_env "t2" dp) (inl (mkService true a1 [])) =
              Some (mkSvcResult [w] [EvServiceReleased] 0 None) /\
    w !! AnnotationExternalDNSTarget = Some "example.com" /\
    w !! AnnotationExternalDNSTargetNew = Some "example.com,2001:db8:1::ffff:0:2".
Proof.
  intros dp a1. split; [vm_compute; reflexivity|].
  destruct (release_strands_new_target [] (sample_svc_env "t2" dp) a1 [] "2001:db8:1::ffff:0:2") as (w & Hw & H1 & H2 & _).
  - vm_compute. reflexivity.
  - vm_compute. reflexivity.
  - intros k Hk. repeat (apply elem_of_cons in Hk as [->|Hk]; [vm_compute; reflexivity|]). by apply elem_of_nil in Hk.
  - reflexivity.
  - exists w. split; [exact Hw|]. split; [rewrite H1; vm_compute; reflexivity|rewrite H2; vm_compute; reflexivity].
Defined.

(** ** The field a provider reads *)

Lemma provider_field annotations provider field :
  lbAddressAnnotationFor annotations = Some (provider, field) -> field ∈ lb_fields.
Proof. unfold lbAddressAnnotationFor. cbv zeta. repeat case_decide; intros [= <- <-]; list_mem. Qed.

(** ** The nudge *)

Lemma sort_strings_perm l1 l2 : l1 ≡ₚ l2 -> Policy.sort_strings l1 = Policy.sort_strings l2.
Proof.
  intros H. unfold Policy.sort_strings. apply (StronglySorted_unique String.le).
  - by apply (StronglySorted_merge_sort String.le).
  - by apply (StronglySorted_merge_sort String.le).
  - by rewrite !merge_sort_Permutation.
Qed.

Lemma assigned_perm l1 l2 : l1 ≡ₚ l2 -> assignedLoadBalancerIPs l1 = assignedLoadBalancerIPs l2.
Proof. intros H. apply sort_strings_perm. by rewrite H. Qed.

(** The nudge applies to the Service. *)
Definition nudge_applies (env : svc_env) (annotations : gmap string string) : Prop :=
  ann annotations AnnotationSkipL2Nudge <> AnnotationValueTrue /\
  (ann annotations AnnotationForceL2Nudge = AnnotationValueTrue \/ sve_nudge_needed env <> Some false).

(** The nudge of Cilium's L2 announcer waits until the current address is
    assigned, then writes its one annotation once per set of assigned addresses:
    with the same addresses in any order a further reconcile writes nothing, and
    a Service that opted out, or a Cilium that does not need it, is left alone. *)
Theorem nudge_once_per_assignment (env : svc_env) (annotations : gmap string string) (ingress : list string)
    (currentIP : string) :
  let res := nudgeL2Announcer env annotations ingress currentIP in
  let assigned := assignedLoadBalancerIPs ingress in
  (~ nudge_applies env annotations -> res = svc_done 0) /\
  (nudge_applies env annotations -> currentIP ∉ assigned -> res = svc_done 60) /\
  (nudge_applies env annotations -> currentIP ∈ assigned ->
     match sr_err res with
     | Some _ => exists e, sve_update env (<[AnnotationL2Nudge := fingerprintAddresses assigned]> annotations) = Some e /\
                           res = svc_failed (FailNudge e)
     | None =>
         let final := default annotations (last (sr_writes res)) in
         sr_after res = 0 /\ (forall k, k <> AnnotationL2Nudge -> final !! k = annotations !! k) /\
         forall ingress', ingress' ≡ₚ ingress -> nudgeL2Announcer env final ingress' currentIP = svc_done 0
     end).
Proof.
  cbv zeta. unfold nudgeL2Announcer at 1 2 3 4 5 6 7 8. unfold nudge_applies.
  destruct (decide (ann annotations AnnotationSkipL2Nudge = AnnotationValueTrue)) as [Hskip|Hskip].
  { split; [done|]. split; [by intros []|by intros []]. }
  set (off := (negb (bool_decide (ann annotations AnnotationForceL2Nudge = AnnotationValueTrue)) &&
               bool_decide (sve_nudge_needed env = Some false))%bool).
  assert (off = true <-> ~ (ann annotations AnnotationForceL2Nudge = AnnotationValueTrue \/ sve_nudge_needed env <> Some false)) as Hoff.
  { unfold off. rewrite andb_true_iff, negb_true_iff, bool_decide_eq_false, bool_decide_eq_true. split; [tauto|].
    intros H. split; [tauto|]. destruct (decide (sve_nudge_needed env = Some false)); tauto. }
  destruct off eqn:E.
  { split; [done|]. split; intros [_ H]; exfalso; by apply (proj1 Hoff). }
  assert (ann annotations AnnotationForceL2Nudge = AnnotationValueTrue \/ sve_nudge_needed env <> Some false) as Hon.
  { destruct (decide (ann annotations AnnotationForceL2Nudge = AnnotationValueTrue)); [by left|].
    destruct (decide (sve_nudge_needed env = Some false)) as [Hf|Hf]; [|by right].
    exfalso. assert (false = true) by (apply Hoff; tauto). done. }
  split; [intros H; exfalso; by apply H|]. split; [by intros _ H; rewrite decide_False|].
  intros _ Hin. rewrite !decide_True by done.
  set (fp := fingerprintAddresses (assignedLoadBalancerIPs ingress)).
  assert (forall final, ann final AnnotationL2Nudge = fp -> (forall k, k <> AnnotationL2Nudge -> final !! k = annotations !! k) ->
    forall ingress', ingress' ≡ₚ ingress -> nudgeL2Announcer env final ingress' currentIP = svc_done 0) as Hagain.
  { intros final Hfp Hsame ingress' Hp. unfold nudgeL2Announcer.
    rewrite (ann_same annotations final AnnotationSkipL2Nudge), (ann_same annotations final AnnotationForceL2Nudge) by (by apply Hsame).
    rewrite decide_False by done. fold off. rewrite E. rewrite (assigned_perm ingress' ingress) by done.
    rewrite decide_True by done. by rewrite decide_True. }
  destruct (decide (ann annotations AnnotationL2Nudge = fp)) as [Heq|Hne]; cbn [sr_err sr_writes sr_after svc_done last default].
  { split; [done|]. split; [done|]. by apply Hagain. }
  destruct (sve_update env (<[AnnotationL2Nudge:=fp]> annotations)) as [e|] eqn:Hu;
    cbn [sr_err sr_writes sr_after svc_failed last default from_option].
  { by exists e. }
  split; [done|]. assert (forall k, k <> AnnotationL2Nudge -> <[AnnotationL2Nudge:=fp]> annotations !! k = annotations !! k) as Hk
    by (intros k Hk; by rewrite lookup_insert_ne).
  split; [exact Hk|]. apply (Hagain (<[AnnotationL2Nudge:=fp]> annotations)); [|exact Hk].
  unfold ann. by rewrite lookup_insert_eq.
Qed.

Lemma nudge_once_per_assignment_witness :
  let ips := ["2001:db8:2::ffff:0:2"; "198.51.100.10"] in
  let env := sample_svc_env "t1" (sample_service_dp "2001:db8:2::/48" []) in
  let res := nudgeL2Announcer env sample_annotations ips "2001:db8:2::ffff:0:2" in
  sr_err res = None /\
  nudgeL2Announcer env (default sample_annotations (last (sr_writes res))) (rev ips) "2001:db8:2::ffff:0:2" = svc_done 0.
Proof.
  intros ips env res.
  destruct (nudge_once_per_assignment env sample_annotations ips "2001:db8:2::ffff:0:2") as (_ & _ & H).
  assert (nudge_applies env sample_annotations) as Ha.
  { split; [vm_compute; discriminate|right; discriminate]. }
  assert (sr_err res = None) as He by (vm_compute; reflexivity).
  specialize (H Ha ltac:(list_mem)). fold res in H. rewrite He in H. destruct H as (_ & _ & H).
  split; [exact He|]. apply H. constructor.
Defined.

(** ** A Service of the other provider *)

Lemma join_all_ne l : l <> [] -> Forall (fun x => x <> EmptyString) l -> join "," l <> EmptyString.
Proof. destruct l as [|x l]; [done|]. intros _ [Hx _]%Forall_cons. by apply join_ne. Qed.

Lemma preserved_ne s record ms : Forall (fun x => x <> EmptyString) (preserveUnownedIPs s record ms).
Proof.
  assert (Forall (fun x => x <> EmptyString) (record_items s)) as H.
  { unfold record_items. apply Forall_forall. by intros x [Hx _]%list_elem_of_filter. }
  unfold preserveUnownedIPs, extractUnmanagedIPs. case_match; by apply Forall_kept.
Qed.

Lemma first_write env provider annotations ingress currentIP plan :
  let res := apply_plan env provider annotations ingress currentIP plan in
  pl_updated plan = true -> sr_err res = None ->
  exists rest, sr_writes res = <[AnnotationLastSync := sve_now env]> (pl_annotations plan) :: rest.
Proof.
  intros res Hup Herr. unfold res, apply_plan in *. clear res. rewrite Hup in *.
  destruct (sve_update env _); [done|]. destruct (decide (provider = lbProviderCilium)); [|by eexists].
  destruct (sr_err (nudgeL2Announcer _ _ _ _)); [done|]. by eexists.
Qed.

(** A Service with an entry of the user's under the other provider's
    annotation never comes to rest: the entry is kept, but every reconcile that
    succeeds reports a change and writes the Service again, moving the time of
    the last sync. *)
Theorem other_provider_never_rests (configured : list string) (provider : lb_provider) (field : string) (env : svc_env)
    (annotations : gmap string string) (ingress allIPs : list string) (currentIP : string) (ms : list netip.Prefix) :
  keys_ok configured -> field ∈ lb_fields ->
  preserveUnownedIPs (ann annotations (otherLBAddressAnnotation field))
    (parseOwnershipRecord (annotations !! AnnotationManagedIPs)) ms <> [] ->
  let res := apply_plan env provider annotations ingress currentIP
               (plan_annotations configured ingress annotations field allIPs currentIP ms) in
  sr_err res = None ->
  exists w rest, sr_writes res = w :: rest /\ w !! AnnotationLastSync = Some (sve_now env) /\
    ann w (otherLBAddressAnnotation field) =
      join "," (preserveUnownedIPs (ann annotations (otherLBAddressAnnotation field))
                  (parseOwnershipRecord (annotations !! AnnotationManagedIPs)) ms) /\
    ann w (otherLBAddressAnnotation field) <> EmptyString.
Proof.
  intros Hkeys Hf Huser res Herr. set (plan := plan_annotations _ _ _ _ _ _ _) in *.
  assert (ann annotations (otherLBAddressAnnotation field) <> EmptyString) as Hne.
  { intros E. apply Huser. rewrite E. unfold preserveUnownedIPs, extractUnmanagedIPs.
    change (record_items "") with (@nil string). by case_match. }
  assert (pl_updated plan = true) as Hup.
  { unfold plan, plan_annotations, writeLBAddresses. by rewrite decide_False. }
  destruct (first_write env provider annotations ingress currentIP plan Hup Herr) as [rest Hw].
  eexists _, rest. split; [exact Hw|]. split; [apply lookup_insert_eq|].
  destruct (plan_addresses configured ingress annotations field allIPs currentIP ms Hkeys Hf) as (_ & _ & _ & H4).
  fold plan in H4. rewrite decide_False in H4 by done. destruct (other_field field Hf) as [Hof _].
  rewrite (ann_same (pl_annotations plan)), H4
    by (apply lookup_insert_ne; by apply lb_field_cases in Hof as [->| ->]).
  split; [done|]. apply join_all_ne; [done|apply preserved_ne].
Qed.

(** The second reconcile of the same Service writes it again. *)
Lemma other_provider_never_rests_witness :
  let dp := sample_service_dp "2001:db8:1::/48" [] in
  let a0 := <[AnnotationKubevipLBIPs := "198.51.100.7"]> sample_annotations in
  let a1 := reconciled [] (sample_svc_env "t1" dp) (mkService true a0 []) in
  ann a1 AnnotationKubevipLBIPs = "198.51.100.7" /\
  exists w rest, sr_writes (apply_plan (sample_svc_env "t2" dp) lbProviderCilium a1 [] "2001:db8:1::ffff:0:2"
      (plan_annotations [] [] a1 AnnotationCiliumIPs ["2001:db8:1::ffff:0:2"] "2001:db8:1::ffff:0:2"
         (collectManagedPrefixes dp))) = w :: rest /\ w !! AnnotationLastSync = Some "t2".
Proof.
  intros dp a0 a1. split; [vm_compute; reflexivity|].
  destruct (other_provider_never_rests [] lbProviderCilium AnnotationCiliumIPs (sample_svc_env "t2" dp) a1 []
    ["2001:db8:1::ffff:0:2"] "2001:db8:1::ffff:0:2" (collectManagedPrefixes dp)) as (w & rest & Hw & Ht & _).
  - exact default_keys_ok.
  - list_mem.
  - vm_compute. discriminate.
  - vm_compute. reflexivity.
  - exists w, rest. split; [exact Hw|exact Ht].
Defined.

(** ** Any reconcile *)

Lemma dedupe_cons x l : dedupePreservingOrder (x :: l) = x :: dedupe_from {[canonicalEntry x]} l.
Proof.
  unfold dedupePreservingOrder. cbn [dedupe_from]. rewrite decide_False by by apply not_elem_of_empty.
  by rewrite union_empty_r_L.
Qed.

(** What a plan asks for is not empty. *)
Lemma plan_not_blank configured ingress annotations field allIPs currentIP ms :
  keys_ok configured -> field ∈ lb_fields -> head allIPs = Some currentIP -> currentIP <> EmptyString ->
  ann (pl_annotations (plan_annotations configured ingress annotations field allIPs currentIP ms)) field <> EmptyString.
Proof.
  intros Hk Hf Hh Hc. destruct (plan_addresses configured ingress annotations field allIPs currentIP ms Hk Hf) as (-> & _).
  set (preserved := preserveUnownedIPs _ _ _). pose proof (preserved_ne (ann annotations field)
    (parseOwnershipRecord (annotations !! AnnotationManagedIPs)) ms) as Hp. fold preserved in Hp.
  destruct allIPs as [|x l]; [done|]. injection Hh as ->.
  destruct preserved as [|y p]; cbn [app]; rewrite dedupe_cons; [by apply join_ne|].
  apply Forall_cons in Hp as [Hy _]. by apply join_ne.
Qed.

Lemma requeue_bounds_svc after deferred : 0 <= after <= 60 -> 0 <= requeueIfDNSTargetDeferred after deferred <= 60.
Proof. unfold requeueIfDNSTargetDeferred. case_match; lia. Qed.

Lemma nudge_result env annotations ingress currentIP :
  let res := nudgeL2Announcer env annotations ingress currentIP in
  0 <= sr_after res <= 60 /\ (sr_err res <> None -> sr_after res = 0).
Proof.
  unfold nudgeL2Announcer. repeat case_decide; try (destruct (_ && _)%bool); try (destruct (sve_update _ _));
    cbn; split; (lia || done).
Qed.

(** Applying a plan: bounds on the requeue, and what the writes hold. *)
Lemma apply_plan_result env provider annotations ingress currentIP plan :
  let res := apply_plan env provider annotations ingress currentIP plan in
  0 <= sr_after res <= 60 /\ (sr_err res <> None -> sr_after res = 0) /\
  ((pl_updated plan = false -> pl_annotations plan = annotations) ->
   forall w k, w ∈ sr_writes res -> k <> AnnotationLastSync -> k <> AnnotationL2Nudge -> w !! k = pl_annotations plan !! k).
Proof.
  cbv zeta. unfold apply_plan. set (stamped := <[AnnotationLastSync := sve_now env]> (pl_annotations plan)).
  destruct (if pl_updated plan then sve_update env stamped else None) as [e|].
  { cbn. split; [lia|]. split; [done|]. by intros _ w k ?%elem_of_nil. }
  set (current := if pl_updated plan then stamped else annotations).
  assert ((if pl_updated plan then ([stamped], stamped) else ([], annotations)) =
          (if pl_updated plan then [current] else [], current)) as -> by (unfold current; by destruct (pl_updated plan)).
  assert ((pl_updated plan = false -> pl_annotations plan = annotations) ->
    forall k, k <> AnnotationLastSync -> current !! k = pl_annotations plan !! k) as Hc.
  { intros Hs k Hk. unfold current, stamped. destruct (pl_updated plan); [by rewrite lookup_insert_ne|]. by rewrite Hs. }
  assert (forall w, w ∈ (if pl_updated plan then [current] else []) -> w = current) as Hcur.
  { intros w. destruct (pl_updated plan); [by intros ->%list_elem_of_singleton|by intros ?%elem_of_nil]. }
  destruct (decide (provider = lbProviderCilium)).
  - destruct (nudge_result env current ingress currentIP) as [Hb He].
    pose proof (nudge_writes env current ingress currentIP) as Hn.
    destruct (sr_err (nudgeL2Announcer env current ingress currentIP)); cbn [sr_after sr_err sr_writes].
    + split; [done|]. split; [by intros _; apply He|]. intros Hs w k Hw H1 H2. rewrite (Hcur w Hw). by apply Hc.
    + split; [by apply requeue_bounds_svc|]. split; [done|].
      intros Hs w k [Hw|Hw]%elem_of_app H1 H2; [rewrite (Hcur w Hw); by apply Hc|].
      destruct Hn as [Hn|[fp Hn]]; rewrite Hn in Hw; [by apply elem_of_nil in Hw|].
      apply list_elem_of_singleton in Hw as ->. rewrite lookup_insert_ne by done. by apply Hc.
  - cbn [sr_after sr_err sr_writes]. split; [apply requeue_bounds_svc; lia|]. split; [done|].
    intros Hs w k Hw H1 _. rewrite (Hcur w Hw). by apply Hc.
Qed.

(** What a release writes holds neither record. *)
Lemma release_result env annotations :
  let res := releaseService env annotations in
  sr_after res = 0 /\ forall w, w ∈ sr_writes res ->
    sr_events res = [EvServiceReleased] /\ w !! AnnotationManagedIPs = None /\ w !! AnnotationManagedTargets = None.
Proof.
  intros res. unfold res, releaseService.
  assert (forall k, k ∈ [AnnotationManagedIPs; AnnotationManagedTargets] -> released_value annotations k = None) as Hv.
  { intros k Hk. unfold released_value, released_fields. cbn [foldl]. rewrite !release_field_lookup.
    apply elem_of_cons in Hk as [->| ->%list_elem_of_singleton];
      by destruct (annotations !! AnnotationManagedIPs) eqn:E1, (annotations !! AnnotationManagedTargets) eqn:E2. }
  unfold released_value in Hv. destruct (foldl _ _ _) as [new1 changed]. cbn [fst] in Hv.
  destruct changed; cbn [negb]; [|split; [done|by intros w ?%elem_of_nil]].
  destruct (sve_update env _); [split; [done|by intros w ?%elem_of_nil]|].
  split; [done|]. intros w ->%list_elem_of_singleton. split; [done|].
  rewrite !lookup_delete_ne by done. split; apply Hv; list_mem.
Qed.

(** The two kinds of writes. *)
Definition released_write (res : svc_result) (w : gmap string string) : Prop :=
  sr_events res = [EvServiceReleased] /\ w !! AnnotationManagedIPs = None /\ w !! AnnotationManagedTargets = None.

Definition address_write (read : Service + api_error) (w : gmap string string) : Prop :=
  exists svc provider field, read = inl svc /\ lbAddressAnnotationFor (sv_annotations svc) = Some (provider, field) /\
    ann w field <> EmptyString.

Definition safe_result (read : Service + api_error) (res : svc_result) : Prop :=
  0 <= sr_after res <= 60 /\ (sr_err res <> None -> sr_after res = 0) /\
  forall w, w ∈ sr_writes res -> released_write res w \/ address_write read w.

Lemma safe_done read after : 0 <= after <= 60 -> safe_result read (svc_done after).
Proof. intros H. split; [done|]. split; [done|]. by intros w ?%elem_of_nil. Qed.

Lemma safe_failed read e : safe_result read (svc_failed e).
Proof. split; [cbn; lia|]. split; [done|]. by intros w ?%elem_of_nil. Qed.

Lemma safe_release read env annotations after : 0 <= after <= 60 ->
  safe_result read (if hasOwnershipRecord annotations then releaseService env annotations else svc_done after).
Proof.
  intros H. destruct (hasOwnershipRecord annotations); [|by apply safe_done].
  destruct (release_result env annotations) as [Ha Hw]. split; [rewrite Ha; lia|]. split; [done|].
  intros w Hin. left. by apply Hw.
Qed.

Lemma addressesForService_wait dp ingress annotations wait :
  addressesForService dp ingress annotations = Ret (WaitFor wait) -> 0 <= wait <= 60.
Proof.
  unfold addressesForService. destruct (annotations !! AnnotationSuffix) as [[|ch suffix]|].
  2: { by destruct (wrap_err _ _). }
  all: case_decide; [intros [= <-]; lia|]; by destruct (wrap_err _ _).
Qed.

Lemma sync_service_safe configured env svc dp current :
  keys_ok configured -> tracked dp current ->
  exists res, sync_service configured env svc dp = Some res /\ safe_result (inl svc) res.
Proof.
  intros Hkeys Ht. unfold sync_service.
  pose proof (addressesForService_total dp current (sv_ingress svc) (sv_annotations svc) Ht) as Hp.
  destruct (addressesForService dp (sv_ingress svc) (sv_annotations svc)) as [[allIPs currentIP|wait]|e|] eqn:Ha; [..|done].
  2: { eexists. split; [done|]. apply safe_done. by eapply addressesForService_wait. }
  2: { eexists. split; [done|]. apply safe_failed. }
  destruct (decide (allIPs = [] \/ currentIP = EmptyString)) as [|Hne]; [by eexists; split; [|apply safe_done]|].
  destruct (lbAddressAnnotationFor (sv_annotations svc)) as [[provider field]|] eqn:Hpr.
  2: { eexists. split; [done|]. split; [cbn; lia|]. split; [done|]. by intros w ?%elem_of_nil. }
  eexists. split; [done|].
  destruct (apply_plan_result env provider (sv_annotations svc) (sv_ingress svc) currentIP
    (plan_annotations configured (sv_ingress svc) (sv_annotations svc) field allIPs currentIP (collectManagedPrefixes dp)))
    as (Hb & He & Hw).
  split; [exact Hb|]. split; [exact He|]. intros w Hin. right. exists svc, provider, field. split; [done|]. split; [done|].
  pose proof (provider_field _ _ _ Hpr) as Hf.
  rewrite (ann_same (pl_annotations (plan_annotations configured (sv_ingress svc) (sv_annotations svc) field allIPs currentIP
    (collectManagedPrefixes dp)))).
  - apply plan_not_blank; [done|done| |by intros ->; apply Hne; right]. by eapply addressesForService_head.
  - apply (Hw (plan_unchanged _ _ _ _ _ _ _) w field Hin); by apply lb_field_cases in Hf as [->| ->].
Qed.

Lemma Reconcile_safe configured env read :
  keys_ok configured ->
  (forall name dp, sve_get env name = DPFound dp -> st_CurrentPrefix (dp_Status dp) <> EmptyString ->
     exists current, tracked dp current) ->
  exists res, Reconcile configured env read = Some res /\ safe_result read res.
Proof.
  intros Hkeys Hdp.
  unfold Reconcile. destruct read as [svc|[|e]].
  2: { eexists. split; [done|]. by apply safe_done. }
  2: { eexists. split; [done|]. apply safe_failed. }
  destruct (sv_LoadBalancer svc); cbn [negb]; [|by eexists; split; [|apply safe_done]].
  destruct (sv_annotations svc !! AnnotationName) as [dpName|]; [|by eexists; split; [|apply safe_release]].
  destruct (sve_get env dpName) as [dp|[|e]] eqn:Hg.
  2: { by eexists; split; [|apply safe_release]. }
  2: { eexists. split; [done|]. apply safe_failed. }
  destruct (in_ha_mode dp); cbn [negb]; [|by eexists; split; [|apply safe_release]].
  destruct (decide (st_CurrentPrefix (dp_Status dp) = EmptyString)) as [|Hc]; [by eexists; split; [|apply safe_done]|].
  destruct (Hdp dpName dp Hg Hc) as [current Ht]. by apply sync_service_safe with current.
Qed.

(** Whatever the API server answers, a reconcile of a Service does not panic,
    never asks to be called again in more than a minute, leaves the pace to the
    work queue when it fails, and writes one of two things: a release, which says
    so in an event and drops both records, or annotations under which the load
    balancer has an address to serve - it never blanks the address it manages. *)
Theorem reconcile_service_safe (configured : list string) (env : svc_env) (read : Service + api_error) :
  keys_ok configured ->
  (forall name dp, sve_get env name = DPFound dp -> st_CurrentPrefix (dp_Status dp) <> EmptyString ->
     exists current, tracked dp current) ->
  exists res, Reconcile configured env read = Some res /\ 0 <= sr_after res <= 60 /\
    (sr_err res <> None -> sr_after res = 0) /\
    forall w, w ∈ sr_writes res -> released_write res w \/ address_write read w.
Proof. exact (Reconcile_safe configured env read). Qed.

(** A rotated prefix and a Service with entries of its own. *)
Lemma reconcile_service_safe_witness :
  let dp := sample_service_dp "2001:db8:2::/48" ["2001:db8:1::/48"] in
  let env := sample_svc_env "t1" dp in
  let read := inl (mkService true sample_annotations ["2001:db8:1::ffff:0:2"]) in
  exists res, Reconcile [] env read = Some res /\ 0 <= sr_after res <= 60.
Proof.
  intros dp env read. destruct (reconcile_service_safe [] env read) as (res & H & Hb & _).
  - exact default_keys_ok.
  - intros name dp' E. injection E as <-. intros _. exists (prefix_of_string "2001:db8:2::/48").
    apply (tracked_check dp); vm_compute; reflexivity.
  - exists res. split; [exact H|exact Hb].
Defined.
