(* ===== verification/BGPSync.v ===== *)
(** * BGP advertisements

    [internal/controller/bgpsync_controller.go]: one CiliumBGPAdvertisement per
    subnet that is advertised, with the Service selector of the subnet's pool, and
    the BGPAdvertisementReady condition.  Advertisements are the cluster's objects
    by name; the API server's answers are arguments. *)

From S2P Require Import Prelude GoStrings Netip NetipText Policy Receivers Factory DynamicPrefix Ownership.
From S2P Require Import PoolConfigs PoolBackends PoolSync.

Definition LabelSubnetName : string := "dynamic-prefix.io/subnet".
Definition ConditionTypeBGPAdvertisementReady : string := "BGPAdvertisementReady".

(** [unstructured.NestedMap]. *)
Inductive nested_map (A : Type) : Type := MapAbsent | MapFound (m : A) | MapUnreadable (e : error).
Arguments MapAbsent {A}.
Arguments MapFound {A}.
Arguments MapUnreadable {A}.

Inductive selector_error : Type :=
| ErrListPools (e : error)
| ErrReadSelector (pool : string) (e : error)
| ErrNoPool (subnetName : string).

Inductive adv_error : Type :=
| ErrGetAdvertisement (e : error)
| ErrOwnerReference (e : error)
| ErrCreateAdvertisement (e : error)
| ErrUpdateAdvertisement (e : error).

Inductive bgp_error : Type :=
| ErrGetDynamicPrefix (e : error)
| ErrSubnetSync (subnet : string) (e : adv_error)
| ErrDeleteOrphaned (e : error)
| ErrUpdateStatus (e : error).

Inductive bgp_write : Type := Created (name : string) | Updated (name : string) | Deleted (name : string).

Section BGP.
(** A label selector, as JSON, and the number of its fields. *)
Context {Selector : Type} `{!EqDecision Selector} (fields : Selector -> nat).
Context (FindStatusCondition : list Condition -> string -> option Condition).

(** The spec: what [buildAdvertisementSpec] builds, or any other JSON. *)
Inductive advertisement_spec : Type :=
| AdvertisementSpec (selector : option Selector) (community : option string)
| OtherSpec (json : string).

#[global] Instance advertisement_spec_eq_dec : EqDecision advertisement_spec.
Proof. solve_decision. Defined.

Record advertisement : Type := mkAdvertisement {
  ad_labels : gmap string string;
  ad_controller : option string;
  ad_spec : advertisement_spec
}.

(** A CiliumLoadBalancerIPPool, as far as it is read here; its annotations may be
    [nil]. *)
Record lb_pool : Type := mkLBPool {
  lp_name : string;
  lp_annotations : option (gmap string string);
  lp_serviceSelector : nested_map Selector
}.

(** What the API server answers to each call ([None]: no error other than
    NotFound); [be_check] is the second read of an advertisement. *)
Record bgp_env : Type := mkBGPEnv {
  be_now : Z;
  be_pools : string -> list lb_pool + error;
  be_get : string -> option error;
  be_owner : string -> option error;
  be_create : string -> option error;
  be_update : string -> option error;
  be_list : option error;
  be_delete : string -> option error;
  be_check : string -> option error;
  be_apply : Condition -> option error
}.

Definition getSubnetsWithBGP (dp : DynamicPrefix) : list SubnetSpec :=
  filter (fun s => ss_Advertise s = true) (sp_Subnets (dp_Spec dp)).

Definition pool_of_subnet (dpName subnetName : string) (p : lb_pool) : bool :=
  match lp_annotations p with
  | None => false
  | Some a => (bool_decide (default EmptyString (a !! AnnotationName) = dpName) &&
               bool_decide (default EmptyString (a !! AnnotationSubnet) = subnetName))%bool
  end.

Definition getPoolServiceSelector (env : bgp_env) (dpName subnetName : string) : option Selector + selector_error :=
  match be_pools env subnetName with
  | inr e => inr (ErrListPools e)
  | inl pools =>
      match List.find (pool_of_subnet dpName subnetName) pools with
      | None => inr (ErrNoPool subnetName)
      | Some p =>
          match lp_serviceSelector p with
          | MapUnreadable e => inr (ErrReadSelector (lp_name p) e)
          | MapAbsent => inl None
          | MapFound s => inl (Some s)
          end
      end
  end.

Definition buildAdvertisementSpec (subnet : SubnetSpec) (poolServiceSelector : option Selector) : advertisement_spec :=
  AdvertisementSpec
    (match poolServiceSelector with
     | Some s => if (0 <? fields s)%nat then Some s else None
     | None => None
     end)
    (match ss_BGP subnet with
     | Some b => if decide (bgp_Community b = EmptyString) then None else Some (bgp_Community b)
     | None => None
     end).

Definition subnet_labels (dpName subnetName : string) (labels : gmap string string) : gmap string string :=
  <[LabelSubnetName := subnetName]> (<[LabelDynamicPrefixName := dpName]> (<[LabelManagedBy := LabelManagedByValue]> labels)).

(** The advertisements after it, the write that succeeded, the error. *)
Definition reconcileAdvertisement (env : bgp_env) (dp : DynamicPrefix) (subnet : SubnetSpec)
    (advs : gmap string advertisement) : gmap string advertisement * list bgp_write * option adv_error :=
  let advName := advertisementName (dp_Name dp) (ss_Name subnet) in
  let poolSelector := match getPoolServiceSelector env (dp_Name dp) (ss_Name subnet) with
                      | inl selector => selector
                      | inr _ => None
                      end in
  let advSpec := buildAdvertisementSpec subnet poolSelector in
  match be_get env advName with
  | Some e => (advs, [], Some (ErrGetAdvertisement e))
  | None =>
      match advs !! advName with
      | None =>
          match be_owner env advName with
          | Some e => (advs, [], Some (ErrOwnerReference e))
          | None =>
              let adv := mkAdvertisement (subnet_labels (dp_Name dp) (ss_Name subnet) empty) (Some (dp_Name dp)) advSpec in
              match be_create env advName with
              | Some e => (advs, [], Some (ErrCreateAdvertisement e))
              | None => (<[advName := adv]> advs, [Created advName], None)
              end
          end
      | Some adv =>
          let label key := default EmptyString (ad_labels adv !! key) in
          let labelsChanged := (negb (bool_decide (label LabelManagedBy = LabelManagedByValue)) ||
                                negb (bool_decide (label LabelDynamicPrefixName = dp_Name dp)) ||
                                negb (bool_decide (label LabelSubnetName = ss_Name subnet)))%bool in
          if (negb (bool_decide (ad_spec adv = advSpec)) || labelsChanged)%bool then
            let adv' := mkAdvertisement (subnet_labels (dp_Name dp) (ss_Name subnet) (ad_labels adv)) (ad_controller adv) advSpec in
            match be_update env advName with
            | Some e => (advs, [], Some (ErrUpdateAdvertisement e))
            | None => (<[advName := adv']> advs, [Updated advName], None)
            end
          else (advs, [], None)
      end
  end.

Fixpoint sync_subnets (env : bgp_env) (dp : DynamicPrefix) (subnets : list SubnetSpec) (advs : gmap string advertisement)
    : gmap string advertisement * list bgp_write * list bgp_error :=
  match subnets with
  | [] => (advs, [], [])
  | subnet :: rest =>
      let '(advs1, writes1, err) := reconcileAdvertisement env dp subnet advs in
      let '(advs2, writes2, errs) := sync_subnets env dp rest advs1 in
      (advs2, writes1 ++ writes2,
       match err with Some e => ErrSubnetSync (ss_Name subnet) e :: errs | None => errs end)
  end.

(** [client.MatchingLabels]. *)
Definition managed_by (dpName : string) (adv : advertisement) : bool :=
  bool_decide (ad_labels adv !! LabelManagedBy = Some LabelManagedByValue /\
               ad_labels adv !! LabelDynamicPrefixName = Some dpName).

(** The loop over the listed objects; a failed delete is only logged. *)
Fixpoint delete_unexpected (env : bgp_env) (expectedAdvertisements : gset string) (items : list string)
    (advs : gmap string advertisement) : gmap string advertisement * list bgp_write :=
  match items with
  | [] => (advs, [])
  | name :: rest =>
      if decide (name ∈ expectedAdvertisements) then delete_unexpected env expectedAdvertisements rest advs
      else
        match be_delete env name with
        | Some _ => delete_unexpected env expectedAdvertisements rest advs
        | None =>
            let (advs', writes) := delete_unexpected env expectedAdvertisements rest (delete name advs) in
            (advs', Deleted name :: writes)
        end
  end.

Definition deleteOrphanedAdvertisements (env : bgp_env) (dp : DynamicPrefix) (expectedAdvertisements : gset string)
    (advs : gmap string advertisement) : gmap string advertisement * list bgp_write * option error :=
  match be_list env with
  | Some e => (advs, [], Some e)
  | None =>
      let items := (map_to_list (filter (fun '(_, adv) => managed_by (dp_Name dp) adv = true) advs)).*1 in
      let (advs', writes) := delete_unexpected env expectedAdvertisements items advs in
      (advs', writes, None)
  end.

(** The status, reason and message of the condition. *)
Definition buildBGPCondition (env : bgp_env) (dp : DynamicPrefix) (subnetsWithBGP : list SubnetSpec)
    (advs : gmap string advertisement) : verdict :=
  if (length subnetsWithBGP =? 0)%nat then
    (ConditionFalse, "NoBGPSubnets", "No subnets have BGP advertisement enabled")
  else
    let ready subnet :=
      let advName := advertisementName (dp_Name dp) (ss_Name subnet) in
      match be_check env advName with
      | Some _ => false
      | None => bool_decide (is_Some (advs !! advName))
      end in
    if forallb ready subnetsWithBGP then
      (ConditionTrue, "AdvertisementsReady",
       itoa (Z.of_nat (length subnetsWithBGP)) +:+ " BGP advertisement(s) configured")
    else (ConditionFalse, "AdvertisementsPending", "Some BGP advertisements are not yet ready").

(** The condition that was applied, and the error. *)
Definition updateStatus (env : bgp_env) (dp : DynamicPrefix) (subnetsWithBGP : list SubnetSpec)
    (advs : gmap string advertisement) : option Condition * option error :=
  let '(status, reason, message) := buildBGPCondition env dp subnetsWithBGP advs in
  let (entry, changed) := conditionApplyEntry FindStatusCondition (be_now env) dp
                            ConditionTypeBGPAdvertisementReady status reason (MsgText message) in
  if negb changed then (None, None)
  else match be_apply env entry with
       | Some e => (None, Some e)
       | None => (Some entry, None)
       end.

Record bgp_result : Type := mkBGPResult {
  br_advertisements : gmap string advertisement;
  br_writes : list bgp_write;
  br_applied : option Condition;
  br_errors : list bgp_error
}.

Definition one_error (wrap : error -> bgp_error) (e : option error) : list bgp_error :=
  match e with Some e => [wrap e] | None => [] end.

Definition Reconcile (env : bgp_env) (read : DynamicPrefix + api_error) (advs : gmap string advertisement) : bgp_result :=
  match read with
  | inr NotFound => mkBGPResult advs [] None []
  | inr (OtherError e) => mkBGPResult advs [] None [ErrGetDynamicPrefix e]
  | inl dp =>
      let subnetsWithBGP := getSubnetsWithBGP dp in
      let expected : gset string := list_to_set ((fun s => advertisementName (dp_Name dp) (ss_Name s)) <$> subnetsWithBGP) in
      let '(advs1, writes1, errs1) := sync_subnets env dp subnetsWithBGP advs in
      let '(advs2, writes2, err2) := deleteOrphanedAdvertisements env dp expected advs1 in
      let (applied, err3) := updateStatus env dp subnetsWithBGP advs2 in
      mkBGPResult advs2 (writes1 ++ writes2) applied
        (errs1 ++ one_error ErrDeleteOrphaned err2 ++ one_error ErrUpdateStatus err3)
  end.

(** [findDynamicPrefixForPool]: the resource to reconcile when a pool changes. *)
Definition findDynamicPrefixForPool (annotations : option (gmap string string)) : list string :=
  match annotations with
  | None => []
  | Some a =>
      match a !! AnnotationName with
      | None => []
      | Some dpName => match a !! AnnotationSubnet with Some _ => [dpName] | None => [] end
      end
  end.

(** * Lemmas *)

(** What is written for a subnet, given what was there. *)
Record adv_written (env : bgp_env) (dp : DynamicPrefix) (subnet : SubnetSpec) (old : option advertisement)
    (adv : advertisement) : Prop := {
  adv_spec_built : ad_spec adv =
    buildAdvertisementSpec subnet match getPoolServiceSelector env (dp_Name dp) (ss_Name subnet) with
                                  | inl selector => selector | inr _ => None end;
  adv_managed : default EmptyString (ad_labels adv !! LabelManagedBy) = LabelManagedByValue;
  adv_resource : default EmptyString (ad_labels adv !! LabelDynamicPrefixName) = dp_Name dp;
  adv_subnet : default EmptyString (ad_labels adv !! LabelSubnetName) = ss_Name subnet;
  adv_controller : ad_controller adv = match old with Some o => ad_controller o | None => Some (dp_Name dp) end;
  adv_other_labels : forall k, k <> LabelManagedBy -> k <> LabelDynamicPrefixName -> k <> LabelSubnetName ->
    ad_labels adv !! k = match old with Some o => ad_labels o !! k | None => None end
}.

(** No call about one object fails. *)
Definition answers (env : bgp_env) (name : string) : Prop :=
  be_get env name = None /\ be_owner env name = None /\ be_create env name = None /\ be_update env name = None.

Definition subnet_adv (dp : DynamicPrefix) (s : SubnetSpec) : string := advertisementName (dp_Name dp) (ss_Name s).

Lemma subnet_adv_inj dp s1 s2 : subnet_adv dp s1 = subnet_adv dp s2 -> ss_Name s1 = ss_Name s2.
Proof. unfold subnet_adv, advertisementName. intros H. by do 3 apply append_inj_l in H. Qed.

Lemma subnet_labels_lookup dpName subnetName labels k :
  subnet_labels dpName subnetName labels !! k =
  if decide (k = LabelSubnetName) then Some subnetName
  else if decide (k = LabelDynamicPrefixName) then Some dpName
  else if decide (k = LabelManagedBy) then Some LabelManagedByValue
  else labels !! k.
Proof.
  unfold subnet_labels. destruct (decide (k = LabelSubnetName)) as [->|]; [apply lookup_insert_eq|].
  rewrite lookup_insert_ne by done. destruct (decide (k = LabelDynamicPrefixName)) as [->|]; [apply lookup_insert_eq|].
  rewrite lookup_insert_ne by done. destruct (decide (k = LabelManagedBy)) as [->|]; [apply lookup_insert_eq|].
  by rewrite lookup_insert_ne.
Qed.

(** An advertisement with the labels written. *)
Lemma relabelled env dp s old labels controller :
  labels = match old with Some o => ad_labels o | None => empty end ->
  controller = match old with Some o => ad_controller o | None => Some (dp_Name dp) end ->
  adv_written env dp s old (mkAdvertisement (subnet_labels (dp_Name dp) (ss_Name s) labels) controller
    (buildAdvertisementSpec s match getPoolServiceSelector env (dp_Name dp) (ss_Name s) with
                              | inl selector => selector | inr _ => None end)).
Proof.
  intros -> ->. split; cbn [ad_labels ad_controller ad_spec]; try done; try (by rewrite subnet_labels_lookup).
  intros k H1 H2 H3. rewrite subnet_labels_lookup, !decide_False by done. by destruct old.
Qed.

(** One subnet: only its own advertisement, and either right or untouched. *)
Lemma reconcileAdvertisement_spec env dp s advs :
  let '(advs', writes, err) := reconcileAdvertisement env dp s advs in
  (forall n, n <> subnet_adv dp s -> advs' !! n = advs !! n) /\
  (err = None -> exists a, advs' !! subnet_adv dp s = Some a /\ adv_written env dp s (advs !! subnet_adv dp s) a) /\
  (err <> None \/ writes = [] -> advs' = advs) /\
  (answers env (subnet_adv dp s) -> err = None).
Proof.
  unfold reconcileAdvertisement. fold (subnet_adv dp s). set (n0 := subnet_adv dp s).
  set (sel := match getPoolServiceSelector _ _ _ with inl _ => _ | inr _ => _ end).
  destruct (be_get env n0) eqn:Hg; [repeat split; try done; by intros (? & _); congruence|].
  destruct (advs !! n0) as [adv|] eqn:Hn.
  - set (changed := (negb (bool_decide (ad_spec adv = _)) || _)%bool). destruct changed eqn:Hch.
    + destruct (be_update env n0) eqn:Hu; [repeat split; try done; by intros (_ & _ & _ & ?); congruence|].
      split; [intros; by rewrite lookup_insert_ne|]. split; [|split; [by intros [?|?]|done]].
      intros _. eexists. rewrite lookup_insert_eq. split; [done|]. by apply relabelled.
    + repeat split; try done. intros _. exists adv. split; [done|].
      apply orb_false_iff in Hch as [H1 [[H2 H3]%orb_false_iff H4]%orb_false_iff].
      rewrite !negb_false_iff, !bool_decide_eq_true in *. by split.
  - destruct (be_owner env n0) eqn:Ho; [repeat split; try done; by intros (_ & ? & _); congruence|].
    destruct (be_create env n0) eqn:Hc; [repeat split; try done; by intros (_ & _ & ? & _); congruence|].
    split; [intros; by rewrite lookup_insert_ne|]. split; [|split; [by intros [?|?]|done]].
    intros _. eexists. rewrite lookup_insert_eq. split; [done|]. by apply relabelled.
Qed.

(** ... and the rest of the cluster does not matter. *)
Lemma reconcileAdvertisement_local env dp s advs advs' :
  advs' !! subnet_adv dp s = advs !! subnet_adv dp s ->
  let r := reconcileAdvertisement env dp s advs in let r' := reconcileAdvertisement env dp s advs' in
  r'.1.1 !! subnet_adv dp s = r.1.1 !! subnet_adv dp s /\ r'.1.2 = r.1.2 /\ r'.2 = r.2.
Proof.
  unfold reconcileAdvertisement. fold (subnet_adv dp s). set (n0 := subnet_adv dp s). intros E. rewrite E.
  destruct (be_get env n0); [cbn; by rewrite E|]. destruct (advs !! n0) eqn:Hn0.
  - match goal with |- context [if ?c then _ else (advs', _, _)] => destruct c end; [|cbn; by rewrite E].
    destruct (be_update env n0); [cbn; by rewrite E|]. cbn. by rewrite !lookup_insert_eq.
  - destruct (be_owner env n0); [cbn; by rewrite E|]. destruct (be_create env n0); [cbn; by rewrite E|]. cbn. by rewrite !lookup_insert_eq.
Qed.

Lemma sync_subnets_spec env dp subnets advs :
  NoDup (ss_Name <$> subnets) ->
  let '(advs', writes, errs) := sync_subnets env dp subnets advs in
  (forall n, n ∉ subnet_adv dp <$> subnets -> advs' !! n = advs !! n) /\
  (forall s, s ∈ subnets -> advs' !! subnet_adv dp s = (reconcileAdvertisement env dp s advs).1.1 !! subnet_adv dp s) /\
  writes = concat ((fun s => (reconcileAdvertisement env dp s advs).1.2) <$> subnets) /\
  errs = omap (fun s => ErrSubnetSync (ss_Name s) <$> (reconcileAdvertisement env dp s advs).2) subnets /\
  (writes = [] -> advs' = advs).
Proof.
  intros Hnd. revert advs. induction subnets as [|s subnets IH]; intros advs; cbn [sync_subnets].
  { split; [done|]. split; [by intros ? ?%elem_of_nil|done]. }
  apply NoDup_cons in Hnd as [Hs Hnd]. specialize (IH Hnd).
  pose proof (reconcileAdvertisement_spec env dp s advs) as H1.
  destruct (reconcileAdvertisement env dp s advs) as [[advs1 w1] e1] eqn:E1. destruct H1 as (Ho & _ & Hq & _).
  specialize (IH advs1). destruct (sync_subnets env dp subnets advs1) as [[advs2 w2] errs2].
  destruct IH as (I1 & I2 & I3 & I4 & I5).
  assert (subnet_adv dp s ∉ subnet_adv dp <$> subnets) as Hns.
  { intros (s' & E & Hin)%list_elem_of_fmap. apply subnet_adv_inj in E. apply Hs, list_elem_of_fmap. by exists s'. }
  assert (forall s', s' ∈ subnets -> advs1 !! subnet_adv dp s' = advs !! subnet_adv dp s') as Hother.
  { intros s' Hin. apply Ho. intros E. apply Hns. rewrite <- E. apply list_elem_of_fmap. by exists s'. }
  assert (forall s', s' ∈ subnets -> (reconcileAdvertisement env dp s' advs1).1.1 !! subnet_adv dp s' =
      (reconcileAdvertisement env dp s' advs).1.1 !! subnet_adv dp s' /\
      (reconcileAdvertisement env dp s' advs1).1.2 = (reconcileAdvertisement env dp s' advs).1.2 /\
      (reconcileAdvertisement env dp s' advs1).2 = (reconcileAdvertisement env dp s' advs).2) as Hloc.
  { intros s' Hin. apply reconcileAdvertisement_local. by apply Hother. }
  split; [|split; [|split; [|split]]].
  - intros n [Hn1 Hn2]%not_elem_of_cons. by rewrite I1, Ho.
  - intros s' [->|Hin]%elem_of_cons; [by rewrite I1, E1|]. rewrite I2 by done. by apply Hloc.
  - cbn [fmap list_fmap concat]. rewrite E1. cbn [fst snd]. f_equal. rewrite I3. f_equal. apply list_fmap_ext.
    intros i s' Hin%list_elem_of_lookup_2. by apply Hloc.
  - cbn [omap list_omap]. rewrite E1. cbn [snd]. rewrite I4.
    assert (omap (fun s => ErrSubnetSync (ss_Name s) <$> (reconcileAdvertisement env dp s advs1).2) subnets =
            omap (fun s => ErrSubnetSync (ss_Name s) <$> (reconcileAdvertisement env dp s advs).2) subnets) as ->.
    { apply list_omap_ext, Forall2_same_length_lookup. split; [done|]. intros i x y Hx Hy. simplify_eq.
      apply list_elem_of_lookup_2 in Hx. by destruct (Hloc x Hx) as (_ & _ & ->). }
    by destruct e1.
  - intros [-> ->]%app_eq_nil. rewrite I5 by done. apply Hq. by right.
Qed.

Lemma delete_unexpected_spec env expected items advs :
  let '(advs', writes) := delete_unexpected env expected items advs in
  (forall n, advs' !! n = if decide (n ∈ items /\ (n ∉ expected) /\ be_delete env n = None) then None else advs !! n) /\
  ((forall n, n ∈ items -> n ∈ expected) -> writes = [] /\ advs' = advs).
Proof.
  revert advs. induction items as [|x items IH]; intros advs; cbn [delete_unexpected].
  { split; [|done]. intros n. rewrite decide_False; [done|]. by intros [?%elem_of_nil _]. }
  destruct (decide (x ∈ expected)) as [Hx|Hx]; [|destruct (be_delete env x) eqn:Hd].
  - specialize (IH advs). destruct (delete_unexpected env expected items advs) as [advs' w]. destruct IH as [I1 I2].
    split; [|intros H; apply I2; intros n Hn; by apply H, list_elem_of_further].
    intros n. rewrite I1. apply decide_ext. rewrite elem_of_cons. split; [tauto|]. by intros ([->|?] & ? & ?).
  - specialize (IH advs). destruct (delete_unexpected env expected items advs) as [advs' w]. destruct IH as [I1 _].
    split; [|by intros H; destruct Hx; apply H, list_elem_of_here].
    intros n. rewrite I1. apply decide_ext. rewrite elem_of_cons. split; [tauto|]. intros ([->|?] & ? & ?); [congruence|tauto].
  - specialize (IH (delete x advs)). destruct (delete_unexpected env expected items (delete x advs)) as [advs' w].
    destruct IH as [I1 _]. split; [|by intros H; destruct Hx; apply H, list_elem_of_here].
    intros n. rewrite I1. destruct (decide (n = x)) as [->|Hne].
    + rewrite lookup_delete_eq, (decide_True (P := x ∈ x :: items /\ _)) by (split; [apply list_elem_of_here|done]). by case_decide.
    + rewrite lookup_delete_ne by done. apply decide_ext. rewrite elem_of_cons. split; [tauto|]. by intros ([->|?] & ? & ?).
Qed.

Definition unique_subnets (dp : DynamicPrefix) : Prop := NoDup (ss_Name <$> sp_Subnets (dp_Spec dp)).

Lemma advertised_unique dp : unique_subnets dp -> NoDup (ss_Name <$> getSubnetsWithBGP dp).
Proof.
  unfold unique_subnets, getSubnetsWithBGP. generalize (sp_Subnets (dp_Spec dp)). intros l H.
  induction l as [|s l IH]; [done|]. cbn in H. apply NoDup_cons in H as [Hs H]. rewrite filter_cons. case_decide; [|by apply IH].
  cbn. apply NoDup_cons. split; [|by apply IH]. intros (s' & E & [_ Hin]%list_elem_of_filter)%list_elem_of_fmap.
  apply Hs, list_elem_of_fmap. by exists s'.
Qed.

Definition expected_advs (dp : DynamicPrefix) : list string := subnet_adv dp <$> getSubnetsWithBGP dp.

(** The two loops together. *)
Lemma synced_advertisements env dp advs :
  unique_subnets dp ->
  let res := Reconcile env (inl dp) advs in
  (forall s, s ∈ getSubnetsWithBGP dp -> br_advertisements res !! subnet_adv dp s =
     (reconcileAdvertisement env dp s advs).1.1 !! subnet_adv dp s) /\
  (forall n, n ∉ expected_advs dp -> br_advertisements res !! n =
     match advs !! n with
     | Some a => if decide (managed_by (dp_Name dp) a = true /\ be_list env = None /\ be_delete env n = None) then None
                 else Some a
     | None => None
     end).
Proof.
  intros Hnd. cbv zeta. unfold Reconcile.
  pose proof (sync_subnets_spec env dp (getSubnetsWithBGP dp) advs (advertised_unique dp Hnd)) as H1.
  destruct (sync_subnets env dp (getSubnetsWithBGP dp) advs) as [[advs1 w1] e1]. destruct H1 as (I1 & I2 & _).
  unfold deleteOrphanedAdvertisements.
  set (expected := list_to_set _ : gset string).
  assert (forall n, n ∈ expected <-> n ∈ expected_advs dp) as Hexp by (intros n; apply elem_of_list_to_set).
  destruct (be_list env) as [e|] eqn:Hl.
  - destruct (updateStatus env dp (getSubnetsWithBGP dp) advs1) as [ap e3]. cbn [br_advertisements].
    split; [exact I2|]. intros n Hn. rewrite I1 by exact Hn. destruct (advs !! n); [|done].
    rewrite decide_False; [done|]. by intros (_ & ? & _).
  - set (items := (map_to_list _).*1).
    assert (forall n, n ∈ items <-> exists a, advs1 !! n = Some a /\ managed_by (dp_Name dp) a = true) as Hitems.
    { intros n. unfold items. rewrite list_elem_of_fmap. split.
      - intros ([n' a] & -> & [Ha Hm]%elem_of_map_to_list%map_lookup_filter_Some). by exists a.
      - intros (a & Ha & Hm). exists (n, a). split; [done|]. by apply elem_of_map_to_list, map_lookup_filter_Some. }
    pose proof (delete_unexpected_spec env expected items advs1) as H2.
    destruct (delete_unexpected env expected items advs1) as [advs2 w2]. destruct H2 as [D1 _].
    destruct (updateStatus env dp (getSubnetsWithBGP dp) advs2) as [ap e3]. cbn [br_advertisements].
    split.
    + intros s Hs. rewrite D1, decide_False; [by apply I2|]. intros (_ & Hn & _). apply Hn, Hexp.
      apply list_elem_of_fmap. by exists s.
    + intros n Hn. rewrite D1, I1 by exact Hn.
      destruct (advs !! n) as [a|] eqn:Ha; [|by case_decide]. apply decide_ext. rewrite Hitems, I1, Ha, Hexp by exact Hn.
      split; [by intros ((? & [= <-] & ?) & _ & ?)|]. intros (? & _ & ?). by split; [eexists|].
Qed.

(** The errors of a reconcile. *)
Lemma reconcile_errors env dp advs :
  unique_subnets dp ->
  exists rest, br_errors (Reconcile env (inl dp) advs) =
    omap (fun s => ErrSubnetSync (ss_Name s) <$> (reconcileAdvertisement env dp s advs).2) (getSubnetsWithBGP dp) ++ rest /\
    (be_list env = None -> (forall c, be_apply env c = None) -> rest = []).
Proof.
  intros Hnd. unfold Reconcile.
  pose proof (sync_subnets_spec env dp (getSubnetsWithBGP dp) advs (advertised_unique dp Hnd)) as H1.
  destruct (sync_subnets env dp (getSubnetsWithBGP dp) advs) as [[advs1 w1] e1]. destruct H1 as (_ & _ & _ & -> & _).
  destruct (deleteOrphanedAdvertisements env dp _ advs1) as [[advs2 w2] e2] eqn:H2.
  destruct (updateStatus env dp (getSubnetsWithBGP dp) advs2) as [ap e3] eqn:H3. cbn [br_errors].
  eexists. split; [done|]. intros Hl Ha. unfold deleteOrphanedAdvertisements in H2. rewrite Hl in H2.
  destruct (delete_unexpected _ _ _ _). injection H2 as _ _ <-. unfold updateStatus in H3.
  destruct (buildBGPCondition _ _ _ _) as [[? ?] ?]. destruct (conditionApplyEntry _ _ _ _ _ _ _) as [entry ch].
  destruct (negb ch); [by injection H3 as _ <-|]. rewrite Ha in H3. by injection H3 as _ <-.
Qed.

(** An advertisement that is right is left alone. *)
Lemma reconcileAdvertisement_quiet env env' dp s old a advs :
  adv_written env dp s old a -> advs !! subnet_adv dp s = Some a ->
  be_pools env' = be_pools env -> be_get env' (subnet_adv dp s) = None ->
  reconcileAdvertisement env' dp s advs = (advs, [], None).
Proof.
  intros [H1 H2 H3 H4 _ _] Ha Hp Hg. unfold reconcileAdvertisement, getPoolServiceSelector. fold (subnet_adv dp s).
  rewrite Hp, Hg, Ha. unfold getPoolServiceSelector in H1. rewrite <- H1, H2, H3, H4.
  by rewrite !bool_decide_true by done.
Qed.

Lemma sync_subnets_quiet env dp subnets advs :
  (forall s, s ∈ subnets -> reconcileAdvertisement env dp s advs = (advs, [], None)) ->
  sync_subnets env dp subnets advs = (advs, [], []).
Proof.
  induction subnets as [|s subnets IH]; intros H; [done|]. cbn [sync_subnets].
  rewrite H by apply list_elem_of_here. rewrite IH; [done|]. intros s' Hs. by apply H, list_elem_of_further.
Qed.

Lemma ready_all env dp advs :
  (forall n, be_check env n = None) -> (forall s, s ∈ getSubnetsWithBGP dp -> is_Some (advs !! subnet_adv dp s)) ->
  (buildBGPCondition env dp (getSubnetsWithBGP dp) advs).1.1 = ConditionTrue <-> getSubnetsWithBGP dp <> [].
Proof.
  intros Hc Hs. unfold buildBGPCondition.
  assert (forallb (fun subnet => match be_check env (advertisementName (dp_Name dp) (ss_Name subnet)) with
    | Some _ => false | None => bool_decide (is_Some (advs !! advertisementName (dp_Name dp) (ss_Name subnet))) end)
    (getSubnetsWithBGP dp) = true) as ->.
  { apply forallb_forall. intros s' Hin%list_elem_of_In. rewrite Hc. by apply bool_decide_true, Hs. }
  by destruct (getSubnetsWithBGP dp).
Qed.

Lemma condition_same env env' dp dp' subnets advs :
  (forall n, be_check env n = None) -> (forall n, be_check env' n = None) -> dp_Name dp' = dp_Name dp ->
  buildBGPCondition env' dp' subnets advs = buildBGPCondition env dp subnets advs.
Proof.
  intros H H' Hn. unfold buildBGPCondition. rewrite Hn.
  assert (forall l, forallb (fun s => match be_check env' (advertisementName (dp_Name dp) (ss_Name s)) with
      | Some _ => false | None => bool_decide (is_Some (advs !! advertisementName (dp_Name dp) (ss_Name s))) end) l =
    forallb (fun s => match be_check env (advertisementName (dp_Name dp) (ss_Name s)) with
      | Some _ => false | None => bool_decide (is_Some (advs !! advertisementName (dp_Name dp) (ss_Name s))) end) l) as E.
  { intros l. induction l as [|s l IH]; [done|]. cbn [forallb]. by rewrite H, H', IH. }
  by rewrite E.
Qed.

Lemma reconcile_applied env dp advs :
  let res := Reconcile env (inl dp) advs in
  br_applied res = (updateStatus env dp (getSubnetsWithBGP dp) (br_advertisements res)).1.
Proof.
  unfold Reconcile. destruct (sync_subnets env dp _ advs) as [[advs1 w1] e1].
  destruct (deleteOrphanedAdvertisements env dp _ advs1) as [[advs2 w2] e2].
  destruct (updateStatus env dp _ advs2) as [ap e3] eqn:E. cbn. by rewrite E.
Qed.

(** An applied condition is the verdict, and is not applied twice. *)
Lemma applied_condition env dp subnets advs c :
  (updateStatus env dp subnets advs).1 = Some c ->
  C_Type c = ConditionTypeBGPAdvertisementReady /\ C_Status c = (buildBGPCondition env dp subnets advs).1.1 /\
  forall env' dp', buildBGPCondition env' dp' subnets advs = buildBGPCondition env dp subnets advs ->
    dp_Generation dp' = dp_Generation dp ->
    FindStatusCondition (st_Conditions (dp_Status dp')) ConditionTypeBGPAdvertisementReady = Some c ->
    updateStatus env' dp' subnets advs = (None, None).
Proof.
  unfold updateStatus. destruct (buildBGPCondition env dp subnets advs) as [[status reason] message].
  destruct (conditionApplyEntry FindStatusCondition (be_now env) dp _ _ _ _) as [entry ch] eqn:E.
  destruct (negb ch); [done|]. destruct (be_apply env entry); [done|]. cbn [fst]. intros [= ->].
  assert (exists t, c = mkCondition ConditionTypeBGPAdvertisementReady status (dp_Generation dp) t reason (MsgText message))
    as [t ->].
  { unfold conditionApplyEntry in E. destruct (FindStatusCondition _ _); injection E as <- _; by eexists. }
  split; [done|]. split; [done|]. intros env' dp' -> Hg Hf. unfold conditionApplyEntry. rewrite Hf. cbn. rewrite Hg.
  by rewrite !bool_decide_true by done.
Qed.

Lemma no_errors env dp advs :
  unique_subnets dp -> (forall n, answers env n) -> be_list env = None -> (forall c, be_apply env c = None) ->
  br_errors (Reconcile env (inl dp) advs) = [].
Proof.
  intros Hnd Hans Hl Hap. destruct (reconcile_errors env dp advs Hnd) as (rest & E & Hrest).
  rewrite E, Hrest, app_nil_r by done. apply elem_of_nil_inv. intros e (s & Hs & He)%list_elem_of_omap.
  pose proof (reconcileAdvertisement_spec env dp s advs) as Hr.
  destruct (reconcileAdvertisement env dp s advs) as [[advs' w] err]. destruct Hr as (_ & _ & _ & Ha).
  cbn [snd] in He. by rewrite Ha in He.
Qed.

(** * Properties *)

(** A selector without fields selects everything, like none. *)
Definition narrowed (selector : option Selector) : option Selector :=
  match selector with Some s => if (0 <? fields s)%nat then Some s else None | None => None end.

Definition community_of (subnet : SubnetSpec) : option string :=
  match ss_BGP subnet with
  | Some b => if decide (bgp_Community b = EmptyString) then None else Some (bgp_Community b)
  | None => None
  end.

(** What the advertisement of a subnet is, given what was there.  It is restricted
    to the Services its pool selects where the pool's selector could be read; where
    it could not - the pools were not listed, none is the subnet's, or the selector is
    unreadable - it is for every Service. *)
Record advertises (env : bgp_env) (dp : DynamicPrefix) (subnet : SubnetSpec) (old : option advertisement)
    (adv : advertisement) : Prop := {
  advertises_selected : forall selector, getPoolServiceSelector env (dp_Name dp) (ss_Name subnet) = inl selector ->
    ad_spec adv = AdvertisementSpec (narrowed selector) (community_of subnet);
  advertises_every : forall e, getPoolServiceSelector env (dp_Name dp) (ss_Name subnet) = inr e ->
    ad_spec adv = AdvertisementSpec None (community_of subnet);
  advertises_managed : default EmptyString (ad_labels adv !! LabelManagedBy) = LabelManagedByValue;
  advertises_resource : default EmptyString (ad_labels adv !! LabelDynamicPrefixName) = dp_Name dp;
  advertises_subnet : default EmptyString (ad_labels adv !! LabelSubnetName) = ss_Name subnet;
  advertises_controller : ad_controller adv = match old with Some o => ad_controller o | None => Some (dp_Name dp) end;
  advertises_other_labels : forall k, k <> LabelManagedBy -> k <> LabelDynamicPrefixName -> k <> LabelSubnetName ->
    ad_labels adv !! k = match old with Some o => ad_labels o !! k | None => None end
}.

Lemma written_advertises env dp s old a : adv_written env dp s old a -> advertises env dp s old a.
Proof.
  intros [H1 H2 H3 H4 H5 H6]. split; try done; rewrite H1; [by intros selector ->|by intros e ->].
Qed.


(** When the API server answers, one reconcile is enough: it returns no error,
    leaves exactly the advertisements of the advertised subnets labelled as this
    resource's, and reports them as ready; a further reconcile writes nothing, not
    even status. *)
Theorem bgp_settles (env : bgp_env) (dp : DynamicPrefix) (advs : gmap string advertisement) :
  unique_subnets dp -> (forall n, answers env n) -> be_list env = None -> (forall n, be_delete env n = None) ->
  (forall n, be_check env n = None) -> (forall c, be_apply env c = None) ->
  let res := Reconcile env (inl dp) advs in
  br_errors res = [] /\
  (forall n a, br_advertisements res !! n = Some a -> managed_by (dp_Name dp) a = true -> n ∈ expected_advs dp) /\
  (forall s, s ∈ getSubnetsWithBGP dp -> is_Some (br_advertisements res !! subnet_adv dp s)) /\
  (forall c, br_applied res = Some c -> C_Type c = ConditionTypeBGPAdvertisementReady /\
     (C_Status c = ConditionTrue <-> getSubnetsWithBGP dp <> [])) /\
  forall env' dp' c, be_pools env' = be_pools env -> (forall n, be_get env' n = None) ->
    (forall n, be_check env' n = None) -> be_list env' = None ->
    dp_Name dp' = dp_Name dp -> dp_Spec dp' = dp_Spec dp -> dp_Generation dp' = dp_Generation dp ->
    FindStatusCondition (st_Conditions (dp_Status dp')) ConditionTypeBGPAdvertisementReady = Some c ->
    br_applied res = Some c ->
    Reconcile env' (inl dp') (br_advertisements res) = mkBGPResult (br_advertisements res) [] None [].
Proof.
  intros Hnd Hans Hl Hd Hck Hap res. destruct (synced_advertisements env dp advs Hnd) as [H1 H2]. fold res in H1, H2.
  assert (forall s, s ∈ getSubnetsWithBGP dp -> exists a, br_advertisements res !! subnet_adv dp s = Some a /\
    adv_written env dp s (advs !! subnet_adv dp s) a) as Hadv.
  { intros s Hs. rewrite H1 by done. pose proof (reconcileAdvertisement_spec env dp s advs) as Hr.
    destruct (reconcileAdvertisement env dp s advs) as [[advs' w] err]. destruct Hr as (_ & Hok & _ & Ha).
    by apply Hok, Ha. }
  assert (forall n a, br_advertisements res !! n = Some a -> managed_by (dp_Name dp) a = true -> n ∈ expected_advs dp) as Hown.
  { intros n a Hn Hm. destruct (decide (n ∈ expected_advs dp)) as [|Hne]; [done|]. rewrite H2 in Hn by done.
    destruct (advs !! n) as [a'|]; [|done]. case_decide as Hc; [done|]. injection Hn as ->. by destruct Hc. }
  split; [|split; [exact Hown|split; [|split]]].
  - unfold res. by apply no_errors.
  - intros s Hs. destruct (Hadv s Hs) as (a & Ha & _). by exists a.
  - intros c Hc. unfold res in Hc. rewrite reconcile_applied in Hc. fold res in Hc.
    apply applied_condition in Hc as (Ht & Hs & _). split; [done|]. rewrite Hs. apply ready_all; [done|].
    intros s Hin. destruct (Hadv s Hin) as (a & Ha & _). by exists a.
  - intros env' dp' c Hp Hg Hck' Hl' Hn Hsp Hgen Hf Hc. unfold res in Hc. rewrite reconcile_applied in Hc. fold res in Hc.
    apply applied_condition in Hc as (_ & _ & Hq). unfold Reconcile.
    assert (getSubnetsWithBGP dp' = getSubnetsWithBGP dp) as Hsub by (unfold getSubnetsWithBGP; by rewrite Hsp).
    rewrite Hsub, (sync_subnets_quiet env' dp').
    2: { intros s Hs. destruct (Hadv s Hs) as (a & Ha & Hadv'). apply (reconcileAdvertisement_quiet env env' dp' s (advs !! subnet_adv dp s) a).
         - destruct Hadv' as [E1 E2 E3 E4 E5 E6]. split; rewrite ?Hn; done.
         - unfold subnet_adv. by rewrite Hn.
         - exact Hp.
         - apply Hg. }
    unfold deleteOrphanedAdvertisements. rewrite Hl', Hn.
    set (expected := list_to_set _ : gset string). set (items := (map_to_list _).*1).
    pose proof (delete_unexpected_spec env' expected items (br_advertisements res)) as H3.
    destruct (delete_unexpected env' expected items (br_advertisements res)) as [advs2 w2].
    destruct H3 as [_ Hdel]. destruct Hdel as [-> ->].
    { intros n ([n' a] & -> & [Ha Hm]%elem_of_map_to_list%map_lookup_filter_Some)%list_elem_of_fmap.
      apply elem_of_list_to_set. by eapply Hown. }
    rewrite (Hq env' dp'); [done| |done|done]. by apply condition_same.
Qed.

(** Two failures are lost although a failed delete is meant to be returned and
    an unreadable selector not to count as none: with every other call answered a
    reconcile returns no error, an advertisement whose deletion failed is still
    there, and a subnet whose pool could not be read is advertised without a
    selector, for every Service. *)
Theorem bgp_failures_lost (env : bgp_env) (dp : DynamicPrefix) (advs : gmap string advertisement) :
  unique_subnets dp -> (forall n, answers env n) -> be_list env = None -> (forall c, be_apply env c = None) ->
  let res := Reconcile env (inl dp) advs in
  br_errors res = [] /\
  (forall n a e, advs !! n = Some a -> n ∉ expected_advs dp -> be_delete env n = Some e ->
     br_advertisements res !! n = Some a) /\
  (forall s e, s ∈ getSubnetsWithBGP dp -> getPoolServiceSelector env (dp_Name dp) (ss_Name s) = inr e ->
     exists a community, br_advertisements res !! subnet_adv dp s = Some a /\ ad_spec a = AdvertisementSpec None community).
Proof.
  intros Hnd Hans Hl Hap res. destruct (synced_advertisements env dp advs Hnd) as [H1 H2]. fold res in H1, H2.
  split; [|split].
  - unfold res. by apply no_errors.
  - intros n a e Ha Hn Hd. rewrite H2, Ha by done. rewrite decide_False; [done|]. intros (_ & _ & ?). congruence.
  - intros s e Hs Hsel. rewrite H1 by done. pose proof (reconcileAdvertisement_spec env dp s advs) as Hr.
    destruct (reconcileAdvertisement env dp s advs) as [[advs' w] err]. destruct Hr as (_ & Hok & _ & Ha).
    destruct (Hok (Ha (Hans _))) as (a & E & [Hspec _ _ _ _ _]). rewrite Hsel in Hspec. by exists a, (match ss_BGP s with
      Some b => if decide (bgp_Community b = EmptyString) then None else Some (bgp_Community b) | None => None end).
Qed.
End BGP.

(** * Witnesses *)

(** A pool with a selector, one without, and an advertisement left from a subnet
    that is no longer advertised. *)
Definition sample_bgp_env (pool : lb_pool (Selector := string)) : bgp_env :=
  mkBGPEnv 7 (fun _ => inl [pool]) (fun _ => None) (fun _ => None) (fun _ => None) (fun _ => None) None
    (fun n => if decide (n = "dp-home-old") then Some (errors_New "denied") else None) (fun _ => None) (fun _ => None).

Definition sample_lb_pool (selector : nested_map string) : lb_pool :=
  mkLBPool "lan" (Some {[ AnnotationName := "home"; AnnotationSubnet := "pods" ]}) selector.

Definition sample_adv (subnet : string) (selector : option string) : advertisement (Selector := string) :=
  mkAdvertisement (subnet_labels "home" subnet empty) (Some "home") (AdvertisementSpec selector None).

Definition sample_advs : gmap string (advertisement (Selector := string)) :=
  {[ "dp-home-pods" := sample_adv "pods" (Some "app=web"); "dp-home-gone" := sample_adv "gone" None;
     "dp-home-old" := sample_adv "old" None ]}.

Lemma sample_unique : unique_subnets (sample_dp no_status).
Proof. apply (bool_decide_unpack _). vm_compute. exact I. Qed.


(** With the delete answered, too. *)
Lemma bgp_settles_witness :
  let env := mkBGPEnv 7 (fun _ => inl [sample_lb_pool (MapFound "app=web")]) (fun _ => None) (fun _ => None) (fun _ => None)
               (fun _ => None) None (fun _ => None) (fun _ => None) (fun _ => None) in
  let res := Reconcile String.length list_FindStatusCondition env (inl (sample_dp no_status)) empty in
  br_writes res = [Created "dp-home-pods"] /\ br_errors res = [] /\
  exists c, br_applied res = Some c /\ C_Status c = ConditionTrue.
Proof.
  intros env res. split; [vm_compute; reflexivity|].
  destruct (bgp_settles String.length list_FindStatusCondition env (sample_dp no_status) empty sample_unique)
    as (He & _ & _ & Hc & _); [repeat split|reflexivity|reflexivity|reflexivity|reflexivity|].
  split; [exact He|]. fold res in Hc. destruct (br_applied res) as [c|] eqn:E; [|vm_compute in E; discriminate E].
  exists c. split; [exact eq_refl|]. apply (Hc c eq_refl). intros H. vm_compute in H. discriminate H.
Defined.

(** The pool's selector cannot be read: the narrower advertisement is widened. *)
Lemma bgp_failures_lost_witness :
  let res := Reconcile String.length list_FindStatusCondition
               (sample_bgp_env (sample_lb_pool (MapUnreadable (errors_New "not a map"))))
               (inl (sample_dp no_status)) sample_advs in
  br_errors res = [] /\ br_advertisements res !! "dp-home-old" = sample_advs !! "dp-home-old" /\
  ad_spec <$> (sample_advs !! "dp-home-pods") = Some (AdvertisementSpec (Some "app=web") None) /\
  exists a community, br_advertisements res !! "dp-home-pods" = Some a /\ ad_spec a = AdvertisementSpec None community.
Proof.
  intros res.
  destruct (bgp_failures_lost String.length list_FindStatusCondition
    (sample_bgp_env (sample_lb_pool (MapUnreadable (errors_New "not a map")))) (sample_dp no_status) sample_advs
    sample_unique) as (He & Hd & Hs); [repeat split|reflexivity|reflexivity|].
  split; [exact He|]. split; [|split; [reflexivity|]].
  - apply (Hd _ _ (errors_New "denied")); [reflexivity| |reflexivity]. apply (bool_decide_unpack _). vm_compute. exact I.
  - apply (Hs (mkSubnetSpec "pods" 1 64 (Some (mkBGPSpec true ""))) (ErrReadSelector "lan" (errors_New "not a map")));
      [apply list_elem_of_here|reflexivity].
Defined.
