(* ===== verification/GoTime.v ===== *)
(** * Durations as text

    [time.ParseDuration], with the loops of Go's implementation: a sign, then
    numbers with an optional fraction and a unit.  Integers are uint64 with the
    overflow checks of the source; the fraction of a unit is computed in binary64
    arithmetic, as Go computes it. *)

From Stdlib Require Import Floats.SpecFloat.
From S2P Require Import Prelude GoStrings.

(** ** Binary64 *)

Definition float64 : Type := spec_float.
Definition float_of_Z (n : Z) : float64 := binary_normalize 53 1024 n 0 false.
Definition float_mul (x y : float64) : float64 := SFmul 53 1024 x y.
Definition float_div (x y : float64) : float64 := SFdiv 53 1024 x y.

(** [uint64(x)] of a finite non-negative value: the fraction is dropped. *)
Definition uint64_of_float (x : float64) : Z :=
  match x with S754_finite false m e => Z.shiftl (Z.pos m) e | _ => 0 end.

(** ** Parsing *)

(** [leadingInt]: [None] is the overflow error. *)
Fixpoint leadingInt (x : Z) (s : string) : option (Z * string) :=
  match s with
  | EmptyString => Some (x, s)
  | String c s' =>
      match digit_val c with
      | None => Some (x, s)
      | Some d =>
          if 2 ^ 63 / 10 <? x then None
          else let x' := x * 10 + d in if 2 ^ 63 <? x' then None else leadingInt x' s'
      end
  end.

(** [leadingFraction]: digits after an overflow are skipped. *)
Fixpoint leadingFraction (x : Z) (scale : float64) (overflow : bool) (s : string) : Z * float64 * string :=
  match s with
  | EmptyString => (x, scale, s)
  | String c s' =>
      match digit_val c with
      | None => (x, scale, s)
      | Some d =>
          if overflow then leadingFraction x scale true s'
          else if (2 ^ 63 - 1) / 10 <? x then leadingFraction x scale true s'
          else
            let y := x * 10 + d in
            if 2 ^ 63 <? y then leadingFraction x scale true s'
            else leadingFraction y (float_mul scale (float_of_Z 10)) false s'
      end
  end.

Definition number_byte (c : ascii) : bool :=
  (bool_decide (c = "."%char) || match digit_val c with Some _ => true | None => false end)%bool.

(** The text up to the next number, and the rest. *)
Fixpoint unit_text (s : string) : string * string :=
  match s with
  | EmptyString => (EmptyString, EmptyString)
  | String c s' => if number_byte c then (EmptyString, s) else let (u, rest) := unit_text s' in (String c u, rest)
  end.

(** The bytes of the two spellings of the micro sign. *)
Definition micro_sign : string := String (ascii_of_N 194) (String (ascii_of_N 181) EmptyString).
Definition greek_mu : string := String (ascii_of_N 206) (String (ascii_of_N 188) EmptyString).

Definition unitMap (u : string) : option Z :=
  if decide (u = "ns") then Some 1
  else if decide (u = "us" \/ u = micro_sign +:+ "s" \/ u = greek_mu +:+ "s") then Some (10 ^ 3)
  else if decide (u = "ms") then Some (10 ^ 6)
  else if decide (u = "s") then Some (10 ^ 9)
  else if decide (u = "m") then Some (60 * 10 ^ 9)
  else if decide (u = "h") then Some (3600 * 10 ^ 9)
  else None.

(** One number with its unit: its nanoseconds and the rest. *)
Definition parse_part (s : string) : option (Z * string) :=
  match s with
  | EmptyString => None
  | String c _ =>
      if negb (number_byte c) then None
      else
        match leadingInt 0 s with
        | None => None
        | Some (v, s1) =>
            let pre := negb (bool_decide (String.length s = String.length s1)) in
            let '(f, scale, s2, post) :=
              match s1 with
              | String "." s1' =>
                  let '(f, scale, s2) := leadingFraction 0 (float_of_Z 1) false s1' in
                  (f, scale, s2, negb (bool_decide (String.length s1' = String.length s2)))
              | _ => (0, float_of_Z 1, s1, false)
              end in
            if (negb pre && negb post)%bool then None
            else
              let (u, s3) := unit_text s2 in
              if decide (u = EmptyString) then None
              else
                match unitMap u with
                | None => None
                | Some unit =>
                    if 2 ^ 63 / unit <? v then None
                    else
                      let v1 := v * unit in
                      if 0 <? f then
                        let v2 := v1 + uint64_of_float (float_mul (float_of_Z f) (float_div (float_of_Z unit) scale)) in
                        if 2 ^ 63 <? v2 then None else Some (v2, s3)
                      else Some (v1, s3)
                end
        end
  end.

(** The sum of the parts; every part has at least one byte. *)
Fixpoint parse_parts (fuel : nat) (d : Z) (s : string) : option Z :=
  match s, fuel with
  | EmptyString, _ => Some d
  | _, O => None
  | _, S fuel' =>
      match parse_part s with
      | None => None
      | Some (v, rest) => if 2 ^ 63 <? d + v then None else parse_parts fuel' (d + v) rest
      end
  end.

(** Nanoseconds, an int64; [None] is the error. *)
Definition ParseDuration (s : string) : option Z :=
  let '(neg, s1) := match s with
                    | String "-" s' => (true, s')
                    | String "+" s' => (false, s')
                    | _ => (false, s)
                    end in
  if decide (s1 = "0") then Some 0
  else if decide (s1 = EmptyString) then None
  else
    match parse_parts (String.length s1) 0 s1 with
    | None => None
    | Some d => if neg then Some (- d) else if 2 ^ 63 - 1 <? d then None else Some d
    end.

Example marker_duration : ParseDuration "87600h" = Some (87600 * 3600 * 10 ^ 9).
Proof. reflexivity. Qed.
Example remaining_duration : ParseDuration "87599h59m58.25s" = Some ((87600 * 3600 - 2) * 10 ^ 9 + 25 * 10 ^ 7).
Proof. reflexivity. Qed.
Example expired_duration : ParseDuration "-1h2m" = Some (- (62 * 60 * 10 ^ 9)).
Proof. reflexivity. Qed.
Example fractions : ParseDuration "1.5h" = Some (5400 * 10 ^ 9) /\ ParseDuration ".5ms" = Some 500000 /\
  ParseDuration "." = None /\ ParseDuration "1" = None /\ ParseDuration "1x" = None /\ ParseDuration "3000000h" = None.
Proof. repeat split. Qed.

(** * Lemmas *)

(** ** The loop terminates, in range *)

Lemma leadingInt_rest x s v rest : leadingInt x s = Some (v, rest) ->
  (String.length rest <= String.length s)%nat /\ (0 <= x -> x <= 2 ^ 63 -> 0 <= v <= 2 ^ 63).
Proof.
  revert x. induction s as [|c s IH]; intros x; cbn [leadingInt]; [by intros [= <- <-]|].
  destruct (digit_val c) as [d|] eqn:Hd; [|by intros [= <- <-]].
  destruct (Z.ltb_spec (2 ^ 63 / 10) x); [done|]. cbv zeta. destruct (Z.ltb_spec (2 ^ 63) (x * 10 + d)); [done|].
  intros [H1 H2]%IH. cbn [String.length]. split; [lia|]. intros. apply H2; [|lia].
  unfold digit_val in Hd. case_match; zbool; simplify_eq. lia.
Qed.

Lemma leadingFraction_rest x scale overflow s :
  (String.length (leadingFraction x scale overflow s).2 <= String.length s)%nat.
Proof.
  revert x scale overflow. induction s as [|c s IH]; intros x scale overflow; cbn [leadingFraction]; [done|].
  destruct (digit_val c); [|done]. cbn [String.length].
  destruct overflow; [|destruct (_ <? x); [|cbv zeta; destruct (2 ^ 63 <? _)]];
    (eapply Nat.le_trans; [apply IH|]; lia).
Qed.

Lemma unit_text_length s : (String.length (unit_text s).1 + String.length (unit_text s).2 = String.length s)%nat.
Proof.
  induction s as [|c s IH]; [done|]. cbn [unit_text]. destruct (number_byte c); [done|].
  destruct (unit_text s). cbn in *. lia.
Qed.

Lemma uint64_of_float_nonneg x : 0 <= uint64_of_float x.
Proof. unfold uint64_of_float. destruct x as [| | |[] m e]; try lia. apply Z.shiftl_nonneg. lia. Qed.

(** Every part has a byte and is no negative number of nanoseconds. *)
Lemma parse_part_shorter s v rest : parse_part s = Some (v, rest) ->
  (String.length rest < String.length s)%nat /\ 0 <= v.
Proof.
  destruct s as [|c s']; [done|]. unfold parse_part. destruct (negb (number_byte c)); [done|].
  set (s := String c s'). destruct (leadingInt 0 s) as [[v0 s1]|] eqn:H1; [|done].
  apply leadingInt_rest in H1 as [L1 V1]. specialize (V1 ltac:(lia) ltac:(lia)).
  set (q := match s1 with String "." s1' => _ | _ => _ end).
  assert (String.length q.1.2 <= String.length s1)%nat as L2.
  { unfold q. repeat (case_match; try done). cbn [fst snd String.length].
    pose proof (leadingFraction_rest 0 (float_of_Z 1) false s0) as L. 
    destruct (leadingFraction 0 (float_of_Z 1) false s0) as [[? ?] ?]. simplify_eq. cbn [snd] in L. lia. }
  destruct q as [[[f scale] s2] post]. cbn [fst snd] in L2. destruct (_ && _)%bool; [done|].
  pose proof (unit_text_length s2) as L3. destruct (unit_text s2) as [u s3]. cbn [fst snd] in L3.
  destruct (decide (u = EmptyString)) as [|Hu]; [done|].
  assert (1 <= String.length u)%nat by (destruct u; [done|cbn; lia]).
  destruct (unitMap u) as [unit|] eqn:Hm; [|done].
  assert (0 < unit) as Hpos by (unfold unitMap in Hm; repeat case_decide; by simplify_eq).
  destruct (_ <? v0); [done|]. cbv zeta.
  pose proof (uint64_of_float_nonneg (float_mul (float_of_Z f) (float_div (float_of_Z unit) scale))).
  destruct (0 <? f); [destruct (2 ^ 63 <? _); [done|]|]; intros [= <- <-]; split; nia.
Qed.

Lemma parse_parts_fuel fuel d s :
  (String.length s <= fuel)%nat -> parse_parts fuel d s = parse_parts (String.length s) d s.
Proof.
  revert d fuel. induction s as [s IH] using (induction_ltof1 _ String.length). unfold ltof in IH. intros d fuel Hf.
  destruct s as [|c s']; [by destruct fuel|]. destruct fuel as [|fuel]; [cbn in Hf; lia|]. cbn [String.length] in *.
  cbn [parse_parts]. destruct (parse_part (String c s')) as [[v rest]|] eqn:Hp; [|done].
  apply parse_part_shorter in Hp as [Hl _]. cbn [String.length] in Hl. destruct (2 ^ 63 <? d + v); [done|].
  rewrite (IH rest) by (cbn [String.length]; lia). symmetry. apply (IH rest); cbn [String.length]; lia.
Qed.

Lemma parse_parts_range fuel d s r : parse_parts fuel d s = Some r -> 0 <= d <= 2 ^ 63 -> 0 <= r <= 2 ^ 63.
Proof.
  revert d s. induction fuel as [|fuel IH]; intros d s; destruct s as [|c s']; cbn [parse_parts]; try (by intros [= <-]).
  destruct (parse_part (String c s')) as [[v rest]|] eqn:Hp; [|done]. apply parse_part_shorter in Hp as [_ Hv].
  destruct (Z.ltb_spec (2 ^ 63) (d + v)); [done|]. intros Hr Hd. eapply IH; [exact Hr|lia].
Qed.

Lemma ParseDuration_range s d : ParseDuration s = Some d -> - 2 ^ 63 <= d < 2 ^ 63.
Proof.
  unfold ParseDuration. set (sign := match s with String "-" _ => _ | _ => _ end). destruct sign as [neg s1].
  case_decide; [intros [= <-]; lia|]. case_decide; [done|].
  destruct (parse_parts _ 0 s1) as [r|] eqn:Hr; [|done]. apply parse_parts_range in Hr; [|lia].
  destruct neg; [intros [= <-]; lia|]. destruct (Z.ltb_spec (2 ^ 63 - 1) r); [done|]. intros [= <-]. lia.
Qed.

(** ** Whole hours, minutes and seconds *)

Lemma pretty_N_go_append n s1 s2 : pretty_N_go n (s1 +:+ s2) = pretty_N_go n s1 +:+ s2.
Proof.
  revert s1. induction (N.lt_wf_0 n) as [n _ IH]; intros s1. destruct (decide (n = 0)%N) as [->|].
  { by rewrite !pretty_N_go_0. }
  rewrite !(pretty_N_go_step n) by lia. rewrite <- IH by (apply N.div_lt; lia). done.
Qed.

Lemma digit_val_pretty k : (k < 10)%N -> digit_val (pretty_N_char k) = Some (Z.of_N k).
Proof.
  intros Hk. assert (k = 0 \/ k = 1 \/ k = 2 \/ k = 3 \/ k = 4 \/ k = 5 \/ k = 6 \/ k = 7 \/ k = 8 \/ k = 9)%N as H by lia.
  by repeat (destruct H as [->|H]; [done|]); subst.
Qed.

Lemma leadingInt_pretty n s : (Z.of_N n <= 2 ^ 63) -> leadingInt 0 (pretty_N_go n s) = leadingInt (Z.of_N n) s.
Proof.
  revert s. induction (N.lt_wf_0 n) as [n _ IH]; intros s Hn. destruct (decide (n = 0)%N) as [->|].
  { by rewrite pretty_N_go_0. }
  rewrite pretty_N_go_step by lia. pose proof (N.mod_lt n 10 ltac:(lia)) as Hr.
  assert (n / 10 < n)%N as Hlt by (apply N.div_lt; lia).
  assert (Z.of_N n = 10 * Z.of_N (n / 10) + Z.of_N (n `mod` 10)) as Hn10
    by (rewrite N2Z.inj_div, N2Z.inj_mod; apply Z.div_mod; lia).
  rewrite IH; [|exact Hlt|lia]. cbn [leadingInt]. rewrite digit_val_pretty by exact Hr.
  assert (Z.of_N (n / 10) <= 2 ^ 63 / 10) as Hle by
    (pose proof (N2Z.is_nonneg (n `mod` 10)); apply Z.div_le_lower_bound; [lia|clear -Hn Hn10 H; lia]).
  rewrite (proj2 (Z.ltb_ge _ _)) by exact Hle. cbv zeta.
  rewrite (Z.mul_comm _ 10), <- Hn10.
  by rewrite (proj2 (Z.ltb_ge _ _)) by exact Hn.
Qed.

Lemma leadingInt_itoa n s : 0 <= n <= 2 ^ 63 -> leadingInt 0 (itoa n +:+ s) = leadingInt n s.
Proof.
  intros Hn. destruct n as [|p|p]; [done| |lia]. unfold itoa, pretty, pretty_Z, pretty, pretty_positive, pretty, pretty_N.
  rewrite decide_False by done. rewrite <- pretty_N_go_append. change (EmptyString +:+ s) with s.
  rewrite leadingInt_pretty; [done|]. by destruct Hn.
Qed.

Definition digit_byte (c : ascii) : bool := match digit_val c with Some _ => true | None => false end.

Lemma itoa_digits n : 0 <= n -> str_all digit_byte (itoa n) = true /\ itoa n <> EmptyString.
Proof.
  intros Hn. destruct n as [|p|p]; [done| |lia]. split.
  - unfold itoa, pretty, pretty_Z, pretty, pretty_positive, pretty, pretty_N. rewrite decide_False by done.
    apply pretty_N_chars; [|done]. intros k Hk. unfold digit_byte. by rewrite digit_val_pretty.
  - unfold itoa, pretty, pretty_Z, pretty, pretty_positive, pretty, pretty_N. rewrite decide_False by done.
    rewrite pretty_N_go_step by done. change (String ?c "") with (EmptyString +:+ String c EmptyString).
    rewrite pretty_N_go_append. by destruct (pretty_N_go _ EmptyString).
Qed.

(** A text that begins with a number, or is empty. *)
Definition number_or_end (s : string) : Prop := match s with EmptyString => True | String c _ => number_byte c = true end.

Lemma unit_text_app u rest :
  str_all (fun c => negb (number_byte c)) u = true -> number_or_end rest -> unit_text (u +:+ rest) = (u, rest).
Proof.
  intros Hu Hr. induction u as [|c u IH]; rewrite ?append_cons, ?append_nil_l; cbn in *.
  - destruct rest as [|c rest]; [done|]. cbn in *. by rewrite Hr.
  - apply andb_true_iff in Hu as [Hc Hu]. apply negb_true_iff in Hc. cbn. by rewrite Hc, (IH Hu).
Qed.

Lemma itoa_number n s : 0 <= n -> number_or_end (itoa n +:+ s).
Proof.
  intros Hn. destruct (itoa_digits n Hn) as [Hd Hne]. destruct (itoa n) as [|c r]; [done|]. rewrite append_cons. cbn in *.
  apply andb_true_iff in Hd as [Hc _]. unfold number_byte. unfold digit_byte in Hc. rewrite Hc. apply orb_true_r.
Qed.

Lemma String_length_app s1 s2 : String.length (s1 +:+ s2) = (String.length s1 + String.length s2)%nat.
Proof. induction s1 as [|c s1 IH]; [done|]. rewrite append_cons. cbn. by rewrite IH. Qed.

(** A whole number of a unit. *)
Lemma parse_part_itoa n u unit rest :
  0 <= n -> unitMap u = Some unit -> 0 < unit -> n * unit <= 2 ^ 63 -> u <> EmptyString ->
  str_all (fun c => negb (number_byte c)) u = true -> number_or_end rest ->
  parse_part (itoa n +:+ u +:+ rest) = Some (n * unit, rest).
Proof.
  intros Hn Hm Hpos Hle Hu Hall Hrest. pose proof (itoa_number n (u +:+ rest) Hn) as Hfirst.
  pose proof (leadingInt_itoa n (u +:+ rest) ltac:(nia)) as Hlead.
  assert (String.length (u +:+ rest) < String.length (itoa n +:+ u +:+ rest))%nat as Hlen.
  { destruct (itoa_digits n Hn) as [_ Hne]. rewrite (String_length_app (itoa n)). destruct (itoa n); [done|cbn; lia]. }
  assert (leadingInt n (u +:+ rest) = Some (n, u +:+ rest) /\
    exists c r, u +:+ rest = String c r /\ c <> "."%char) as (Hstop & c & r & Ec & Hdot).
  { destruct u as [|c u]; [done|]. cbn in Hall. apply andb_true_iff in Hall as [Hc _]. apply negb_true_iff, orb_false_iff in Hc as [H1 H2].
    apply bool_decide_eq_false in H1. split; [|by exists c, (u +:+ rest)]. rewrite append_cons. cbn [leadingInt]. by destruct (digit_val c). }
  rewrite Hstop in Hlead. pose proof (unit_text_app u rest Hall Hrest) as Hut.
  set (s := itoa n +:+ u +:+ rest) in *. unfold parse_part. destruct s as [|c0 s0] eqn:Es; [by cbn in Hlen; lia|].
  cbn [number_or_end] in Hfirst. rewrite Hfirst, Hlead. cbn [negb].
  rewrite (bool_decide_false (String.length (String c0 s0) = _)) by lia. cbn [negb].
  assert (match u +:+ rest with
    | String "." s1' => let '(f, scale, s2) := leadingFraction 0 (float_of_Z 1) false s1' in
        (f, scale, s2, negb (bool_decide (String.length s1' = String.length s2)))
    | _ => (0, float_of_Z 1, u +:+ rest, false) end = (0, float_of_Z 1, u +:+ rest, false)) as ->.
  { rewrite Ec. destruct c as [[] [] [] [] [] [] [] []]; try reflexivity. by destruct Hdot. }
  cbn [andb]. rewrite Hut, decide_False, Hm by done.
  rewrite (proj2 (Z.ltb_ge _ _)) by (apply Z.div_le_lower_bound; lia). by rewrite Z.ltb_irrefl.
Qed.

(** The texts [Duration.String] gives for a whole number of seconds. *)
Definition hms (h m s : Z) : string := itoa h +:+ "h" +:+ itoa m +:+ "m" +:+ itoa s +:+ "s".

Lemma ParseDuration_hms h m s :
  0 <= h -> 0 <= m -> 0 <= s -> ((h * 60 + m) * 60 + s) * 10 ^ 9 < 2 ^ 63 ->
  ParseDuration (hms h m s) = Some (((h * 60 + m) * 60 + s) * 10 ^ 9).
Proof.
  intros Hh Hm Hs Hlt. unfold ParseDuration, hms. destruct (itoa_digits h Hh) as [Hd Hne].
  set (text := itoa h +:+ _).
  assert (exists c c' r, text = String c (String c' r) /\ digit_byte c = true) as (c & c' & r & Et & Hc).
  { unfold text. destruct (itoa h) as [|c r]; [done|]. cbn in Hd. apply andb_true_iff in Hd as [Hc _].
    destruct r as [|c' r]; [by eexists c, "h"%char, _|]; by eexists c, c', _. }
  assert (match text with String "-" s' => (true, s') | String "+" s' => (false, s') | _ => (false, text) end = (false, text)) as ->.
  { rewrite Et. by destruct c as [[] [] [] [] [] [] [] []]. }
  rewrite !decide_False by by rewrite Et.
  assert (parse_parts (String.length text) 0 text = Some (((h * 60 + m) * 60 + s) * 10 ^ 9)) as ->.
  2: { by rewrite (proj2 (Z.ltb_ge _ _)) by lia. }
  rewrite <- (parse_parts_fuel (S (S (S (String.length text))))) by lia.
  assert (forall n rest, 0 <= n -> exists c r, itoa n +:+ rest = String c r) as Hcons.
  { intros n rest Hn. destruct (itoa_digits n Hn) as [_ H]. destruct (itoa n); [done|]. by do 2 eexists. }
  unfold text. destruct (Hcons h ("h" +:+ itoa m +:+ "m" +:+ itoa s +:+ "s") Hh) as (c1 & r1 & E1).
  rewrite E1. cbn [parse_parts]. rewrite <- E1.
  rewrite (parse_part_itoa h "h" (3600 * 10 ^ 9)) by (done || lia || by apply itoa_number).
  rewrite (proj2 (Z.ltb_ge _ _)) by lia.
  destruct (Hcons m ("m" +:+ itoa s +:+ "s") Hm) as (c2 & r2 & E2). rewrite E2. cbn [parse_parts]. rewrite <- E2.
  rewrite (parse_part_itoa m "m" (60 * 10 ^ 9)) by (done || lia || by apply itoa_number).
  rewrite (proj2 (Z.ltb_ge _ _)) by lia.
  destruct (Hcons s "s" Hs) as (c3 & r3 & E3). rewrite E3. cbn [parse_parts]. rewrite <- E3.
  pose proof (parse_part_itoa s "s" (10 ^ 9) EmptyString) as Hlast. rewrite (append_nil_r "s") in Hlast.
  rewrite Hlast by (done || lia).
  rewrite (proj2 (Z.ltb_ge _ _)) by lia. match goal with |- parse_parts ?f ?d "" = _ => assert (parse_parts f d "" = Some d) as -> by by destruct f end.
  apply (f_equal Some). lia.
Qed.
