(* ===== verification/CrowdSecLAPI.v ===== *)
(** * The CrowdSec LAPI client

    [internal/controller/crowdsec_lapi.go]: logging in and repeating a request
    once when the token was refused; the alerts, decisions and filters with which
    markers are listed, written and expired.  Answers of the server are data: the
    status with the decoded body.  [MarkerAPI] is Go's interface
    [crowdsecMarkerAPI] with the laws the controller relies on; the client over a
    server that follows LAPI's documented filters satisfies them. *)

From S2P Require Import Prelude GoStrings GoTime Receivers.

Definition CrowdSecMarkerScenario : string := "dynamic-prefix/lan-allow".
Definition crowdsecMarkerOrigin : string := "cscli".
Definition crowdsecMarkerDuration : string := "87600h".
Definition crowdsecOwnerMetaKey : string := "dynamic_prefix".
Definition crowdsecDecisionAllow : string := "allow".
Definition crowdsecScopeRange : string := "Range".
Definition crowdsecTokenSlack : Z := 60 * 10 ^ 9.

(** ** Configuration *)

Record CrowdSecLAPIConfig : Type := mkLAPIConfig {
  cfg_URL : string;
  cfg_CertFile : string;
  cfg_KeyFile : string;
  cfg_CAFile : string;
  cfg_MachineID : string;
  cfg_PasswordFile : string
}.

Inductive lapi_config_error : Type :=
| ErrURL (url : string)
| ErrBothCredentials
| ErrIncompleteCertificate
| ErrIncompletePassword
| ErrNoCredentials
| ErrCertificateOverHTTP.

(** [parsed] is what [url.Parse] gives for the URL: its scheme and host. *)
Definition Validate (parsed : option (string * string)) (c : CrowdSecLAPIConfig) : option lapi_config_error :=
  let unset s := bool_decide (s = EmptyString) in
  let clientCert := (negb (unset (cfg_CertFile c)) || negb (unset (cfg_KeyFile c)))%bool in
  let password := (negb (unset (cfg_MachineID c)) || negb (unset (cfg_PasswordFile c)))%bool in
  match parsed with
  | None => Some (ErrURL (cfg_URL c))
  | Some (scheme, host) =>
      if (unset host || (negb (bool_decide (scheme = "https")) && negb (bool_decide (scheme = "http"))))%bool
      then Some (ErrURL (cfg_URL c))
      else if (clientCert && password)%bool then Some ErrBothCredentials
      else if (clientCert && (unset (cfg_CertFile c) || unset (cfg_KeyFile c)))%bool then Some ErrIncompleteCertificate
      else if (password && (unset (cfg_MachineID c) || unset (cfg_PasswordFile c)))%bool then Some ErrIncompletePassword
      else if (negb clientCert && negb password)%bool then Some ErrNoCredentials
      else if (clientCert && negb (bool_decide (scheme = "https")))%bool then Some ErrCertificateOverHTTP
      else None
  end.

(** ** Requests *)

(** What the server answers: nothing, or a status with a body ([None]: one that
    does not decode). *)
Inductive reply (A : Type) : Type := SendFailed (e : error) | Replied (code : Z) (status : string) (body : option A).
Arguments SendFailed {A}.
Arguments Replied {A}.

Inductive login_error : Type :=
| ErrPasswordFile (e : error)
| ErrLoginSend (e : error)
| ErrLoginStatus (status : string)
| ErrNoToken.

#[global] Instance login_error_eq_dec : EqDecision login_error.
Proof. solve_decision. Defined.

Inductive do_error : Type :=
| ErrLogin (e : login_error)
| ErrSend (e : error)
| errCrowdSecUnauthorized
| ErrStatus (status : string)
| ErrDecode.

#[global] Instance do_error_eq_dec : EqDecision do_error.
Proof. solve_decision. Defined.

(** The token and when it is renewed, in nanoseconds. *)
Record session : Type := mkSession { se_token : string; se_expires : Z }.

(** During one call, by attempt: the clock, the password file, the answers. *)
Record http_env (A : Type) : Type := mkHTTPEnv {
  he_now : nat -> Z;
  he_password : nat -> string + error;
  he_login : nat -> option (string * string) -> reply (string * Z);
  he_answer : nat -> string -> reply A
}.
Arguments mkHTTPEnv {A}.
Arguments he_now {A}.
Arguments he_password {A}.
Arguments he_login {A}.
Arguments he_answer {A}.

(** The machine and the password sent, [None] with a client certificate. *)
Definition login_body {A} (cfg : CrowdSecLAPIConfig) (env : http_env A) (attempt : nat)
    : option (string * string) + login_error :=
  if decide (cfg_PasswordFile cfg = EmptyString) then inl None
  else match he_password env attempt with
       | inr e => inr (ErrPasswordFile e)
       | inl raw => inl (Some (cfg_MachineID cfg, TrimSpace raw))
       end.

Definition login {A} (cfg : CrowdSecLAPIConfig) (env : http_env A) (attempt : nat) (s : session)
    : session * (string + login_error) :=
  match login_body cfg env attempt with
  | inr e => (s, inr e)
  | inl body =>
      match he_login env attempt body with
      | SendFailed e => (s, inr (ErrLoginSend e))
      | Replied code status out =>
          if negb (code =? 200) then (s, inr (ErrLoginStatus status))
          else match out with
               | None => (s, inr ErrNoToken)
               | Some (token, expire) =>
                   if decide (token = EmptyString) then (s, inr ErrNoToken)
                   else (mkSession token (expire - crowdsecTokenSlack), inl token)
               end
      end
  end.

Definition cachedToken (now : Z) (s : session) : string :=
  if (bool_decide (se_token s = EmptyString) || (se_expires s <? now))%bool then EmptyString else se_token s.

Definition dropToken (s : session) : session := mkSession EmptyString (se_expires s).

(** [wants]: whether the caller decodes the body. *)
Definition doOnce {A} (wants : bool) (r : reply A) : option A + do_error :=
  match r with
  | SendFailed e => inr (ErrSend e)
  | Replied code status body =>
      if code =? 401 then inr errCrowdSecUnauthorized
      else if ((code <? 200) || (299 <? code))%bool then inr (ErrStatus status)
      else if negb wants then inl None
      else match body with None => inr ErrDecode | Some b => inl (Some b) end
  end.

(** The token of an attempt: cached, or from a login. *)
Definition attempt_token {A} (cfg : CrowdSecLAPIConfig) (env : http_env A) (attempt : nat) (s : session)
    : session * (string + login_error) :=
  let token := cachedToken (he_now env attempt) s in
  if decide (token = EmptyString) then login cfg env attempt s else (s, inl token).

(** The loop of [do]; the tokens sent are listed.  [None]: more attempts than
    [fuel]. *)
Fixpoint do_loop {A} (fuel : nat) (cfg : CrowdSecLAPIConfig) (env : http_env A) (wants : bool) (attempt : nat)
    (s : session) : option (session * list string * (option A + do_error)) :=
  match fuel with
  | O => None
  | S fuel' =>
      match attempt_token cfg env attempt s with
      | (s1, inr e) => Some (s1, [], inr (ErrLogin e))
      | (s1, inl token) =>
          match doOnce wants (he_answer env attempt token) with
          | inr errCrowdSecUnauthorized =>
              if (attempt =? 0)%nat then
                match do_loop fuel' cfg env wants (S attempt) (dropToken s1) with
                | None => None
                | Some (s2, sent, r) => Some (s2, token :: sent, r)
                end
              else Some (s1, [token], inr errCrowdSecUnauthorized)
          | r => Some (s1, [token], r)
          end
      end
  end.

(** ** Markers *)

Record lapiDecision : Type := mkDecision {
  d_Type : string;
  d_Scope : string;
  d_Value : string;
  d_Origin : string;
  d_Scenario : string;
  d_Duration : string
}.

Record lapiMeta : Type := mkMeta { m_Key : string; m_Value : string }.
Record lapiAlert : Type := mkAlert { a_Decisions : list lapiDecision; a_Meta : list lapiMeta }.
Record crowdsecMarker : Type := mkMarker { mk_Value : string; mk_Owner : string }.

#[global] Instance crowdsecMarker_eq_dec : EqDecision crowdsecMarker.
Proof. solve_decision. Defined.

(** [url.Values] with one value per parameter. *)
Definition query : Type := list (string * string).

Definition markerListQuery : query :=
  [("scenario", CrowdSecMarkerScenario); ("origin", crowdsecMarkerOrigin); ("decision_type", crowdsecDecisionAllow);
   ("scope", crowdsecScopeRange); ("has_active_decision", "true"); ("limit", "0")].

(** The last entry with the key wins. *)
Definition alert_owner (alert : lapiAlert) : string :=
  foldl (fun owner m => if decide (m_Key m = crowdsecOwnerMetaKey) then m_Value m else owner) EmptyString (a_Meta alert).

Definition live_marker (d : lapiDecision) : bool :=
  match ParseDuration (d_Duration d) with
  | None => false
  | Some remaining =>
      (negb (remaining <=? 0) && bool_decide (d_Type d = crowdsecDecisionAllow) &&
       bool_decide (d_Scope d = crowdsecScopeRange) && bool_decide (d_Origin d = crowdsecMarkerOrigin) &&
       bool_decide (d_Scenario d = CrowdSecMarkerScenario))%bool
  end.

(** The markers [listMarkers] reads from the alerts of an answer. *)
Definition listed_markers (alerts : list lapiAlert) : list crowdsecMarker :=
  concat ((fun alert => (fun d => mkMarker (d_Value d) (alert_owner alert)) <$>
                        filter (fun d => live_marker d = true) (a_Decisions alert)) <$> alerts).

(** The alert [createMarker] posts: its decisions and meta entries. *)
Definition marker_alert (dynamicPrefix cidr : string) : lapiAlert :=
  mkAlert [mkDecision crowdsecDecisionAllow crowdsecScopeRange cidr crowdsecMarkerOrigin CrowdSecMarkerScenario
             crowdsecMarkerDuration]
          [mkMeta crowdsecOwnerMetaKey dynamicPrefix].

Definition marker_message (dynamicPrefix cidr : string) : string :=
  "trusted LAN prefix " +:+ cidr +:+ " of DynamicPrefix " +:+ dynamicPrefix.

(** [None]: refused. *)
Definition markerDeleteQuery (cidr : string) : option query :=
  if decide (cidr = EmptyString) then None
  else Some [("type", crowdsecDecisionAllow); ("scopes", crowdsecScopeRange); ("value", cidr);
             ("origin", crowdsecMarkerOrigin); ("scenario", CrowdSecMarkerScenario)].

(** ** The interface *)

Inductive marker_error : Type := ErrRequest (e : do_error) | ErrDeleteWithoutValue.

Class MarkerAPI (W : Type) : Type := {
  listMarkers : W -> W * (list crowdsecMarker + marker_error);
  createMarker : string -> string -> W -> W * option marker_error;
  deleteMarker : string -> W -> W * option marker_error
}.

(** What a call does to the active markers.  One that failed may have taken
    effect all the same: its answer may be what was lost. *)
Class MarkerLaws (W : Type) `{MarkerAPI W} : Type := {
  view : W -> list crowdsecMarker;
  list_view w : view (listMarkers w).1 = view w;
  list_answer w ms : (listMarkers w).2 = inl ms -> ms = view w;
  create_grows name cidr w m : m ∈ view w -> m ∈ view (createMarker name cidr w).1;
  create_only name cidr w m : m ∈ view (createMarker name cidr w).1 -> m ∈ view w \/ m = mkMarker cidr name;
  create_done name cidr w : (createMarker name cidr w).2 = None -> mkMarker cidr name ∈ view (createMarker name cidr w).1;
  delete_shrinks cidr w m : m ∈ view (deleteMarker cidr w).1 -> m ∈ view w;
  delete_only cidr w m : m ∈ view w -> mk_Value m <> cidr -> m ∈ view (deleteMarker cidr w).1;
  delete_done cidr w m : (deleteMarker cidr w).2 = None -> m ∈ view (deleteMarker cidr w).1 -> mk_Value m <> cidr
}.

(** ** The client over LAPI *)

Section Server.
(** LAPI's filters: which alerts a listing returns, which decisions a delete
    expires. *)
Context (select : query -> lapiAlert -> bool) (expire : query -> lapiDecision -> bool).

(** The alerts stored, and how the next calls go: answered, or failed with or
    without having taken effect. *)
Record lapi_world : Type := mkLAPIWorld {
  lw_alerts : list lapiAlert;
  lw_calls : list (option (marker_error * bool))
}.

Definition next_call (w : lapi_world) : option (marker_error * bool) * list (option (marker_error * bool)) :=
  match lw_calls w with [] => (None, []) | c :: rest => (c, rest) end.

Definition lapi_list (w : lapi_world) : lapi_world * (list crowdsecMarker + marker_error) :=
  let (c, rest) := next_call w in
  (mkLAPIWorld (lw_alerts w) rest,
   match c with
   | Some (e, _) => inr e
   | None => inl (listed_markers (filter (fun a => select markerListQuery a = true) (lw_alerts w)))
   end).

(** A request that writes [alerts']. *)
Definition lapi_write (alerts' : list lapiAlert) (w : lapi_world) : lapi_world * option marker_error :=
  let (c, rest) := next_call w in
  match c with
  | Some (e, false) => (mkLAPIWorld (lw_alerts w) rest, Some e)
  | Some (e, true) => (mkLAPIWorld alerts' rest, Some e)
  | None => (mkLAPIWorld alerts' rest, None)
  end.

Definition lapi_create (name cidr : string) (w : lapi_world) : lapi_world * option marker_error :=
  lapi_write (lw_alerts w ++ [marker_alert name cidr]) w.

Definition lapi_delete (cidr : string) (w : lapi_world) : lapi_world * option marker_error :=
  match markerDeleteQuery cidr with
  | None => (w, Some ErrDeleteWithoutValue)
  | Some q =>
      lapi_write ((fun a => mkAlert (filter (fun d => expire q d = false) (a_Decisions a)) (a_Meta a)) <$> lw_alerts w) w
  end.

#[export] Instance lapi_api : MarkerAPI lapi_world :=
  { listMarkers := lapi_list; createMarker := lapi_create; deleteMarker := lapi_delete }.

(** A listing returns at least the alerts with a live marker; a delete expires
    exactly the decisions that match every parameter. *)
Context (select_live : forall a d, d ∈ a_Decisions a -> live_marker d = true -> select markerListQuery a = true).
Context (expire_exact : forall cidr q d, markerDeleteQuery cidr = Some q ->
  expire q d = true <-> d_Type d = crowdsecDecisionAllow /\ d_Scope d = crowdsecScopeRange /\ d_Value d = cidr /\
                        d_Origin d = crowdsecMarkerOrigin /\ d_Scenario d = CrowdSecMarkerScenario).

Lemma elem_of_concat {A} (x : A) ls : x ∈ concat ls <-> exists l, x ∈ l /\ l ∈ ls.
Proof.
  rewrite list_elem_of_In, in_concat. split; intros (l & H1 & H2); exists l; by rewrite !list_elem_of_In in *.
Qed.

Lemma elem_of_listed m alerts :
  m ∈ listed_markers alerts <->
  exists a d, a ∈ alerts /\ d ∈ a_Decisions a /\ live_marker d = true /\ m = mkMarker (d_Value d) (alert_owner a).
Proof.
  unfold listed_markers. rewrite elem_of_concat. setoid_rewrite list_elem_of_fmap. split.
  - intros (l & Hm & a & -> & Ha). apply list_elem_of_fmap in Hm as (d & -> & [Hd Hin]%list_elem_of_filter). by exists a, d.
  - intros (a & d & Ha & Hd & Hl & ->). eexists. split; [|by exists a]. apply list_elem_of_fmap. exists d.
    split; [done|]. by apply list_elem_of_filter.
Qed.

Lemma listed_selected alerts : listed_markers (filter (fun a => select markerListQuery a = true) alerts) = listed_markers alerts.
Proof.
  unfold listed_markers. induction alerts as [|a alerts IH]; [done|]. rewrite filter_cons. cbn [fmap list_fmap concat].
  case_decide as Hs; [by rewrite fmap_cons; cbn [concat]; rewrite IH|]. rewrite IH.
  enough (filter (fun d => live_marker d = true) (a_Decisions a) = []) as -> by done.
  apply elem_of_nil_inv. intros d [Hl Hd]%list_elem_of_filter. apply Hs. by eapply select_live.
Qed.

Lemma live_parts d : live_marker d = true ->
  d_Type d = crowdsecDecisionAllow /\ d_Scope d = crowdsecScopeRange /\ d_Origin d = crowdsecMarkerOrigin /\
  d_Scenario d = CrowdSecMarkerScenario.
Proof. unfold live_marker. destruct (ParseDuration _); [|done]. rewrite !andb_true_iff, !bool_decide_eq_true. tauto. Qed.

Lemma listed_app a1 a2 : listed_markers (a1 ++ a2) = listed_markers a1 ++ listed_markers a2.
Proof. unfold listed_markers. by rewrite fmap_app, concat_app. Qed.

(** A written marker is read back with its owner. *)
Lemma listed_marker name cidr : listed_markers [marker_alert name cidr] = [mkMarker cidr name].
Proof. reflexivity. Qed.

(** Expiring the decisions of a delete expires the markers with that value. *)
Lemma listed_expired cidr q alerts m : markerDeleteQuery cidr = Some q ->
  m ∈ listed_markers ((fun a => mkAlert (filter (fun d => expire q d = false) (a_Decisions a)) (a_Meta a)) <$> alerts) <->
  m ∈ listed_markers alerts /\ mk_Value m <> cidr.
Proof.
  intros Hq. rewrite !elem_of_listed. split.
  - intros (a' & d & (a & -> & Ha)%list_elem_of_fmap & [Hx Hd]%list_elem_of_filter & Hl & ->). cbn [a_Decisions a_Meta] in *.
    split; [by exists a, d|]. cbn. intros E. destruct (live_parts d Hl) as (H1 & H2 & H3 & H4).
    assert (expire q d = true) by (by apply (expire_exact cidr q d Hq)). congruence.
  - intros [(a & d & Ha & Hd & Hl & ->) Hne]. cbn in Hne. eexists _, d. split; [by apply list_elem_of_fmap_2|].
    split; [|done]. apply list_elem_of_filter. split; [|done]. apply not_true_is_false.
    intros (_ & _ & ? & _)%(expire_exact cidr q d Hq). done.
Qed.

Lemma lapi_write_cases alerts' w :
  ((lapi_write alerts' w).2 = None -> lw_alerts (lapi_write alerts' w).1 = alerts') /\
  (lw_alerts (lapi_write alerts' w).1 = alerts' \/ lw_alerts (lapi_write alerts' w).1 = lw_alerts w).
Proof.
  unfold lapi_write. destruct (next_call w) as [[[e []]|] rest]; cbn; split; try done; (by left) || (by right).
Qed.

#[export] Program Instance lapi_laws : MarkerLaws lapi_world := {| view w := listed_markers (lw_alerts w) |}.
Next Obligation. intros w. cbn. unfold lapi_list. by destruct (next_call w). Qed.
Next Obligation.
  intros w ms. cbn. unfold lapi_list. destruct (next_call w) as [[[]|] rest]; cbn; [done|]. intros [= <-].
  apply listed_selected.
Qed.
Next Obligation.
  intros name cidr w m Hm. cbn. unfold lapi_create. set (alerts' := _ ++ _).
  destruct (lapi_write_cases alerts' w) as [_ [->| ->]]; [|done]. unfold alerts'. rewrite listed_app. apply elem_of_app. by left.
Qed.
Next Obligation.
  intros name cidr w m. cbn. unfold lapi_create. set (alerts' := _ ++ _).
  destruct (lapi_write_cases alerts' w) as [_ [->| ->]]; [|by left]. unfold alerts'. rewrite listed_app, listed_marker.
  intros [?| ->%list_elem_of_singleton]%elem_of_app; [by left|by right].
Qed.
Next Obligation.
  intros name cidr w. cbn. unfold lapi_create. set (alerts' := _ ++ _). intros H.
  rewrite (proj1 (lapi_write_cases alerts' w) H). unfold alerts'. rewrite listed_app, listed_marker.
  apply elem_of_app. right. apply list_elem_of_here.
Qed.
Next Obligation.
  intros cidr w m. cbn. unfold lapi_delete. destruct (markerDeleteQuery cidr) as [q|] eqn:Hq; [|done].
  match goal with |- context [lapi_write ?a w] => destruct (lapi_write_cases a w) as [_ [->| ->]]; [|done] end.
  by intros [? _]%(listed_expired cidr q _ _ Hq).
Qed.
Next Obligation.
  intros cidr w m Hm Hne. cbn. unfold lapi_delete. destruct (markerDeleteQuery cidr) as [q|] eqn:Hq; [|done].
  match goal with |- context [lapi_write ?a w] => destruct (lapi_write_cases a w) as [_ [->| ->]]; [|done] end.
  by apply (listed_expired cidr q _ _ Hq).
Qed.
Next Obligation.
  intros cidr w m. cbn. unfold lapi_delete. destruct (markerDeleteQuery cidr) as [q|] eqn:Hq; [|done].
  match goal with |- context [lapi_write ?a w] => intros H; rewrite (proj1 (lapi_write_cases a w) H) end.
  by intros [_ ?]%(listed_expired cidr q _ _ Hq).
Qed.
End Server.

(** ** Repeating a request *)

Lemma login_token {A} cfg (env : http_env A) n s s1 t : login cfg env n s = (s1, inl t) ->
  t <> EmptyString /\ exists body status expire, he_login env n body = Replied 200 status (Some (t, expire)).
Proof.
  unfold login. destruct (login_body cfg env n) as [body|]; [|done].
  destruct (he_login env n body) as [|code status out] eqn:E; [done|].
  destruct (Z.eqb_spec code 200) as [->|]; cbn [negb]; [|done]. destruct out as [[token expire]|]; [|done].
  case_decide; [done|]. intros [= <- <-]. split; [done|]. by exists body, status, expire.
Qed.

(** The token of an attempt is the cached one, still valid, or a fresh one. *)
Definition token_valid {A} (env : http_env A) (s : session) (n : nat) (t : string) : Prop :=
  t <> EmptyString /\
  ((n = 0%nat /\ t = se_token s /\ he_now env 0 <= se_expires s) \/
   exists body status expire, he_login env n body = Replied 200 status (Some (t, expire))).

Lemma attempt_token_valid {A} cfg (env : http_env A) n s s1 t :
  n = 0%nat \/ se_token s = EmptyString -> attempt_token cfg env n s = (s1, inl t) -> token_valid env s n t.
Proof.
  intros Hn. unfold attempt_token, cachedToken. cbv zeta. unfold token_valid.
  destruct (bool_decide_reflect (se_token s = EmptyString)) as [He|He]; cbn [orb].
  - rewrite decide_True by done. intros [? ?]%login_token. split; [done|by right].
  - destruct (Z.ltb_spec (se_expires s) (he_now env n)).
    + rewrite decide_True by done. intros [? ?]%login_token. split; [done|by right].
    + rewrite decide_False by done. intros [= <- <-]. split; [done|]. left. destruct Hn as [->|?]; done.
Qed.

(** C38 A request to LAPI ends after at most two attempts, whatever the server
    answers: every token sent was cached and still valid or comes from a login of
    that attempt, the second attempt is made only after a 401 to the first, and a
    401 is reported only after the second - so a token that expired early costs one
    login, and revoked credentials do not loop. *)
Theorem lapi_do_total {A} (cfg : CrowdSecLAPIConfig) (env : http_env A) (wants : bool) (s : session) :
  exists s' sent r,
    (forall fuel, (2 <= fuel)%nat -> do_loop fuel cfg env wants 0 s = Some (s', sent, r)) /\
    (length sent <= 2)%nat /\
    (forall n t, sent !! n = Some t -> token_valid env s n t) /\
    (forall t, sent !! 1%nat = Some t ->
       exists t0, sent !! 0%nat = Some t0 /\ doOnce wants (he_answer env 0 t0) = inr errCrowdSecUnauthorized) /\
    (r = inr errCrowdSecUnauthorized -> length sent = 2%nat) /\
    (forall b, r = inl b -> exists n t, sent !! n = Some t /\ length sent = S n /\ doOnce wants (he_answer env n t) = inl b).
Proof.
  destruct (attempt_token cfg env 0 s) as [s1 [t|e]] eqn:E0.
  2: { exists s1, [], (inr (ErrLogin e)). split; [intros [|fuel] Hf; [lia|]; cbn [do_loop]; by rewrite E0|].
       split; [cbn; lia|]. by repeat split. }
  pose proof (attempt_token_valid cfg env 0 s s1 t (or_introl eq_refl) E0) as Ht.
  destruct (doOnce wants (he_answer env 0 t)) as [b|e] eqn:D0.
  { exists s1, [t], (inl b). split; [intros [|fuel] Hf; [lia|]; cbn [do_loop]; by rewrite E0, D0|].
    split; [cbn; lia|]. split; [by intros [|[]] t' [= <-]|]. split; [done|]. split; [done|].
    intros b' [= <-]. by exists 0%nat, t. }
  destruct (decide (e = errCrowdSecUnauthorized)) as [->|Hne].
  2: { exists s1, [t], (inr e). split; [intros [|fuel] Hf; [lia|]; cbn [do_loop]; rewrite E0, D0; by destruct e|].
       split; [cbn; lia|]. split; [by intros [|[]] t' [= <-]|]. split; [done|]. by split; [intros [= ->]|]. }
  destruct (attempt_token cfg env 1 (dropToken s1)) as [s2 [t2|e2]] eqn:E1.
  2: { exists s2, [t], (inr (ErrLogin e2)).
       split; [intros [|[|fuel]] Hf; [lia|lia|]; cbn [do_loop]; by rewrite E0, D0; cbn; rewrite E1|].
       split; [cbn; lia|]. split; [by intros [|[]] t' [= <-]|]. by split. }
  assert (token_valid env s 1 t2) as Ht2.
  { destruct (attempt_token_valid cfg env 1 (dropToken s1) s2 t2 (or_intror eq_refl) E1) as [? [[? _]|?]]; [done|by split; [|right]]. }
  exists s2, [t; t2], (doOnce wants (he_answer env 1 t2)).
  split; [|split; [cbn; lia|split; [|split; [|split]]]].
  - intros [|[|fuel]] Hf; [lia|lia|]. cbn [do_loop]. rewrite E0, D0. cbn. rewrite E1.
    by destruct (doOnce wants (he_answer env 1 t2)) as [|[]].
  - by intros [|[|[]]] t' [= <-].
  - intros t' _. by exists t.
  - done.
  - intros b Hb. by exists 1%nat, t2.
Qed.
