(* ===== verification/LAPIClient.v ===== *)
(** * How the CrowdSec client connects

    [internal/controller/crowdsec_lapi.go]: the construction of the client and the TLS
    configuration it builds for every connection from the files of that moment; with
    which credentials it can reach the server.  Requests and answers are in
    [CrowdSecLAPI]; the packages crypto/tls, crypto/x509, os and net/url are
    parameters. *)

From S2P Require Import Prelude GoStrings Receivers CrowdSecLAPI.

Definition schemeHTTPS : string := "https".
Definition crowdsecRequestTimeout : Z := 10 * 10 ^ 9.
Definition VersionTLS12 : Z := 771.

(** [strings.TrimSuffix] for one byte. *)
Fixpoint TrimSuffix (s : string) (last : ascii) : string :=
  match s with
  | EmptyString => EmptyString
  | String c EmptyString => if decide (c = last) then EmptyString else s
  | String c rest => String c (TrimSuffix rest last)
  end.

Section Client.
Context {CertPool Certificate : Type}.
Context (url_Parse : string -> option (string * string)).

(** ** Connections *)

Record tls_Config : Type := mkTLSConfig {
  tls_MinVersion : Z;
  tls_RootCAs : option CertPool;
  tls_Certificates : list Certificate
}.

(** What the files hold when a connection is made. *)
Record mounted_files : Type := mkMounted {
  os_ReadFile : string -> string + error;
  AppendCertsFromPEM : string -> option CertPool;
  LoadX509KeyPair : string -> string -> Certificate + error
}.

Inductive tls_error : Type :=
| ErrReadCA (e : error)
| ErrNoPEM (file : string)
| ErrKeyPair (e : error).

Definition tlsConfig (c : CrowdSecLAPIConfig) (files : mounted_files) : tls_Config + tls_error :=
  let client_certificate RootCAs :=
    if decide (cfg_CertFile c <> EmptyString) then
      match LoadX509KeyPair files (cfg_CertFile c) (cfg_KeyFile c) with
      | inr e => inr (ErrKeyPair e)
      | inl cert => inl (mkTLSConfig VersionTLS12 RootCAs [cert])
      end
    else inl (mkTLSConfig VersionTLS12 RootCAs []) in
  if decide (cfg_CAFile c <> EmptyString) then
    match os_ReadFile files (cfg_CAFile c) with
    | inr e => inr (ErrReadCA e)
    | inl pem =>
        match AppendCertsFromPEM files pem with
        | None => inr (ErrNoPEM (cfg_CAFile c))
        | Some pool => client_certificate (Some pool)
        end
    end
  else client_certificate None.

(** ** The client *)

(** A proxy is never used and no redirect followed; connections are kept for as
    long as [la_IdleConnTimeout] at most. *)
Record CrowdSecLAPI : Type := mkLAPI {
  la_cfg : CrowdSecLAPIConfig;
  la_base : string * string;
  la_Timeout : Z;
  la_IdleConnTimeout : Z;
  la_DialTLSContext : option (mounted_files -> tls_Config + tls_error)
}.

(** The second parse is not checked: without a URL the next use of it panics. *)
Definition NewCrowdSecLAPI (cfg : CrowdSecLAPIConfig) : outcome lapi_config_error CrowdSecLAPI :=
  match Validate (url_Parse (cfg_URL cfg)) cfg with
  | Some e => Fail e
  | None =>
      match url_Parse (TrimSuffix (cfg_URL cfg) "/") with
      | None => Panic
      | Some base =>
          Ret (mkLAPI cfg base crowdsecRequestTimeout (30 * 10 ^ 9)
                 (if decide (base.1 = schemeHTTPS) then Some (tlsConfig cfg) else None))
      end
  end.

(** A connection the client makes: without TLS when there is none to set up. *)
Definition connect (client : CrowdSecLAPI) (files : mounted_files) : option tls_Config + tls_error :=
  match la_DialTLSContext client with
  | None => inl None
  | Some dial => match dial files with inl conf => inl (Some conf) | inr e => inr e end
  end.

(** ** What it connects with *)

(** Of a URL with a host, a last slash is part of neither the scheme nor the host. *)
Definition trims_path : Prop := forall u scheme host,
  url_Parse u = Some (scheme, host) -> host <> EmptyString ->
  url_Parse (TrimSuffix u "/") = Some (scheme, host).

(** The two ways to log in, of a configuration that passes. *)
Lemma validated parsed cfg : Validate parsed cfg = None ->
  exists scheme host, parsed = Some (scheme, host) /\ host <> EmptyString /\ (scheme = "https" \/ scheme = "http") /\
    ((cfg_CertFile cfg <> EmptyString /\ cfg_KeyFile cfg <> EmptyString /\ cfg_MachineID cfg = EmptyString /\
        cfg_PasswordFile cfg = EmptyString /\ scheme = "https") \/
     (cfg_CertFile cfg = EmptyString /\ cfg_KeyFile cfg = EmptyString /\ cfg_MachineID cfg <> EmptyString /\
        cfg_PasswordFile cfg <> EmptyString)).
Proof.
  unfold Validate. destruct parsed as [[scheme host]|]; [|done]. cbv zeta. intros H. exists scheme, host. split; [done|].
  repeat case_bool_decide; cbn in H; try discriminate H; tauto.
Qed.

Lemma tlsConfig_result cfg files conf : tlsConfig cfg files = inl conf ->
  tls_MinVersion conf = VersionTLS12 /\
  (cfg_CAFile cfg <> EmptyString -> exists pem pool, os_ReadFile files (cfg_CAFile cfg) = inl pem /\
     AppendCertsFromPEM files pem = Some pool /\ tls_RootCAs conf = Some pool) /\
  (cfg_CertFile cfg <> EmptyString -> exists cert, LoadX509KeyPair files (cfg_CertFile cfg) (cfg_KeyFile cfg) = inl cert /\
     tls_Certificates conf = [cert]) /\
  (cfg_CertFile cfg = EmptyString -> tls_Certificates conf = []).
Proof.
  unfold tlsConfig. repeat case_decide; repeat case_match; intros; simplify_eq; cbn; split_and!; try done; eauto.
Qed.

(** * Properties *)

(** A client that can be built logs in one way and only that way, and never lets a
    secret go where it should not.  Building it fails exactly when the configuration
    does not pass, and never panics.  With a client certificate every connection is
    TLS, at least 1.2, and presents the certificate on disk at that moment, and no
    password is sent; with a password no certificate is presented.  A CA bundle, once
    configured, is what the server is verified against, or there is no connection:
    the system's roots never stand in for a bundle that cannot be read. *)
Theorem client_credentials (cfg : CrowdSecLAPIConfig) : trims_path ->
  match NewCrowdSecLAPI cfg with
  | Fail e => Validate (url_Parse (cfg_URL cfg)) cfg = Some e
  | Panic => False
  | Ret client =>
      (forall files,
         match connect client files with
         | inr _ => True
         | inl None => cfg_CertFile cfg = EmptyString /\ (la_base client).1 = "http"
         | inl (Some conf) =>
             tls_MinVersion conf = VersionTLS12 /\
             (cfg_CAFile cfg <> EmptyString -> exists pem pool, os_ReadFile files (cfg_CAFile cfg) = inl pem /\
                AppendCertsFromPEM files pem = Some pool /\ tls_RootCAs conf = Some pool) /\
             (cfg_CertFile cfg <> EmptyString -> exists cert,
                LoadX509KeyPair files (cfg_CertFile cfg) (cfg_KeyFile cfg) = inl cert /\ tls_Certificates conf = [cert]) /\
             (cfg_CertFile cfg = EmptyString -> tls_Certificates conf = [])
         end) /\
      (forall A (env : http_env A) n,
         if decide (cfg_CertFile cfg <> EmptyString) then login_body cfg env n = inl None
         else match he_password env n with
              | inl raw => login_body cfg env n = inl (Some (cfg_MachineID cfg, TrimSpace raw)) /\ cfg_MachineID cfg <> EmptyString
              | inr e => login_body cfg env n = inr (ErrPasswordFile e)
              end)
  end.
Proof.
  intros Htrim. unfold NewCrowdSecLAPI. destruct (Validate _ cfg) as [e|] eqn:Hv; [done|].
  apply validated in Hv as (scheme & host & Hp & Hh & Hscheme & Hways). rewrite (Htrim _ _ _ Hp Hh). split.
  - intros files. unfold connect. cbn [la_DialTLSContext la_base fst]. case_decide as Hs.
    + destruct (tlsConfig cfg files) as [conf|e] eqn:Hc; [|done]. by apply tlsConfig_result.
    + unfold schemeHTTPS in Hs. destruct Hways as [(_ & _ & _ & _ & ?)|(Hc & _)]; [done|]. by destruct Hscheme.
  - intros A env n. unfold login_body. destruct Hways as [(Hc & _ & _ & Hpw & _)|(Hc & _ & Hm & Hpw)].
    + rewrite decide_True by done. by rewrite decide_True.
    + rewrite decide_False by (by intros []). rewrite (decide_False (P := cfg_PasswordFile cfg = _)) by done.
      by destruct (he_password env n).
Qed.
End Client.

(** ** A client with a certificate *)

(** A parser of https URLs: what follows the scheme, up to a slash. *)
Fixpoint after (prefix u : string) : option string :=
  match prefix, u with
  | EmptyString, _ => Some u
  | String c prefix', String d u' => if decide (c = d) then after prefix' u' else None
  | String _ _, EmptyString => None
  end.

Fixpoint host_of (s : string) : string :=
  match s with
  | EmptyString => EmptyString
  | String c s' => if decide (c = "/"%char) then EmptyString else String c (host_of s')
  end.

Definition https_Parse (u : string) : option (string * string) :=
  (fun rest => ("https", host_of rest)) <$> after "https://" u.

Lemma host_trimmed s : host_of (TrimSuffix s "/") = host_of s.
Proof.
  induction s as [|c [|d s] IH]; [done|cbn; case_decide; cbn; by rewrite ?decide_False|].
  change (TrimSuffix (String c (String d s)) "/") with (String c (TrimSuffix (String d s) "/")).
  cbn [host_of] in *. by rewrite IH.
Qed.

Lemma after_trimmed prefix u rest : after prefix u = Some rest -> rest <> EmptyString ->
  after prefix (TrimSuffix u "/") = Some (TrimSuffix rest "/").
Proof.
  revert u. induction prefix as [|c prefix IH]; intros u H Hne; [by injection H as ->|].
  destruct u as [|d [|e u]]; [done| |].
  - cbn [after] in H. case_decide; [|done]. destruct prefix; [by injection H as <-|done].
  - change (TrimSuffix (String d (String e u)) "/") with (String d (TrimSuffix (String e u) "/")).
    cbn [after] in *. case_decide; [|done]. by apply IH.
Qed.

Lemma https_trims : trims_path https_Parse.
Proof.
  intros u scheme host (rest & Hr & E)%fmap_Some Hh. injection E as -> ->.
  unfold https_Parse. rewrite (after_trimmed _ _ rest Hr) by (by intros ->). cbn. by rewrite host_trimmed.
Qed.

Definition certificate_config : CrowdSecLAPIConfig :=
  mkLAPIConfig "https://crowdsec:8080/" "/tls/tls.crt" "/tls/tls.key" "/tls/ca.crt" EmptyString EmptyString.

(** The files as the certificate is renewed: before, and after. *)
Definition mounted (certificate : Z) : @mounted_files Z Z :=
  mkMounted (fun _ => inl "pem") (fun _ => Some 7) (fun _ _ => inl certificate).

(** One client presents both, each in its time. *)
Lemma client_credentials_witness : exists client,
  NewCrowdSecLAPI (CertPool := Z) (Certificate := Z) https_Parse certificate_config = Ret client /\
  la_base client = ("https", "crowdsec:8080") /\
  connect client (mounted 1) = inl (Some (mkTLSConfig VersionTLS12 (Some 7) [1])) /\
  exists conf, connect client (mounted 2) = inl (Some conf) /\ tls_Certificates conf = [2].
Proof.
  pose proof (client_credentials (CertPool := Z) (Certificate := Z) https_Parse certificate_config https_trims) as H.
  destruct (NewCrowdSecLAPI https_Parse certificate_config) as [client|e|] eqn:E; [|vm_compute in E; discriminate|done].
  exists client. split; [done|]. destruct H as [H _]. specialize (H (mounted 2)). vm_compute in E. injection E as <-.
  split; [reflexivity|]. split; [reflexivity|].
  destruct (connect _ (mounted 2)) as [[conf|]|e] eqn:Ec; [|vm_compute in Ec; discriminate..].
  exists conf. split; [done|]. destruct H as (_ & _ & Hcert & _). destruct Hcert as (cert & Hl & ->); [done|].
  by injection Hl as <-.
Defined.
