(* ===== verification/CrowdSec.v ===== *)
(** * CrowdSec allow markers

    [internal/controller/crowdsec_controller.go]: one marker in CrowdSec's LAPI
    per trusted prefix - the current one and those still draining - of each
    configured DynamicPrefix.  The LAPI client is the interface [MarkerAPI] of
    CrowdSecLAPI.v; the API server's answers are arguments.  Log lines and metrics
    are not modelled, events are. *)

From S2P Require Import Prelude GoStrings Metrics Netip NetipText Policy Receivers Factory DynamicPrefix PoolSync CrowdSecLAPI.

Definition crowdsecMinPrefixLen : Z := 48.
Definition crowdsecMaxPrefixLen : Z := 64.
Definition globalUnicast : netip.Prefix := prefix_of_string "2000::/3".
Definition ConditionTypeCrowdSecMarkersSynced : string := "CrowdSecMarkersSynced".
Definition eventReasonCrowdSecMarkerFailed : string := "CrowdSecMarkerFailed".
Definition eventReasonCrowdSecMarkerRefused : string := "CrowdSecMarkerRefused".

(** ** Trusted prefixes *)

Definition crowdsecTrustedPrefixes (dp : DynamicPrefix) : list string :=
  let current := st_CurrentPrefix (dp_Status dp) in
  if decide (current = EmptyString) then []
  else
    foldl (fun prefixes entry =>
             if decide (H_State entry = PrefixStateExpired \/ H_Prefix entry ∈ prefixes) then prefixes
             else prefixes ++ [H_Prefix entry])
      [current] (rev (st_History (dp_Status dp))).

Inductive marker_prefix_error : Type :=
| ErrPrefixText (p : string)
| ErrPrefixFamily (p : string)
| ErrPrefixNotGlobal (p : string)
| ErrPrefixBits (p : string)
| ErrPrefixForm (p : string) (canonical : netip.Prefix).

Definition marker_prefix_check (p : string) : option marker_prefix_error :=
  match netiptext.ParsePrefix p with
  | None => Some (ErrPrefixText p)
  | Some pfx =>
      if (negb (netip.Is6 (netip.ip pfx)) || netip.Is4In6 (netip.ip pfx))%bool then Some (ErrPrefixFamily p)
      else if negb (netip.Contains globalUnicast (netip.ip pfx)) then Some (ErrPrefixNotGlobal p)
      else if ((netip.Bits pfx <? crowdsecMinPrefixLen) || (crowdsecMaxPrefixLen <? netip.Bits pfx))%bool
      then Some (ErrPrefixBits p)
      else if negb (bool_decide (netiptext.PrefixString (netip.Masked pfx) = p)) then Some (ErrPrefixForm p (netip.Masked pfx))
      else None
  end.

Fixpoint validateMarkerPrefixes (prefixes : list string) : option marker_prefix_error :=
  match prefixes with
  | [] => None
  | p :: rest => match marker_prefix_check p with Some e => Some e | None => validateMarkerPrefixes rest end
  end.

(** The prefixes that get a marker and those that are dropped; [None] is a slice
    bound out of range. *)
Definition cut_markers (maxMarkers : Z) (desired : list string) : option (list string * list string) :=
  if maxMarkers <? Z.of_nat (length desired) then
    if maxMarkers <? 0 then None
    else Some (take (Z.to_nat maxMarkers) desired, drop (Z.to_nat maxMarkers) desired)
  else Some (desired, []).

Inductive crowd_event : Type :=
| EvMarkerCreated (prefix : string)
| EvMarkerRemoved (prefix : string)
| EvMarkerDropped (kept : nat) (dropped : list string)
| EvMarkerRefused (e : marker_prefix_error)
| EvMarkerFailed (text : string).

Inductive sync_error : Type :=
| ErrListMarkers (e : marker_error)
| ErrCreateMarker (prefix : string) (e : marker_error)
| ErrExpireMarker (prefix : string) (e : marker_error).

Inductive crowd_error : Type :=
| ErrGetPrefix (e : error)
| ErrListSlices (e : error)
| ErrSync (e : sync_error).

Section CrowdSec.
Context {W : Type} `{HAPI : !MarkerAPI W}.
Context (FindStatusCondition : list Condition -> string -> option Condition).
Context (refusal_text : marker_prefix_error -> string) (sync_text : sync_error -> string).

Record CrowdSecMarkerReconciler : Type := mkCrowdSec {
  cs_DynamicPrefixes : list string;
  cs_MaxMarkers : Z;
  cs_LAPIService : option string
}.

(** The API server: the resource, the readiness of the endpoints of each slice of
    the LAPI Service, the answer to applying a condition. *)
Record crowd_env : Type := mkCrowdEnv {
  ce_now : Z;
  ce_get : string -> dp_answer;
  ce_slices : list (list (option bool)) + error;
  ce_apply : Condition -> option error
}.

(** ** The sync *)

(** [owned]: the values of the resource's markers, each once. *)
Definition owned_markers (name : string) (markers : list crowdsecMarker) : list string :=
  foldl (fun owned m => if decide (mk_Owner m = name /\ mk_Value m ∉ owned) then owned ++ [mk_Value m] else owned) [] markers.

Fixpoint create_missing (name : string) (present desired : list string) (w : W)
    : W * list crowd_event * option sync_error :=
  match desired with
  | [] => (w, [], None)
  | p :: rest =>
      if decide (p ∈ present) then create_missing name present rest w
      else
        match createMarker name p w with
        | (w1, Some e) => (w1, [], Some (ErrCreateMarker p e))
        | (w1, None) =>
            let '(w2, events, err) := create_missing name present rest w1 in (w2, EvMarkerCreated p :: events, err)
        end
  end.

Fixpoint expire_obsolete (found : bool) (desired owned : list string) (w : W)
    : W * list crowd_event * option sync_error :=
  match owned with
  | [] => (w, [], None)
  | p :: rest =>
      if decide (p ∈ desired) then expire_obsolete found desired rest w
      else
        match deleteMarker p w with
        | (w1, Some e) => (w1, [], Some (ErrExpireMarker p e))
        | (w1, None) =>
            let '(w2, events, err) := expire_obsolete found desired rest w1 in
            (w2, (if found then [EvMarkerRemoved p] else []) ++ events, err)
        end
  end.

Definition sync (name : string) (desired : list string) (found : bool) (w : W)
    : W * list crowd_event * option sync_error :=
  match listMarkers w with
  | (w1, inr e) => (w1, [], Some (ErrListMarkers e))
  | (w1, inl markers) =>
      let present := mk_Value <$> markers in
      let owned := owned_markers name markers in
      match create_missing name present desired w1 with
      | (w2, events, Some e) => (w2, events, Some e)
      | (w2, events, None) =>
          let '(w3, events', err) := expire_obsolete found desired owned w2 in (w3, events ++ events', err)
      end
  end.

(** ** The reconcile *)

Definition lapiReady (r : CrowdSecMarkerReconciler) (env : crowd_env) : bool + crowd_error :=
  match cs_LAPIService r with
  | None => inl true
  | Some _ =>
      match ce_slices env with
      | inr e => inr (ErrListSlices e)
      | inl slices => inl (existsb (existsb (fun ready => match ready with None => true | Some b => b end)) slices)
      end
  end.

(** The condition that was applied; a failed apply is only logged. *)
Definition writeCondition (env : crowd_env) (dp : DynamicPrefix) (status : ConditionStatus) (reason text : string)
    : option Condition :=
  let (entry, changed) := conditionApplyEntry FindStatusCondition (ce_now env) dp ConditionTypeCrowdSecMarkersSynced
                            status reason (MsgText text) in
  if negb changed then None
  else match ce_apply env entry with Some _ => None | None => Some entry end.

Record crowd_result : Type := mkCrowdResult {
  cr_world : W;
  cr_events : list crowd_event;
  cr_applied : option Condition;
  cr_err : option crowd_error;
  cr_metrics : list metric
}.

(** From [lapiReady] on. *)
Definition sync_markers (r : CrowdSecMarkerReconciler) (env : crowd_env) (name : string) (dp : option DynamicPrefix)
    (desired : list string) (events : list crowd_event) (w : W) : crowd_result :=
  match lapiReady r env with
  | inr e => mkCrowdResult w events None (Some e) []
  | inl false => mkCrowdResult w events None None []
  | inl true =>
      match sync name desired (match dp with Some _ => true | None => false end) w with
      | (w1, events', Some e) =>
          match dp with
          | Some d =>
              let text := "CrowdSec marker sync failed: " +:+ sync_text e in
              mkCrowdResult w1 (events ++ events' ++ [EvMarkerFailed text])
                (writeCondition env d ConditionFalse eventReasonCrowdSecMarkerFailed text) (Some (ErrSync e))
                [MCrowdSecSync name "failed"]
          | None => mkCrowdResult w1 (events ++ events') None (Some (ErrSync e)) [MCrowdSecSync name "failed"]
          end
      | (w1, events', None) =>
          mkCrowdResult w1 (events ++ events')
            (match dp with
             | Some d => writeCondition env d ConditionTrue "MarkersSynced" ("CrowdSec markers cover " +:+ join ", " desired)
             | None => None
             end) None
            (MCrowdSecSync name "success" ::
             match dp with
             | Some _ => [MCrowdSecMarkers name (Z.of_nat (length desired))]
             | None => [MForgetCrowdSec name]
             end)
      end
  end.

(** [None]: a panic. *)
Definition Reconcile (r : CrowdSecMarkerReconciler) (env : crowd_env) (name : string) (w : W) : option crowd_result :=
  if decide (name ∉ cs_DynamicPrefixes r) then Some (mkCrowdResult w [] None None [])
  else
    match ce_get env name with
    | DPError (OtherError e) => Some (mkCrowdResult w [] None (Some (ErrGetPrefix e)) [])
    | DPError NotFound => Some (sync_markers r env name None [] [] w)
    | DPFound dp =>
        let trusted := crowdsecTrustedPrefixes dp in
        if decide (trusted = []) then Some (mkCrowdResult w [] None None [])
        else
          match cut_markers (cs_MaxMarkers r) trusted with
          | None => None
          | Some (desired, dropped) =>
              let events := if decide (dropped = []) then [] else [EvMarkerDropped (length desired) dropped] in
              match validateMarkerPrefixes desired with
              | Some e =>
                  let text := "Refusing to write CrowdSec markers: " +:+ refusal_text e in
                  Some (mkCrowdResult w (events ++ [EvMarkerRefused e])
                          (writeCondition env dp ConditionFalse eventReasonCrowdSecMarkerRefused text) None
                          [MCrowdSecSync name "refused"])
              | None => Some (sync_markers r env name (Some dp) desired events w)
              end
          end
    end.

(** * Lemmas *)

Lemma globalUnicast_prefix6 : netip.prefix6 globalUnicast.
Proof. apply prefix6_of_string. vm_compute. reflexivity. Qed.

(** A prefix that passes is written canonically and lies in 2000::/3 as a whole. *)
Lemma marker_prefix_ok p : marker_prefix_check p = None ->
  exists pfx, netiptext.ParsePrefix p = Some pfx /\ netip.prefix6 pfx /\ netip.Masked pfx = pfx /\
    crowdsecMinPrefixLen <= netip.Bits pfx <= crowdsecMaxPrefixLen /\ forall x, netip.in_prefix pfx x -> x / 2 ^ 125 = 1.
Proof.
  unfold marker_prefix_check. destruct (netiptext.ParsePrefix p) as [pfx|] eqn:Hp; [|done]. intros H. exists pfx. split; [done|].
  destruct (negb (netip.Is6 (netip.ip pfx)) || _)%bool eqn:H6; [done|]. apply orb_false_iff in H6 as [H6%negb_false_iff _].
  assert (netip.prefix6 pfx) as Hpfx by (apply ParsePrefix_wf in Hp as [? ?]; by split).
  destruct (netip.Contains globalUnicast (netip.ip pfx)) eqn:Hg; [|done]. cbn [negb] in H.
  destruct (_ || _)%bool eqn:Hb; [done|]. apply orb_false_iff in Hb as [Hb1%Z.ltb_ge Hb2%Z.ltb_ge].
  destruct (bool_decide_reflect (netiptext.PrefixString (netip.Masked pfx) = p)) as [E|]; [|done].
  assert (netip.Masked pfx = pfx) as Hm.
  { destruct (Masked6_wf pfx Hpfx) as (Hwf & Hv & _). pose proof (ParsePrefix_String (netip.Masked pfx) Hwf Hv) as R.
    rewrite E, Hp in R. by apply (inj Some) in R as <-. }
  split; [done|]. split; [done|]. split; [done|].
  apply Contains6 in Hg; [|apply globalUnicast_prefix6|by apply Hpfx|by apply prefix6_z].
  assert (netip.addr (netip.ip pfx) = netip.first_num pfx) as Hfirst by (rewrite <- Hm at 1; by rewrite Masked6).
  apply gua_prefix_covers; [done|done|]. rewrite <- Hfirst.
  assert (netip.first_num globalUnicast = 2 ^ 125) as G1 by (vm_compute; reflexivity).
  assert (netip.last_num globalUnicast = 2 * 2 ^ 125 - 1) as G2 by (vm_compute; reflexivity).
  unfold netip.in_prefix in Hg. rewrite G1, G2 in Hg. symmetry. apply Z.div_unique with (netip.addr (netip.ip pfx) - 2 ^ 125); lia.
Qed.

Context `{HLaws : !MarkerLaws W}.

Lemma elem_of_owned name markers v :
  v ∈ owned_markers name markers <-> exists m, m ∈ markers /\ mk_Owner m = name /\ mk_Value m = v.
Proof.
  unfold owned_markers. enough (forall acc, v ∈ foldl (fun owned m => if decide (mk_Owner m = name /\ mk_Value m ∉ owned)
    then owned ++ [mk_Value m] else owned) acc markers <-> v ∈ acc \/ exists m, m ∈ markers /\ mk_Owner m = name /\ mk_Value m = v) as H.
  { rewrite H. split; [by intros [?%elem_of_nil|?]|by right]. }
  induction markers as [|x markers IH]; intros acc; cbn [foldl].
  { split; [by left|]. by intros [?|(m & ?%elem_of_nil & _)]. }
  rewrite IH. setoid_rewrite elem_of_cons. case_decide as Hx.
  - destruct Hx as [Ho Hv]. rewrite elem_of_app, list_elem_of_singleton. split.
    + intros [[?| ->]|(m & ? & ?)]; [by left|right; exists x; split; [by left|done]|right; exists m; split; [by right|done]].
    + intros [?|(m & [->|?] & ? & <-)]; [by left; left|by left; right|right; by exists m].
  - split.
    + intros [?|(m & ? & ?)]; [by left|right; exists m; split; [by right|done]].
    + intros [?|(m & [->|?] & Ho & Hv)]; [by left| |right; by exists m]. left. destruct (decide (v ∈ acc)); [done|].
      destruct Hx. split; [done|by rewrite Hv].
Qed.

Lemma create_missing_spec name present desired w :
  let '(w', events, err) := create_missing name present desired w in
  (forall m, m ∈ view w -> m ∈ view w') /\
  (forall m, m ∈ view w' -> m ∈ view w \/ (mk_Owner m = name /\ mk_Value m ∈ desired)) /\
  (err = None -> forall p, p ∈ desired -> p ∉ present -> mkMarker p name ∈ view w') /\
  ((forall p, p ∈ desired -> p ∈ present) -> w' = w /\ events = [] /\ err = None).
Proof.
  revert w. induction desired as [|p desired IH]; intros w; cbn [create_missing].
  { split; [done|]. split; [by left|]. split; [by intros _ p ?%elem_of_nil|done]. }
  case_decide as Hp.
  - specialize (IH w). destruct (create_missing name present desired w) as [[w' ev] err]. destruct IH as (I1 & I2 & I3 & I4).
    split; [done|]. split; [|split].
    + intros m [?|[? ?]]%I2; [by left|]. right. split; [done|by apply list_elem_of_further].
    + intros He q [->|Hq]%elem_of_cons Hn; [done|by apply I3].
    + intros H. apply I4. intros q Hq. by apply H, list_elem_of_further.
  - pose proof (create_grows name p w) as G. pose proof (create_only name p w) as O. pose proof (create_done name p w) as D.
    destruct (createMarker name p w) as [w1 [e|]]; cbn [fst snd] in *.
    + split; [done|]. split; [|split; [done|]].
      * intros m [?| ->]%O; [by left|right; split; [done|apply list_elem_of_here]].
      * intros H. destruct Hp. by apply H, list_elem_of_here.
    + specialize (IH w1). destruct (create_missing name present desired w1) as [[w' ev] err]. destruct IH as (I1 & I2 & I3 & _).
      split; [by intros m ?%G%I1|]. split; [|split].
      * intros m [[?| ->]%O|[? ?]]%I2; [by left|right; split; [done|apply list_elem_of_here]|].
        right. split; [done|by apply list_elem_of_further].
      * intros He q [->|Hq]%elem_of_cons Hn; [by apply I1, D|by apply I3].
      * intros H. destruct Hp. by apply H, list_elem_of_here.
Qed.

Lemma expire_obsolete_spec found desired owned w :
  let '(w', events, err) := expire_obsolete found desired owned w in
  (forall m, m ∈ view w' -> m ∈ view w) /\
  (forall m, m ∈ view w -> mk_Value m ∈ desired \/ mk_Value m ∉ owned -> m ∈ view w') /\
  (err = None -> forall m, m ∈ view w' -> mk_Value m ∈ owned -> mk_Value m ∈ desired) /\
  ((forall p, p ∈ owned -> p ∈ desired) -> w' = w /\ events = [] /\ err = None).
Proof.
  revert w. induction owned as [|p owned IH]; intros w; cbn [expire_obsolete].
  { split; [done|]. split; [done|]. split; [by intros _ m _ ?%elem_of_nil|done]. }
  case_decide as Hp.
  - specialize (IH w). destruct (expire_obsolete found desired owned w) as [[w' ev] err]. destruct IH as (I1 & I2 & I3 & I4).
    split; [done|]. split; [|split].
    + intros m Hm [Hd|[_ Hn]%not_elem_of_cons]; apply I2; [done|by left|done|by right].
    + intros He m Hm [Ho|Ho]%elem_of_cons; [by rewrite Ho|by apply I3].
    + intros H. apply I4. intros q Hq. by apply H, list_elem_of_further.
  - pose proof (delete_shrinks p w) as S. pose proof (delete_only p w) as O. pose proof (delete_done p w) as D.
    assert (forall m, m ∈ view w -> mk_Value m ∈ desired \/ mk_Value m ∉ p :: owned -> m ∈ view (deleteMarker p w).1) as Keep.
    { intros m Hm Hc. apply O; [done|]. intros E. destruct Hc as [?|[? _]%not_elem_of_cons]; [by rewrite E in *|done]. }
    destruct (deleteMarker p w) as [w1 [e|]]; cbn [fst snd] in *.
    + split; [done|]. split; [done|]. split; [done|]. intros H. destruct Hp. by apply H, list_elem_of_here.
    + specialize (IH w1). destruct (expire_obsolete found desired owned w1) as [[w' ev] err]. destruct IH as (I1 & I2 & I3 & _).
      split; [by intros m ?%I1%S|]. split; [|split].
      * intros m Hm Hc. apply I2; [by apply Keep|]. destruct Hc as [?|[_ ?]%not_elem_of_cons]; [by left|by right].
      * intros He m Hm [Ho|Ho]%elem_of_cons; [|by apply I3]. by destruct (D m eq_refl (I1 m Hm)).
      * intros H. destruct Hp. by apply H, list_elem_of_here.
Qed.

(** A value has a marker. *)
Definition covered (w : W) (p : string) : Prop := exists owner, mkMarker p owner ∈ view w.

Lemma covered_value w m : m ∈ view w -> covered w (mk_Value m).
Proof. destruct m as [p o]. by exists o. Qed.

Lemma sync_spec name desired found w :
  let '(w', events, err) := sync name desired found w in
  ((forall m, m ∈ view w -> m ∈ view w') \/ (forall p, p ∈ desired -> covered w' p)) /\
  (forall m, m ∈ view w' -> m ∈ view w \/ (mk_Owner m = name /\ mk_Value m ∈ desired)) /\
  (forall m, m ∈ view w -> mk_Value m ∈ desired \/ (forall m', m' ∈ view w -> mk_Owner m' = name -> mk_Value m' <> mk_Value m) ->
     m ∈ view w') /\
  (err = None -> (forall p, p ∈ desired -> covered w' p) /\ (forall m, m ∈ view w' -> mk_Owner m = name -> mk_Value m ∈ desired)).
Proof.
  unfold sync. pose proof (list_view w) as V. pose proof (list_answer w) as L.
  destruct (listMarkers w) as [w1 [ms|e]]; cbn [fst snd] in *.
  2: { rewrite V. split; [by left|]. split; [by left|]. by split. }
  rewrite (L ms eq_refl). clear ms L. set (present := mk_Value <$> view w).
  pose proof (create_missing_spec name present desired w1) as C. rewrite V in C.
  destruct (create_missing name present desired w1) as [[w2 ev] err]. destruct C as (C1 & C2 & C3 & _).
  destruct err as [e|].
  { split; [by left|]. split; [done|]. split; [by intros m ?%C1|done]. }
  assert (forall p, p ∈ desired -> covered w2 p) as Hcov.
  { intros p Hp. destruct (decide (p ∈ present)) as [(m & -> & Hm)%list_elem_of_fmap|Hn].
    - by apply covered_value, C1.
    - exists name. by apply C3. }
  set (owned := owned_markers name (view w)). pose proof (expire_obsolete_spec found desired owned w2) as X.
  destruct (expire_obsolete found desired owned w2) as [[w3 ev'] err']. destruct X as (X1 & X2 & X3 & _).
  assert (forall p, p ∈ desired -> covered w3 p) as Hcov3.
  { intros p Hp. destruct (Hcov p Hp) as [o Ho]. exists o. apply X2; [done|by left]. }
  split; [by right|]. split; [by intros m ?%X1%C2|]. split.
  - intros m Hm Hc. apply X2; [by apply C1|]. destruct Hc as [?|Hn]; [by left|]. right.
    intros (m' & Hm' & Ho & E)%elem_of_owned. by apply (Hn m').
  - intros He. split; [done|]. intros m Hm Ho. destruct (C2 m (X1 m Hm)) as [Hw|[_ ?]]; [|done].
    apply (X3 He m Hm). apply elem_of_owned. by exists m.
Qed.

(** In line already: nothing is created or expired. *)
Lemma sync_quiet name desired found w ms :
  (listMarkers w).2 = inl ms -> (forall p, p ∈ desired -> covered w p) ->
  (forall m, m ∈ view w -> mk_Owner m = name -> mk_Value m ∈ desired) ->
  sync name desired found w = ((listMarkers w).1, [], None).
Proof.
  intros Hl Hc Ho. unfold sync. pose proof (list_answer w ms Hl) as ->. destruct (listMarkers w) as [w1 r]. cbn [fst snd] in *.
  subst r. pose proof (create_missing_spec name (mk_Value <$> view w) desired w1) as C.
  destruct (create_missing name _ desired w1) as [[w2 ev] err]. destruct C as (_ & _ & _ & C).
  destruct C as (-> & -> & ->). { intros p Hp. destruct (Hc p Hp) as [o Hin]. apply list_elem_of_fmap. by exists (mkMarker p o). }
  pose proof (expire_obsolete_spec found desired (owned_markers name (view w)) w1) as X.
  destruct (expire_obsolete found desired _ w1) as [[w3 ev'] err']. destruct X as (_ & _ & _ & X).
  destruct X as (-> & -> & ->); [|done]. intros p (m & Hm & Hn & <-)%elem_of_owned. by apply Ho.
Qed.

Lemma validate_all prefixes : validateMarkerPrefixes prefixes = None -> forall p, p ∈ prefixes -> marker_prefix_check p = None.
Proof.
  induction prefixes as [|q l IH]; [by intros _ p ?%elem_of_nil|]. cbn [validateMarkerPrefixes].
  destruct (marker_prefix_check q) eqn:Hq; [done|]. by intros H p [->|?]%elem_of_cons; [|apply IH].
Qed.

(** The trusted prefixes: the current one first, then those of the history that
    are not expired, each once. *)
Lemma trusted_spec dp :
  let current := st_CurrentPrefix (dp_Status dp) in
  (current = EmptyString -> crowdsecTrustedPrefixes dp = []) /\
  (current <> EmptyString ->
     head (crowdsecTrustedPrefixes dp) = Some current /\ NoDup (crowdsecTrustedPrefixes dp) /\
     forall p, p ∈ crowdsecTrustedPrefixes dp <->
       p = current \/ exists e, e ∈ st_History (dp_Status dp) /\ H_State e <> PrefixStateExpired /\ H_Prefix e = p).
Proof.
  cbv zeta. unfold crowdsecTrustedPrefixes. cbv zeta. set (current := st_CurrentPrefix (dp_Status dp)).
  split; [by intros H; rewrite decide_True|]. intros Hc. rewrite decide_False by done.
  assert (forall e, e ∈ st_History (dp_Status dp) <-> e ∈ rev (st_History (dp_Status dp))) as Hrev
    by (intros e; rewrite !list_elem_of_In; apply in_rev).
  setoid_rewrite Hrev. clear Hrev. generalize (rev (st_History (dp_Status dp))). intros l.
  enough (forall acc, head acc = Some current -> NoDup acc ->
    let r := foldl (fun prefixes entry => if decide (H_State entry = PrefixStateExpired \/ H_Prefix entry ∈ prefixes)
      then prefixes else prefixes ++ [H_Prefix entry]) acc l in
    head r = Some current /\ NoDup r /\
    forall p, p ∈ r <-> p ∈ acc \/ exists e, e ∈ l /\ H_State e <> PrefixStateExpired /\ H_Prefix e = p) as H.
  { destruct (H [current]) as (H1 & H2 & H3); [done|apply NoDup_singleton|]. split; [done|]. split; [done|].
    intros p. by rewrite H3, list_elem_of_singleton. }
  clear Hc. induction l as [|x l IH]; intros acc Hh Hn; cbn [foldl].
  { split; [done|]. split; [done|]. intros p. split; [by left|]. by intros [?|(e & ?%elem_of_nil & _)]. }
  case_decide as Hx.
  - destruct (IH acc Hh Hn) as (H1 & H2 & H3). split; [done|]. split; [done|]. intros p. rewrite H3. split.
    + intros [?|(e & ? & ?)]; [by left|]. right. exists e. split; [by apply list_elem_of_further|done].
    + intros [?|(e & [->|?]%elem_of_cons & ? & <-)]; [by left| |right; by exists e]. left. by destruct Hx.
  - apply Decidable.not_or in Hx as [He Hin]. destruct (IH (acc ++ [H_Prefix x])) as (H1 & H2 & H3).
    { by destruct acc. }
    { apply NoDup_app. split; [done|]. split; [|apply NoDup_singleton]. by intros y Hy ->%list_elem_of_singleton. }
    split; [done|]. split; [done|]. intros p. rewrite H3, elem_of_app, list_elem_of_singleton. split.
    + intros [[?| ->]|(e & ? & ?)]; [by left|right; exists x; split; [apply list_elem_of_here|done]|].
      right. exists e. split; [by apply list_elem_of_further|done].
    + intros [?|(e & [->|?]%elem_of_cons & ? & <-)]; [by left; left|by left; right|right; by exists e].
Qed.

(** What a reconcile brings the markers in line with, if anything. *)
Definition wanted (r : CrowdSecMarkerReconciler) (env : crowd_env) (name : string) : option (list string) :=
  match ce_get env name with
  | DPError NotFound => Some []
  | DPError (OtherError _) => None
  | DPFound dp =>
      if decide (crowdsecTrustedPrefixes dp = []) then None
      else match cut_markers (cs_MaxMarkers r) (crowdsecTrustedPrefixes dp) with
           | Some (desired, _) => if decide (validateMarkerPrefixes desired = None) then Some desired else None
           | None => None
           end
  end.

Lemma sync_markers_world r env name dp desired events w :
  cr_world (sync_markers r env name dp desired events w) = w \/
  lapiReady r env = inl true /\ exists found, cr_world (sync_markers r env name dp desired events w) = (sync name desired found w).1.1.
Proof.
  unfold sync_markers. destruct (lapiReady r env) as [[]|e]; [|by left|by left].
  destruct (sync name desired _ w) as [[w1 ev] [e|]] eqn:E; right; (split; [done|]); eexists; rewrite E; by destruct dp.
Qed.

(** A reconcile leaves the markers alone or syncs them. *)
Lemma reconcile_cases r env name w :
  0 <= cs_MaxMarkers r ->
  exists res, Reconcile r env name w = Some res /\
    (cr_world res = w \/ exists desired found, wanted r env name = Some desired /\ cr_world res = (sync name desired found w).1.1).
Proof.
  intros Hmax. unfold Reconcile, wanted. destruct (decide (name ∉ cs_DynamicPrefixes r)); [by eexists; split; [|left]|].
  destruct (ce_get env name) as [dp|[|e]]; [| |by eexists; split; [|left]].
  - cbv zeta. destruct (decide (crowdsecTrustedPrefixes dp = [])); [by eexists; split; [|left]|].
    destruct (cut_markers _ _) as [[desired dropped]|] eqn:Hcut.
    2: { unfold cut_markers in Hcut. repeat case_match; zbool; simplify_eq; lia. }
    destruct (validateMarkerPrefixes desired) eqn:Hv; [by eexists; split; [|left]|]. eexists. split; [done|].
    destruct (sync_markers_world r env name (Some dp) desired
      (if decide (dropped = []) then [] else [EvMarkerDropped (length desired) dropped]) w) as [?|(_ & found & ->)]; [by left|].
    right. exists desired, found. by rewrite decide_True.
  - eexists. split; [done|]. destruct (sync_markers_world r env name None [] [] w) as [?|(_ & found & ->)]; [by left|].
    right. by exists [], found.
Qed.

(** * Properties *)

(** C27 A sync never opens a hole among the prefixes it keeps and never trusts too much,
    wherever it stops: at the end of a reconcile, whichever call failed, either every
    marker there was is still there or every kept prefix has one; and a marker that was
    not there before belongs to this resource and names one of its trusted prefixes in
    canonical form, a /48 to /64 all of whose addresses are in 2000::/3.  The kept ones
    are the first of the trusted prefixes, as many as the limit allows, and the current
    prefix is one of them; a draining prefix beyond the limit is dropped and may lose its
    marker. *)
Theorem crowdsec_safe (r : CrowdSecMarkerReconciler) (env : crowd_env) (name : string) (w : W) :
  1 <= cs_MaxMarkers r ->
  exists res, Reconcile r env name w = Some res /\
    ((forall m, m ∈ view w -> m ∈ view (cr_world res)) \/
     exists desired, wanted r env name = Some desired /\ forall p, p ∈ desired -> covered (cr_world res) p) /\
    (forall m, m ∈ view (cr_world res) -> m ∈ view w \/
       mk_Owner m = name /\ (exists dp, ce_get env name = DPFound dp /\ mk_Value m ∈ crowdsecTrustedPrefixes dp) /\
       exists pfx, netiptext.ParsePrefix (mk_Value m) = Some pfx /\ netip.Masked pfx = pfx /\
         crowdsecMinPrefixLen <= netip.Bits pfx <= crowdsecMaxPrefixLen /\
         forall x, netip.in_prefix pfx x -> x / 2 ^ 125 = 1) /\
    (forall dp desired, ce_get env name = DPFound dp -> wanted r env name = Some desired ->
       desired = take (Z.to_nat (cs_MaxMarkers r)) (crowdsecTrustedPrefixes dp) /\
       head desired = Some (st_CurrentPrefix (dp_Status dp))).
Proof.
  intros Hmax. destruct (reconcile_cases r env name w ltac:(lia)) as (res & HR & Hw). exists res. split; [done|].
  assert (forall dp desired, ce_get env name = DPFound dp -> wanted r env name = Some desired ->
    (desired = take (Z.to_nat (cs_MaxMarkers r)) (crowdsecTrustedPrefixes dp) /\
     head desired = Some (st_CurrentPrefix (dp_Status dp))) /\ (forall p, p ∈ desired -> p ∈ crowdsecTrustedPrefixes dp /\
      marker_prefix_check p = None)) as Hwant.
  { intros dp desired Hg Hd. unfold wanted in Hd. rewrite Hg in Hd. destruct (trusted_spec dp) as [T1 T2].
    destruct (decide (crowdsecTrustedPrefixes dp = [])) as [|Hne]; [done|].
    destruct (decide (st_CurrentPrefix (dp_Status dp) = EmptyString)) as [He|He]; [by rewrite T1 in Hne|].
    destruct (T2 He) as (Hhd & _). unfold cut_markers in Hd. destruct (crowdsecTrustedPrefixes dp) as [|x l]; [done|].
    destruct (Z.ltb_spec (cs_MaxMarkers r) (Z.of_nat (length (x :: l)))) as [Hlt|Hle].
    - rewrite (proj2 (Z.ltb_ge _ _)) in Hd by lia. case_decide as Hv; [|done]. injection Hd as <-.
      destruct (Z.to_nat (cs_MaxMarkers r)) as [|k] eqn:Ek; [lia|]. split; [by split|]. intros p Hp. split; [|by eapply validate_all].
      by apply (elem_of_take) in Hp as (? & ?%list_elem_of_lookup_2 & _).
    - case_decide as Hv; [|done]. injection Hd as <-. rewrite take_ge by lia. split; [by split|].
      intros p Hp. split; [done|by eapply validate_all]. }
  split; [|split].
  - destruct Hw as [->|(desired & found & Hd & ->)]; [by left|].
    pose proof (sync_spec name desired found w) as S. destruct (sync name desired found w) as [[w' ev] err].
    destruct S as ([S1|S1] & _); [by left|right; by exists desired].
  - intros m Hm. destruct Hw as [E|(desired & found & Hd & E)]; rewrite E in Hm; [by left|].
    pose proof (sync_spec name desired found w) as S. destruct (sync name desired found w) as [[w' ev] err].
    destruct S as (_ & S2 & _). destruct (S2 m Hm) as [?|[Ho Hv]]; [by left|right]. split; [done|].
    unfold wanted in Hd, Hwant. destruct (ce_get env name) as [dp|[|e]] eqn:Hg; [|injection Hd as <-; by apply elem_of_nil in Hv|done].
    destruct (Hwant dp desired eq_refl Hd) as [_ Hall]. destruct (Hall _ Hv) as [Ht Hc]. split; [by exists dp|].
    apply marker_prefix_ok in Hc as (pfx & H1 & _ & H3 & H4 & H5). by exists pfx.
  - intros dp desired Hg Hd. by apply Hwant.
Qed.

(** C28 For a resource that gets markers, with the prefixes it keeps accepted and the API
    ready, a reconcile that reports no error has brought the markers in line: every
    prefix it keeps has one, the resource has none for any other value - none at all
    once it is deleted - and a marker is gone only if its value was an obsolete one of
    this resource, which takes another resource's marker of that value with it.  A
    further sync writes nothing. *)
Theorem crowdsec_in_line (r : CrowdSecMarkerReconciler) (env : crowd_env) (name : string) (w : W) (desired : list string)
    (res : crowd_result) :
  name ∈ cs_DynamicPrefixes r -> wanted r env name = Some desired -> lapiReady r env = inl true ->
  Reconcile r env name w = Some res -> cr_err res = None ->
  (forall p, p ∈ desired -> covered (cr_world res) p) /\
  (forall m, m ∈ view (cr_world res) -> mk_Owner m = name -> mk_Value m ∈ desired) /\
  (forall m, m ∈ view w -> (forall m', m' ∈ view w -> mk_Owner m' = name -> mk_Value m' <> mk_Value m) \/ mk_Value m ∈ desired ->
     m ∈ view (cr_world res)) /\
  (forall found ms, (listMarkers (cr_world res)).2 = inl ms ->
     sync name desired found (cr_world res) = ((listMarkers (cr_world res)).1, [], None)).
Proof.
  intros Hin Hd Hl HR He.
  assert (exists found events, sync name desired found w = (cr_world res, events, None)) as (found & events & Hs).
  { unfold Reconcile in HR. rewrite decide_False in HR by (by intros H; apply H). unfold wanted in Hd.
    assert (forall dp evs, Some (sync_markers r env name dp desired evs w) = Some res ->
      exists found events, sync name desired found w = (cr_world res, events, None)) as Hsync.
    { intros dp evs E. injection E as <-. unfold sync_markers in *. rewrite Hl in *.
      destruct (sync name desired _ w) as [[w1 ev] [e|]] eqn:E; [by destruct dp|]. do 2 eexists. exact E. }
    destruct (ce_get env name) as [dp|[|e]]; [| |done].
    - cbv zeta in *. destruct (decide (crowdsecTrustedPrefixes dp = [])); [done|].
      destruct (cut_markers _ _) as [[desired' dropped]|]; [|done].
      destruct (validateMarkerPrefixes desired') eqn:Hv; [done|]. rewrite decide_True in Hd by done. injection Hd as ->.
      by eapply Hsync.
    - injection Hd as <-. by eapply Hsync. }
  pose proof (sync_spec name desired found w) as S. rewrite Hs in S. destruct S as (_ & _ & S3 & S4).
  destruct (S4 eq_refl) as [C1 C2]. split; [done|]. split; [done|]. split.
  - intros m Hm [Hn|Hv]; apply S3; [done|by right|done|by left].
  - intros found' ms Hms. by eapply sync_quiet.
Qed.
End CrowdSec.

(** * Witnesses *)

(** LAPI's filters, as documented. *)
Definition sample_expire (q : query) (d : lapiDecision) : bool :=
  bool_decide (q = [("type", d_Type d); ("scopes", d_Scope d); ("value", d_Value d); ("origin", d_Origin d); ("scenario", d_Scenario d)]).

Lemma sample_expire_exact cidr q d : markerDeleteQuery cidr = Some q ->
  sample_expire q d = true <-> d_Type d = crowdsecDecisionAllow /\ d_Scope d = crowdsecScopeRange /\ d_Value d = cidr /\
                        d_Origin d = crowdsecMarkerOrigin /\ d_Scenario d = CrowdSecMarkerScenario.
Proof.
  unfold markerDeleteQuery, sample_expire. case_decide; [done|]. intros [= <-]. rewrite bool_decide_eq_true. split.
  - intros [= -> -> <- -> ->]. done.
  - by intros (-> & -> & -> & -> & ->).
Qed.

Definition select_all (_ : query) (_ : lapiAlert) : bool := true.

Lemma select_all_live a d : d ∈ a_Decisions a -> live_marker d = true -> select_all markerListQuery a = true.
Proof. done. Qed.

Definition sample_api : MarkerAPI lapi_world := lapi_api select_all sample_expire.
Definition sample_laws : @MarkerLaws lapi_world sample_api := lapi_laws select_all sample_expire select_all_live sample_expire_exact.

Definition sample_world (alerts : list lapiAlert) (calls : list (option (marker_error * bool))) : lapi_world :=
  mkLAPIWorld alerts calls.

Definition sample_crowd_dp : DynamicPrefix :=
  mkDynamicPrefix "home" false true 1 None (mkSpec sample_acquisition [] [] None)
    (mkStatusOf "2001:db8:2::/48" (Some SourceDHCPv6PD) None [] [] [mkHistory "2001:db8:1::/48" None None PrefixStateDraining] []).

Definition sample_crowd_env : crowd_env := mkCrowdEnv 7 (fun _ => DPFound sample_crowd_dp) (inl []) (fun _ => None).
Definition sample_reconciler : CrowdSecMarkerReconciler := mkCrowdSec ["home"] 3 None.

(** The markers of a rotation; creating the new one fails the first time. *)
Lemma crowdsec_safe_witness :
  let api := sample_api in
  let w := sample_world [marker_alert "home" "2001:db8:0::/48"; marker_alert "home" "2001:db8:1::/48"]
             [None; Some (ErrRequest ErrDecode, false)] in
  exists res, Reconcile (HAPI := api) list_FindStatusCondition (fun _ => "") (fun _ => "") sample_reconciler sample_crowd_env "home" w = Some res /\
    ((forall m, m ∈ listed_markers (lw_alerts w) -> m ∈ listed_markers (lw_alerts (cr_world res))) \/
     exists desired, wanted sample_reconciler sample_crowd_env "home" = Some desired /\
       forall p, p ∈ desired -> covered (HLaws := sample_laws) (cr_world res) p).
Proof.
  intros api w.
  destruct (crowdsec_safe (HAPI := api) (HLaws := sample_laws)
    list_FindStatusCondition (fun _ => "") (fun _ => "") sample_reconciler sample_crowd_env "home" w) as (res & HR & H & _).
  - vm_compute. discriminate.
  - exists res. split; [exact HR|exact H].
Defined.

Definition sample_rotation (w : lapi_world) : crowd_result (W := lapi_world) :=
  default (mkCrowdResult w [] None None [])
    (Reconcile (HAPI := sample_api) list_FindStatusCondition (fun _ => "") (fun _ => "") sample_reconciler sample_crowd_env "home" w).

Lemma crowdsec_in_line_witness :
  let w := sample_world [marker_alert "home" "2001:db8:0::/48"; marker_alert "home" "2001:db8:1::/48"] [] in
  listed_markers (lw_alerts (cr_world (sample_rotation w))) = [mkMarker "2001:db8:1::/48" "home"; mkMarker "2001:db8:2::/48" "home"] /\
  forall p, p ∈ ["2001:db8:2::/48"; "2001:db8:1::/48"] -> covered (HLaws := sample_laws) (cr_world (sample_rotation w)) p.
Proof.
  intros w. split; [vm_compute; reflexivity|].
  apply (crowdsec_in_line (HAPI := sample_api) (HLaws := sample_laws) list_FindStatusCondition (fun _ => "") (fun _ => "")
    sample_reconciler sample_crowd_env "home" w ["2001:db8:2::/48"; "2001:db8:1::/48"] (sample_rotation w)).
  - apply list_elem_of_here.
  - vm_compute. reflexivity.
  - vm_compute. reflexivity.
  - vm_compute. reflexivity.
  - vm_compute. reflexivity.
Defined.
