(* ===== verification/Dependents.v ===== *)
(** * Which changes reach the dependents

    [internal/controller/dynamicprefix_predicates.go]: the filter in front of the
    pool, Service, BGP and CrowdSec reconcilers, which drops updates of a
    DynamicPrefix that cannot matter to them - and what those reconcilers make of
    a resource, which shows that nothing else is dropped. *)

From S2P Require Import Prelude Netip NetipText Policy Subnet AddressRange Receivers Factory DynamicPrefix Ownership PoolConfigs.
From S2P Require Import PoolBackends PoolSync ServiceAddrs ServiceSync BGPSync CrowdSecLAPI CrowdSec.

#[global] Instance SubnetBGPSpec_eq_dec : EqDecision SubnetBGPSpec.
Proof. solve_decision. Defined.
#[global] Instance SubnetSpec_eq_dec : EqDecision SubnetSpec.
Proof. solve_decision. Defined.
#[global] Instance AddressRangeSpec_eq_dec : EqDecision AddressRangeSpec.
Proof. solve_decision. Defined.
#[global] Instance TransitionSpec_eq_dec : EqDecision TransitionSpec.
Proof. solve_decision. Defined.
#[global] Instance DynamicPrefixSpec_eq_dec : EqDecision DynamicPrefixSpec.
Proof. solve_decision. Defined.

Record dependentSubnetStatus : Type := mkDependentSubnet { dep_Name : string; dep_CIDR : string }.

#[global] Instance dependentSubnetStatus_eq_dec : EqDecision dependentSubnetStatus.
Proof. solve_decision. Defined.

Record dependentDynamicPrefixStatus : Type := mkDependentStatus {
  dep_CurrentPrefix : string;
  dep_AddressRanges : list AddressRangeStatus;
  dep_Subnets : list dependentSubnetStatus;
  dep_History : list PrefixHistoryEntry
}.

#[global] Instance dependentDynamicPrefixStatus_eq_dec : EqDecision dependentDynamicPrefixStatus.
Proof. solve_decision. Defined.

Definition dependentStatus (status : DynamicPrefixStatus) : dependentDynamicPrefixStatus :=
  mkDependentStatus (st_CurrentPrefix status) (st_AddressRanges status)
    ((fun subnet => mkDependentSubnet (SS_Name subnet) (SS_CIDR subnet)) <$> st_Subnets status) (st_History status).

Definition dynamicPrefixAffectsDependents (oldDP newDP : DynamicPrefix) : bool :=
  if negb (bool_decide (dp_Spec oldDP = dp_Spec newDP)) then true
  else negb (bool_decide (dependentStatus (dp_Status oldDP) = dependentStatus (dp_Status newDP))).

(** The events of a watch; the objects of an update may be of another type. *)
Inductive watch_event : Type :=
| CreateEvent
| DeleteEvent
| UpdateEvent (oldDP newDP : option DynamicPrefix)
| GenericEvent.

Definition dynamicPrefixDependentChangePredicate (e : watch_event) : bool :=
  match e with
  | CreateEvent | DeleteEvent | GenericEvent => true
  | UpdateEvent (Some oldDP) (Some newDP) => dynamicPrefixAffectsDependents oldDP newDP
  | UpdateEvent _ _ => true
  end.

(** * Lemmas *)

(** The resource with everything the filter ignores taken out. *)
Definition essence (dp : DynamicPrefix) : DynamicPrefix :=
  mkDynamicPrefix EmptyString false false 0 None (dp_Spec dp)
    (mkStatusOf (st_CurrentPrefix (dp_Status dp)) None None (st_AddressRanges (dp_Status dp))
       ((fun s => mkSubnetStatus (SS_Name s) (SS_CIDR s) EmptyString) <$> st_Subnets (dp_Status dp))
       (st_History (dp_Status dp)) []).

Lemma essence_same old new : dynamicPrefixAffectsDependents old new = false -> essence new = essence old.
Proof.
  unfold dynamicPrefixAffectsDependents. case_bool_decide as Hs; [|done]. cbn [negb].
  case_bool_decide as Hd; [|done]. intros _. unfold dependentStatus in Hd. injection Hd as H1 H2 H3 H4.
  unfold essence. rewrite Hs, H1, H2, H4. do 2 f_equal.
  apply (f_equal (fmap (fun d => mkSubnetStatus (dep_Name d) (dep_CIDR d) EmptyString))) in H3.
  rewrite <- !list_fmap_compose in H3. symmetry. exact H3.
Qed.

Lemma find_fmap {A B} (f : A -> B) (p : B -> bool) l : List.find p (f <$> l) = f <$> List.find (p ∘ f) l.
Proof. induction l as [|x l IH]; [done|]. cbn. by destruct (p (f x)). Qed.

Lemma essence_findSubnet dp name : findSubnetInStatus (essence dp) name = findSubnetInStatus dp name.
Proof.
  unfold findSubnetInStatus. cbn [essence dp_Status st_Subnets]. rewrite find_fmap. rewrite <- option_fmap_compose. done.
Qed.

Lemma essence_configs dp ar sn : buildPoolConfigurations (essence dp) ar sn = buildPoolConfigurations dp ar sn.
Proof.
  unfold buildPoolConfigurations, buildSubnetConfigs, buildModeConfigs.
  assert (forall name, findSubnetInStatus (essence dp) name = findSubnetInStatus dp name) as Hf by apply essence_findSubnet.
  destruct ar as [[|]|], sn as [[|]|]; rewrite ?Hf; reflexivity.
Qed.

Lemma essence_service configured env svc dp : sync_service configured env svc (essence dp) = sync_service configured env svc dp.
Proof. reflexivity. Qed.

(** * Properties *)

(** The filter in front of the dependents drops nothing that matters: when it
    drops an update, every pool would get the same configurations from the same
    managed prefixes, every Service the same result in the same mode, the same
    subnets would be advertised and the same prefixes trusted. *)
Theorem predicate_drops_nothing (oldDP newDP : DynamicPrefix) :
  dynamicPrefixDependentChangePredicate (UpdateEvent (Some oldDP) (Some newDP)) = false ->
  (forall addressRange subnet, buildPoolConfigurations newDP addressRange subnet = buildPoolConfigurations oldDP addressRange subnet) /\
  collectManagedPrefixes newDP = collectManagedPrefixes oldDP /\
  in_ha_mode newDP = in_ha_mode oldDP /\ st_CurrentPrefix (dp_Status newDP) = st_CurrentPrefix (dp_Status oldDP) /\
  (forall configured env svc, sync_service configured env svc newDP = sync_service configured env svc oldDP) /\
  getSubnetsWithBGP newDP = getSubnetsWithBGP oldDP /\
  crowdsecTrustedPrefixes newDP = crowdsecTrustedPrefixes oldDP.
Proof.
  intros E%essence_same. split; [intros ar sn; by rewrite <- (essence_configs newDP), E, essence_configs|].
  split; [change (collectManagedPrefixes (essence newDP) = collectManagedPrefixes (essence oldDP)); by rewrite E|].
  split; [change (in_ha_mode (essence newDP) = in_ha_mode (essence oldDP)); by rewrite E|].
  split; [change (st_CurrentPrefix (dp_Status (essence newDP)) = st_CurrentPrefix (dp_Status (essence oldDP))); by rewrite E|].
  split; [intros; by rewrite <- (essence_service _ _ _ newDP), E|].
  split; [change (getSubnetsWithBGP (essence newDP) = getSubnetsWithBGP (essence oldDP)); by rewrite E|].
  change (crowdsecTrustedPrefixes (essence newDP) = crowdsecTrustedPrefixes (essence oldDP)). by rewrite E.
Qed.

(** A lease that is renewed, with a condition that flips. *)
Lemma predicate_drops_nothing_witness :
  let status lease := mkStatusOf "2001:db8:1::/48" (Some SourceDHCPv6PD) (Some lease) []
    [mkSubnetStatus "pods" "2001:db8:1:1::/64" EmptyString] [] [] in
  dynamicPrefixDependentChangePredicate (UpdateEvent (Some (sample_dp (status 10))) (Some (sample_dp (status 20)))) = false /\
  buildPoolConfigurations (sample_dp (status 20)) None (Some "pods") =
    buildPoolConfigurations (sample_dp (status 10)) None (Some "pods").
Proof.
  intros status. split; [vm_compute; reflexivity|].
  apply (predicate_drops_nothing (sample_dp (status 10)) (sample_dp (status 20))). vm_compute. reflexivity.
Defined.
