(* ===== verification/Cilium.v ===== *)
(** * The cluster's APIs and its Cilium

    [internal/controller/ciliumversions.go]: which pool backends and which Cilium
    API versions the cluster serves, and the starters that wait for them.
    [ciliuml2nudge.go]: whether the running Cilium still needs the nudge of its L2
    announcer (the parameter [sve_nudge_needed] of ServiceSync.v).  The discovery
    client, the listed DaemonSets and the semver package are arguments. *)

From stdpp Require Import sorting.
From S2P Require Import Prelude GoStrings Policy Receivers PoolBackends PoolSync.

(** ** Discovery *)

Definition mkGVK (group version kind : string) : schema_GVK := (group, version, kind).

Definition ciliumAPIGroup : string := "cilium.io".
Definition metallbAPIGroup : string := "metallb.io".
Definition calicoAPIGroup : string := "projectcalico.org".
Definition kindCiliumLoadBalancerIPPool : string := "CiliumLoadBalancerIPPool".
Definition kindCiliumCIDRGroup : string := "CiliumCIDRGroup".
Definition kindCiliumBGPAdvertisement : string := "CiliumBGPAdvertisement".
Definition kindMetalLBIPAddressPool : string := "IPAddressPool".
Definition kindCalicoIPPool : string := "IPPool".
Definition resourceCiliumLoadBalancerIPPools : string := "ciliumloadbalancerippools".
Definition resourceCiliumCIDRGroups : string := "ciliumcidrgroups".
Definition resourceCiliumBGPAdvertisements : string := "ciliumbgpadvertisements".
Definition preferredVersions : list string := ["v2"; "v2alpha1"].
Definition preferredMetalLBVersions : list string := ["v1beta1"].
Definition preferredCalicoVersions : list string := ["v3"].

(** The discovery client: the groups with their versions, the names of the
    resources of a group version. *)
Record DiscoveryInterface : Type := mkDiscovery {
  ServerGroups : list (string * list string) + error;
  ServerResourcesForGroupVersion : string -> list string + error
}.

Inductive discovery_error : Type :=
| ErrServerGroups (e : error)
| ErrGroupNotFound (group : string)
| ErrNoVersion (group kind : string) (checked : list string)
| ErrNoBackend.

Definition discoverGroupVersions (dc : DiscoveryInterface) (groupName : string) : list string + discovery_error :=
  match ServerGroups dc with
  | inr e => inr (ErrServerGroups e)
  | inl groups =>
      match List.find (fun g => bool_decide (g.1 = groupName)) groups with
      | Some g => inl g.2
      | None => inr (ErrGroupNotFound groupName)
      end
  end.

(** Resource names to the versions that serve them. *)
Definition resourceSet : Type := gmap string (gset string).

Definition add_resource (v : string) (rs : resourceSet) (name : string) : resourceSet :=
  <[name := {[v]} ∪ default empty (rs !! name)]> rs.

Definition discoverResources (dc : DiscoveryInterface) (group : string) (versions : list string) : resourceSet :=
  foldl (fun rs v => match ServerResourcesForGroupVersion dc (group +:+ "/" +:+ v) with
                     | inr _ => rs
                     | inl resources => foldl (add_resource v) rs resources
                     end) empty versions.

Definition hasResource (rs : resourceSet) (plural version : string) : bool :=
  match rs !! plural with Some versions => bool_decide (version ∈ versions) | None => false end.

Definition resolveResource (rs : resourceSet) (group kind plural : string) (preferred : list string)
    : schema_GVK + discovery_error :=
  match List.find (hasResource rs plural) preferred with
  | Some v => inl (mkGVK group v kind)
  | None => inr (ErrNoVersion group kind preferred)
  end.

Record CiliumVersions : Type := mkCiliumVersions {
  cv_LoadBalancerIPPool : schema_GVK;
  cv_CIDRGroup : schema_GVK;
  cv_BGPAdvertisement : schema_GVK
}.

Definition DiscoverCiliumVersions (dc : DiscoveryInterface) : CiliumVersions + discovery_error :=
  match discoverGroupVersions dc ciliumAPIGroup with
  | inr e => inr e
  | inl available =>
      let rs := discoverResources dc ciliumAPIGroup available in
      let resolve kind plural := resolveResource rs ciliumAPIGroup kind plural preferredVersions in
      match resolve kindCiliumLoadBalancerIPPool resourceCiliumLoadBalancerIPPools with
      | inr e => inr e
      | inl lbPool =>
          match resolve kindCiliumCIDRGroup resourceCiliumCIDRGroups with
          | inr e => inr e
          | inl cidrGroup =>
              match resolve kindCiliumBGPAdvertisement resourceCiliumBGPAdvertisements with
              | inr e => inr e
              | inl bgpAdv => inl (mkCiliumVersions lbPool cidrGroup bgpAdv)
              end
          end
      end
  end.

Record backend_definition : Type := mkBackendDef {
  def_group : string;
  def_kind : string;
  def_plural : string;
  def_preferred : list string
}.

Definition backend_definitions : list backend_definition :=
  [mkBackendDef ciliumAPIGroup kindCiliumLoadBalancerIPPool resourceCiliumLoadBalancerIPPools preferredVersions;
   mkBackendDef ciliumAPIGroup kindCiliumCIDRGroup resourceCiliumCIDRGroups preferredVersions;
   mkBackendDef metallbAPIGroup kindMetalLBIPAddressPool "ipaddresspools" preferredMetalLBVersions;
   mkBackendDef calicoAPIGroup kindCalicoIPPool "ippools" preferredCalicoVersions].

(** The loop, with the cache of what each group serves. *)
Fixpoint resolve_backends (dc : DiscoveryInterface) (definitions : list backend_definition)
    (resourceVersionsByGroup : gmap string resourceSet) : list schema_GVK :=
  match definitions with
  | [] => []
  | def :: rest =>
      let found :=
        match resourceVersionsByGroup !! def_group def with
        | Some rs => Some (rs, resourceVersionsByGroup)
        | None =>
            match discoverGroupVersions dc (def_group def) with
            | inr _ => None
            | inl available =>
                let rs := discoverResources dc (def_group def) available in
                Some (rs, <[def_group def := rs]> resourceVersionsByGroup)
            end
        end in
      match found with
      | None => resolve_backends dc rest resourceVersionsByGroup
      | Some (rs, cache) =>
          match resolveResource rs (def_group def) (def_kind def) (def_plural def) (def_preferred def) with
          | inr _ => resolve_backends dc rest cache
          | inl gvk => gvk :: resolve_backends dc rest cache
          end
      end
  end.

Definition DiscoverPoolBackendGVKs (dc : DiscoveryInterface) : list schema_GVK + discovery_error :=
  let gvks := resolve_backends dc backend_definitions empty in
  if (length gvks =? 0)%nat then inr ErrNoBackend else inl gvks.

Definition ListGVK (gvk : schema_GVK) : schema_GVK :=
  let '(group, version, kind) := gvk in mkGVK group version (kind +:+ "List").
Definition APIVersion (gvk : schema_GVK) : string := let '(group, version, _) := gvk in group +:+ "/" +:+ version.

(** ** Waiting for the APIs *)

Inductive start_result (A : Type) : Type := StartWaiting | StartReturned (setup : option A) (err : option error).
Arguments StartWaiting {A}.
Arguments StartReturned {A}.

(** What the select of [Start] takes next: the cancelled context, or a tick with
    what the probe finds then. *)
Inductive start_event : Type := CtxDone | Tick (dc : DiscoveryInterface).

(** Both starters: [setup] is the one call of [SetupControllers], if any. *)
Fixpoint Start {A} (discover : DiscoveryInterface -> A + discovery_error) (setupControllers : A -> option error)
    (events : list start_event) : start_result A :=
  match events with
  | [] => StartWaiting
  | CtxDone :: _ => StartReturned None None
  | Tick dc :: rest =>
      match discover dc with
      | inr _ => Start discover setupControllers rest
      | inl found => StartReturned (Some found) (setupControllers found)
      end
  end.

(** ** The L2 announcer's nudge *)

Definition ciliumAgentContainer : string := "cilium-agent".
Definition ciliumAgentNamespace : string := "kube-system".
Definition ciliumRepositoryMarker : string := "cilium".

(** [strings.ToLower], as far as it decides whether a text holds lower-case
    letters of ASCII other than k: the capital letters, and U+0130, whose lower
    case is i. *)
Fixpoint lower_text (s : string) : string :=
  match s with
  | EmptyString => EmptyString
  | String c s' =>
      let n := byte_code c in
      match s' with
      | String c' s'' =>
          if ((n =? 196) && (byte_code c' =? 176))%bool then String "i" (lower_text s'')
          else String (if ((65 <=? n) && (n <=? 90))%bool then ascii_of_N (Z.to_N (n + 32)) else c) (lower_text s')
      | EmptyString => String (if ((65 <=? n) && (n <=? 90))%bool then ascii_of_N (Z.to_N (n + 32)) else c) EmptyString
      end
  end.

(** [strings.Contains]. *)
Fixpoint contains_text (sub s : string) : bool :=
  (String.prefix sub s || match s with EmptyString => false | String _ s' => contains_text sub s' end)%bool.

(** [strings.TrimPrefix] of one byte. *)
Definition trim_byte (c : ascii) (s : string) : string :=
  match s with
  | String c' s' => if decide (c' = c) then s' else s
  | EmptyString => s
  end.

Record DaemonSet : Type := mkDaemonSet {
  ds_Namespace : string;
  ds_Name : string;
  ds_Containers : list (string * string);
  ds_DesiredNumberScheduled : Z;
  ds_UpdatedNumberScheduled : Z;
  ds_NumberUnavailable : Z
}.

Inductive image_error : Type :=
| ErrNotTagged
| ErrNotCilium (repository : string)
| ErrEmptyTag
| ErrTag (tag : string).

(** Why a rollout is not finished. *)
Inductive rollout : Type := RolloutUnreported | RolloutProgress (updated desired : Z) | RolloutUnavailable (n : Z).

Inductive nudge_reason : Type :=
| NoDetector
| BadSelector (e : error)
| ListFailed (e : error)
| NoAgent
| AmbiguousAgent (names : list string)
| NoAgentContainer (namespace name : string)
| UnreadableImage (image : string) (e : image_error)
| PredatesFix (tag : string)
| RolloutIncomplete (tag : string) (r : rollout)
| FixIncluded (tag : string).

Definition ciliumAgentDaemonSet (items : list DaemonSet) : DaemonSet + nudge_reason :=
  match items with
  | [] => inr NoAgent
  | [ds] => inl ds
  | _ =>
      match filter (fun ds => ds_Namespace ds = ciliumAgentNamespace) items with
      | [ds] => inl ds
      | _ => inr (AmbiguousAgent (Policy.sort_strings ((fun ds => ds_Namespace ds +:+ "/" +:+ ds_Name ds) <$> items)))
      end
  end.

(** The empty text when every node runs the template is [None] here. *)
Definition ciliumRolloutIncomplete (ds : DaemonSet) : option rollout :=
  if ds_DesiredNumberScheduled ds =? 0 then Some RolloutUnreported
  else if negb (ds_UpdatedNumberScheduled ds =? ds_DesiredNumberScheduled ds)
  then Some (RolloutProgress (ds_UpdatedNumberScheduled ds) (ds_DesiredNumberScheduled ds))
  else if 0 <? ds_NumberUnavailable ds then Some (RolloutUnavailable (ds_NumberUnavailable ds))
  else None.

Definition ciliumAgentImage (ds : DaemonSet) : string :=
  match List.find (fun c => bool_decide (c.1 = ciliumAgentContainer)) (ds_Containers ds) with
  | Some c => c.2
  | None => EmptyString
  end.

Section Nudge.
(** The semver package: the strict parser, whether a version precedes another,
    and the parser for texts known to be versions. *)
Context {Version : Type} (StrictNewVersion : string -> option Version) (before : Version -> Version -> bool).
Context (MustParse : string -> Version).

Definition ciliumL2AnnouncerFixedVersion : Version := MustParse "1.20.1".

(** A colon before the last slash is a registry port: it is a tag exactly when no
    slash follows it. *)
Definition parseCiliumImageVersion (image : string) : Version * string + image_error :=
  let ref := match cut_first "@" image with Some (r, _) => r | None => image end in
  match cut_last ":" ref with
  | None => inr ErrNotTagged
  | Some (repository, rest) =>
      match cut_last "/" rest with
      | Some _ => inr ErrNotTagged
      | None =>
          if negb (contains_text ciliumRepositoryMarker (lower_text repository)) then inr (ErrNotCilium repository)
          else
            let tag := trim_byte "v" rest in
            if decide (tag = EmptyString) then inr ErrEmptyTag
            else match StrictNewVersion tag with
                 | None => inr (ErrTag tag)
                 | Some version => inl (version, tag)
                 end
      end
  end.

(** What the reader answers: parsing the selector, listing the DaemonSets. *)
Record nudge_env : Type := mkNudgeEnv {
  ne_selector : option error;
  ne_list : list DaemonSet + error
}.

Definition detect (env : nudge_env) : bool * nudge_reason :=
  match ne_selector env with
  | Some e => (true, BadSelector e)
  | None =>
      match ne_list env with
      | inr e => (true, ListFailed e)
      | inl items =>
          match ciliumAgentDaemonSet items with
          | inr reason => (true, reason)
          | inl agent =>
              let image := ciliumAgentImage agent in
              if decide (image = EmptyString) then (true, NoAgentContainer (ds_Namespace agent) (ds_Name agent))
              else
                match parseCiliumImageVersion image with
                | inr e => (true, UnreadableImage image e)
                | inl (version, tag) =>
                    if before version ciliumL2AnnouncerFixedVersion then (true, PredatesFix tag)
                    else match ciliumRolloutIncomplete agent with
                         | Some r => (true, RolloutIncomplete tag r)
                         | None => (false, FixIncluded tag)
                         end
                end
          end
      end
  end.

(** Times in nanoseconds; the text last logged is left out. *)
Record l2NudgeDetector : Type := mkDetector {
  nd_ttl : Z;
  nd_checkedAt : Z;
  nd_valid : bool;
  nd_needed : bool;
  nd_reason : nudge_reason
}.

Definition newL2NudgeDetector : l2NudgeDetector := mkDetector (300 * 10 ^ 9) 0 false false NoDetector.

(** The clock is read before and after the detection. *)
Definition Needed (env : nudge_env) (before_detect after_detect : Z) (d : l2NudgeDetector)
    : l2NudgeDetector * (bool * nudge_reason) :=
  if (nd_valid d && (before_detect - nd_checkedAt d <? nd_ttl d))%bool then (d, (nd_needed d, nd_reason d))
  else
    let (needed, reason) := detect env in
    (mkDetector (nd_ttl d) after_detect true needed reason, (needed, reason)).

(** A [nil] detector nudges. *)
Definition Needed_nil : bool * nudge_reason := (true, NoDetector).

(** Calls in sequence: what each finds, its two readings of the clock, and its
    answer. *)
Fixpoint run_needed (calls : list (nudge_env * Z * Z)) (d : l2NudgeDetector) : list (bool * nudge_reason) :=
  match calls with
  | [] => []
  | (env, t0, t1) :: rest => let (d', answer) := Needed env t0 t1 d in answer :: run_needed rest d'
  end.

(** ** The conclusion that the fix runs on every node *)

(** The DaemonSet is the agent: it alone carries the label, or it alone of those
    does so in the agent's namespace. *)
Definition the_agent (items : list DaemonSet) (agent : DaemonSet) : Prop :=
  items = [agent] \/
  (agent ∈ items /\ filter (fun ds => ds_Namespace ds = ciliumAgentNamespace) items = [agent]).

Definition rolled_out (ds : DaemonSet) : Prop :=
  ds_DesiredNumberScheduled ds <> 0 /\ ds_UpdatedNumberScheduled ds = ds_DesiredNumberScheduled ds /\
  ds_NumberUnavailable ds <= 0.

End Nudge.

Section Fixed.
(** A version is its three numbers and its prerelease suffix. *)
Context {Version : Type} (StrictNewVersion : string -> option Version) (before : Version -> Version -> bool).
Context (MustParse : string -> Version) (core : Version -> Z * Z * Z) (prerelease : Version -> string).

Definition core_after (a b : Z * Z * Z) : Prop :=
  let '(x1, y1, z1) := a in let '(x2, y2, z2) := b in x1 < x2 \/ x1 = x2 /\ (y1 < y2 \/ y1 = y2 /\ z1 < z2).

(** What the package documents: how a release is read, and the precedence of Semantic
    Versioning, by the numbers first, a prerelease before its release. *)
Record semver_laws : Prop := mkSemverLaws {
  semver_reads : core (MustParse "1.20.1") = (1, 20, 1) /\ prerelease (MustParse "1.20.1") = EmptyString;
  semver_precedence : forall v w, prerelease w = EmptyString -> before v w = false ->
    core_after (core w) (core v) \/ core v = core w /\ prerelease v = EmptyString
}.

(** 1.20.1 or later; 1.21.0-pre.0 is. *)
Definition has_fix (v : Version) : Prop :=
  core_after (1, 20, 1) (core v) \/ core v = (1, 20, 1) /\ prerelease v = EmptyString.

Lemma not_before_has_fix v : semver_laws -> before v (ciliumL2AnnouncerFixedVersion MustParse) = false -> has_fix v.
Proof. intros [[Hc Hp] Hord] Hb. unfold has_fix. rewrite <- Hc. by apply Hord. Qed.

(** The image is repository:tag, with or without a digest, the repository names
    Cilium, the tag without its v is a complete version with the fix. *)
Definition fixed_image (image tag : string) : Prop :=
  exists repository v_tag digest version,
    image = repository +:+ String ":" (v_tag +:+ digest) /\
    (digest = EmptyString \/ exists d, digest = String "@" d) /\
    str_all (not_byte "/") v_tag = true /\ str_all (not_byte ":") v_tag = true /\
    contains_text ciliumRepositoryMarker (lower_text repository) = true /\
    (v_tag = tag \/ v_tag = String "v" tag) /\
    StrictNewVersion tag = Some version /\ has_fix version.

Definition fix_everywhere (env : nudge_env) (tag : string) : Prop :=
  ne_selector env = None /\
  exists items agent image, ne_list env = inl items /\ the_agent items agent /\ rolled_out agent /\
    (ciliumAgentContainer, image) ∈ ds_Containers agent /\ fixed_image image tag.
End Fixed.

(** * What discovery finds *)

(** The reference: a version of a group serves a resource when the group lists it
    and the list of its resources can be read and names the resource. *)
Definition serves (dc : DiscoveryInterface) (group plural version : string) : bool :=
  match discoverGroupVersions dc group with
  | inl versions =>
      (bool_decide (version ∈ versions) &&
       match ServerResourcesForGroupVersion dc (group +:+ "/" +:+ version) with
       | inl resources => bool_decide (plural ∈ resources)
       | inr _ => false
       end)%bool
  | inr _ => false
  end.

(** The preferred one of the versions that serve a definition. *)
Definition served_gvk (dc : DiscoveryInterface) (def : backend_definition) : option schema_GVK :=
  (fun v => mkGVK (def_group def) v (def_kind def)) <$>
    List.find (serves dc (def_group def) (def_plural def)) (def_preferred def).

Lemma hasResource_add v rs name plural version :
  hasResource (add_resource v rs name) plural version =
  (hasResource rs plural version || bool_decide (plural = name /\ version = v))%bool.
Proof.
  unfold hasResource, add_resource, resourceSet in *. destruct (decide (plural = name)) as [->|Hne].
  - rewrite lookup_insert_eq. destruct (rs !! name) as [vs|]; cbn [default];
      apply Bool.eq_iff_eq_true; rewrite ?orb_true_iff, !bool_decide_eq_true;
      cbn [default]; rewrite elem_of_union, elem_of_singleton; rewrite ?elem_of_empty; intuition congruence.
  - rewrite lookup_insert_ne by done. rewrite (bool_decide_eq_false_2 (plural = name /\ _)) by tauto.
    by rewrite orb_false_r.
Qed.

Lemma hasResource_fold v resources rs plural version :
  hasResource (foldl (add_resource v) rs resources) plural version =
  (hasResource rs plural version || bool_decide (plural ∈ resources /\ version = v))%bool.
Proof.
  revert rs. induction resources as [|name l IH]; intros rs; cbn [foldl].
  - rewrite (bool_decide_eq_false_2 (plural ∈ [] /\ _)) by (intros [H _]; set_solver). by rewrite orb_false_r.
  - rewrite IH, hasResource_add, <- orb_assoc. f_equal.
    apply Bool.eq_iff_eq_true. rewrite orb_true_iff, !bool_decide_eq_true, elem_of_cons. tauto.
Qed.

Definition listed (dc : DiscoveryInterface) (group plural version : string) : bool :=
  match ServerResourcesForGroupVersion dc (group +:+ "/" +:+ version) with
  | inl resources => bool_decide (plural ∈ resources)
  | inr _ => false
  end.

Lemma hasResource_discover dc group versions plural version :
  hasResource (discoverResources dc group versions) plural version =
  (bool_decide (version ∈ versions) && listed dc group plural version)%bool.
Proof.
  unfold discoverResources.
  assert (forall rs, hasResource (foldl (fun rs v => match ServerResourcesForGroupVersion dc (group +:+ "/" +:+ v) with
      | inr _ => rs | inl resources => foldl (add_resource v) rs resources end) rs versions) plural version =
      (hasResource rs plural version || (bool_decide (version ∈ versions) && listed dc group plural version))%bool) as H.
  2:{ rewrite H. by replace (hasResource empty plural version) with false. }
  induction versions as [|v l IH]; intros rs; cbn [foldl].
  - rewrite (bool_decide_eq_false_2 (version ∈ [])) by set_solver. by rewrite orb_false_r.
  - rewrite IH. clear IH. unfold listed.
    destruct (decide (version = v)) as [->|Hne].
    + rewrite (bool_decide_eq_true_2 (v ∈ v :: l)) by set_solver.
      destruct (ServerResourcesForGroupVersion dc _) as [rl|e]; [|by rewrite !andb_false_r].
      rewrite hasResource_fold. apply Bool.eq_iff_eq_true.
      rewrite !orb_true_iff, !andb_true_iff, !bool_decide_eq_true. tauto.
    + assert (bool_decide (version ∈ v :: l) = bool_decide (version ∈ l)) as ->
        by (apply bool_decide_ext; rewrite elem_of_cons; tauto).
      destruct (ServerResourcesForGroupVersion dc (group +:+ "/" +:+ v)) as [rl|e]; [|done].
      rewrite hasResource_fold, (bool_decide_eq_false_2 (_ /\ version = v)) by tauto. by rewrite orb_false_r.
Qed.

Lemma hasResource_serves dc group plural version versions :
  discoverGroupVersions dc group = inl versions ->
  hasResource (discoverResources dc group versions) plural version = serves dc group plural version.
Proof. intros H. rewrite hasResource_discover. unfold serves. by rewrite H. Qed.

Lemma find_ext {A} (f g : A -> bool) l : (forall x, f x = g x) -> List.find f l = List.find g l.
Proof. intros H. induction l as [|x l IH]; cbn; [done|]. by rewrite H, IH. Qed.

Lemma resolve_served dc group kind plural preferred versions :
  discoverGroupVersions dc group = inl versions ->
  resolveResource (discoverResources dc group versions) group kind plural preferred =
  match served_gvk dc (mkBackendDef group kind plural preferred) with
  | Some gvk => inl gvk
  | None => inr (ErrNoVersion group kind preferred)
  end.
Proof.
  intros H. unfold resolveResource, served_gvk. cbn [def_group def_kind def_plural def_preferred].
  rewrite (find_ext _ _ preferred (fun v => hasResource_serves dc group plural v versions H)).
  by destruct (List.find _ preferred).
Qed.

Lemma not_served dc def e : discoverGroupVersions dc (def_group def) = inr e -> served_gvk dc def = None.
Proof.
  intros H. unfold served_gvk.
  rewrite (find_ext _ (fun _ => false)); [by induction (def_preferred def)|].
  intros v. unfold serves. by rewrite H.
Qed.

(** The cache is what a probe of its group would give. *)
Definition cache_ok (dc : DiscoveryInterface) (cache : gmap string resourceSet) : Prop :=
  map_Forall (fun group rs => exists versions, discoverGroupVersions dc group = inl versions /\
                                        rs = discoverResources dc group versions) cache.

Lemma resolve_backends_served dc defs cache :
  cache_ok dc cache -> resolve_backends dc defs cache = omap (served_gvk dc) defs.
Proof.
  revert cache. induction defs as [|[group kind plural preferred] defs IH]; intros cache Hc; [done|].
  cbn [resolve_backends list_omap]. simpl omap. cbn [def_group def_kind def_plural def_preferred].
  destruct (cache !! group) as [rs|] eqn:Eg.
  - destruct (Hc _ _ Eg) as (versions & Hv & ->). rewrite (resolve_served _ _ _ _ _ _ Hv).
    destruct (served_gvk dc _) as [gvk|]; cbn; by rewrite IH.
  - destruct (discoverGroupVersions dc group) as [versions|e] eqn:Hv.
    + rewrite (resolve_served _ _ _ _ _ _ Hv).
      assert (cache_ok dc (<[group := discoverResources dc group versions]> cache)).
      { apply map_Forall_insert_2; [by exists versions | done]. }
      destruct (served_gvk dc _) as [gvk|]; cbn; by rewrite IH.
    + rewrite (not_served dc (mkBackendDef group kind plural preferred) e) by done. by apply IH.
Qed.

Lemma served_gvk_spec dc def gvk :
  served_gvk dc def = Some gvk ->
  exists v, gvk = mkGVK (def_group def) v (def_kind def) /\ v ∈ def_preferred def /\
    serves dc (def_group def) (def_plural def) v = true.
Proof.
  unfold served_gvk. destruct (List.find _ _) as [v|] eqn:Ef; [|done]. intros [= <-].
  apply find_some in Ef as [Hv Hs]. exists v. by rewrite list_elem_of_In.
Qed.

Lemma served_kinds dc gvk :
  gvk ∈ omap (served_gvk dc) backend_definitions ->
  exists def v, def ∈ backend_definitions /\ served_gvk dc def = Some gvk /\ gvk = mkGVK (def_group def) v (def_kind def).
Proof.
  intros (def & Hd & Hs)%list_elem_of_omap. destruct (served_gvk_spec _ _ _ Hs) as (v & -> & _ & _). by exists def, v.
Qed.

Lemma NoDup_omap_keys {A B} (f : A -> option B) (k : A -> string) (k' : B -> string) l :
  (forall a b, f a = Some b -> k' b = k a) -> NoDup (k <$> l) -> NoDup (omap f l).
Proof.
  intros Hk. induction l as [|a l IH]; [constructor|]. rewrite fmap_cons, NoDup_cons. intros [Hnin Hnd].
  simpl omap. destruct (f a) as [b|] eqn:Ef; [|by apply IH].
  constructor; [|by apply IH]. intros (a' & Ha' & Hf')%list_elem_of_omap. apply Hnin.
  apply list_elem_of_fmap. exists a'. split; [|done]. by rewrite <- (Hk _ _ Ef), (Hk _ _ Hf').
Qed.

Lemma served_NoDup dc : NoDup (omap (served_gvk dc) backend_definitions).
Proof.
  apply (NoDup_omap_keys _ def_kind (fun gvk => gvk.2)).
  - intros def gvk (v & -> & _ & _)%served_gvk_spec. done.
  - apply (bool_decide_unpack _). by vm_compute.
Qed.

Section Watched.
Context (siblingPoolName : string -> string -> string) (range_map : gmap string string -> list (string * string)).
Context (env : calico_api) (updateErr : option error).

Lemma served_has_backend dc gvk :
  gvk ∈ omap (served_gvk dc) backend_definitions ->
  is_Some (backendForGVK siblingPoolName range_map env updateErr gvk).
Proof.
  intros (def & v & Hd & _ & ->)%served_kinds. unfold backend_definitions in Hd.
  repeat (apply elem_of_cons in Hd as [-> | Hd]; [cbn; eauto|]). by apply not_elem_of_nil in Hd.
Qed.

Lemma backends_from_all gvks seen :
  NoDup gvks -> (forall gvk, gvk ∈ gvks -> (gvk ∉ seen) /\ is_Some (backendForGVK siblingPoolName range_map env updateErr gvk)) ->
  map Some (backends_from siblingPoolName range_map env updateErr seen gvks) =
  map (backendForGVK siblingPoolName range_map env updateErr) gvks.
Proof.
  revert seen. induction gvks as [|gvk l IH]; intros seen Hnd H; [done|].
  apply NoDup_cons in Hnd as [Hnin Hnd]. destruct (H gvk ltac:(apply elem_of_cons; by left)) as [Hns [b Hb]].
  cbn [backends_from map]. rewrite decide_False, Hb by done. cbn [map]. f_equal. apply IH; [done|].
  intros g Hg. destruct (H g ltac:(apply elem_of_cons; by right)) as [Hgs Hgb]. split; [|done].
  rewrite not_elem_of_cons. split; [by intros -> | done].
Qed.
End Watched.


(** * The nudge stands down only for the fix *)

Lemma cut_first_spec sep s l r :
  cut_first sep s = Some (l, r) -> s = l +:+ String sep r /\ str_all (not_byte sep) l = true.
Proof.
  revert l. induction s as [|c s IH]; intros l; cbn; [done|].
  destruct (decide (c = sep)) as [->|Hc]; [by intros [= <- <-]|].
  destruct (cut_first sep s) as [[l' r']|]; [|done]. intros [= <- <-].
  destruct (IH l' eq_refl) as [-> H]. split; [by rewrite append_cons|]. cbn. rewrite H.
  unfold not_byte. by rewrite bool_decide_eq_false_2.
Qed.

Lemma cut_none_all sep s :
  cut_last sep s = None -> str_all (not_byte sep) s = true.
Proof.
  induction s as [|c s IH]; cbn; [done|]. destruct (cut_last sep s) as [[]|]; [done|].
  destruct (decide (c = sep)) as [|Hc]; [done|]. intros _. rewrite IH by done.
  unfold not_byte. by rewrite bool_decide_eq_false_2.
Qed.

Lemma cut_last_spec sep s l r :
  cut_last sep s = Some (l, r) -> s = l +:+ String sep r /\ str_all (not_byte sep) r = true.
Proof.
  revert l. induction s as [|c s IH]; intros l; cbn; [done|].
  destruct (cut_last sep s) as [[l' r']|] eqn:E.
  - intros [= <- <-]. destruct (IH l' eq_refl) as [-> H]. by rewrite append_cons.
  - destruct (decide (c = sep)) as [->|]; [|done]. intros [= <- <-]. split; [done|]. by apply cut_none_all.
Qed.

Section Verdict.
Context {Version : Type} (StrictNewVersion : string -> option Version) (before : Version -> Version -> bool).
Context (MustParse : string -> Version) (core : Version -> Z * Z * Z) (prerelease : Version -> string).
Context (laws : semver_laws before MustParse core prerelease).

Local Abbreviation fixed_image := (fixed_image StrictNewVersion core prerelease).
Local Abbreviation fix_everywhere := (fix_everywhere StrictNewVersion core prerelease).

Lemma trim_byte_cases c s : s = trim_byte c s \/ s = String c (trim_byte c s).
Proof. destruct s as [|c' s]; cbn; [by left|]. destruct (decide (c' = c)) as [->|]; [by right | by left]. Qed.

Lemma parse_fixed image version tag :
  parseCiliumImageVersion StrictNewVersion image = inl (version, tag) -> before version (ciliumL2AnnouncerFixedVersion MustParse) = false ->
  fixed_image image tag.
Proof.
  intros Hp Hb. unfold parseCiliumImageVersion in Hp. cbv zeta in Hp.
  set (ref := match cut_first "@" image with Some (r, _) => r | None => image end) in Hp.
  assert (exists digest, image = ref +:+ digest /\ (digest = EmptyString \/ exists d, digest = String "@" d))
    as (digest & Himg & Hd).
  { subst ref. destruct (cut_first "@" image) as [[r d]|] eqn:Ec.
    - apply cut_first_spec in Ec as [-> _]. exists (String "@" d). eauto.
    - exists EmptyString. rewrite append_nil_r. eauto. }
  destruct (cut_last ":" ref) as [[repository rest]|] eqn:Ec; [|done].
  apply cut_last_spec in Ec as [Href Hcolon].
  destruct (cut_last "/" rest) as [[]|] eqn:Es; [done|]. apply cut_none_all in Es.
  destruct (contains_text _ _) eqn:Em; cbn [negb] in Hp; [|done].
  destruct (decide _); [done|]. destruct (StrictNewVersion _) as [v|] eqn:Ev; [|done].
  injection Hp as -> <-. exists repository, rest, digest, version.
  split; [by rewrite Himg, Href, append_assoc, append_cons|].
  repeat split; try done; [apply trim_byte_cases|by apply (not_before_has_fix before MustParse)].
Qed.

Lemma agent_spec items agent : ciliumAgentDaemonSet items = inl agent -> the_agent items agent.
Proof.
  unfold ciliumAgentDaemonSet. destruct items as [|ds [|ds2 items]]; [done | intros [= ->]; by left |].
  set (all := ds :: ds2 :: items). destruct (filter _ all) as [|a [|]] eqn:Ef; [done | | done].
  intros [= ->]. right. split; [|done].
  assert (agent ∈ filter (fun ds => ds_Namespace ds = ciliumAgentNamespace) all) as H by (rewrite Ef; apply elem_of_cons; by left).
  by apply list_elem_of_filter in H as [_ H].
Qed.

Lemma rollout_spec ds : ciliumRolloutIncomplete ds = None -> rolled_out ds.
Proof.
  unfold ciliumRolloutIncomplete. destruct (ds_DesiredNumberScheduled ds =? 0) eqn:E0; [done|].
  destruct (ds_UpdatedNumberScheduled ds =? ds_DesiredNumberScheduled ds) eqn:E1; cbn [negb]; [|done].
  destruct (0 <? ds_NumberUnavailable ds) eqn:E2; [done|]. intros _. split; [lia|]. split; lia.
Qed.

Lemma image_spec ds : ciliumAgentImage ds <> EmptyString -> (ciliumAgentContainer, ciliumAgentImage ds) ∈ ds_Containers ds.
Proof.
  unfold ciliumAgentImage. destruct (List.find _ _) as [[n i]|] eqn:Ef; [|done]. intros _.
  apply find_some in Ef as [Hin Hn]. apply bool_decide_eq_true in Hn. cbn in Hn |- *. subst n.
  by apply list_elem_of_In.
Qed.

Lemma detect_spec env reason :
  detect StrictNewVersion before MustParse env = (false, reason) ->
  exists tag, reason = FixIncluded tag /\ fix_everywhere env tag.
Proof.
  unfold detect. destruct (ne_selector env) eqn:Es; [done|]. destruct (ne_list env) as [items|] eqn:El; [|done].
  destruct (ciliumAgentDaemonSet items) as [agent|] eqn:Ea; [|done]. apply agent_spec in Ea.
  cbv zeta. destruct (decide _) as [|Hi]; [done|]. apply image_spec in Hi.
  destruct (parseCiliumImageVersion _ _) as [[version tag]|] eqn:Ep; [|done].
  destruct (before _ _) eqn:Eb; [done|]. destruct (ciliumRolloutIncomplete agent) eqn:Er; [done|].
  intros [= <-]. exists tag. split; [done|]. split; [done|]. exists items, agent, (ciliumAgentImage agent).
  split_and!; try done; [by apply rollout_spec | by apply (parse_fixed _ version)].
Qed.

(** What the detector remembers is the answer of one of the calls so far. *)
Definition remembers (past : list (nudge_env * Z * Z)) (d : l2NudgeDetector) : Prop :=
  nd_ttl d = 300 * 10 ^ 9 /\
  (nd_valid d = true -> exists j env t0, past !! j = Some (env, t0, nd_checkedAt d) /\ detect StrictNewVersion before MustParse env = (nd_needed d, nd_reason d)).

Lemma Needed_step past d env t0 t1 :
  remembers past d ->
  let (d', a) := Needed StrictNewVersion before MustParse env t0 t1 d in
  remembers (past ++ [(env, t0, t1)]) d' /\
  exists j e u0 u1, (past ++ [(env, t0, t1)]) !! j = Some (e, u0, u1) /\ detect StrictNewVersion before MustParse e = a /\
    (j = length past \/ t0 - u1 < 300 * 10 ^ 9).
Proof.
  intros [Httl Hv]. unfold Needed. destruct (nd_valid d && _)%bool eqn:Ec.
  - apply andb_true_iff in Ec as [Hvalid Hage]. destruct (Hv Hvalid) as (j & e & u0 & Hj & He).
    assert ((past ++ [(env, t0, t1)]) !! j = Some (e, u0, nd_checkedAt d)) by by apply lookup_app_l_Some.
    split; [split; [done | intros _; by exists j, e, u0]|].
    exists j, e, u0, (nd_checkedAt d). split_and!; [done | done |]. right. lia.
  - destruct (detect StrictNewVersion before MustParse env) as [needed reason] eqn:Ed.
    assert ((past ++ [(env, t0, t1)]) !! length past = Some (env, t0, t1)) as Hlast by by apply list_lookup_middle.
    split; [split; [done | intros _; by exists (length past), env, t0]|].
    exists (length past), env, t0, t1. eauto.
Qed.

Lemma run_needed_fresh calls past d i env t0 t1 a :
  remembers past d -> calls !! i = Some (env, t0, t1) ->
  run_needed StrictNewVersion before MustParse calls d !! i = Some a ->
  exists j e u0 u1, (j <= length past + i)%nat /\ (past ++ calls) !! j = Some (e, u0, u1) /\
    detect StrictNewVersion before MustParse e = a /\
    (j = (length past + i)%nat \/ t0 - u1 < 300 * 10 ^ 9).
Proof.
  revert past d i. induction calls as [|[[env' t0'] t1'] calls IH]; intros past d i Hr Hi Ha; [done|].
  cbn [run_needed] in Ha. pose proof (Needed_step past d env' t0' t1' Hr) as Hstep.
  destruct (Needed _ _ _ env' t0' t1' d) as [d' a'] eqn:En. destruct Hstep as [Hr' (j & e & u0 & u1 & Hj & He & Hage)].
  destruct i as [|i]; cbn in Hi, Ha.
  - simplify_eq. exists j, e, u0, u1. rewrite Nat.add_0_r.
    pose proof (lookup_lt_Some _ _ _ Hj) as Hlt. rewrite length_app in Hlt. cbn in Hlt.
    split_and!; [clear IH; lia | | done | done].
    change ((env, t0, t1) :: calls) with ([(env, t0, t1)] ++ calls). rewrite (assoc_L (++)). by apply lookup_app_l_Some.
  - destruct (IH _ _ _ Hr' Hi Ha) as (k & e' & v0 & v1 & Hk & Hl & He' & Hage'). clear IH.
    rewrite length_app in Hk, Hage'. cbn in Hk, Hage'. rewrite <- (assoc_L (++)) in Hl.
    exists k, e', v0, v1. split_and!; [lia | done | done | destruct Hage'; [left; lia | by right]].
Qed.
End Verdict.

(** C32 The nudge stands down only on proof.  Whatever the calls of [Needed] find
    and whenever they come, each answer is the one of a detection made by the same
    call or by an earlier one less than five minutes before; and an answer that
    the nudge is not needed means that this detection read the one unambiguous
    agent DaemonSet, its agent container's image tagged with a complete version of
    a Cilium image, 1.20.1 or later, and a status whose counters show every scheduled
    pod updated and none unavailable. *)
Theorem stands_down_only_for_fix {Version} (StrictNewVersion : string -> option Version)
    (before : Version -> Version -> bool) (MustParse : string -> Version) (core : Version -> Z * Z * Z)
    (prerelease : Version -> string) (calls : list (nudge_env * Z * Z)) i :
  semver_laws before MustParse core prerelease ->
  match calls !! i, run_needed StrictNewVersion before MustParse calls newL2NudgeDetector !! i with
  | Some (_, t0, _), Some (needed, reason) =>
      exists j e u0 u1, (j <= i)%nat /\ calls !! j = Some (e, u0, u1) /\
        detect StrictNewVersion before MustParse e = (needed, reason) /\
        (j = i \/ t0 - u1 < 300 * 10 ^ 9) /\
        (needed = false -> exists tag, reason = FixIncluded tag /\ fix_everywhere StrictNewVersion core prerelease e tag)
  | Some _, None => False
  | None, _ => True
  end.
Proof.
  intros laws. destruct (calls !! i) as [[[env t0] t1]|] eqn:Ei; [|done].
  destruct (run_needed _ _ _ calls _ !! i) as [[needed reason]|] eqn:Ea.
  - destruct (run_needed_fresh StrictNewVersion before MustParse calls [] newL2NudgeDetector i env t0 t1 (needed, reason))
      as (j & e & u0 & u1 & Hj & Hl & Hd & Hage); [by split | done | done |].
    exists j, e, u0, u1. split_and!; [done | done | done | done |]. intros ->. by apply (detect_spec _ _ _ _ _ laws) in Hd.
  - apply lookup_ge_None in Ea. apply lookup_lt_Some in Ei. revert Ea.
    assert (forall d, length (run_needed StrictNewVersion before MustParse calls d) = length calls) as ->; [|lia].
    clear. induction calls as [|[[env t0] t1] calls IH]; intros d; [done|].
    cbn. destruct (Needed _ _ _ _ _ _ _). cbn. by rewrite IH.
Qed.

(** A strict reading of three numbers, in lexicographic order. *)
Definition sample_version (s : string) : option (Z * Z * Z) :=
  match split_on "." s with
  | [a; b; c] =>
      match atoi_unsigned a, atoi_unsigned b, atoi_unsigned c with
      | Some x, Some y, Some z => Some (x, y, z)
      | _, _, _ => None
      end
  | _ => None
  end.

Definition sample_before (v w : Z * Z * Z) : bool :=
  let '(x1, y1, z1) := v in let '(x2, y2, z2) := w in
  ((x1 <? x2) || ((x1 =? x2) && ((y1 <? y2) || ((y1 =? y2) && (z1 <? z2)))))%bool.

Definition sample_release (s : string) : Z * Z * Z := default (0, 0, 0) (sample_version s).

Lemma sample_laws : semver_laws sample_before sample_release id (fun _ => EmptyString).
Proof.
  split; [by vm_compute|]. intros [[x1 y1] z1] [[x2 y2] z2] _. unfold sample_before. cbn. intros H.
  destruct (decide ((x1, y1, z1) = (x2, y2, z2))) as [|Hne]; [by right|left]. zbool.
  assert (x1 <> x2 \/ y1 <> y2 \/ z1 <> z2) by (destruct (decide (x1 = x2)), (decide (y1 = y2)), (decide (z1 = z2)); subst; tauto). lia.
Qed.

Definition sample_agent (image : string) (updated : Z) : nudge_env :=
  mkNudgeEnv None (inl [mkDaemonSet "kube-system" "cilium" [("config", "busybox:1.36.0"); ("cilium-agent", image)] 3 updated 0]).

Definition sample_calls : list (nudge_env * Z * Z) :=
  [(sample_agent "quay.io:443/cilium/cilium:v1.20.0@sha256:00" 3, 0, 1);
   (sample_agent "quay.io:443/cilium/cilium:v1.20.1@sha256:00" 2, 300 * 10 ^ 9, 300 * 10 ^ 9 + 1);
   (sample_agent "quay.io:443/cilium/cilium:v1.20.1@sha256:00" 3, 600 * 10 ^ 9 + 1, 600 * 10 ^ 9 + 2);
   (sample_agent "quay.io:443/cilium/cilium:latest" 3, 700 * 10 ^ 9, 700 * 10 ^ 9 + 1);
   (sample_agent "quay.io:443/cilium/cilium:latest" 3, 900 * 10 ^ 9 + 2, 900 * 10 ^ 9 + 3)].

Lemma stands_down_only_for_fix_witness :
  (fst <$> run_needed sample_version sample_before sample_release sample_calls newL2NudgeDetector) =
    [true; true; false; false; true] /\
  exists tag, fix_everywhere sample_version id (fun _ => EmptyString) (sample_agent "quay.io:443/cilium/cilium:v1.20.1@sha256:00" 3) tag.
Proof.
  split; [by vm_compute|].
  pose proof (stands_down_only_for_fix sample_version sample_before sample_release id (fun _ => EmptyString) sample_calls 2 sample_laws) as H.
  destruct (sample_calls !! 2%nat) as [[[env t0] t1]|] eqn:E; [|discriminate E].
  replace (run_needed sample_version sample_before sample_release sample_calls newL2NudgeDetector !! 2%nat)
    with (Some (false, FixIncluded "1.20.1")) in H by by vm_compute.
  destruct H as (j & e & u0 & u1 & Hj & Hl & Hd & _ & Hf). destruct (Hf eq_refl) as (tag & _ & Htag).
  exists tag. destruct j as [|[|[|j]]]; [| | | lia]; vm_compute in Hl; simplify_eq; [vm_compute in Hd; discriminate Hd ..|].
  exact Htag.
Defined.

(** * The starters *)

(** A starter waits through probes that find nothing, sets the controllers up with
    what the first successful probe finds unless it is stopped before, and never
    probes again. *)
Lemma Start_once {A} (discover : DiscoveryInterface -> A + discovery_error) setupControllers quiet rest :
  Forall (fun e => exists dc err, e = Tick dc /\ discover dc = inr err) quiet ->
  Start discover setupControllers (quiet ++ rest) = Start discover setupControllers rest.
Proof. induction 1 as [|e l (dc & err & -> & He) _ IH]; [done|]. cbn. by rewrite He. Qed.
