(* ===== verification/Watches.v ===== *)
(** * Who is told of a change

    The watch wiring of the controllers: the filters in front of each
    ([SetupWithManager]) and the mappings from a changed DynamicPrefix to the names
    to reconcile, in [poolsync_controller.go], [servicesync_controller.go],
    [crowdsec_controller.go] and [dynamicprefix_controller.go].  What the cache
    lists is an argument. *)

From S2P Require Import Prelude GoStrings Receivers Factory DynamicPrefix Ownership PoolConfigs PoolBackends PoolSync.
From S2P Require Import ServiceAddrs ServiceSync CrowdSecLAPI CrowdSec Dependents.

(** ** Pools *)

(** [hasAnnotation] of the pool controller: also a pool that is to be released. *)
Definition pool_watched (annotations : gmap string string) : bool :=
  (bool_decide (is_Some (annotations !! AnnotationName)) || hasOwnershipRecord annotations)%bool.

Section Pools.
Context {World Obj : Type} `{HPO : !PoolObject Obj}.

(** A request: a namespace and a name. *)
Definition request : Type := string * string.

(** What listing the objects of a backend's kind gives. *)
Definition pool_list : Type := poolBackend World Obj -> list (request * Obj) + error.

Definition findReferencingPools (backends : list (poolBackend World Obj)) (list_ : pool_list) (dpName : string)
    : list request :=
  concat ((fun b => match list_ b with
                    | inr _ => []
                    | inl pools => (filter (fun '(_, o) => default EmptyString (o_annotations o !! AnnotationName) = dpName) pools).*1
                    end) <$> backends).
End Pools.

Section PoolBackends.
Context (siblingPoolName : string -> string -> string) (range_map : gmap string string -> list (string * string)).
Context (env : calico_api) (updateErr : option error).

(** The backends discovered, or Cilium's two. *)
Definition poolBackends (BackendGVKs : list schema_GVK) : list (poolBackend world object) :=
  match BackendGVKs with
  | [] => [ciliumLoadBalancerIPPoolBackend env updateErr; ciliumCIDRGroupBackend env updateErr]
  | _ => backendsForGVKs siblingPoolName range_map env updateErr BackendGVKs
  end.
End PoolBackends.

(** ** Services *)

Definition service_watched (svc : Service) : bool :=
  (sv_LoadBalancer svc &&
   (bool_decide (is_Some (sv_annotations svc !! AnnotationName)) || hasOwnershipRecord (sv_annotations svc)))%bool.

Definition indexServiceByDynamicPrefix (svc : Service) : list string :=
  if negb (sv_LoadBalancer svc) then []
  else if decide (ann (sv_annotations svc) AnnotationName = EmptyString) then []
  else [ann (sv_annotations svc) AnnotationName].

(** [None] stands for a list that failed: nobody is told. *)
Definition findReferencingServices (services : option (list (request * Service))) (dpName : string) : list request :=
  match services with
  | None => []
  | Some l =>
      let indexed := filter (fun '(_, svc) => dpName ∈ indexServiceByDynamicPrefix svc) l in
      (filter (fun '(_, svc) => sv_LoadBalancer svc = true /\ ann (sv_annotations svc) AnnotationName = dpName) indexed).*1
  end.

(** ** CrowdSec *)

Definition crowdsec_configured (r : CrowdSecMarkerReconciler) (name : string) : bool :=
  bool_decide (name ∈ cs_DynamicPrefixes r).

Definition allDynamicPrefixes (r : CrowdSecMarkerReconciler) : list string := cs_DynamicPrefixes r.

Definition LabelServiceName : string := "kubernetes.io/service-name".

(** A slice of the LAPI Service, by its namespace and labels. *)
Definition lapi_slice (service : request) (namespace : string) (labels : gmap string string) : bool :=
  (bool_decide (namespace = service.1) &&
   bool_decide (default EmptyString (labels !! LabelServiceName) = service.2))%bool.

(** ** The DynamicPrefix controller itself *)

Record ObjectMeta : Type := mkMeta {
  om_Generation : Z;
  om_Deleted : bool;
  om_Finalizers : list string;
  om_Annotations : gmap string string;
  om_Labels : gmap string string
}.

(** The update filter; a missing object passes. *)
Definition dynamicPrefixUpdated (old new : option ObjectMeta) : bool :=
  match old, new with
  | Some o, Some n =>
      (negb (bool_decide (om_Generation n = om_Generation o)) || om_Deleted n ||
       negb (bool_decide (om_Finalizers n = om_Finalizers o)) ||
       negb (bool_decide (om_Annotations n = om_Annotations o)) ||
       negb (bool_decide (om_Labels n = om_Labels o)))%bool
  | _, _ => true
  end.

(** * Pools that are not told *)

(** Two readings of a resource that no dependent can tell apart. *)
Definition same_reading (a a' : dp_answer) : Prop :=
  a = a' \/ exists old new, a = DPFound old /\ a' = DPFound new /\ essence new = essence old.

Section PoolsTold.
Context {World Obj : Type} `{HPO : !PoolObject Obj}.
Context (Find : list Condition -> string -> option Condition).
Context (error_text : error -> string) (config_text : config_error -> string).

(** What a sync does apart from the condition of the resource: states that agree on
    it are taken as equal, and everything a sync does respects that. *)
Definition view (s : @sync_state World Obj) : World * list Obj * list pool_event := (ss_world s, ss_written s, ss_events s).

#[export] Instance sync_state_equiv : Equiv (@sync_state World Obj) := fun s s' => view s = view s'.
#[export] Instance sync_state_equivalence : Equivalence (≡@{@sync_state World Obj}).
Proof. split; [by intros s|by intros s s'|]. intros s1 s2 s3. unfold equiv, sync_state_equiv. congruence. Qed.

Ltac solve_view := intros s s' H; unfold equiv, sync_state_equiv, view in *; cbn; congruence.

#[export] Instance add_event_proper ev : Proper ((≡) ==> (≡)) (add_event (World := World) (Obj := Obj) ev).
Proof. solve_view. Qed.
#[export] Instance add_written_proper o : Proper ((≡) ==> (≡)) (add_written (World := World) (Obj := Obj) o).
Proof. solve_view. Qed.
#[export] Instance set_world_proper w : Proper ((≡) ==> (≡)) (set_world (World := World) (Obj := Obj) w).
Proof. solve_view. Qed.
#[export] Instance ss_world_proper : Proper ((≡) ==> (=)) (ss_world (World := World) (Obj := Obj)).
Proof. solve_view. Qed.

Lemma add_metric_same m (s : @sync_state World Obj) : add_metric m s ≡ s.
Proof. done. Qed.

Lemma update_same (e : @sync_env Obj) dp key err (s : @sync_state World Obj) : updatePoolsSyncedCondition Find e dp key err s ≡ s.
Proof.
  destruct (updatePoolsSyncedCondition_spec Find e dp key err s) as (H1 & H2 & H3 & _).
  unfold equiv, sync_state_equiv, view. congruence.
Qed.

Lemma release_same (e : @sync_env Obj) m (s : @sync_state World Obj) : releasePoolsSyncedEntries Find e m s ≡ s.
Proof.
  destruct (releasePoolsSyncedEntries_spec Find e m s) as (H1 & H2 & H3 & _).
  unfold equiv, sync_state_equiv, view. congruence.
Qed.

Definition same_done {A} (r r' : option (@sync_state World Obj * A)) : Prop :=
  match r, r' with
  | Some (s, x), Some (s', x') => s ≡ s' /\ x = x'
  | None, None => True
  | _, _ => False
  end.

Lemma releasePool_view (e e' : @sync_env Obj) key o b s s' :
  s ≡ s' -> (forall o, se_update e o = se_update e' o) ->
  same_done (releasePool Find e key o b s) (releasePool Find e' key o b s').
Proof.
  intros H Hu. unfold releasePool. rewrite (ss_world_proper s s' H).
  destruct (b_release b (ss_world s') o) as [[[w o1] [changed [err|]]]|]; [| |done]; [split; [by rewrite H|done]|].
  cbv zeta. destruct (negb changed && _)%bool; [split; [by rewrite H|done]|].
  rewrite Hu. destruct (se_update e' _); (split; [|done]); [by rewrite H|].
  by rewrite !release_same, !add_metric_same, H.
Qed.

Lemma syncPool_view (e e' : @sync_env Obj) req o b s s' :
  s ≡ s' -> (forall o, se_update e o = se_update e' o) ->
  (forall dpName, o_annotations o !! AnnotationName = Some dpName -> same_reading (se_get e dpName) (se_get e' dpName)) ->
  same_done (syncPool Find error_text config_text e req o b s) (syncPool Find error_text config_text e' req o b s').
Proof.
  intros H Hu Hget.
  assert (same_done ('(s1, err) ← releasePool Find e req o b s; Some (s1, (0, err)))
                    ('(s1, err) ← releasePool Find e' req o b s'; Some (s1, (0, err)))) as Hrel.
  { pose proof (releasePool_view e e' req o b s s' H Hu) as Hr.
    destruct (releasePool Find e req o b s) as [[]|], (releasePool Find e' req o b s') as [[]|]; cbn in *; try done.
    by destruct Hr as [? ->]. }
  unfold syncPool. cbv zeta. destruct (o_annotations o !! AnnotationName) as [dpName|] eqn:En.
  2:{ by destruct (hasOwnershipRecord _). }
  specialize (Hget dpName eq_refl).
  assert (match se_get e dpName, se_get e' dpName with
          | DPFound d, DPFound d' => essence d' = essence d
          | DPError x, DPError x' => x = x'
          | _, _ => False end) as Hd.
  { destruct Hget as [<-|(old & new & -> & -> & Hess)]; [by destruct (se_get e dpName)|done]. }
  destruct (se_get e dpName) as [dp|[|err]], (se_get e' dpName) as [dp'|[|err']]; try done; clear Hget.
  2:{ by destruct (hasOwnershipRecord _). }
  2:{ split; [done|]. congruence. }
  assert (st_CurrentPrefix (dp_Status dp') = st_CurrentPrefix (dp_Status dp)) as ->
    by exact (f_equal (fun d => st_CurrentPrefix (dp_Status d)) Hd).
  assert (collectManagedPrefixes dp' = collectManagedPrefixes dp) as -> by exact (f_equal collectManagedPrefixes Hd).
  rewrite <- (essence_configs dp'), Hd, essence_configs. clear Hrel.
  case_decide; [done|]. destruct (buildPoolConfigurations dp _ _) as [configs|ce|]; [| |done].
  { rewrite (ss_world_proper s s' H).
    destruct (b_update b configs _ (ss_world s') o) as [[[w o1] [[] [err|]]]|]; [..|done];
      (split; [|done]); by rewrite !update_same, !add_metric_same, H. }
  split; [|done]. by rewrite !update_same, !add_metric_same, H.
Qed.

Lemma sync_all_view (e e' : @sync_env Obj) req matches result errs s s' :
  s ≡ s' -> (forall o, se_update e o = se_update e' o) ->
  (forall o b dpName, (o, b) ∈ matches -> o_annotations o !! AnnotationName = Some dpName ->
     same_reading (se_get e dpName) (se_get e' dpName)) ->
  same_done (sync_all Find error_text config_text e req matches result errs s)
            (sync_all Find error_text config_text e' req matches result errs s').
Proof.
  intros H Hu. revert result errs s s' H. induction matches as [|[o b] l IH]; intros result errs s s' H Hget; [done|].
  cbn [sync_all]. pose proof (syncPool_view e e' req o b s s' H Hu (fun n => Hget o b n (list_elem_of_here _ _))) as Hs.
  destruct (syncPool _ _ _ e _ _ _ _) as [[s1 [after err]]|], (syncPool _ _ _ e' _ _ _ _) as [[s2 [after' err']]|]; try done.
  destruct Hs as [Hv [= -> ->]]. cbn.
  assert (forall o b dpName, (o, b) ∈ l -> o_annotations o !! AnnotationName = Some dpName ->
    same_reading (se_get e dpName) (se_get e' dpName)) as Hl.
  { intros o' b' n Hin. apply (Hget o' b'). by apply list_elem_of_further. }
  destruct err'; by apply IH.
Qed.

(** A read finds what a list shows. *)
Definition read_listed (list_ : @pool_list World Obj) (read : poolBackend World Obj -> @pool_answer Obj) (req : request) : Prop :=
  forall b o, read b = PoolFound o -> exists items, list_ b = inl items /\ (req, o) ∈ items.

Lemma told_pools backends list_ read (req : request) dpName o b :
  read_listed list_ read req -> read b = PoolFound o -> b ∈ backends ->
  o_annotations o !! AnnotationName = Some dpName -> req ∈ findReferencingPools backends list_ dpName.
Proof.
  intros Hr Hb Hin Hn. destruct (Hr b o Hb) as (items & Hl & Ho). unfold findReferencingPools.
  apply elem_of_concat. eexists. split; [|apply list_elem_of_fmap; exists b; by split]. rewrite Hl.
  apply list_elem_of_fmap. exists (req, o). split; [done|]. apply list_elem_of_filter. by rewrite Hn.
Qed.

Lemma getPools_read (backends : list (poolBackend World Obj)) read ns matches o b :
  getPools backends read ns = inl matches -> (o, b) ∈ matches -> read b = PoolFound o /\ b ∈ backends.
Proof.
  unfold getPools. cbv zeta. set (m := omap _ _). destruct m as [|x l] eqn:Em; [done|].
  intros [= <-]. rewrite <- Em. unfold m. intros (b' & Hb & Hr)%list_elem_of_omap.
  apply list_elem_of_filter in Hb as [_ Hb]. destruct (read b') eqn:E; [|done]. by injection Hr as -> ->.
Qed.
End PoolsTold.

Section PoolProperties.
Context {World Obj : Type} `{HPO : !PoolObject Obj}.
Context (Find : list Condition -> string -> option Condition).
Context (error_text : error -> string) (config_text : config_error -> string).

(** C21 No pool misses a change of its resource, where pools that can be read are listed.  A pool the filter drops is one a
    sync would not touch.  When a DynamicPrefix is updated, every name whose
    reconcile could do anything to a pool differently - write it otherwise, report
    it otherwise, fail or come back otherwise - is among those enqueued, and the
    update itself passes the filter in front; each name enqueued belongs to a pool
    that refers to the resource. *)
Theorem pool_changes_reach (backends : list (poolBackend World Obj)) (list_ : pool_list) (read : poolBackend World Obj -> pool_answer)
    (ns name : string) (env env' : sync_env) (old new : DynamicPrefix) (dpName : string) (s : sync_state) :
  read_listed list_ read (ns, name) ->
  (forall o, se_update env o = se_update env' o) -> (forall n, n <> dpName -> se_get env n = se_get env' n) ->
  se_get env dpName = DPFound old -> se_get env' dpName = DPFound new ->
  (forall o b req, pool_watched (o_annotations o) = false ->
     syncPool Find error_text config_text env req o b s = Some (s, (0, None))) /\
  (same_done (PoolSync.Reconcile Find error_text config_text env backends read ns name s)
             (PoolSync.Reconcile Find error_text config_text env' backends read ns name s) \/
   (dynamicPrefixDependentChangePredicate (UpdateEvent (Some old) (Some new)) = true /\
    (ns, name) ∈ findReferencingPools backends list_ dpName)) /\
  (forall req, req ∈ findReferencingPools backends list_ dpName -> exists b items o, b ∈ backends /\ list_ b = inl items /\
     (req, o) ∈ items /\ default EmptyString (o_annotations o !! AnnotationName) = dpName).
Proof.
  intros Hread Hu Hother Hold Hnew. split; [|split].
  - intros o b req Hw. apply orb_false_iff in Hw as [Hn%bool_decide_eq_false Hr].
    unfold syncPool. cbv zeta. destruct (o_annotations o !! AnnotationName); [|by rewrite Hr]. destruct Hn. eauto.
  - destruct (decide (dynamicPrefixDependentChangePredicate (UpdateEvent (Some old) (Some new)) = true /\
      (ns, name) ∈ findReferencingPools backends list_ dpName)) as [Hd|Hd]; [by right|]. left.
    unfold PoolSync.Reconcile. destruct (getPools backends read ns) as [matches|[err|]] eqn:Eg; [|done|].
    2:{ split; [by rewrite !release_same | done]. }
    assert (same_done (sync_all Find error_text config_text env (namespaced_name ns name) matches 0 [] s)
                      (sync_all Find error_text config_text env' (namespaced_name ns name) matches 0 [] s)) as H.
    { apply sync_all_view; [done | done|]. intros o b n Hin Hn. destruct (decide (n = dpName)) as [->|Hne]; [|left; by apply Hother].
      destruct (getPools_read _ _ _ _ _ _ Eg Hin) as [Hr Hb]. rewrite Hold, Hnew. right. exists old, new. split; [done|].
      split; [done|]. apply essence_same, not_true_is_false. intros Hp. apply Hd. split; [exact Hp|].
      by apply (told_pools backends list_ read (ns, name) dpName o b). }
    destruct (sync_all _ _ _ env _ _ _ _ _) as [[s1 [r e]]|], (sync_all _ _ _ env' _ _ _ _ _) as [[s2 [r' e']]|]; try done.
    destruct H as [H [= -> ->]]. done.
  - intros req (l & Hl & (b & -> & Hb)%list_elem_of_fmap)%elem_of_concat. exists b.
    destruct (list_ b) as [items|]; [|by apply elem_of_nil in Hl].
    apply list_elem_of_fmap in Hl as ([req' o] & -> & [Ho Hin]%list_elem_of_filter). by exists items, o.
Qed.
End PoolProperties.

(** C22 No Service misses a change of its resource: one the filter drops is left
    alone by a reconcile whatever its resource is, and when a DynamicPrefix is
    updated, a Service of the cluster whose reconcile would do anything differently
    is enqueued and the update passes the filter; those enqueued are exactly the
    LoadBalancer Services that name the resource. *)
Theorem service_changes_reach (configured : list string) (services : list (request * Service)) (req : request) (svc : Service)
    (env env' : svc_env) (old new : DynamicPrefix) (dpName : string) :
  (req, svc) ∈ services -> dpName <> EmptyString ->
  sve_now env = sve_now env' -> sve_update env = sve_update env' -> sve_nudge_needed env = sve_nudge_needed env' ->
  (forall n, n <> dpName -> sve_get env n = sve_get env' n) ->
  sve_get env dpName = DPFound old -> sve_get env' dpName = DPFound new ->
  (service_watched svc = false -> ServiceSync.Reconcile configured env (inl svc) = Some (svc_done 0)) /\
  (ServiceSync.Reconcile configured env (inl svc) = ServiceSync.Reconcile configured env' (inl svc) \/
   (dynamicPrefixDependentChangePredicate (UpdateEvent (Some old) (Some new)) = true /\
    req ∈ findReferencingServices (Some services) dpName)) /\
  (forall r, r ∈ findReferencingServices (Some services) dpName <->
     exists sv, (r, sv) ∈ services /\ sv_LoadBalancer sv = true /\ sv_annotations sv !! AnnotationName = Some dpName).
Proof.
  intros Hin Hne Hnow Hup Hnudge Hother Hold Hnew.
  assert (forall r, r ∈ findReferencingServices (Some services) dpName <->
     exists sv, (r, sv) ∈ services /\ sv_LoadBalancer sv = true /\ sv_annotations sv !! AnnotationName = Some dpName) as Htold.
  { intros r. unfold findReferencingServices. rewrite list_elem_of_fmap. split.
    - intros ([r' sv] & -> & [[Hlb Hn] [_ H]%list_elem_of_filter]%list_elem_of_filter). exists sv. split; [done|]. split; [done|].
      unfold ann in Hn. destruct (sv_annotations sv !! AnnotationName); cbn in Hn; congruence.
    - intros (sv & Hs & Hlb & Hn). exists (r, sv). split; [done|].
      assert (ann (sv_annotations sv) AnnotationName = dpName) as Ha by (unfold ann; by rewrite Hn).
      apply list_elem_of_filter. split; [done|]. apply list_elem_of_filter. split; [|done].
      unfold indexServiceByDynamicPrefix. rewrite Hlb, Ha. cbn [negb]. rewrite decide_False by done. apply list_elem_of_here. }
  split; [|split; [|exact Htold]].
  - intros Hw. unfold ServiceSync.Reconcile, service_watched in *. cbv zeta. destruct (sv_LoadBalancer svc); cbn [negb andb] in *; [|done].
    apply orb_false_iff in Hw as [Hn%bool_decide_eq_false Hr].
    destruct (sv_annotations svc !! AnnotationName); [destruct Hn; eauto|]. by rewrite Hr.
  - assert (forall n, n <> dpName -> sve_get env n = sve_get env' n) as _ by done.
    destruct (decide (dynamicPrefixDependentChangePredicate (UpdateEvent (Some old) (Some new)) = true /\
      req ∈ findReferencingServices (Some services) dpName)) as [Hd|Hd]; [by right|]. left.
    destruct env as [now get upd nudge], env' as [now' get' upd' nudge']. cbn in *. subst now' upd' nudge'.
    assert (forall a c, releaseService (mkSvcEnv now get upd nudge) a = releaseService (mkSvcEnv now get' upd nudge) a /\
      sync_service configured (mkSvcEnv now get upd nudge) svc c = sync_service configured (mkSvcEnv now get' upd nudge) svc c)
      as Hget by (intros; by split).
    unfold ServiceSync.Reconcile. cbv zeta. cbn [sve_get].
    destruct (sv_LoadBalancer svc) eqn:Hlb; cbn [negb]; [|done].
    destruct (sv_annotations svc !! AnnotationName) as [n|] eqn:En; [|done].
    destruct (decide (n = dpName)) as [->|Hn]; [|by rewrite Hother].
    rewrite Hold, Hnew. assert (essence new = essence old) as Hess.
    { apply essence_same, not_true_is_false. intros Hp. apply Hd. split; [exact Hp|]. apply Htold. by exists svc. }
    assert (in_ha_mode new = in_ha_mode old) as -> by exact (f_equal in_ha_mode Hess).
    assert (st_CurrentPrefix (dp_Status new) = st_CurrentPrefix (dp_Status old)) as ->
      by exact (f_equal (fun d => st_CurrentPrefix (dp_Status d)) Hess).
    destruct (Hget empty new) as [_ Hs].
    destruct (in_ha_mode old); cbn [negb]; [|done]. case_decide; [done|].
    rewrite (proj2 (Hget empty old)). by rewrite <- (essence_service _ _ _ old), <- Hess, essence_service.
Qed.

(** ** A rotation seen by one pool and one Service *)

Definition rotated_env (current : string) : @sync_env object :=
  mkSyncEnv 7 (fun n => if decide (n = "home") then DPFound (sample_dp (mkStatusOf current None None [] [] [] [])) else DPError NotFound)
    (fun _ _ => None) (fun _ => None).

Definition sample_list (b : poolBackend world object) : list (request * object) + error :=
  inl [(("", "lan"), sample_object {[ AnnotationName := "home" ]}); (("", "other"), sample_object empty)].

Lemma pool_changes_reach_witness :
  let old := sample_dp (mkStatusOf "2001:db8:1::/48" None None [] [] [] []) in
  let new := sample_dp (mkStatusOf "2001:db8:2::/48" None None [] [] [] []) in
  dynamicPrefixDependentChangePredicate (UpdateEvent (Some old) (Some new)) = true /\
  ("", "lan") ∈ findReferencingPools [sample_group] sample_list "home".
Proof.
  intros old new.
  destruct (pool_changes_reach list_FindStatusCondition sample_text sample_text [sample_group] sample_list sample_read "" "lan"
    (rotated_env "2001:db8:1::/48") (rotated_env "2001:db8:2::/48") old new "home" (sample_state empty)) as (_ & [Hs|Hs] & _).
  - intros b o [= <-]. eexists. split; [reflexivity|]. apply list_elem_of_here.
  - reflexivity.
  - intros n Hn. unfold rotated_env. cbn [se_get]. by rewrite !decide_False.
  - reflexivity.
  - reflexivity.
  - exfalso. vm_compute in Hs. destruct Hs as [Hs _]. discriminate Hs.
  - exact Hs.
Defined.

Definition rotated_svc_env (current : string) : svc_env :=
  mkSvcEnv "now" (fun n => if decide (n = "home") then
      DPFound (mkDynamicPrefix "home" false true 1 None (mkSpec sample_acquisition [] [] (Some (mkTransition TransitionModeHA 3)))
                 (mkStatusOf current None None [] [] [] []))
    else DPError NotFound) (fun _ => None) None.

Lemma service_changes_reach_witness :
  let dp current := match sve_get (rotated_svc_env current) "home" with DPFound d => d | DPError _ => sample_dp no_status end in
  let svc := mkService true {[ AnnotationName := "home"; AnnotationSuffix := "::10" ]} [] in
  dynamicPrefixDependentChangePredicate
    (UpdateEvent (Some (dp "2001:db8:1::/48")) (Some (dp "2001:db8:2::/48"))) = true /\
  ("web", "ingress") ∈ findReferencingServices (Some [(("web", "ingress"), svc)]) "home".
Proof.
  intros dp svc.
  destruct (service_changes_reach [] [(("web", "ingress"), svc)] ("web", "ingress") svc
    (rotated_svc_env "2001:db8:1::/48") (rotated_svc_env "2001:db8:2::/48") (dp "2001:db8:1::/48") (dp "2001:db8:2::/48") "home")
    as (_ & [Hs|Hs] & _).
  - apply list_elem_of_here.
  - discriminate.
  - reflexivity.
  - reflexivity.
  - reflexivity.
  - intros n Hn. unfold rotated_svc_env. cbn [sve_get]. by rewrite !decide_False.
  - reflexivity.
  - reflexivity.
  - exfalso. vm_compute in Hs. discriminate Hs.
  - exact Hs.
Defined.
