(* ===== verification/Startup.v ===== *)
(** * Starting the operator

    [cmd/main.go]: the values of the flags that reach the controllers, the scope of
    the informer caches, and which controllers and starters are registered with the
    manager.  The manager, discovery, [url.Parse], [labels.Parse] and
    [validation.IsQualifiedName] are arguments; the flags of the metrics and webhook
    servers, the health checks and the blocking start of the manager are left out. *)

From S2P Require Import Prelude GoStrings Receivers Ownership PoolBackends PoolSync ServiceSync CrowdSecLAPI CrowdSec Cilium.

(** ** Flags *)

Inductive flag_error : Type :=
| ErrKey (key : string) (errs : list string)
| ErrNoKeys
| ErrNamespacedName
| ErrNoDynamicPrefixes
| ErrMaxMarkers
| ErrLAPIConfig (e : lapi_config_error)
| ErrSelector (e : error).

(** A namespace and a name. *)
Definition NamespacedName : Type := string * string.

Section Flags.
Context (IsQualifiedName : string -> list string).

Fixpoint collect_keys (parts keys : list string) : list string + flag_error :=
  match parts with
  | [] => inl keys
  | part :: rest =>
      let key := TrimSpace part in
      if decide (key = EmptyString) then collect_keys rest keys
      else match IsQualifiedName key with
           | [] => collect_keys rest (if decide (key ∈ keys) then keys else keys ++ [key])
           | errs => inr (ErrKey key errs)
           end
  end.

Definition parseAnnotationKeyList (raw : string) : list string + flag_error :=
  match collect_keys (split_on "," raw) [] with
  | inr e => inr e
  | inl [] => inr ErrNoKeys
  | inl keys => inl keys
  end.
End Flags.

Definition parseKubevipConfigMapRef (raw : string) : option NamespacedName + flag_error :=
  if decide (raw = EmptyString) then inl None
  else match cut_first "/" raw with
       | None => inr ErrNamespacedName
       | Some (namespace, name) =>
           if (bool_decide (namespace = EmptyString) || bool_decide (name = EmptyString))%bool then inr ErrNamespacedName
           else inl (Some (namespace, name))
       end.

(** The names of [--crowdsec-dynamic-prefixes]. *)
Definition crowdsec_names (dynamicPrefixes : string) : list string :=
  foldl (fun names part => let n := TrimSpace part in
                           if decide (n <> EmptyString /\ n ∉ names) then names ++ [n] else names)
    [] (split_on "," dynamicPrefixes).

(** ** Caches *)

Section Cache.
Context {Selector : Type} (labels_Parse : string -> Selector + error).

(** The kinds whose informer is restricted, and to what; the one ConfigMap and the
    slices of the one Service are given by their names. *)
Record cache_Options : Type := mkCacheOptions {
  co_Service : option Selector;
  co_ConfigMap : option NamespacedName;
  co_EndpointSlice : option NamespacedName
}.

Definition newCacheOptions (serviceSelector : string) (kubevipRef crowdsecServiceRef : option NamespacedName)
    : cache_Options + flag_error :=
  if decide (serviceSelector = EmptyString) then inl (mkCacheOptions None kubevipRef crowdsecServiceRef)
  else match labels_Parse serviceSelector with
       | inr e => inr (ErrSelector e)
       | inl selector => inl (mkCacheOptions (Some selector) kubevipRef crowdsecServiceRef)
       end.
End Cache.

(** ** What runs *)

Definition KubevipConfigMapGVK : schema_GVK := mkGVK EmptyString "v1" "ConfigMap".

(** What [main] adds to the manager. *)
Inductive runnable : Type :=
| LeaderElectionStatusLogger (enabled : bool)
| DynamicPrefixController
| ServiceSyncController (ExternalDNSTargetAnnotationKeys : list string)
| PoolSyncController (BackendGVKs : list schema_GVK)
| PoolBackendControllerStarter
| BGPSyncController (versions : CiliumVersions)
| CiliumControllerStarter
| CrowdSecController (r : CrowdSecMarkerReconciler).

Record flags : Type := mkFlags {
  fl_leaderElection : bool;
  fl_serviceCacheLabelSelector : string;
  fl_externalDNSTargetAnnotationKeys : string;
  fl_kubevipConfigMap : string;
  fl_crowdsecLAPI : CrowdSecLAPIConfig;
  fl_crowdsecDynamicPrefixes : string;
  fl_crowdsecLAPIService : string;
  fl_crowdsecMaxMarkers : Z
}.

(** The outside: creating the manager and the client, what discovery finds when the
    backends and when the Cilium versions are probed, adding to the manager. *)
Record main_env : Type := mkMainEnv {
  me_manager : option error;
  me_client : option error;
  me_backends : DiscoveryInterface;
  me_versions : DiscoveryInterface;
  me_add : runnable -> option error
}.

Inductive exit_reason : Type :=
| ExitFlag (e : flag_error)
| ExitManager (e : error)
| ExitClient (e : error)
| ExitNoBackends
| ExitAdd (r : runnable) (e : error).

Section Main.
Context {Selector : Type} (labels_Parse : string -> Selector + error).
Context (IsQualifiedName : string -> list string) (url_Parse : string -> option (string * string)).
Context (siblingPoolName : string -> string -> string) (range_map : gmap string string -> list (string * string)).
Context (calico : calico_api) (updateErr : option error).

Inductive started : Type := Exit (why : exit_reason) | Running (caches : @cache_Options Selector) (parts : list runnable).

(** Adding to the manager; the exit of [main] when it fails. *)
Definition add (env : main_env) (r : runnable) (parts : list runnable) (next : list runnable -> started) : started :=
  match me_add env r with
  | Some e => Exit (ExitAdd r e)
  | None => next (parts ++ [r])
  end.

(** [setupPoolSyncController]; the controller refuses to start without a backend. *)
Definition setupPoolSyncController (env : main_env) (gvks : list schema_GVK) (parts : list runnable)
    (next : list runnable -> started) : started :=
  match backendsForGVKs siblingPoolName range_map calico updateErr gvks with
  | [] => Exit ExitNoBackends
  | _ => add env (PoolSyncController gvks) parts next
  end.

(** The client of LAPI exists exactly when its configuration is valid. *)
Definition setupCrowdSecMarkers (env : main_env) (cfg : CrowdSecLAPIConfig) (dynamicPrefixes : string)
    (lapiService : option NamespacedName) (maxMarkers : Z) (parts : list runnable) (next : list runnable -> started)
    : started :=
  if decide (cfg_URL cfg = EmptyString) then next parts
  else
    let names := crowdsec_names dynamicPrefixes in
    if (length names =? 0)%nat then Exit (ExitFlag ErrNoDynamicPrefixes)
    else if maxMarkers <? 1 then Exit (ExitFlag ErrMaxMarkers)
    else match Validate (url_Parse (cfg_URL cfg)) cfg with
         | Some e => Exit (ExitFlag (ErrLAPIConfig e))
         | None =>
             add env (CrowdSecController (mkCrowdSec names maxMarkers ((fun '(ns, n) => ns +:+ "/" +:+ n) <$> lapiService)))
               parts next
         end.

Definition main (fl : flags) (env : main_env) : started :=
  match parseKubevipConfigMapRef (fl_kubevipConfigMap fl) with
  | inr e => Exit (ExitFlag e)
  | inl kubevipRef =>
  match parseKubevipConfigMapRef (fl_crowdsecLAPIService fl) with
  | inr e => Exit (ExitFlag e)
  | inl crowdsecServiceRef =>
  match newCacheOptions labels_Parse (fl_serviceCacheLabelSelector fl) kubevipRef crowdsecServiceRef with
  | inr e => Exit (ExitFlag e)
  | inl cacheOptions =>
  match me_manager env with
  | Some e => Exit (ExitManager e)
  | None =>
  add env (LeaderElectionStatusLogger (fl_leaderElection fl)) [] (fun parts =>
  match me_client env with
  | Some e => Exit (ExitClient e)
  | None =>
  let discovered := match DiscoverPoolBackendGVKs (me_backends env) with inl gvks => gvks | inr _ => [] end in
  let ciliumVersions := DiscoverCiliumVersions (me_versions env) in
  add env DynamicPrefixController parts (fun parts =>
  match parseAnnotationKeyList IsQualifiedName (fl_externalDNSTargetAnnotationKeys fl) with
  | inr e => Exit (ExitFlag e)
  | inl targetAnnotationKeys =>
  add env (ServiceSyncController targetAnnotationKeys) parts (fun parts =>
  let poolBackendGVKs := match kubevipRef with Some _ => discovered ++ [KubevipConfigMapGVK] | None => discovered end in
  (if (0 <? length poolBackendGVKs)%nat then setupPoolSyncController env poolBackendGVKs parts
   else add env PoolBackendControllerStarter parts) (fun parts =>
  match ciliumVersions with
  | inl versions => add env (BGPSyncController versions) parts
  | inr _ => add env CiliumControllerStarter parts
  end (fun parts =>
  setupCrowdSecMarkers env (fl_crowdsecLAPI fl) (fl_crowdsecDynamicPrefixes fl) crowdsecServiceRef
    (fl_crowdsecMaxMarkers fl) parts (fun parts =>
  Running cacheOptions parts))))
  end)
  end)
  end end end end.
End Main.

(** * Flags *)

(** The keys a comma-separated list names: trimmed, without blanks. *)
Definition listed_names (raw : string) : list string :=
  filter (fun k => k <> EmptyString) (TrimSpace <$> split_on "," raw).

Lemma collect_keys_spec IsQualifiedName parts keys :
  match collect_keys IsQualifiedName parts keys with
  | inl keys' =>
      (forall k, k ∈ keys' <-> k ∈ keys \/ k ∈ filter (fun k => k <> EmptyString) (TrimSpace <$> parts)) /\
      (NoDup keys -> NoDup keys') /\
      Forall (fun k => IsQualifiedName k = []) (filter (fun k => k <> EmptyString) (TrimSpace <$> parts))
  | inr e => exists k, e = ErrKey k (IsQualifiedName k) /\ IsQualifiedName k <> [] /\
               k ∈ filter (fun k => k <> EmptyString) (TrimSpace <$> parts)
  end.
Proof.
  revert keys. induction parts as [|part parts IH]; intros keys; cbn [collect_keys fmap list_fmap].
  { split; [|split; [done | constructor]]. intros k. rewrite elem_of_nil. tauto. }
  rewrite filter_cons. destruct (decide (TrimSpace part = EmptyString)) as [E|E].
  { rewrite decide_False by (intros H; by apply H). apply IH. }
  rewrite (decide_True (P := TrimSpace part <> EmptyString)) by done. destruct (IsQualifiedName (TrimSpace part)) as [|e errs] eqn:Eq.
  2:{ exists (TrimSpace part). rewrite Eq, elem_of_cons. by repeat split; [|left]. }
  specialize (IH (if decide (TrimSpace part ∈ keys) then keys else keys ++ [TrimSpace part])).
  destruct (collect_keys _ parts _) as [keys'|e].
  - destruct IH as (Hin & Hnd & Hq). split; [|split; [|by constructor]].
    + intros k. rewrite Hin, elem_of_cons. case_decide; [|rewrite elem_of_app, list_elem_of_singleton; tauto].
      split; [tauto|]. by intros [?|[->|?]]; auto.
    + intros Hk. apply Hnd. case_decide as Hd; [done|]. apply NoDup_app. split; [done|].
      split; [|apply NoDup_singleton]. intros x Hx ->%list_elem_of_singleton. done.
  - destruct IH as (k & -> & Hq & Hk). exists k. rewrite elem_of_cons. by repeat split; [|right].
Qed.

(** What the parser accepts: some key, all of them usable; and why it refuses. *)
Lemma parseAnnotationKeyList_spec IsQualifiedName raw :
  match parseAnnotationKeyList IsQualifiedName raw with
  | inl keys => keys <> [] /\ NoDup keys /\ (forall k, k ∈ keys <-> k ∈ listed_names raw) /\
                Forall (fun k => IsQualifiedName k = []) keys
  | inr e => e = ErrNoKeys /\ listed_names raw = [] \/
             exists k, e = ErrKey k (IsQualifiedName k) /\ IsQualifiedName k <> [] /\ k ∈ listed_names raw
  end.
Proof.
  unfold parseAnnotationKeyList. pose proof (collect_keys_spec IsQualifiedName (split_on "," raw) []) as H.
  fold (listed_names raw) in H. destruct (collect_keys _ _ _) as [[|key keys]|e].
  - left. split; [done|]. apply elem_of_nil_inv. intros k Hk. destruct H as [H _]. apply (elem_of_nil k). apply H. by right.
  - destruct H as (Hin & Hnd & Hq). split; [done|]. split; [apply Hnd; constructor|].
    assert (forall k, k ∈ key :: keys <-> k ∈ listed_names raw) as Hk.
    { intros k. rewrite Hin, elem_of_nil. tauto. }
    split; [done|]. apply Forall_forall. intros k Hkin. rewrite Forall_forall in Hq. by apply Hq, Hk.
  - by right.
Qed.

(** What namespace/name means: the namespace ends at the first slash. *)
Definition names_object (raw namespace name : string) : Prop :=
  raw = namespace +:+ String "/" name /\ namespace <> EmptyString /\ name <> EmptyString /\
  str_all (not_byte "/") namespace = true.

Definition ref_named (raw : string) (ref : option NamespacedName) : Prop :=
  match ref with
  | None => raw = EmptyString
  | Some (namespace, name) => names_object raw namespace name
  end.

Lemma parseKubevipConfigMapRef_spec raw :
  match parseKubevipConfigMapRef raw with
  | inl ref => ref_named raw ref
  | inr e => e = ErrNamespacedName /\ raw <> EmptyString /\ forall namespace name, ~ names_object raw namespace name
  end.
Proof.
  unfold parseKubevipConfigMapRef. destruct (decide (raw = EmptyString)) as [->|Hraw]; [done|].
  destruct (cut_first "/" raw) as [[ns name]|] eqn:Ec.
  - pose proof Ec as [-> Hns]%cut_first_spec.
    assert (forall ns' name', names_object (ns +:+ String "/" name) ns' name' -> ns' = ns /\ name' = name) as Huniq.
    { intros ns' name' (E & _ & _ & Hns'). rewrite E, cut_first_app in Ec by done. by injection Ec. }
    destruct (bool_decide_reflect (ns = EmptyString)) as [E|?]; cbn [orb].
    { split; [done|]. split; [done|]. intros ns' name' H. destruct (Huniq _ _ H) as [-> ->]. destruct H as (_ & H & _). done. }
    destruct (bool_decide_reflect (name = EmptyString)) as [E|?]; [|done].
    split; [done|]. split; [done|]. intros ns' name' H. destruct (Huniq _ _ H) as [-> ->]. by destruct H as (_ & _ & H & _).
  - split; [done|]. split; [done|]. intros ns name (-> & _ & _ & Hns). by rewrite cut_first_app in Ec.
Qed.

Lemma crowdsec_names_spec raw :
  NoDup (crowdsec_names raw) /\ forall n, n ∈ crowdsec_names raw <-> n ∈ listed_names raw.
Proof.
  unfold crowdsec_names, listed_names.
  assert (forall parts names, NoDup names ->
    let names' := foldl (fun names part => let n := TrimSpace part in
      if decide (n <> EmptyString /\ n ∉ names) then names ++ [n] else names) names parts in
    NoDup names' /\ forall n, n ∈ names' <-> n ∈ names \/ n ∈ filter (fun k => k <> EmptyString) (TrimSpace <$> parts)) as H.
  2:{ destruct (H (split_on "," raw) [] NoDup_nil_2) as [Hnd Hin]. split; [done|]. intros n. rewrite Hin, elem_of_nil. tauto. }
  induction parts as [|part parts IH]; intros names Hnd; cbn [foldl fmap list_fmap].
  { split; [done|]. intros n. rewrite elem_of_nil. tauto. }
  rewrite filter_cons. cbv zeta in IH |- *.
  destruct (decide (TrimSpace part <> EmptyString /\ TrimSpace part ∉ names)) as [[He Hn]|Hd].
  - destruct (IH (names ++ [TrimSpace part])) as [Hnd' Hin'].
    { apply NoDup_app. split; [done|]. split; [|apply NoDup_singleton]. by intros x Hx ->%list_elem_of_singleton. }
    split; [done|]. intros n. rewrite Hin', decide_True, elem_of_app, list_elem_of_singleton, elem_of_cons by done. tauto.
  - destruct (IH names Hnd) as [Hnd' Hin']. split; [done|]. intros n. rewrite Hin'.
    destruct (decide (TrimSpace part = EmptyString)) as [E|E].
    + rewrite decide_False by (intros H; by apply H). done.
    + rewrite decide_True, elem_of_cons by done. destruct (decide (TrimSpace part ∈ names)) as [Hp|Hp]; [|tauto].
      split; [tauto|]. intros [?|[->|?]]; tauto.
Qed.

(** * What [main] starts *)

(** The annotations the operator itself keeps on a Service. *)
Definition service_keys : list string :=
  [AnnotationCiliumIPs; AnnotationKubevipLBIPs; AnnotationManagedIPs; AnnotationManagedTargets;
   AnnotationSkipExternalDNSUpdate; AnnotationLastSync; AnnotationL2Nudge].

Section Started.
Context {Selector : Type} (labels_Parse : string -> Selector + error).
Context (IsQualifiedName : string -> list string) (url_Parse : string -> option (string * string)).
Context (siblingPoolName : string -> string -> string) (range_map : gmap string string -> list (string * string)).
Context (calico : calico_api) (updateErr : option error).

(** The kinds the pool sync is given: those served, and the ConfigMap when one is
    named. *)
Definition pool_GVKs (dc : DiscoveryInterface) (kubevipRef : option NamespacedName) : list schema_GVK :=
  omap (served_gvk dc) backend_definitions ++ match kubevipRef with Some _ => [KubevipConfigMapGVK] | None => [] end.

Lemma pool_GVKs_backends dc ref :
  NoDup (pool_GVKs dc ref) /\
  map Some (backendsForGVKs siblingPoolName range_map calico updateErr (pool_GVKs dc ref)) =
    map (backendForGVK siblingPoolName range_map calico updateErr) (pool_GVKs dc ref).
Proof.
  assert (NoDup (pool_GVKs dc ref)) as Hnd.
  { unfold pool_GVKs. apply NoDup_app. split; [apply served_NoDup|]. split.
    - intros gvk (def & v & Hd & _ & ->)%served_kinds. destruct ref; [|apply not_elem_of_nil].
      intros [= Hg _ _]%list_elem_of_singleton. unfold backend_definitions in Hd.
      repeat (apply elem_of_cons in Hd as [-> | Hd]; [discriminate Hg|]). by apply elem_of_nil in Hd.
    - destruct ref; [apply NoDup_singleton | constructor]. }
  split; [done|]. apply backends_from_all; [done|]. intros gvk Hg. split; [apply not_elem_of_nil|].
  unfold pool_GVKs in Hg. apply elem_of_app in Hg as [Hg|Hg]; [by apply (served_has_backend _ _ _ _ dc)|].
  destruct ref; [|by apply elem_of_nil in Hg]. apply list_elem_of_singleton in Hg as ->. cbn. eauto.
Qed.

Lemma discovered_GVKs dc :
  match DiscoverPoolBackendGVKs dc with inl gvks => gvks | inr _ => [] end = omap (served_gvk dc) backend_definitions.
Proof.
  unfold DiscoverPoolBackendGVKs.
  rewrite (resolve_backends_served dc backend_definitions empty (map_Forall_empty _)). cbv zeta.
  by destruct (omap (served_gvk dc) backend_definitions).
Qed.

Lemma keys_ok_listed keys : keys <> [] ->
  keys_ok keys <-> forall k, k ∈ keys -> k ∉ service_keys.
Proof.
  intros Hne. unfold keys_ok. replace (targetAnnotationKeys keys) with keys by by destruct keys.
  fold service_keys. split; intros H k Hk Hin; by apply (H k).
Qed.

(** One step of [main]'s sequence of registrations. *)
Lemma add_cases (P : @started Selector -> Prop) env r parts next :
  (forall e, me_add env r = Some e -> P (Exit (ExitAdd r e))) -> (me_add env r = None -> P (next (parts ++ [r]))) ->
  P (add env r parts next).
Proof. unfold add. destruct (me_add env r); auto. Qed.

(** What the parts after the Service controller are, given the flags. *)
Definition pool_part (dc : DiscoveryInterface) (ref : option NamespacedName) (part : runnable) : Prop :=
  let gvks := pool_GVKs dc ref in
  (part = PoolSyncController gvks /\ gvks <> [] /\ NoDup gvks /\
   map Some (backendsForGVKs siblingPoolName range_map calico updateErr gvks) =
     map (backendForGVK siblingPoolName range_map calico updateErr) gvks) \/
  (part = PoolBackendControllerStarter /\ Forall (fun def => served_gvk dc def = None) backend_definitions /\ ref = None).

Definition crowd_part (fl : flags) (parts : list runnable) : Prop :=
  (parts = [] /\ cfg_URL (fl_crowdsecLAPI fl) = EmptyString) \/
  exists r, parts = [CrowdSecController r] /\ cfg_URL (fl_crowdsecLAPI fl) <> EmptyString /\
    cs_MaxMarkers r = fl_crowdsecMaxMarkers fl /\ 1 <= cs_MaxMarkers r /\ cs_DynamicPrefixes r <> [] /\
    NoDup (cs_DynamicPrefixes r) /\
    (forall n, n ∈ cs_DynamicPrefixes r <-> n ∈ listed_names (fl_crowdsecDynamicPrefixes fl)) /\
    Validate (url_Parse (cfg_URL (fl_crowdsecLAPI fl))) (fl_crowdsecLAPI fl) = None /\
    cs_LAPIService r = (if decide (fl_crowdsecLAPIService fl = EmptyString) then None else Some (fl_crowdsecLAPIService fl)).

(** The cause of each exit. *)
Definition exit_caused (fl : flags) (env : main_env) (why : exit_reason) : Prop :=
  let unnamed raw := raw <> EmptyString /\ forall namespace name, ~ names_object raw namespace name in
  let crowd := cfg_URL (fl_crowdsecLAPI fl) <> EmptyString in
  match why with
  | ExitFlag ErrNamespacedName => unnamed (fl_kubevipConfigMap fl) \/ unnamed (fl_crowdsecLAPIService fl)
  | ExitFlag (ErrSelector e) =>
      fl_serviceCacheLabelSelector fl <> EmptyString /\ labels_Parse (fl_serviceCacheLabelSelector fl) = inr e
  | ExitFlag ErrNoKeys => listed_names (fl_externalDNSTargetAnnotationKeys fl) = []
  | ExitFlag (ErrKey key errs) =>
      key ∈ listed_names (fl_externalDNSTargetAnnotationKeys fl) /\ IsQualifiedName key = errs /\ errs <> []
  | ExitFlag ErrNoDynamicPrefixes => crowd /\ listed_names (fl_crowdsecDynamicPrefixes fl) = []
  | ExitFlag ErrMaxMarkers => crowd /\ fl_crowdsecMaxMarkers fl < 1
  | ExitFlag (ErrLAPIConfig e) => crowd /\ Validate (url_Parse (cfg_URL (fl_crowdsecLAPI fl))) (fl_crowdsecLAPI fl) = Some e
  | ExitManager e => me_manager env = Some e
  | ExitClient e => me_client env = Some e
  | ExitAdd r e => me_add env r = Some e
  | ExitNoBackends => False
  end.

Lemma setupCrowdSecMarkers_spec fl env service parts next (P : @started Selector -> Prop) :
  ref_named (fl_crowdsecLAPIService fl) service ->
  (forall why, exit_caused fl env why -> P (Exit why)) ->
  (forall crowd, crowd_part fl crowd -> Forall (fun r => me_add env r = None) crowd -> P (next (parts ++ crowd))) ->
  P (setupCrowdSecMarkers url_Parse env (fl_crowdsecLAPI fl) (fl_crowdsecDynamicPrefixes fl) service
       (fl_crowdsecMaxMarkers fl) parts next).
Proof.
  intros Href Hexit Hnext. unfold setupCrowdSecMarkers. case_decide as Hurl.
  { rewrite <- (app_nil_r parts). apply Hnext; [by left|constructor]. }
  cbv zeta. destruct (crowdsec_names_spec (fl_crowdsecDynamicPrefixes fl)) as [Hnd Hin].
  destruct (crowdsec_names (fl_crowdsecDynamicPrefixes fl)) as [|n names] eqn:En.
  { apply Hexit. split; [done|]. apply elem_of_nil_inv. intros k Hk%Hin. by apply elem_of_nil in Hk. }
  cbn [length Nat.eqb]. destruct (Z.ltb_spec (fl_crowdsecMaxMarkers fl) 1) as [Hm|Hm]; [by apply Hexit|].
  destruct (Validate _ _) as [e|] eqn:Ev; [by apply Hexit|].
  apply add_cases; [intros e He; by apply Hexit|]. intros Ha. apply Hnext; [|by constructor]. right. eexists. split; [done|].
  cbn [cs_MaxMarkers cs_DynamicPrefixes cs_LAPIService]. do 3 (split; [done|]). split; [done|]. split; [done|].
  split; [apply Hin|]. split; [done|]. destruct service as [[ns name]|]; cbn in *.
  - destruct Href as (E & Hns & _). rewrite decide_False; [by rewrite E|]. rewrite E. by destruct ns.
  - by rewrite decide_True.
Qed.
End Started.

Section Main_started.
Context {Selector : Type} (labels_Parse : string -> Selector + error).
Context (IsQualifiedName : string -> list string) (url_Parse : string -> option (string * string)).
Context (siblingPoolName : string -> string -> string) (range_map : gmap string string -> list (string * string)).
Context (calico : calico_api) (updateErr : option error).

(** What the theorem below says of one outcome. *)
Definition well_started (fl : flags) (env : main_env) (out : @started Selector) : Prop :=
  match out with
  | Exit why => exit_caused labels_Parse IsQualifiedName url_Parse fl env why
  | Running caches parts =>
      me_manager env = None /\ me_client env = None /\ Forall (fun r => me_add env r = None) parts /\
      (exists keys pool crowd,
        parts = [LeaderElectionStatusLogger (fl_leaderElection fl); DynamicPrefixController; ServiceSyncController keys; pool;
                 match DiscoverCiliumVersions (me_versions env) with
                 | inl versions => BGPSyncController versions
                 | inr _ => CiliumControllerStarter
                 end] ++ crowd /\
        (targetAnnotationKeys keys = keys /\ NoDup keys /\
         (forall k, k ∈ keys <-> k ∈ listed_names (fl_externalDNSTargetAnnotationKeys fl)) /\
         Forall (fun k => IsQualifiedName k = []) keys) /\
        ((forall k, k ∈ listed_names (fl_externalDNSTargetAnnotationKeys fl) -> k ∉ service_keys) <-> keys_ok keys) /\
        pool_part siblingPoolName range_map calico updateErr (me_backends env) (co_ConfigMap caches) pool /\
        crowd_part url_Parse fl crowd) /\
      match co_Service caches with
      | None => fl_serviceCacheLabelSelector fl = EmptyString
      | Some selector =>
          fl_serviceCacheLabelSelector fl <> EmptyString /\ labels_Parse (fl_serviceCacheLabelSelector fl) = inl selector
      end /\
      ref_named (fl_kubevipConfigMap fl) (co_ConfigMap caches) /\
      ref_named (fl_crowdsecLAPIService fl) (co_EndpointSlice caches)
  end.

Lemma newCacheOptions_spec selector kubevip crowdsec :
  match newCacheOptions labels_Parse selector kubevip crowdsec with
  | inl caches =>
      co_ConfigMap caches = kubevip /\ co_EndpointSlice caches = crowdsec /\
      match co_Service caches with
      | None => selector = EmptyString
      | Some s => selector <> EmptyString /\ labels_Parse selector = inl s
      end
  | inr e => exists e', e = ErrSelector e' /\ selector <> EmptyString /\ labels_Parse selector = inr e'
  end.
Proof.
  unfold newCacheOptions. case_decide; [done|]. destruct (labels_Parse selector) as [s|e]; [done|]. by exists e.
Qed.

(** The registrations after the Service controller. *)
Lemma pool_step (P : @started Selector -> Prop) env ref parts next :
  (forall r e, me_add env r = Some e -> P (Exit (ExitAdd r e))) ->
  (forall pool, pool_part siblingPoolName range_map calico updateErr (me_backends env) ref pool -> me_add env pool = None ->
     P (next (parts ++ [pool]))) ->
  P ((if (0 <? length (pool_GVKs (me_backends env) ref))%nat
      then setupPoolSyncController siblingPoolName range_map calico updateErr env (pool_GVKs (me_backends env) ref) parts
      else add env PoolBackendControllerStarter parts) next).
Proof.
  intros Hexit Hnext. destruct (pool_GVKs_backends siblingPoolName range_map calico updateErr (me_backends env) ref) as [Hnd Hb].
  unfold pool_part in Hnext. destruct (pool_GVKs (me_backends env) ref) as [|g l] eqn:Eg; cbn [length Nat.ltb Nat.leb].
  - apply add_cases; [apply Hexit|]. apply Hnext. right. split; [done|].
    unfold pool_GVKs in Eg. apply app_eq_nil in Eg as [Eg Er]. split; [|by destruct ref].
    apply Forall_forall. intros def Hd. apply eq_None_not_Some. intros [gvk Hg]. apply (elem_of_nil gvk).
    rewrite <- Eg. apply list_elem_of_omap. by exists def.
  - unfold setupPoolSyncController. destruct (backendsForGVKs _ _ _ _ (g :: l)) eqn:Eb; [done|]. rewrite <- Eb in *.
    apply add_cases; [apply Hexit|]. apply Hnext. by left.
Qed.

(** C31 The operator starts as asked or not at all.  Whatever the flags and whatever
    discovery finds, it exits, and then for the cause it names - a flag that is not
    usable, or a call that failed, never for lack of a backend - or it runs each
    controller once with what that controller relies on.  The Service informer is
    restricted to the selector of its flag, the ConfigMap informer to the namespace
    and name of its flag, the EndpointSlice informer to those of the LAPI Service's,
    and each is unrestricted without its flag.  The DNS keys are the listed ones, once
    each, all usable, and never replaced by a default, and they are clear of the
    operator's own annotations exactly when the flag is; the pool sync has a backend
    for every kind it is given, and kinds are waited for only when none is served and
    no ConfigMap is named; the CrowdSec reconciler runs exactly when a URL is given,
    with the listed names, the given limit, at least one, and a valid configuration. *)
Theorem startup_well_formed (fl : flags) (env : main_env) :
  well_started fl env
    (main labels_Parse IsQualifiedName url_Parse siblingPoolName range_map calico updateErr fl env).
Proof.
  unfold main. pose proof (parseKubevipConfigMapRef_spec (fl_kubevipConfigMap fl)) as Hk.
  destruct (parseKubevipConfigMapRef (fl_kubevipConfigMap fl)) as [kref|e]; [|destruct Hk as [-> Hk]; by left].
  pose proof (parseKubevipConfigMapRef_spec (fl_crowdsecLAPIService fl)) as Hc.
  destruct (parseKubevipConfigMapRef (fl_crowdsecLAPIService fl)) as [cref|e]; [|destruct Hc as [-> Hc]; by right].
  pose proof (newCacheOptions_spec (fl_serviceCacheLabelSelector fl) kref cref) as Ho.
  destruct (newCacheOptions _ _ _ _) as [caches|e]; [|by destruct Ho as (e' & -> & Ho)]. destruct Ho as (Ek & Ec & Hs).
  destruct (me_manager env) eqn:Em; [done|]. apply add_cases; [done|]. intros A1.
  destruct (me_client env) eqn:El; [done|]. cbv zeta. rewrite discovered_GVKs. apply add_cases; [done|]. intros A2.
  pose proof (parseAnnotationKeyList_spec IsQualifiedName (fl_externalDNSTargetAnnotationKeys fl)) as Hkeys.
  destruct (parseAnnotationKeyList _ _) as [keys|e]; [|by destruct Hkeys as [[-> ?]|(k & -> & ? & ?)]].
  destruct Hkeys as (Hne & Hnd & Hin & Hq). apply add_cases; [done|]. intros A3.
  replace (match kref with Some _ => _ | None => _ end) with (pool_GVKs (me_backends env) kref)
    by (unfold pool_GVKs; destruct kref; by rewrite ?app_nil_r).
  apply pool_step; [done|]. intros pool Hpool A4.
  set (bgp := match DiscoverCiliumVersions (me_versions env) with inl v => BGPSyncController v | inr _ => CiliumControllerStarter end).
  assert (me_add env bgp = None -> forall crowd, crowd_part url_Parse fl crowd -> Forall (fun r => me_add env r = None) crowd ->
    well_started fl env (Running caches
      ([LeaderElectionStatusLogger (fl_leaderElection fl); DynamicPrefixController; ServiceSyncController keys; pool; bgp] ++ crowd))) as Hdone.
  { intros A5 crowd Hcrowd A6. split; [done|]. split; [done|]. split; [by repeat constructor|]. rewrite Ek, Ec.
    split; [|done]. exists keys, pool, crowd. split; [done|]. split; [split; [by destruct keys | done]|]. split; [|done].
    rewrite keys_ok_listed by done. split; intros H k Hin'; by apply H, Hin. }
  subst bgp. destruct (DiscoverCiliumVersions (me_versions env)) as [v|e];
    (apply add_cases; [done|]); intros A5; (apply (setupCrowdSecMarkers_spec labels_Parse IsQualifiedName); [done|done|]);
    intros crowd Hcrowd A6; by apply Hdone.
Qed.
End Main_started.

(** ** The flags of a deployment *)

Definition sample_cluster : DiscoveryInterface :=
  mkDiscovery (inl [("apps", ["v1"]); ("metallb.io", ["v1beta2"; "v1beta1"])])
    (fun gv => if decide (gv = "metallb.io/v1beta1") then inl ["bgppeers"; "ipaddresspools"] else inl []).

Definition sample_flags : flags :=
  mkFlags true EmptyString " external-dns.kubernetes.io/target, ,external-dns.kubernetes.io/target" "kube-system/kubevip"
    (mkLAPIConfig "https://lapi:8080" "tls.crt" "tls.key" "ca.crt" EmptyString EmptyString) "home, home,lab" "crowdsec/lapi" 3.

Definition sample_main : @started unit :=
  main (fun _ => inl tt) (fun _ => []) (fun _ => Some ("https", "lapi:8080")) (fun p c => p +:+ c) map_to_list
    (mkCalicoAPI EmptyString (fun _ => None) (fun _ => None) (fun _ => None) None (fun _ => None)) None
    sample_flags (mkMainEnv None None sample_cluster sample_cluster (fun _ => None)).

Lemma sample_main_runs :
  sample_main = Running (mkCacheOptions None (Some ("kube-system", "kubevip")) (Some ("crowdsec", "lapi")))
    [LeaderElectionStatusLogger true; DynamicPrefixController; ServiceSyncController ["external-dns.kubernetes.io/target"];
     PoolSyncController [("metallb.io", "v1beta1", "IPAddressPool"); ("", "v1", "ConfigMap")];
     CiliumControllerStarter;
     CrowdSecController (mkCrowdSec ["home"; "lab"] 3 (Some "crowdsec/lapi"))].
Proof. by vm_compute. Qed.

(** * The standby log *)

(** [leaderelection_logger.go]: the states a replica reports. *)
Definition leaderElectionWaitingMessage : string :=
  "Leader election enabled; this replica will stay on standby until it acquires the leader lease".
Definition leaderElectionAcquiredMessage : string := "Leader lease acquired; controllers are now active on this replica".
Definition leaderElectionStoppedMessage : string := "Manager stopped before acquiring the leader lease".
Definition leaderElectionDisabledMessage : string := "Leader election disabled; controllers are active on this replica".

(** What the runnable waits for: the lease and the end of the context. *)
Inductive lease_event : Type := Elected | ContextDone.

(** [Start] on what happens, in order: the messages, and whether it has returned. *)
Definition logger_Start (leaderElectionEnabled : bool) (events : list lease_event) : list string * bool :=
  let done l := existsb (fun e => match e with ContextDone => true | Elected => false end) l in
  if negb leaderElectionEnabled then ([leaderElectionDisabledMessage], done events)
  else match events with
       | [] => ([leaderElectionWaitingMessage], false)
       | Elected :: rest => ([leaderElectionWaitingMessage; leaderElectionAcquiredMessage], done rest)
       | ContextDone :: _ => ([leaderElectionWaitingMessage; leaderElectionStoppedMessage], true)
       end.

(** It returns exactly when the context has ended, and says that the controllers
    are active exactly when they are: the lease came first, or none is needed. *)
Lemma logger_Start_spec enabled events :
  ((logger_Start enabled events).2 = true <-> ContextDone ∈ events) /\
  (leaderElectionAcquiredMessage ∈ (logger_Start enabled events).1 \/
   leaderElectionDisabledMessage ∈ (logger_Start enabled events).1 <-> enabled = false \/ head events = Some Elected).
Proof.
  assert (forall l, existsb (fun e => match e with ContextDone => true | Elected => false end) l = true <-> ContextDone ∈ l) as Hdone.
  { intros l. rewrite existsb_exists. split; [intros ([] & Hx & He); [done | by apply list_elem_of_In]|].
    intros H%list_elem_of_In. by exists ContextDone. }
  unfold logger_Start. destruct enabled; cbn [negb].
  - destruct events as [|[] rest]; cbn [fst snd head]; rewrite ?Hdone, !elem_of_cons, ?elem_of_nil;
      (split; [intuition congruence|]); intuition discriminate.
  - cbn [fst snd]. rewrite Hdone, !elem_of_cons. intuition.
Qed.
