(* ===== verification/Observed.v ===== *)
(** * What is seen from outside

    The gauge of the pools against the failures the pool controller remembers, over
    any interleaving with the other controller that shares the registry, and the
    events of a DynamicPrefix over its changes. *)

From S2P Require Import Prelude GoStrings Metrics Netip NetipText Policy Receivers Factory DynamicPrefix.
From S2P Require Import Ownership PoolConfigs PoolBackends CalicoSiblings PoolSync.

Section Gauge.
Context {World Obj : Type} `{HPO : !PoolObject Obj}.
Context (Find : list Condition -> string -> option Condition).
Context (error_text : error -> string) (config_text : config_error -> string).

(** The value of a pool's series. *)
Definition gauge (s : @sync_state World Obj) (dp : string) (key : poolStateKey) : option Z :=
  poolsSynced (apply (ss_metrics s) empty_registry) !! (k_backend key, dp, k_pool key).

(** One step of the process: a reconcile of the pool controller, or the deletion
    of a resource, which drops its series. *)
Inductive process_step : @sync_state World Obj -> sync_state -> Prop :=
| step_reconcile env backends read ns name s s' res :
    Reconcile Find error_text config_text env backends read ns name s = Some (s', res) -> process_step s s'
| step_deleted name s : process_step s (add_metric (MForgetPrefix name) s).

(** No pool that failed is shown as in sync. *)
Definition gauge_honest (s : sync_state) : Prop :=
  forall dp key, is_Some (failing_of (ss_failing s) dp !! key) -> gauge s dp key <> Some 1.

Lemma gauge_add m (s : @sync_state World Obj) dp key :
  gauge (add_metric m s) dp key =
  match m with
  | MPoolSynced b d p => if decide (k_backend key = b /\ dp = d /\ k_pool key = p) then Some 1 else gauge s dp key
  | MPoolSyncFailed b d p => if decide (k_backend key = b /\ dp = d /\ k_pool key = p) then Some 0 else gauge s dp key
  | MForgetPool b p => if decide (k_backend key = b /\ k_pool key = p) then None else gauge s dp key
  | MForgetPrefix name => if decide (dp = name) then None else gauge s dp key
  | _ => gauge s dp key
  end.
Proof. unfold gauge. cbn [add_metric ss_metrics]. rewrite apply_app. exact (pools_after m _ _ _ _). Qed.

Lemma write_metrics (e : @sync_env Obj) dp v (s : @sync_state World Obj) : ss_metrics (writePoolsSyncedCondition Find e dp v s) = ss_metrics s.
Proof.
  destruct v as [[status reason] msg]. unfold writePoolsSyncedCondition. cbv zeta.
  destruct (se_get e dp) as [d|[|er]]; [|done..].
  destruct (conditionApplyEntry _ _ _ _ _ _ _) as [entry ch]. destruct (negb ch); [done|].
  by destruct (se_apply e dp entry) as [[|er]|].
Qed.

Lemma update_metrics (e : @sync_env Obj) dp key err (s : @sync_state World Obj) : ss_metrics (updatePoolsSyncedCondition Find e dp key err s) = ss_metrics s.
Proof. unfold updatePoolsSyncedCondition. destruct (record _ _ _ _). by rewrite write_metrics. Qed.

Lemma release_metrics (e : @sync_env Obj) m (s : @sync_state World Obj) : ss_metrics (releasePoolsSyncedEntries Find e m s) = ss_metrics s.
Proof.
  unfold releasePoolsSyncedEntries. destruct (forgetEntries m (ss_failing s)) as [f dps].
  change (ss_metrics s) with (ss_metrics (set_failing f s)). generalize (set_failing f s). clear s.
  induction dps as [|d dps IH]; intros s; [done|]. cbn [foldl]. destruct (conditionFor _ _). by rewrite IH, write_metrics.
Qed.

(** Failures that stay were there before. *)
Lemma release_failing (e : @sync_env Obj) m (s : @sync_state World Obj) dp key :
  is_Some (failing_of (ss_failing (releasePoolsSyncedEntries Find e m s)) dp !! key) ->
  is_Some (failing_of (ss_failing s) dp !! key) /\ m key = false.
Proof.
  intros H. destruct (m key) eqn:Hm.
  - destruct (releasePoolsSyncedEntries_spec Find e m s) as (_ & _ & _ & Hf). rewrite Hf in H by done. by destruct H.
  - split; [|done]. destruct (failing_of (ss_failing s) dp !! key) eqn:Ef; [done|]. exfalso.
    revert H. unfold releasePoolsSyncedEntries. pose proof (forgetEntries_state m (ss_failing s) dp key) as Hfe.
    destruct (forgetEntries m (ss_failing s)) as [f dps]. cbn [fst] in Hfe. rewrite Hm, Ef in Hfe.
    destruct (fold_conditions_failing Find e dps (set_failing f s)) as (_ & _ & _ & Hf). rewrite Hf by done. by intros [].
Qed.

Lemma update_failing (e : @sync_env Obj) d k err (s : @sync_state World Obj) dp key :
  is_Some (failing_of (ss_failing (updatePoolsSyncedCondition Find e d k err s)) dp !! key) ->
  (dp = d /\ key = k /\ is_Some err) \/ (~ (dp = d /\ key = k) /\ is_Some (failing_of (ss_failing s) dp !! key)).
Proof.
  destruct (updatePoolsSyncedCondition_spec Find e d k err s) as (_ & _ & _ & Ho & Hd).
  destruct (decide (dp = d)) as [->|Hdp].
  - destruct (Hd key) as [->| ->]; [|by intros []]. case_decide; [by left|]. right. split; [tauto|done].
  - unfold failing_of at 1. rewrite Ho by done. right. split; [tauto|done].
Qed.

(** Steps that leave both alone, or only take failures away. *)
Lemma honest_less (s s' : @sync_state World Obj) :
  gauge_honest s -> ss_metrics s' = ss_metrics s ->
  (forall dp key, is_Some (failing_of (ss_failing s') dp !! key) -> is_Some (failing_of (ss_failing s) dp !! key)) ->
  gauge_honest s'.
Proof. intros H Hm Hf dp key Hk. unfold gauge. rewrite Hm. apply H. by apply Hf. Qed.

(** A sync records its outcome and shows it. *)
Lemma honest_outcome (e : @sync_env Obj) d b pool err (s : @sync_state World Obj) :
  gauge_honest s ->
  gauge_honest (updatePoolsSyncedCondition Find e d (mkKey b pool) err
    (add_metric (match err with Some _ => MPoolSyncFailed b d pool | None => MPoolSynced b d pool end) s)).
Proof.
  intros H dp key Hk. unfold gauge. rewrite update_metrics.
  fold (gauge (add_metric (match err with Some _ => MPoolSyncFailed b d pool | None => MPoolSynced b d pool end) s) dp key).
  rewrite gauge_add. apply update_failing in Hk as [(-> & -> & He)|[Hne Hk]]; cbn [k_backend k_pool].
  - destruct err; [|by destruct He]. by rewrite decide_True.
  - assert (~ (k_backend key = b /\ dp = d /\ k_pool key = pool)) as Hn.
    { intros (Hb & Hd & Hp). apply Hne. split; [done|]. destruct key. cbn in *. congruence. }
    destruct err; rewrite decide_False by done; by apply H.
Qed.

Lemma honest_forget (e : @sync_env Obj) b key m (s : @sync_state World Obj) :
  gauge_honest s -> gauge_honest (releasePoolsSyncedEntries Find e m (add_metric (MForgetPool b key) s)).
Proof.
  intros H dp k Hk. apply release_failing in Hk as [Hk _]. unfold gauge. rewrite release_metrics.
  fold (gauge (add_metric (MForgetPool b key) s) dp k). rewrite gauge_add. case_decide; [done|]. by apply H.
Qed.

Lemma releasePool_honest (e : @sync_env Obj) key pool b (s s' : @sync_state World Obj) err :
  releasePool Find e key pool b s = Some (s', err) -> gauge_honest s -> gauge_honest s'.
Proof.
  intros Hr H. unfold releasePool in Hr. destruct (b_release b (ss_world s) pool) as [[[w o] [changed [er|]]]|]; [| |done].
  { injection Hr as <- <-. exact H. }
  cbv zeta in Hr. destruct (negb changed && _)%bool; [injection Hr as <- <-; exact H|].
  destruct (se_update e _); injection Hr as <- <-; [exact H|].
  exact (honest_forget e (b_name b) key _ (add_written _ (set_world w s)) H).
Qed.

Lemma syncPool_honest (e : @sync_env Obj) req pool b (s s' : @sync_state World Obj) res :
  syncPool Find error_text config_text e req pool b s = Some (s', res) -> gauge_honest s -> gauge_honest s'.
Proof.
  intros Hs H. unfold syncPool in Hs. cbv zeta in Hs.
  assert (forall s', ('(s1, err) ← releasePool Find e req pool b s; Some (s1, (0, err))) = Some (s', res) -> gauge_honest s') as Hrel.
  { intros s1 Hr. destruct (releasePool Find e req pool b s) as [[s2 er]|] eqn:E; [|done]. injection Hr as -> _.
    by eapply releasePool_honest. }
  destruct (o_annotations pool !! AnnotationName) as [dpName|].
  2:{ destruct (hasOwnershipRecord _); [by apply Hrel|]. by injection Hs as <- _. }
  destruct (se_get e dpName) as [dp|[|er]].
  2:{ destruct (hasOwnershipRecord _); [by apply Hrel|]. by injection Hs as <- _. }
  2:{ by injection Hs as <- _. }
  case_decide; [by injection Hs as <- _|].
  destruct (buildPoolConfigurations _ _ _) as [configs|ce|]; [| |done].
  - destruct (b_update b configs _ _ pool) as [[[w o] [updated [er|]]]|]; [| |done]; injection Hs as <- _.
    + exact (honest_outcome e dpName (b_name b) req (Some (error_text er)) (add_event _ (set_world w s)) H).
    + refine (honest_outcome e dpName (b_name b) req None (if updated then _ else _) _). by destruct updated.
  - injection Hs as <- _. exact (honest_outcome e dpName (b_name b) req (Some (config_text ce)) (add_event _ s) H).
Qed.

Lemma sync_all_honest (e : @sync_env Obj) req matches result errs (s s' : @sync_state World Obj) res :
  sync_all Find error_text config_text e req matches result errs s = Some (s', res) -> gauge_honest s -> gauge_honest s'.
Proof.
  revert result errs s. induction matches as [|[pool b] l IH]; intros result errs s; cbn [sync_all].
  { by intros [= <- _]. }
  destruct (syncPool _ _ _ e req pool b s) as [[s1 [after err]]|] eqn:E; [|done]. cbn [mbind option_bind].
  intros Hs H. apply syncPool_honest in E; [|done]. destruct err; by eapply IH.
Qed.

Lemma step_honest (s s' : @sync_state World Obj) : gauge_honest s -> process_step s s' -> gauge_honest s'.
Proof.
  intros H Hstep. destruct Hstep as [e backends read ns name s s' res Hr|name s].
  - unfold Reconcile in Hr. destruct (getPools backends read ns) as [matches|[er|]].
    + destruct (sync_all _ _ _ e _ matches 0 [] s) as [[s1 [r errs]]|] eqn:E; [|done]. injection Hr as <- _.
      by eapply sync_all_honest.
    + by injection Hr as <- _.
    + injection Hr as <- _. apply (honest_less s); [done | apply release_metrics|]. intros dp key Hk. by apply release_failing in Hk as [Hk _].
  - intros dp key Hk. rewrite gauge_add. case_decide; [done|]. by apply H.
Qed.

(** C23 The gauge never hides a failure: after any interleaving of pool reconciles
    with deletions of resources, whatever the API server answered, no pool is shown
    as in sync under a resource while the PoolsSynced condition of that resource
    counts it as failing. *)
Theorem gauge_never_hides_failure (w : World) (s : sync_state) (dp : string) (key : poolStateKey) :
  run process_step (mkSyncState empty [] [] [] w []) s ->
  gauge s dp key = Some 1 -> failing_of (ss_failing s) dp !! key = None.
Proof.
  intros Hrun H1. apply eq_None_not_Some. intros Hk. revert H1.
  apply (run_invariant process_step gauge_honest step_honest _ _ Hrun); [|done].
  intros d k [t Ht]. exfalso. cbn [ss_failing] in Ht. unfold failing_of in Ht. by rewrite lookup_empty in Ht.
Qed.
End Gauge.

(** A pool that fails, then syncs, then fails again. *)
Definition gauge_env (update_error : option error) : @sync_env object :=
  mkSyncEnv 7 (fun n => if decide (n = "home") then DPFound (sample_pool_dp None []) else DPError NotFound)
    (fun _ _ => None) (fun _ => update_error).

Definition gauge_backend (update_error : option error) : poolBackend world object :=
  ciliumCIDRGroupBackend sample_api update_error.

Definition gauge_run : sync_state :=
  let reconcile err s := match Reconcile list_FindStatusCondition sample_text sample_text (gauge_env err) [gauge_backend err]
                                 sample_read "" "lan" s with Some (s', _) => s' | None => s end in
  reconcile None (reconcile (Some (errors_New "denied")) (sample_state empty)).

Lemma gauge_never_hides_failure_witness :
  gauge gauge_run "home" (mkKey "cilium-cidr-group" "/lan") = Some 1 /\
  failing_of (ss_failing gauge_run) "home" !! mkKey "cilium-cidr-group" "/lan" = None.
Proof.
  split; [by vm_compute|].
  apply (gauge_never_hides_failure list_FindStatusCondition sample_text sample_text empty gauge_run "home"
    (mkKey "cilium-cidr-group" "/lan")); [|by vm_compute].
  unfold gauge_run. cbv zeta. eapply run_step; [|eapply run_step; [|apply run_refl]].
  - eapply step_reconcile with (env := gauge_env (Some (errors_New "denied")))
      (backends := [gauge_backend (Some (errors_New "denied"))]) (read := sample_read) (ns := "") (name := "lan").
    vm_compute. reflexivity.
  - eapply step_reconcile with (env := gauge_env None) (backends := [gauge_backend None]) (read := sample_read) (ns := "") (name := "lan").
    vm_compute. reflexivity.
Defined.

(** ** The events of a resource *)

Section Events.
Context (Set_ : list Condition -> Condition -> list Condition).
Context (Find : list Condition -> string -> option Condition).
Context (laws : condition_laws Set_ Find).

(** A failure is told when the condition it leaves is new. *)
Lemma failure_told now gen st e ev :
  let m := MsgError "Prefix acquisition is failing" e in
  warnOnConditionChange Find
    (setCondition Set_ now gen ConditionTypePrefixAcquired ConditionFalse reasonAcquisitionFailed m st)
    ConditionTypePrefixAcquired reasonAcquisitionFailed m ev = [].
Proof.
  cbv zeta. unfold warnOnConditionChange. cbn [setCondition st_Conditions].
  set (c := mkCondition ConditionTypePrefixAcquired _ _ _ _ _). change ConditionTypePrefixAcquired with (C_Type c) at 1.
  rewrite (find_set _ _ laws). rewrite decide_True; [done|].
  by destruct (Find _ _) as [o|]; cbn; [case_decide|].
Qed.

(** C24 Every change of the current prefix is told, in order and once.  While the held
    prefix, if there is one, is one the policy accepts: a reconcile that leaves the
    current prefix alone tells at most that the acquisition fails; one that adopts a
    first prefix tells that it was received and nothing else; one that replaces a prefix
    tells the change, then the completion of each history entry that the limit pushes
    out, then that the old prefix started draining, and the old prefixes told as
    completed and those still in the history are together exactly the ones that were
    there before; once the status is written, the same answers of the receiver tell
    nothing more.  A held prefix the policy refuses changes neither the current prefix
    nor the history, and its rejection is told by each reconcile, also by the next one
    with the same answers. *)
Theorem changes_told_once (now later : Z) (dp : DynamicPrefix) (err : option error) (held : option Prefix)
    (src : Source) (st : DynamicPrefixStatus) (d : Z) :
  (forall p, held = Some p -> netip.prefix6 (Network p)) ->
  reconcile_status Set_ Find now dp err held src = Some (st, d) ->
  let policy := prefixPolicyFor (sp_Acquisition (dp_Spec dp)) in
  let events := reconcile_events Find now dp err held src in
  let again := reconcile_events Find later (with_status st dp) err held src in
  let old := st_CurrentPrefix (dp_Status dp) in
  (forall p e, held = Some p -> Validate policy (Network p) = Some e ->
     st_CurrentPrefix st = old /\ st_History st = st_History (dp_Status dp) /\
     events = [EvPrefixRejected (MsgRejected (Network p) e)] /\ again = events) /\
  ((forall p, held = Some p -> Validate policy (Network p) = None) ->
   (st_CurrentPrefix st = old -> events = [] \/ exists m, events = [EvAcquisitionFailed m]) /\
   (st_CurrentPrefix st <> old -> exists p, held = Some p /\ st_CurrentPrefix st = netiptext.PrefixString (Network p) /\
      (old = EmptyString -> events = [EvPrefixReceived (Network p) src]) /\
      (old <> EmptyString -> exists completed,
         events = EvPrefixChanged old (Network p) src :: (EvTransitionCompleted <$> completed) ++ [EvTransitionStarted old (Network p)] /\
         completed ++ (H_Prefix <$> st_History st) =
           (H_Prefix <$> surviving old (st_CurrentPrefix st) (st_History (dp_Status dp))) ++ [old])) /\
   again = []).
Proof.
  intros Hheld Hrun. cbv zeta. split.
  { intros p e -> Hv. unfold reconcile_status in Hrun. rewrite Hv in Hrun. injection Hrun as <- <-.
    unfold reconcile_events. cbn [with_status dp_Spec]. by rewrite Hv. }
  intros Hok. destruct held as [p|].
  - pose proof (Hheld p eq_refl) as Hp. pose proof (Hok p eq_refl) as Hv.
    rewrite reconcile_status_accepted in Hrun by done. injection Hrun as <- <-.
    unfold reconcile_events. cbn [with_status dp_Spec dp_Status st_CurrentPrefix st_History]. rewrite Hv.
    assert (sourceToPrefixSource src = src) as -> by by destruct src.
    rewrite (decide_True (P := netiptext.PrefixString (Network p) = _)) by done.
    split; [|split; [|done]]; intros Hcur.
    + rewrite decide_True by done. by left.
    + exists p. split; [done|]. split; [done|]. rewrite decide_False by done. unfold transition_events. split; intros Ho.
      * by rewrite !decide_True.
      * rewrite !decide_False by done. eexists. split; [rewrite (list_fmap_compose H_Prefix EvTransitionCompleted); reflexivity|].
        unfold next_history. rewrite decide_False by done. by apply handlePrefixChange_split.
  - unfold reconcile_status in Hrun. destruct err as [e|]; injection Hrun as <- <-; cbn [setCondition st_CurrentPrefix].
    + unfold reconcile_events. split; [|split; [done|apply failure_told]].
      intros _. unfold warnOnConditionChange. repeat case_match; eauto.
    + split; [by left|done].
Qed.
End Events.

Lemma changes_told_once_witness :
  let home := sample_dp (mkStatusOf "2001:db8:1200::/48" None None [] []
    [mkHistory "2001:db8:a::/48" None (Some 1) PrefixStateDraining; mkHistory "2001:db8:b::/48" None (Some 2) PrefixStateDraining] []) in
  let local := sample_prefix "fd00:1200::/48" in
  (exists st d, reconcile_status list_SetStatusCondition list_FindStatusCondition 10 home None (Some second_prefix) SourceDHCPv6PD = Some (st, d) /\
    reconcile_events list_FindStatusCondition 10 home None (Some second_prefix) SourceDHCPv6PD =
      [EvPrefixChanged "2001:db8:1200::/48" (Network second_prefix) SourceDHCPv6PD; EvTransitionCompleted "2001:db8:a::/48";
       EvTransitionStarted "2001:db8:1200::/48" (Network second_prefix)] /\
    reconcile_events list_FindStatusCondition 99 (with_status st home) None (Some second_prefix) SourceDHCPv6PD = []) /\
  (exists st d e, reconcile_status list_SetStatusCondition list_FindStatusCondition 10 home None (Some local) SourceDHCPv6PD = Some (st, d) /\
    reconcile_events list_FindStatusCondition 99 (with_status st home) None (Some local) SourceDHCPv6PD =
      [EvPrefixRejected (MsgRejected (Network local) e)]).
Proof.
  intros home local. split.
  - destruct (reconcile_status list_SetStatusCondition list_FindStatusCondition 10 home None (Some second_prefix) SourceDHCPv6PD)
      as [[st d]|] eqn:E; [|vm_compute in E; discriminate].
    exists st, d. split; [reflexivity|]. split; [vm_compute; reflexivity|].
    apply (changes_told_once list_SetStatusCondition list_FindStatusCondition list_condition_laws
      10 99 home None (Some second_prefix) SourceDHCPv6PD st d).
    + intros p Hp. injection Hp as <-. apply prefix6_of_string; vm_compute; reflexivity.
    + exact E.
    + intros p Hp. injection Hp as <-. vm_compute. reflexivity.
  - destruct (reconcile_status list_SetStatusCondition list_FindStatusCondition 10 home None (Some local) SourceDHCPv6PD)
      as [[st d]|] eqn:E; [|vm_compute in E; discriminate].
    destruct (Validate (prefixPolicyFor (sp_Acquisition (dp_Spec home))) (Network local)) as [e|] eqn:Hv; [|vm_compute in Hv; discriminate].
    exists st, d, e. split; [reflexivity|].
    destruct (changes_told_once list_SetStatusCondition list_FindStatusCondition list_condition_laws
      10 99 home None (Some local) SourceDHCPv6PD st d) as [H _].
    + intros p Hp. injection Hp as <-. apply prefix6_of_string; vm_compute; reflexivity.
    + exact E.
    + destruct (H local e eq_refl Hv) as (_ & _ & <- & Ha). exact Ha.
Defined.
