(* ===== verification/Statuses.v ===== *)
(** * The statuses of a resource

    Every status the DynamicPrefix controller can leave in the API server, from
    reconciles on caches of any age and other writers of conditions, and what those
    who read one may rely on. *)

From S2P Require Import Prelude GoStrings Netip NetipText Policy Subnet AddressRange Receivers Factory DynamicPrefix.
From S2P Require Import Ownership ListBackends PoolConfigs PoolBackends CalicoSiblings.

Section Statuses.
Context (Set_ : list Condition -> Condition -> list Condition).
Context (Find : list Condition -> string -> option Condition).
Context (laws : condition_laws Set_ Find).

(** What the networks of a status say of the pools built from them. *)
Definition networks_are (Q : poolConfiguration -> Prop) (st : DynamicPrefixStatus) : Prop :=
  Forall (fun ar => Q (mkPoolConfig true (RS_Start ar) (RS_End ar) (RS_CIDR ar))) (st_AddressRanges st) /\
  Forall (fun s => Q (mkPoolConfig false EmptyString EmptyString (SS_CIDR s))) (st_Subnets st).

(** The prefixes the resource is given: IPv6, out of some address space. *)
Context (space : netip.Prefix -> Prop).

Definition delegated (p : netip.Prefix) : Prop := netip.prefix6 p /\ space p.

Definition prefix_text (s : string) : Prop := exists b, netiptext.ParsePrefix s = Some b /\ delegated b.

(** A configuration whose addresses lie in a delegated prefix. *)
Definition config_given (c : poolConfiguration) : Prop := exists base, delegated base /\ config_at base c.

(** Delegated prefixes; networks of delegated prefixes, and of the current one unless
    the status says that it is degraded. *)
Definition status_sound (st : DynamicPrefixStatus) : Prop :=
  Forall (fun h => prefix_text (H_Prefix h)) (st_History st) /\
  networks_are config_given st /\
  (st_CurrentPrefix st = EmptyString \/
   exists base, netiptext.ParsePrefix (st_CurrentPrefix st) = Some base /\ delegated base /\
     (degraded Find st \/ networks_are (config_at base) st)).

Lemma networks_are_impl (Q Q' : poolConfiguration -> Prop) st :
  (forall c, Q c -> Q' c) -> networks_are Q st -> networks_are Q' st.
Proof. intros H [Hr Hs]. split; (eapply Forall_impl; [eassumption|]); auto. Qed.

Lemma subnet_config base spec ss : subnet_derived base spec ss ->
  config_at base (mkPoolConfig false EmptyString EmptyString (SS_CIDR ss)).
Proof. intros (_ & q & Hq & H6 & _ & Hin). split; [|done]. by exists q. Qed.

Lemma range_config base spec rs : range_derived base spec rs ->
  config_at base (mkPoolConfig true (RS_Start rs) (RS_End rs) (RS_CIDR rs)).
Proof.
  intros (_ & a & b & q & Ha & Hb & Ha6 & Hb6 & Hq & H6 & Hle & Hqa & Hqb & Hin). split; [by exists q|].
  cbn. exists a, b. split_and!; (done || by apply Hin).
Qed.

Lemma Forall2_right {A B} (R : A -> B -> Prop) (P : B -> Prop) l k :
  (forall a b, R a b -> P b) -> Forall2 R l k -> Forall P k.
Proof. intros H. induction 1; constructor; eauto. Qed.

(** What an adopted status lists, new or left over. *)
Lemma adopted_networks now dp err p src st d :
  delegated (Network p) ->
  Validate (prefixPolicyFor (sp_Acquisition (dp_Spec dp))) (Network p) = None ->
  reconcile_status Set_ Find now dp err (Some p) src = Some (st, d) ->
  networks_are config_given (dp_Status dp) ->
  networks_are config_given st /\ (degraded Find st \/ networks_are (config_at (Network p)) st).
Proof.
  intros Hd Hv Hrun [Hr Hs]. pose proof Hd as [Hp _]. rewrite reconcile_status_accepted in Hrun by done. injection Hrun as <- _.
  unfold networks_are, degraded. cbn [st_AddressRanges st_Subnets st_Conditions]. rewrite (accepted_degraded _ _ laws).
  unfold network_conditions.
  pose proof (calculateSubnets_spec (dp_Name dp) (Network p) (sp_Subnets (dp_Spec dp)) Hp) as Hcs.
  pose proof (calculateAddressRanges_spec (Network p) (sp_AddressRanges (dp_Spec dp)) Hp) as Hcr.
  assert (forall c, config_at (Network p) c -> config_given c) as Hg by (intros c; by exists (Network p)).
  destruct (calculateSubnets _ _ _) as [ls| |], (calculateAddressRanges _ _) as [lr| |]; try done; cbn [ret_or];
    try (apply (Forall2_right _ _ _ _ (subnet_config (Network p))) in Hcs);
    try (apply (Forall2_right _ _ _ _ (range_config (Network p))) in Hcr).
  1: split; [split; (eapply Forall_impl; [eassumption|intros ?; apply Hg])|by right].
  all: split; [split; (done || (eapply Forall_impl; [eassumption|intros ?; apply Hg]))|left].
  all: destruct err; cbn [renewal_conditions app foldl]; eexists; (split; [done|]); by rewrite merge_condition_status.
Qed.

Lemma sound_conditions l st :
  status_sound st -> Find l ConditionTypeDegraded = Find (st_Conditions st) ConditionTypeDegraded ->
  status_sound (set_conditions l st).
Proof.
  intros (Hh & Hg & Hc) El. split; [done|]. split; [done|]. destruct Hc as [|(base & Hb & H6 & Hd)]; [by left|].
  right. exists base. split; [done|]. split; [done|]. destruct Hd as [Hd|]; [left|by right].
  unfold degraded. cbn [set_conditions st_Conditions]. by rewrite El.
Qed.

Lemma next_history_text now dp p : status_sound (dp_Status dp) ->
  Forall (fun h => prefix_text (H_Prefix h)) (next_history Find now dp p).
Proof.
  intros (Hh & _ & Hc). unfold next_history. case_decide as E1; [done|].
  destruct (decide (st_CurrentPrefix (dp_Status dp) = EmptyString)) as [E|E].
  { unfold handlePrefixChange. by rewrite decide_True. }
  destruct Hc as [|(base & Hb & H6 & _)]; [done|].
  pose proof (handlePrefixChange_split Find now (dp_CreationTimestamp dp) (dp_Spec dp)
    (netiptext.PrefixString (Network p)) (dp_Status dp) E) as Hs. cbv zeta in Hs.
  apply Forall_forall. intros e He. apply (list_elem_of_fmap_2 H_Prefix) in He.
  assert (H_Prefix e ∈ (H_Prefix <$> surviving (st_CurrentPrefix (dp_Status dp)) (netiptext.PrefixString (Network p))
            (st_History (dp_Status dp))) ++ [st_CurrentPrefix (dp_Status dp)]) as Hin.
  { rewrite <- Hs. apply elem_of_app. by right. }
  apply elem_of_app in Hin as [(e' & -> & [_ He']%list_elem_of_filter)%list_elem_of_fmap|Hin].
  - rewrite Forall_forall in Hh. by apply Hh.
  - apply list_elem_of_singleton in Hin. rewrite Hin. by exists base.
Qed.

(** A prefix that the policy of the resource accepts was delegated. *)
Definition held_given (dp : DynamicPrefix) (held : option Prefix) : Prop :=
  forall p, held = Some p -> Validate (prefixPolicyFor (sp_Acquisition (dp_Spec dp))) (Network p) = None ->
    delegated (Network p).

(** Every status the DynamicPrefix controller computes from a sound one is sound. *)
Lemma reconcile_sound now dp err held src st d :
  status_sound (dp_Status dp) -> held_given dp held ->
  reconcile_status Set_ Find now dp err held src = Some (st, d) -> status_sound st.
Proof.
  intros Hs Hheld Hrun.
  assert (forall status reason m, status_sound (setCondition Set_ now (dp_Generation dp) ConditionTypePrefixAcquired
    status reason m (dp_Status dp))) as Hset.
  { intros status reason m. eapply (sound_conditions _ _ Hs). by apply (find_set_other _ _ laws). }
  destruct held as [p|].
  2:{ unfold reconcile_status in Hrun. destruct err; injection Hrun as <- _; apply Hset. }
  destruct (Validate (prefixPolicyFor (sp_Acquisition (dp_Spec dp))) (Network p)) as [e|] eqn:Hv.
  { unfold reconcile_status in Hrun. rewrite Hv in Hrun. injection Hrun as <- _. apply Hset. }
  specialize (Hheld p eq_refl Hv). destruct (adopted_networks _ _ _ _ _ _ _ Hheld Hv Hrun) as [Hg Hd]; [apply Hs|].
  rewrite reconcile_status_accepted in Hrun by (apply Hheld || done). injection Hrun as Est _.
  assert (st_CurrentPrefix st = netiptext.PrefixString (Network p) /\ st_History st = next_history Find now dp p) as [Ec Eh]
    by by subst st.
  split; [rewrite Eh; by apply next_history_text|]. split; [done|]. right. exists (Network p). rewrite Ec.
  split; [apply ParsePrefix_String; apply (proj1 Hheld)|]. by split.
Qed.

(** ** What is built from a sound status *)

Lemma sound_delegated dp : status_sound (dp_Status dp) -> Forall delegated (collectManagedPrefixes dp).
Proof.
  intros (Hh & _ & Hc). apply managed_all; [|exact Hh]. destruct Hc as [|(base & Hb & Hd & _)]; [by left|].
  right. by exists base.
Qed.

Lemma sound_managed dp : status_sound (dp_Status dp) -> Forall netip.prefix6 (collectManagedPrefixes dp).
Proof. intros H%sound_delegated. eapply Forall_impl; [exact H|]. by intros p []. Qed.

Lemma networks_found Q dp : networks_are Q (dp_Status dp) ->
  (forall name c, findAddressRangeInStatus dp name = Some c -> Q c) /\
  (forall name c, findSubnetInStatus dp name = Some c -> Q c).
Proof.
  intros [Hr Hs]. split; intros name c (x & Hf & ->)%fmap_Some;
    [by apply (find_list_Forall _ _ _ _ Hr) in Hf | by apply (find_list_Forall _ _ _ _ Hs) in Hf].
Qed.

Lemma configs_from_given dp configs : status_sound (dp_Status dp) -> configs_from config_given dp configs ->
  Forall config_given configs.
Proof.
  intros Hs%sound_delegated (_ & c & rest & -> & Hc & Hrest). rewrite Forall_forall in Hs. constructor; [done|].
  eapply Forall_impl; [exact Hrest|]. intros x (m & Hm & _ & Hx). exists m. split; [by apply Hs|done].
Qed.

Lemma given_good configs : Forall config_given configs -> Forall config_good configs.
Proof. intros H. eapply Forall_impl; [exact H|]. intros c (m & [H6 _] & Hc). by exists m. Qed.

Lemma sound_configs dp ar sn : status_sound (dp_Status dp) -> st_CurrentPrefix (dp_Status dp) <> EmptyString ->
  match buildPoolConfigurations dp ar sn with
  | Ret configs => Forall config_given configs /\ (degraded Find (dp_Status dp) \/ configs_ok dp configs)
  | Fail _ => not_in_status dp ar sn
  | Panic => False
  end.
Proof.
  intros Hs Hne. pose proof Hs as (Hh & Hg & [|(base & Hb & Hgiven & Hd)]); [done|]. pose proof Hgiven as [H6 _].
  assert (Forall (fun h => exists b, netiptext.ParsePrefix (H_Prefix h) = Some b /\ netip.prefix6 b)
    (st_History (dp_Status dp))) as Hh6 by (eapply Forall_impl; [exact Hh|]; intros h (b & ? & ? & _); by exists b).
  assert (forall Q, networks_are Q (dp_Status dp) -> (forall c, config_at base c -> Q c) -> status_from Q dp base) as Hfrom.
  { intros Q HQ Hbase. apply networks_found in HQ as [Hr Hsn]. unfold status_from. eauto 7. }
  pose proof (buildPoolConfigurations_from _ dp base ar sn
    (Hfrom config_given Hg (fun c H => ex_intro _ base (conj Hgiven H)))) as Hgood.
  destruct Hd as [Hd|Hd].
  - destruct (buildPoolConfigurations dp ar sn); [|done..]. split; [by eapply configs_from_given|by left].
  - pose proof (buildPoolConfigurations_from _ dp base ar sn (Hfrom _ Hd (fun c H => H))) as Hat.
    destruct (buildPoolConfigurations dp ar sn); [|done..]. split; [by eapply configs_from_given|right].
    by eapply configs_from_ok.
Qed.

(** ** How statuses come about *)

(** The statuses there have been, the newest first: the controller adds what it
    computes from any of them, beside the conditions of others, and so do other
    writers of conditions. *)
Inductive status_step : list DynamicPrefixStatus -> list DynamicPrefixStatus -> Prop :=
| step_reconciled now dp err held src st d cs l :
    dp_Status dp ∈ l -> held_given dp held ->
    reconcile_status Set_ Find now dp err held src = Some (st, d) ->
    Find cs ConditionTypeDegraded = Find (st_Conditions st) ConditionTypeDegraded ->
    status_step l (set_conditions cs st :: l)
| step_conditions st cs l :
    st ∈ l -> Find cs ConditionTypeDegraded = Find (st_Conditions st) ConditionTypeDegraded ->
    status_step l (set_conditions cs st :: l).

Lemma status_step_sound l l' : status_step l l' -> Forall status_sound l -> Forall status_sound l'.
Proof.
  intros Hstep Hl. pose proof (proj1 (Forall_forall _ _) Hl) as Hin.
  destruct Hstep; (constructor; [|done]); apply sound_conditions; eauto using reconcile_sound.
Qed.

Lemma no_status_sound : status_sound no_status.
Proof. split; [constructor|]. split; [by split|]. by left. Qed.
End Statuses.

(** ** A rotation *)

(** Everything under one prefix. *)
Definition within (block q : netip.Prefix) : Prop := forall x, netip.in_prefix q x -> netip.in_prefix block x.

Definition sample_space : netip.Prefix -> Prop := within (prefix_of_string "2001:db8::/32").

Definition adopts (now : Z) (st : DynamicPrefixStatus) (p : Prefix) : DynamicPrefixStatus :=
  match reconcile_status list_SetStatusCondition list_FindStatusCondition now (sample_dp st) None (Some p) SourceDHCPv6PD with
  | Some (st', _) => st'
  | None => st
  end.

Definition first_status : DynamicPrefixStatus := adopts 10 no_status first_prefix.
Definition second_status : DynamicPrefixStatus := adopts 20 first_status second_prefix.

Lemma within_check block q :
  ((netip.first_num block <=? netip.first_num q) && (netip.last_num q <=? netip.last_num block))%bool = true -> within block q.
Proof. exact (in_prefix_sub q block). Qed.

(** The two steps of the rotation. *)
Lemma rotation_first :
  status_step list_SetStatusCondition list_FindStatusCondition sample_space [no_status] [first_status; no_status].
Proof.
  apply (step_reconciled _ _ _ 10 (sample_dp no_status) None (Some first_prefix) SourceDHCPv6PD first_status (5 * time_Minute)
    (st_Conditions first_status)); [apply list_elem_of_here| |vm_compute; reflexivity|done].
  intros q [= <-] _. split; [apply prefix6_of_string|apply within_check]; vm_compute; reflexivity.
Qed.

Lemma rotation_second :
  status_step list_SetStatusCondition list_FindStatusCondition sample_space [first_status; no_status]
    [second_status; first_status; no_status].
Proof.
  apply (step_reconciled _ _ _ 20 (sample_dp first_status) None (Some second_prefix) SourceDHCPv6PD second_status (5 * time_Minute)
    (st_Conditions second_status)); [apply list_elem_of_here| |vm_compute; reflexivity|done].
  intros q [= <-] _. split; [apply prefix6_of_string|apply within_check]; vm_compute; reflexivity.
Qed.
