(* ===== verification/Rotation.v ===== *)
(** * From a prefix to the pools

    The DynamicPrefix controller and the pool controller together, over one resource
    and one pool of a list backend: reconciles of either, in any order and on caches
    of any age, writes that fail, other writers of conditions, and users that edit the
    list. *)

From S2P Require Import Prelude GoStrings Netip NetipText Policy Subnet AddressRange Receivers Factory DynamicPrefix.
From S2P Require Import Ownership ListBackends PoolConfigs PoolBackends CalicoSiblings PoolSync Statuses.

(** ** One list backend *)

Definition list_poolBackend (b : list_backend) (api : calico_api) (updateErr : option error) : poolBackend world object :=
  match b with
  | CiliumPool => ciliumLoadBalancerIPPoolBackend api updateErr
  | CIDRGroup => ciliumCIDRGroupBackend api updateErr
  | MetalLB => metalLBIPAddressPoolBackend api updateErr
  end.

Lemma list_poolBackend_update b api err configs ms w p :
  b_update (list_poolBackend b api err) configs ms w (ListObject p) =
  '(p', r) ← list_update b (api_now api) err configs ms p; Some (w, ListObject p', r).
Proof. by destruct b. Qed.

(** Annotations of a pool that no update touches. *)
Lemma list_update_annotations b now configs ms p p' res key : Forall netip.prefix6 ms ->
  p_list p <> ListWrongType -> key <> list_recordKey b -> key <> AnnotationLastSync ->
  list_update b now None configs ms p = Some (p', res) -> p_annotations p' !! key = p_annotations p !! key.
Proof.
  intros Hm Hw H1 H2. rewrite list_update_pass by done. intros E.
  assert (p' = (sync_pass (list_keyOf b) (list_owned b ms) (list_recordKey b) now (list_desired b configs) p).1) as ->
    by by injection E as ->.
  unfold sync_pass. by apply (syncOwnedList_result (list_keyOf b) (list_recordKey b) (list_recordKey_ne b)).
Qed.

Lemma pool_annotations_kept b :
  AnnotationName <> list_recordKey b /\ AnnotationSubnet <> list_recordKey b /\ AnnotationAddressRange <> list_recordKey b.
Proof. by destruct b. Qed.

(** An update that the API server refuses computes the same. *)
Lemma list_update_refused b now err configs ms p : Forall netip.prefix6 ms -> p_list p <> ListWrongType ->
  exists p' u, list_update b now None configs ms p = Some (p', (u, None)) /\ (u = false -> p' = p) /\
    list_update b now err configs ms p = Some (p', (u, if u then err else None)).
Proof.
  intros Hm Hw. assert (forall key desired keyOf own, exists p' u,
    syncOwnedList now None key desired keyOf own p = (p', (u, None)) /\ (u = false -> p' = p) /\
    syncOwnedList now err key desired keyOf own p = (p', (u, if u then err else None))) as Hs.
  { intros key desired keyOf own. unfold syncOwnedList. destruct (p_list p); [|done|]; cbv zeta.
    all: destruct (negb _ && negb _)%bool; eexists _, _; (split; [reflexivity|]); split; done. }
  pose proof (list_update_pass b now configs ms p Hm) as Hpass. destruct b; cbn [list_update] in *.
  - unfold updateLoadBalancerIPPool. destruct (Hs AnnotationManagedBlocks (blockEntry <$> configs) blockKeyOf
      (ownedBlockItem ms (parseOwnershipRecord (recordFor p AnnotationManagedBlocks)))) as (p' & u & -> & Hu & ->). eauto.
  - unfold updateCIDRGroup. destruct (Hs AnnotationManagedCIDRs (cidrEntry <$> configs) cidrKeyOf
      (ownedCIDRItem ms (parseOwnershipRecord (recordFor p AnnotationManagedCIDRs)))) as (p' & u & -> & Hu & ->). eauto.
  - unfold metallb_update in *. destruct (mapM _ _) as [l|]; [|done]. cbn [mbind option_bind].
    destruct (Hs AnnotationManagedAddresses (omap addressEntry configs) addressKeyOf
      (address_owned ms (parseOwnershipRecord (recordFor p AnnotationManagedAddresses)))) as (p' & u & -> & Hu & ->). eauto.
Qed.

Section Rotation.
Context (Set_ : list Condition -> Condition -> list Condition).
Context (Find : list Condition -> string -> option Condition).
Context (laws : condition_laws Set_ Find).
Context (space : netip.Prefix -> Prop).

(** ** One pass of the pool controller *)

Context (error_text : error -> string) (config_text : config_error -> string).

(** The pool as the API server holds it after a pass. *)
Definition stored (s s' : @sync_state world object) (p : pool) : pool :=
  match last (drop (length (ss_written s)) (ss_written s')) with
  | Some (ListObject p') => p'
  | _ => p
  end.

Lemma update_written (e : @sync_env object) dp key err (s : @sync_state world object) :
  ss_written (updatePoolsSyncedCondition Find e dp key err s) = ss_written s.
Proof. by destruct (updatePoolsSyncedCondition_spec Find e dp key err s) as (_ & ? & _). Qed.

(** A pass that finds the resource and its configurations. *)
Lemma list_pass b api err (e : @sync_env object) req dpName dp configs p (s : sync_state) :
  p_annotations p !! AnnotationName = Some dpName -> se_get e dpName = DPFound dp ->
  st_CurrentPrefix (dp_Status dp) <> EmptyString ->
  buildPoolConfigurations dp (p_annotations p !! AnnotationAddressRange) (p_annotations p !! AnnotationSubnet) = Ret configs ->
  Forall netip.prefix6 (collectManagedPrefixes dp) -> p_list p <> ListWrongType ->
  exists p' u s', list_update b (api_now api) None configs (collectManagedPrefixes dp) p = Some (p', (u, None)) /\
    (u = false -> p' = p) /\
    syncPool Find error_text config_text e req (ListObject p) (list_poolBackend b api err) s =
      Some (s', (0, if u then err else None)) /\
    ss_written s' = ss_written s ++ (if u then match err with None => [ListObject p'] | Some _ => [] end else []).
Proof.
  intros Hname Hget Hne Hb Hm Hw.
  destruct (list_update_refused b (api_now api) err configs _ p Hm Hw) as (p' & u & H0 & Hu & Herr).
  exists p', u. unfold syncPool. change (o_annotations (ListObject p)) with (p_annotations p). cbv zeta.
  rewrite Hname, Hget, decide_False by done. rewrite Hb, list_poolBackend_update, Herr. cbn [mbind option_bind].
  destruct u, err; eexists; (split; [done|]); (split; [done|]); (split; [reflexivity|]);
    rewrite update_written; cbn [add_event add_written set_world add_metric ss_written]; by rewrite ?app_nil_r.
Qed.

Lemma stored_nothing (s s' : @sync_state world object) p : ss_written s' = ss_written s ++ [] -> stored s s' p = p.
Proof. intros E. unfold stored. by rewrite E, app_nil_r, drop_all. Qed.

Lemma stored_pool (s s' : @sync_state world object) p p' : ss_written s' = ss_written s ++ [ListObject p'] -> stored s s' p = p'.
Proof. intros E. unfold stored. by rewrite E, drop_app_length. Qed.

(** A pass that cannot build them, or has nothing to build them from. *)
Lemma idle_pass b api err (e : @sync_env object) req dpName dp p (s s' : sync_state) res :
  p_annotations p !! AnnotationName = Some dpName -> se_get e dpName = DPFound dp ->
  (st_CurrentPrefix (dp_Status dp) <> EmptyString -> forall configs,
     buildPoolConfigurations dp (p_annotations p !! AnnotationAddressRange) (p_annotations p !! AnnotationSubnet) <> Ret configs) ->
  syncPool Find error_text config_text e req (ListObject p) (list_poolBackend b api err) s = Some (s', res) ->
  stored s s' p = p.
Proof.
  intros Hname Hget Hno. unfold syncPool. change (o_annotations (ListObject p)) with (p_annotations p). cbv zeta.
  rewrite Hname, Hget. case_decide as E.
  { intros [= <- _]. apply stored_nothing. by rewrite app_nil_r. }
  destruct (buildPoolConfigurations _ _ _) as [c|ce|]; [by destruct (Hno E c)| |done].
  intros [= <- _]. apply stored_nothing. rewrite update_written. by rewrite app_nil_r.
Qed.

(** ** The two controllers together *)

Context (b : list_backend).

(** Every status there has been, the newest first; the pool; the list as the users
    last left it. *)
Record cluster : Type := mkCluster {
  cl_statuses : list DynamicPrefixStatus;
  cl_pool : pool;
  cl_user : list item
}.

(** Nothing in the list looks as if the operator had written it: no entry lies in
    the space the prefixes come from. *)
Definition unmanaged (l : list item) : Prop :=
  forall e ms, e ∈ l -> Forall (delegated space) ms -> list_owned b ms (parseOwnershipRecord None) e = false.

(** A pool no operator has written to. *)
Definition fresh (p : pool) : Prop :=
  p_list p <> ListWrongType /\ recordFor p (list_recordKey b) = None /\ unmanaged (existing p).

Inductive cluster_step : cluster -> cluster -> Prop :=
| step_status statuses c :
    status_step Set_ Find space (cl_statuses c) statuses -> cluster_step c (mkCluster statuses (cl_pool c) (cl_user c))
| step_pool api err e req dpName dp s s' res c :
    p_annotations (cl_pool c) !! AnnotationName = Some dpName -> se_get e dpName = DPFound dp ->
    dp_Status dp ∈ cl_statuses c ->
    syncPool Find error_text config_text e req (ListObject (cl_pool c)) (list_poolBackend b api err) s = Some (s', res) ->
    cluster_step c (mkCluster (cl_statuses c) (stored s s' (cl_pool c)) (cl_user c))
| step_first_edit l c :
    recordFor (cl_pool c) (list_recordKey b) = None -> unmanaged l ->
    cluster_step c (mkCluster (cl_statuses c) (mkPoolObject (ListFound l) (p_annotations (cl_pool c))) l)
| step_edit entries p' c :
    shared_step (list_keyOf b) (list_owned b []) (list_ok b) (list_recordKey b) (cl_pool c) (OpUser entries) p' ->
    cluster_step c (mkCluster (cl_statuses c) p' entries).

(** An entry for addresses of a delegated prefix. *)
Definition entry_given (e : ownedEntry) : Prop := exists c, config_given space c /\ e ∈ list_desired b [c].

(** The pool is the users' list, alone or told apart from the operator's entries
    by the record. *)
Definition pool_of (user : list item) (p : pool) : Prop :=
  fresh p /\ existing p = user \/
  exists mine, represents (list_keyOf b) (list_ok b) (list_recordKey b) (mkShared user mine) p /\ Forall entry_given mine.

Definition cluster_sound (c : cluster) : Prop :=
  Forall (status_sound Find space) (cl_statuses c) /\ pool_of (cl_user c) (cl_pool c).

Lemma pool_of_list user p : pool_of user p -> p_list p <> ListWrongType.
Proof. by intros [[(? & _) _]|[mine [(? & _) _]]]. Qed.

(** A backend writes an entry per configuration. *)
Lemma list_desired_one configs e : e ∈ list_desired b configs -> exists c, c ∈ configs /\ e ∈ list_desired b [c].
Proof.
  destruct b; cbn.
  1,2: intros (c & -> & Hc)%list_elem_of_fmap; exists c; split; [done|]; apply list_elem_of_here.
  intros (c & Hc & He)%list_elem_of_omap. exists c. split; [done|]. rewrite He. apply list_elem_of_here.
Qed.

Lemma claimed_given user configs : Forall (config_given space) configs -> Forall entry_given (sh_mine (pool_shared b user configs)).
Proof.
  rewrite !Forall_forall. intros Hc e (He & _)%claim_sub. apply list_desired_one in He as (c & Hin & He).
  exists c. split; [by apply Hc|done].
Qed.

(** An update of such a pool, by what it desires alone. *)
Lemma update_pool_of x user p p' res : pass_good x -> Forall (delegated space) (pp_managed x) -> pool_of user p ->
  list_update b (pp_now x) None (pp_configs x) (pp_managed x) p = Some (p', res) -> pool_holds b user (pp_configs x) p'.
Proof.
  intros Hx Hd [[(Hw & Hr & Hun) <-]|[mine [Hrep _]]] Hup.
  - destruct (first_update_holds b x p Hx Hw Hr) as (p1 & r1 & E & Hp1); [intros e He; by apply Hun|].
    rewrite E in Hup. by injection Hup as <- _.
  - destruct Hx as [Hc Hm]. rewrite list_update_pass in Hup by done.
    destruct (sync_pass_represents (list_keyOf b) (list_owned b (pp_managed x)) (list_ok b) (list_recordKey b)
      (list_recordKey_ne b) (pp_now x) (list_desired b (pp_configs x)) _ p Hrep) as [Hrep' Hl']; [by apply list_desired_ok|].
    injection Hup as Hup. rewrite Hup in Hrep', Hl'. by split.
Qed.

Lemma pass_sound dp now configs ar sn : status_sound Find space (dp_Status dp) -> st_CurrentPrefix (dp_Status dp) <> EmptyString ->
  buildPoolConfigurations dp ar sn = Ret configs ->
  pass_good (mkPass now configs (collectManagedPrefixes dp)) /\ Forall (config_given space) configs.
Proof.
  intros Hs Hne E. pose proof (sound_configs Find space dp ar sn Hs Hne) as H. rewrite E in H.
  destruct H as [H _]. split; [|done]. split; [by eapply given_good|by eapply sound_managed].
Qed.

Lemma pool_step_sound api err e req dpName dp s s' res user p :
  p_annotations p !! AnnotationName = Some dpName -> se_get e dpName = DPFound dp -> status_sound Find space (dp_Status dp) ->
  pool_of user p ->
  syncPool Find error_text config_text e req (ListObject p) (list_poolBackend b api err) s = Some (s', res) ->
  pool_of user (stored s s' p).
Proof.
  intros Hname Hget Hs Hp Hrun.
  destruct (decide (st_CurrentPrefix (dp_Status dp) = EmptyString)) as [E|Hne].
  { erewrite idle_pass by (done || eauto). done. }
  destruct (buildPoolConfigurations dp (p_annotations p !! AnnotationAddressRange) (p_annotations p !! AnnotationSubnet))
    as [configs|ce|] eqn:Hb.
  2,3: erewrite idle_pass; [done|done|done|by intros _ c; rewrite Hb|done].
  destruct (list_pass b api err e req dpName dp configs p s Hname Hget Hne Hb (sound_managed Find space dp Hs) (pool_of_list _ _ Hp))
    as (p' & u & s1 & Hup & Hu & Hrun' & Hw).
  rewrite Hrun' in Hrun. injection Hrun as -> _.
  destruct u, err; try by rewrite (stored_nothing s s' p Hw).
  rewrite (stored_pool s s' p p' Hw). right. destruct (pass_sound dp (api_now api) configs _ _ Hs Hne Hb) as [Hgood Hgiven].
  eexists. split; [|by apply (claimed_given user)].
  by apply (update_pool_of (mkPass (api_now api) configs (collectManagedPrefixes dp)) user p p' (true, None));
    [|eapply sound_delegated|..].
Qed.

Lemma step_sound c c' : cluster_sound c -> cluster_step c c' -> cluster_sound c'.
Proof.
  intros [Hst Hp] Hstep. pose proof (proj1 (Forall_forall _ _) Hst) as Hin. destruct Hstep as
    [statuses c Hstatus|api err e req dpName dp s s' res c Hname Hget Hdp Hrun
    |l c Hr Hun|entries p' c Hedit]; split; cbn [cl_statuses cl_pool cl_user]; try done.
  - by eapply status_step_sound.
  - eapply pool_step_sound; [done|done|by apply Hin|done|done].
  - left. split; [|done]. by split.
  - destruct Hp as [[(_ & Hr & _) _]|[mine [Hrep Hg]]].
    { inversion Hedit as [|p l0 e0 ks Hrec]; subst. congruence. }
    right. exists mine. split; [|done].
    exact (shared_step_refines (list_keyOf b) (list_owned b []) (list_ok b) (list_recordKey b) (list_recordKey_ne b) _ _ _ _ Hedit Hrep).
Qed.

Lemma start_sound p : fresh p -> cluster_sound (mkCluster [no_status] p (existing p)).
Proof.
  intros Hf. split; [|by left; split]. constructor; [apply no_status_sound|done].
Qed.

(** Nothing in the list but the users' entries and those of delegated prefixes. *)
Lemma pool_entries user p x : pool_of user p -> x ∈ existing p -> x ∈ user \/ exists e, entry_given e /\ x = oe_value e.
Proof.
  intros [[_ <-]|[mine [(_ & _ & _ & Hu & Hm) Hg]]] Hx; [by left|]. cbn in Hu, Hm.
  destruct (decide (list_keyOf b x ∈ oe_key <$> mine)) as [Hin|Hin].
  - right. assert (x ∈ oe_value <$> mine) as (e & -> & He)%list_elem_of_fmap by (rewrite <- Hm; by apply list_elem_of_filter).
    exists e. rewrite Forall_forall in Hg. split; [by apply Hg|done].
  - left. rewrite <- Hu. by apply list_elem_of_filter.
Qed.

(** C7 Rotations reach the pool, whatever happens on the way.  From a new resource
    and a pool no operator has written to, through any interleaving of reconciles of
    both controllers on caches of any age, refused writes, other writers of
    conditions and edits of the list by users: one pass of the pool controller that
    reads any of the statuses and whose write succeeds leaves the users' entries as
    they last left them, in order, followed by one entry for each configuration of
    that status they do not list themselves, and the next such pass writes nothing.
    The configurations lie in the prefixes the status manages and begin with the
    current one, unless the status says that it is degraded; they exist unless a
    range or subnet was asked for that the status does not have. *)
Theorem rotation_reaches_pool (p0 : pool) (c : cluster) (api : calico_api) (e : sync_env) (req dpName : string)
    (dp : DynamicPrefix) (s : sync_state) :
  fresh p0 -> run cluster_step (mkCluster [no_status] p0 (existing p0)) c ->
  p_annotations (cl_pool c) !! AnnotationName = Some dpName -> se_get e dpName = DPFound dp ->
  dp_Status dp ∈ cl_statuses c -> st_CurrentPrefix (dp_Status dp) <> EmptyString ->
  let ar := p_annotations (cl_pool c) !! AnnotationAddressRange in
  let sn := p_annotations (cl_pool c) !! AnnotationSubnet in
  let sync p s := syncPool Find error_text config_text e req (ListObject p) (list_poolBackend b api None) s in
  match buildPoolConfigurations dp ar sn with
  | Ret configs =>
      (degraded Find (dp_Status dp) \/ configs_ok dp configs) /\
      exists s' p', sync (cl_pool c) s = Some (s', (0, None)) /\ stored s s' (cl_pool c) = p' /\
        existing p' = cl_user c ++
          (oe_value <$> claim (pins (list_keyOf b) (cl_user c)) empty (list_desired b configs)) /\
        forall s1, exists s1', sync p' s1 = Some (s1', (0, None)) /\ ss_written s1' = ss_written s1
  | Fail _ => not_in_status dp ar sn
  | Panic => False
  end.
Proof.
  intros Hfresh Hrun Hname Hget Hin Hne ar sn sync.
  assert (cluster_sound c) as [Hst Hp] by (eapply (run_invariant cluster_step cluster_sound step_sound); [done|by apply start_sound]).
  rewrite Forall_forall in Hst. specialize (Hst _ Hin). pose proof (sound_configs Find space dp ar sn Hst Hne) as Hc.
  destruct (buildPoolConfigurations dp ar sn) as [configs|ce|] eqn:Hb; [|done..].
  split; [apply Hc|]. pose proof (sound_managed Find space dp Hst) as Hm. pose proof (pool_of_list _ _ Hp) as Hw.
  destruct (list_pass b api None e req dpName dp configs (cl_pool c) s Hname Hget Hne Hb Hm Hw) as (p' & u & s' & Hup & Hu & Hs & Hwr).
  pose proof (pass_sound dp (api_now api) configs ar sn Hst Hne Hb) as [Hgood _].
  pose proof (update_pool_of _ _ _ _ _ Hgood (sound_delegated Find space dp Hst) Hp Hup) as Hholds.
  exists s', p'. split; [unfold sync; by destruct u|].
  split. { destruct u; [by apply stored_pool|]. rewrite Hu by done. by apply stored_nothing. }
  split; [apply Hholds|]. intros s1.
  destruct (pool_annotations_kept b) as (N1 & N2 & N3).
  assert (forall key, key <> list_recordKey b -> key <> AnnotationLastSync ->
    p_annotations p' !! key = p_annotations (cl_pool c) !! key) as Hkept by (intros; by eapply list_update_annotations).
  destruct (list_pass b api None e req dpName dp configs p' s1) as (p2 & u2 & s2 & Hup2 & _ & Hs2 & Hwr2);
    [by rewrite Hkept|done|done|by rewrite !Hkept|done|apply Hholds|].
  pose proof (repeated_update b (mkPass (api_now api) configs (collectManagedPrefixes dp)) _ p' Hm Hholds) as Hrep.
  cbn [pp_now pp_configs pp_managed] in Hrep. rewrite Hup2 in Hrep. injection Hrep as -> ->.
  exists s2. split; [exact Hs2|]. by rewrite Hwr2, app_nil_r.
Qed.
End Rotation.

(** ** A pool over two prefixes and an edit *)

Definition rotation_env (st : DynamicPrefixStatus) : @sync_env object :=
  mkSyncEnv 7 (fun n => if decide (n = "home") then DPFound (sample_dp st) else DPError NotFound) (fun _ _ => None) (fun _ => None).

Definition new_pool : pool := mkPoolObject (ListFound []) {[ AnnotationName := "home" ]}.

Definition synced_pool : pool :=
  match list_update CIDRGroup "t1" None (match buildPoolConfigurations (sample_dp first_status) None None with Ret l => l | _ => [] end)
          (collectManagedPrefixes (sample_dp first_status)) new_pool with
  | Some (p, _) => p
  | None => new_pool
  end.

Definition edited_pool : pool :=
  mkPoolObject (ListFound (ItemString "10.0.0.0/8" :: existing synced_pool)) (p_annotations synced_pool).

Lemma rotation_reaches_pool_witness :
  exists s' p',
    syncPool list_FindStatusCondition sample_text sample_text (rotation_env second_status) "/lan" (ListObject edited_pool)
      (list_poolBackend CIDRGroup sample_api None) (sample_state empty) = Some (s', (0, None)) /\
    stored (sample_state empty) s' edited_pool = p' /\
    existing p' = [ItemString "10.0.0.0/8"; ItemString "2001:db8:3400::/48"; ItemString "2001:db8:1200::/48"].
Proof.
  set (c := mkCluster [second_status; first_status; no_status] edited_pool [ItemString "10.0.0.0/8"]).
  assert (fresh sample_space CIDRGroup new_pool) as Hfresh.
  { split; [done|]. split; [reflexivity|]. intros x ms Hx. by apply elem_of_nil in Hx. }
  assert (run (cluster_step list_SetStatusCondition list_FindStatusCondition sample_space sample_text sample_text CIDRGroup)
    (mkCluster [no_status] new_pool (existing new_pool)) c) as Hrun.
  { eapply run_step; [apply step_status, rotation_first|].
    eapply run_step.
    { eapply (step_pool _ _ _ _ _ _ sample_api None (rotation_env first_status) "/lan" "home" (sample_dp first_status)
        (sample_state empty)); [reflexivity|reflexivity|by apply list_elem_of_here|vm_compute; reflexivity]. }
    eapply run_step.
    { eapply (step_edit _ _ _ _ _ CIDRGroup [ItemString "10.0.0.0/8"] edited_pool).
      replace (cl_pool _) with synced_pool by (vm_compute; reflexivity).
      eapply (step_user _ _ _ _ synced_pool _ _ ["2001:db8:1200::/48"]); vm_compute; try reflexivity.
      repeat constructor; vm_compute; done. }
    eapply run_step; [apply step_status, rotation_second|apply run_refl]. }
  assert (st_CurrentPrefix (dp_Status (sample_dp second_status)) <> EmptyString) as Hne by (vm_compute; discriminate).
  pose proof (rotation_reaches_pool list_SetStatusCondition list_FindStatusCondition list_condition_laws sample_space
    sample_text sample_text CIDRGroup new_pool c sample_api (rotation_env second_status) "/lan" "home" (sample_dp second_status) (sample_state empty)
    Hfresh Hrun eq_refl eq_refl (list_elem_of_here _ _) Hne) as H.
  cbv zeta in H. destruct (buildPoolConfigurations _ _ _) as [configs| |] eqn:E; [|vm_compute in E; discriminate..].
  destruct H as (_ & s' & p' & Hs & Hst & Hex & _). exists s', p'. split; [exact Hs|]. split; [exact Hst|].
  rewrite Hex. vm_compute in E. injection E as <-. vm_compute. reflexivity.
Defined.
