(* ===== verification/ServiceRotation.v ===== *)
(** * From a prefix to a Service

    The DynamicPrefix controller and the Service controller together, over one
    resource and one LoadBalancer Service: reconciles of either, in any order and on
    caches of any age, writes that fail, resources that vanish or leave HA mode, and
    users that edit the Service. *)

From S2P Require Import Prelude GoStrings Netip NetipText Policy Subnet AddressRange Receivers Factory DynamicPrefix.
From S2P Require Import Ownership ListBackends PoolConfigs PoolBackends CalicoSiblings PoolSync.
From S2P Require Import ServiceAddrs ServiceSync ServiceLife Statuses.

(** ** The texts of addresses *)

(** The IPs of a load balancer's status: addresses, which have no zone, or nothing
    in an entry that is a host name. *)
Definition ingress_ok (ingress : list string) : Prop :=
  Forall (fun ip => ip = EmptyString \/ exists a, netiptext.ParseAddr ip = Some a /\ netip.hasZone a = false) ingress.

Lemma entry_key_text s : entry_text s -> key_text s.
Proof. intros H. apply key_text_bytes; [by apply entry_text_ne|by apply entry_text_key_bytes]. Qed.

Lemma text_in_key p s : text_in p s -> key_text s.
Proof. intros (a & Ha & H6 & _). by eapply entry_key_text, addr6_text. Qed.

Lemma hosts_text dp current x : tracked dp current -> Forall key_text (hosts_of dp current x).
Proof.
  intros (_ & Hp & Hh). apply Forall_forall. intros s (p & -> & Hin)%list_elem_of_fmap.
  assert (netip.prefix6 p) as H6 by (apply elem_of_cons in Hin as [->|?]; [done|by apply Hh]).
  destruct (host_in_prefix p x H6). by eapply text_in_key, text_in_addr.
Qed.

Lemma getCurrentServiceIP_in ingress : getCurrentServiceIP ingress <> EmptyString -> getCurrentServiceIP ingress ∈ ingress.
Proof.
  unfold getCurrentServiceIP. set (ips := filter _ _). intros Hne.
  assert (forall ip, ip ∈ ips -> ip ∈ ingress) as Hsub by by intros ip [_ ?]%list_elem_of_filter.
  destruct (List.find _ ips) as [ip|] eqn:Hf.
  - apply Hsub. apply find_some in Hf as [Hf _]. by apply list_elem_of_In.
  - apply Hsub. destruct ips as [|ip ips']; [done|]. apply list_elem_of_here.
Qed.

Lemma assigned_text ingress : ingress_ok ingress -> getCurrentServiceIP ingress <> EmptyString ->
  exists a, netiptext.ParseAddr (getCurrentServiceIP ingress) = Some a /\ netip.hasZone a = false.
Proof.
  intros Hi Hne. unfold ingress_ok in Hi. rewrite Forall_forall in Hi.
  by destruct (Hi _ (getCurrentServiceIP_in ingress Hne)) as [|?].
Qed.

(** The suffix mode, whatever it is given. *)
Lemma calculateSuffixIPs_hosts dp current suffix r : tracked dp current -> calculateSuffixIPs dp suffix = Ret r ->
  exists x, netiptext.ParseAddr suffix = Some x /\ r.1 = hosts_of dp current (netip.addr x).
Proof.
  intros Ht Hr. destruct (netiptext.ParseAddr suffix) as [x|] eqn:Hx.
  2: { unfold calculateSuffixIPs in Hr. by rewrite Hx in Hr. }
  exists x. split; [done|]. pose proof (ParseAddr_wf _ _ Hx) as [_ Hv].
  destruct (netip.Is4 x) eqn:H4; [unfold calculateSuffixIPs in Hr; by rewrite Hx, H4 in Hr|].
  rewrite (calculateSuffixIPs_6 dp current suffix x) in Hr; [by injection Hr as <-|done|done|].
  unfold netip.Is4, netip.Is6, netip.IsValidAddr in *. by destruct (netip.z x).
Qed.

Lemma keeps_assigned_text dp a r all c : keeps_assigned dp a r -> netip.addr_wf a -> netip.IsValidAddr a = true ->
  netip.hasZone a = false -> r = Ret (c, all) -> Forall key_text all.
Proof.
  intros Hk Ha Hv Hz ->. destruct Hk as (-> & older & -> & Ho). constructor.
  - apply entry_key_text. right. exists a. split; [by apply ParseAddr_String|done].
  - apply Forall_forall. intros s Hs. destruct (Ho s Hs) as (p & _ & Ht). by eapply text_in_key.
Qed.

Lemma calculateServiceIPs_text dp current annotations s a r : tracked dp current ->
  netiptext.ParseAddr s = Some a -> netip.hasZone a = false ->
  calculateServiceIPs dp annotations s = Ret r -> Forall key_text r.1.
Proof.
  intros Ht Hs Hz. pose proof (ParseAddr_wf _ _ Hs) as [Hwf Hv]. pose proof Ht as (Hc & Hp & _).
  assert (Forall key_text [s]) as Hself by (constructor; [apply entry_key_text; right; by exists a|constructor]).
  unfold calculateServiceIPs. rewrite Hs. cbv zeta. case_decide; [|case_decide].
  - pose proof (range_mode_keeps dp current a (either_annotation annotations AnnotationServiceAddressRange AnnotationAddressRange)
      Ht Hwf) as Hk.
    destruct (calculateAddressRangeIPs _ _ _ _) as [[c all]|e|] eqn:E; [|by intros <-%ret_inj|done].
    intros <-%ret_inj. by eapply keeps_assigned_text.
  - pose proof (subnet_mode_keeps dp current a (either_annotation annotations AnnotationServiceSubnet AnnotationSubnet)
      Ht Hwf) as Hk.
    destruct (calculateSubnetIPs _ _ _ _) as [[c all]|e|] eqn:E; [|by intros <-%ret_inj|done].
    intros <-%ret_inj. by eapply keeps_assigned_text.
  - unfold calculateInferredSuffixIPs. rewrite Hc. cbv zeta. case_match; [by intros <-%ret_inj|].
    rewrite (history_hosts dp current a Ht Hwf), combinePrefixSuffix_6 by done. cbn [obind].
    pose proof (hosts_text dp current (netip.addr a) Ht) as Htext. revert Htext. unfold hosts_of. rewrite fmap_cons.
    by destruct (netiptext.AddrString (host_in current (netip.addr a))); intros ? <-%ret_inj.
Qed.

(** What is asked for a Service: entries of a comma-separated list. *)
Lemma addresses_text dp current ingress annotations all c : tracked dp current -> ingress_ok ingress ->
  addressesForService dp ingress annotations = Ret (Addresses all c) -> Forall key_text all.
Proof.
  intros Ht Hi. unfold addressesForService. destruct (annotations !! AnnotationSuffix) as [[|ch suffix]|].
  2: { intros (r & Hr%wrap_err_ret & E)%obind_ret. injection E as <- <-.
       destruct (calculateSuffixIPs_hosts dp current _ r Ht Hr) as (x & _ & ->). by apply hosts_text. }
  all: case_decide as Hne; [done|]; intros (r & Hr%wrap_err_ret & E)%obind_ret; injection E as <- <-;
    destruct (assigned_text ingress Hi Hne) as (a & Ha & Hz); by eapply calculateServiceIPs_text.
Qed.

(** A status of the controller is one the calculations are made for. *)
Lemma sound_tracked Find space dp : status_sound Find space (dp_Status dp) ->
  st_CurrentPrefix (dp_Status dp) <> EmptyString -> exists current, tracked dp current /\ delegated space current.
Proof.
  intros (Hh & _ & [|(base & Hb & Hd & _)]) Hne; [done|]. exists base. split; [|done]. split; [done|].
  split; [apply Hd|]. intros p (e & He & Hp)%list_elem_of_omap. apply elem_of_take in He as (i & He & _).
  rewrite Forall_forall in Hh. destruct (Hh e) as (b & Hb' & [H6 _]); [by eapply list_elem_of_lookup_2|]. congruence.
Qed.

(** ** A list told apart by a record *)

Lemma dedupe_pinned l seen : (forall x, x ∈ l -> canonicalEntry x ∈ seen) -> dedupe_from seen l = [].
Proof.
  induction l as [|x l IH]; intros H; [done|]. cbn [dedupe_from]. rewrite decide_True by (apply H, list_elem_of_here).
  apply IH. intros y Hy. by apply H, list_elem_of_further.
Qed.

Lemma format_blank l : Forall key_text l -> formatOwnershipRecord l = EmptyString -> l = [].
Proof. intros Hl E. rewrite <- (record_items_format l Hl), E. reflexivity. Qed.

Lemma dedupe_claimed_none user mine : Forall key_text user -> Forall key_text mine ->
  excludePinned mine user = [] -> dedupePreservingOrder (user ++ mine) = dedupePreservingOrder user.
Proof.
  intros Hu Hm. rewrite excludePinned_clean by done. intros E. rewrite dedupe_app, dedupe_pinned, app_nil_r; [done|].
  intros x Hx. destruct (decide (canonicalEntry x ∈ keys_of user)) as [|Hn]; [done|].
  assert (x ∈ filter (fun c => canonicalEntry c ∉ keys_of user) mine) as Hf by by apply list_elem_of_filter.
  rewrite E in Hf. by apply elem_of_nil in Hf.
Qed.

Lemma excludePinned_dedupe mine user : Forall key_text user -> Forall key_text mine ->
  excludePinned mine (dedupePreservingOrder user) = excludePinned mine user.
Proof. intros Hu Hm. rewrite !excludePinned_clean by eauto using Forall_dedupe. by rewrite dedupe_keys. Qed.

Lemma dedupe_idem l : dedupePreservingOrder (dedupePreservingOrder l) = dedupePreservingOrder l.
Proof. apply dedupe_from_idem. Qed.

(** Without a managed prefix nothing but the record tells the entries apart. *)
Lemma unmanaged_nil e : unmanaged [] e = true.
Proof. unfold unmanaged. destruct (netiptext.ParseAddr e); [|done]. by case_match. Qed.

Lemma preserve_unmanaged field record ms :
  Forall (fun e => unmanaged ms e = true) (preserveUnownedIPs field record []) ->
  preserveUnownedIPs field record ms = preserveUnownedIPs field record [].
Proof.
  unfold preserveUnownedIPs, extractUnmanagedIPs. destruct (negb (rec_present record)); [|done].
  rewrite (filter_all_true (fun raw => unmanaged [] raw = true)) by (intros; apply unmanaged_nil).
  rewrite Forall_forall. intros H. by apply filter_all_true.
Qed.

(** A record of nothing is as good as none. *)
Lemma preserve_blank field record : default EmptyString record = EmptyString ->
  preserveUnownedIPs field (parseOwnershipRecord record) [] = record_items field.
Proof.
  intros E. unfold preserveUnownedIPs, extractUnmanagedIPs. destruct record as [r|]; cbn in *.
  - subst r. apply filter_all_true. intros x _. unfold owns. cbn. apply bool_decide_false. by intros ?%elem_of_empty.
  - apply filter_all_true. intros x _. apply unmanaged_nil.
Qed.

(** ** What reconciles leave alone *)

(** A release writes once or not at all. *)
Lemma release_writes env annotations :
  let res := releaseService env annotations in
  sr_writes res = [] \/
  exists w, sr_writes res = [w] /\
    forall k, k <> AnnotationLastSync -> k <> AnnotationL2Nudge -> w !! k = released_value annotations k.
Proof.
  cbv zeta. unfold releaseService, released_value. destruct (foldl _ _ _) as [new1 changed]. cbn [fst].
  destruct changed; cbn [negb]; [|by left]. destruct (sve_update env _); [by left|]. right. eexists. split; [reflexivity|].
  intros k H1 H2. by rewrite !lookup_delete_ne.
Qed.

Lemma plan_other configured ingress annotations field allIPs currentIP ms k :
  field ∈ lb_fields -> k ∉ dns_keys configured ->
  k ∉ [AnnotationCiliumIPs; AnnotationKubevipLBIPs; AnnotationManagedIPs] ->
  pl_annotations (plan_annotations configured ingress annotations field allIPs currentIP ms) !! k = annotations !! k.
Proof.
  intros Hf Hd Hk. destruct (plan_dns configured ingress annotations field allIPs currentIP ms Hf) as (new & Hn & -> & _).
  rewrite syncExternalDNSTarget_other by done. by apply Hn.
Qed.

(** ** The two controllers together *)

Section ServiceRotation.
Context (Set_ : list Condition -> Condition -> list Condition).
Context (Find : list Condition -> string -> option Condition).
Context (laws : condition_laws Set_ Find).
Context (space : netip.Prefix -> Prop).
Context (configured : list string) (provider : lb_provider) (field : string).
Context (Hkeys : keys_ok configured) (Hreads : AnnotationLBProvider ∉ targetAnnotationKeys configured).

(** An entry of the user's: no address out of the space the prefixes come from. *)
Definition user_entry (e : string) : Prop :=
  key_text e /\ forall ms, Forall (delegated space) ms -> unmanaged ms e = true.

(** The entries of the field the record does not name. *)
Definition others (annotations : gmap string string) : list string :=
  preserveUnownedIPs (ann annotations field) (parseOwnershipRecord (annotations !! AnnotationManagedIPs)) [].

(** A Service of the provider whose unrecorded entries are the user's. *)
Definition shared_service (annotations : gmap string string) : Prop :=
  Forall user_entry (others annotations) /\ ann annotations (otherLBAddressAnnotation field) = EmptyString /\
  lbAddressAnnotationFor annotations = Some (provider, field).

(** Every status there has been; the Service's annotations; the user's entries as
    the user last left them, without repetitions. *)
Record service_cluster : Type := mkServiceCluster {
  sc_statuses : list DynamicPrefixStatus;
  sc_annotations : gmap string string;
  sc_user : list string
}.

(** The resources a reconcile is shown have statuses there have been. *)
Definition shows (statuses : list DynamicPrefixStatus) (env : svc_env) : Prop :=
  forall name dp, sve_get env name = DPFound dp -> dp_Status dp ∈ statuses.

(** The annotations a reconcile leaves behind. *)
Definition left_by (res : svc_result) (annotations : gmap string string) : gmap string string :=
  default annotations (last (sr_writes res)).

Inductive service_cluster_step : service_cluster -> service_cluster -> Prop :=
| step_statuses statuses c :
    status_step Set_ Find space (sc_statuses c) statuses ->
    service_cluster_step c (mkServiceCluster statuses (sc_annotations c) (sc_user c))
| step_service env ingress loadBalancer res c :
    shows (sc_statuses c) env -> ingress_ok ingress ->
    Reconcile configured env (inl (mkService loadBalancer (sc_annotations c) ingress)) = Some res ->
    service_cluster_step c (mkServiceCluster (sc_statuses c) (left_by res (sc_annotations c)) (sc_user c))
| step_user_edit annotations c :
    annotations !! AnnotationManagedIPs = sc_annotations c !! AnnotationManagedIPs -> shared_service annotations ->
    service_cluster_step c (mkServiceCluster (sc_statuses c) annotations (dedupePreservingOrder (others annotations))).

Definition service_cluster_sound (c : service_cluster) : Prop :=
  Forall (status_sound Find space) (sc_statuses c) /\ shared_service (sc_annotations c) /\
  dedupePreservingOrder (others (sc_annotations c)) = sc_user c.

(** What a plan or a release leaves: the same entries of the user's. *)
Definition keeps_user (annotations annotations' : gmap string string) : Prop :=
  shared_service annotations' /\
  dedupePreservingOrder (others annotations') = dedupePreservingOrder (others annotations).

Lemma shared_field annotations : shared_service annotations -> field ∈ lb_fields.
Proof. intros (_ & _ & H). by eapply provider_field. Qed.

(** Only four annotations matter. *)
Lemma shared_ext a a' :
  (forall k, k ∈ [AnnotationCiliumIPs; AnnotationKubevipLBIPs; AnnotationManagedIPs; AnnotationLBProvider] -> a' !! k = a !! k) ->
  field ∈ lb_fields -> (shared_service a -> shared_service a') /\ others a' = others a.
Proof.
  intros H Hf. assert (forall f, f ∈ lb_fields -> ann a' f = ann a f) as Hann.
  { intros f Hfl. apply ann_same, H. apply lb_field_cases in Hfl as [->| ->]; list_mem. }
  assert (others a' = others a) as Ho by (unfold others; by rewrite (Hann field), H by (done || list_mem)).
  split; [|done]. intros (H1 & H2 & H3). split; [by rewrite Ho|]. destruct (other_field field Hf) as [Hof _].
  split; [by rewrite Hann|]. rewrite <- H3. unfold lbAddressAnnotationFor.
  by rewrite (ann_same a a') by (apply H; list_mem).
Qed.

Lemma user_text l : Forall user_entry l -> Forall key_text l.
Proof. intros H. eapply Forall_impl; [exact H|]. by intros e []. Qed.

(** Every status that is read tells the entries apart the same way. *)
Lemma shared_preserve annotations ms : shared_service annotations -> Forall (delegated space) ms ->
  preserveUnownedIPs (ann annotations field) (parseOwnershipRecord (annotations !! AnnotationManagedIPs)) ms = others annotations.
Proof.
  intros (Hu & _) Hm. apply preserve_unmanaged. eapply Forall_impl; [exact Hu|]. intros e [_ He]. by apply He.
Qed.

Lemma plan_provider ingress annotations allIPs currentIP ms : field ∈ lb_fields ->
  pl_annotations (plan_annotations configured ingress annotations field allIPs currentIP ms) !! AnnotationLBProvider =
    annotations !! AnnotationLBProvider.
Proof.
  intros Hf. apply plan_other; [done| |list_mem].
  intros [E|[Hin|Hin]%elem_of_app]%elem_of_cons; [discriminate E|done|].
  revert Hin. apply (bool_decide_unpack _). vm_compute. exact I.
Qed.

(** A plan over the addresses of a sound status. *)
Lemma plan_shared ingress annotations allIPs currentIP ms :
  shared_service annotations -> Forall (delegated space) ms -> Forall key_text allIPs ->
  let a' := pl_annotations (plan_annotations configured ingress annotations field allIPs currentIP ms) in
  keeps_user annotations a' /\
  record_items (ann a' field) = dedupePreservingOrder (others annotations ++ allIPs) /\
  ann a' AnnotationManagedIPs = formatOwnershipRecord (excludePinned allIPs (others annotations)).
Proof.
  intros Hs Hm Htext a'. pose proof (shared_field _ Hs) as Hf. pose proof Hs as (Hu & Hother & Hprov).
  pose proof (user_text _ Hu) as HuT.
  destruct (plan_addresses configured ingress annotations field allIPs currentIP ms Hkeys Hf) as (H1 & H2 & H3 & H4).
  rewrite shared_preserve in * by done. fold a' in H1, H2, H3, H4. rewrite decide_True in H4 by done.
  set (U := others annotations) in *. set (claimed := formatOwnershipRecord (excludePinned allIPs U)) in *.
  assert (record_items (ann a' field) = dedupePreservingOrder (U ++ allIPs)) as Hitems.
  { rewrite H1. apply items_of_join. by apply Forall_dedupe, Forall_app. }
  assert (others a' = dedupePreservingOrder U) as Ho.
  { destruct (decide (claimed = EmptyString)) as [E|Hne].
    - unfold others. rewrite preserve_blank by (unfold ann in H2; congruence). rewrite Hitems. apply dedupe_claimed_none; [done..|].
      apply format_blank; [|done]. rewrite excludePinned_clean by done. by apply Forall_kept.
    - unfold others. rewrite (H3 (or_intror Hne)).
      apply (comma_preserve (dedupePreservingOrder U) allIPs). split; [apply dedupe_idem|].
      split; [by apply Forall_dedupe|]. split; [done|]. rewrite dedupe_app_head. split; [exact H1|].
      by rewrite excludePinned_dedupe. }
  split; [|split; [exact Hitems|exact H2]]. split; [|by rewrite Ho, dedupe_idem].
  split; [rewrite Ho; by apply Forall_dedupe|]. split; [exact H4|]. rewrite <- Hprov.
  unfold lbAddressAnnotationFor. by rewrite (ann_same annotations a') by by apply plan_provider.
Qed.

(** A release hands back exactly these entries. *)
Lemma release_shared annotations w : shared_service annotations ->
  (forall k, k <> AnnotationLastSync -> k <> AnnotationL2Nudge -> w !! k = released_value annotations k) ->
  keeps_user annotations w /\ w !! AnnotationManagedIPs = None /\ record_items (ann w field) = others annotations.
Proof.
  intros Hs Hw. pose proof (shared_field _ Hs) as Hf. pose proof Hs as (Hu & Hother & Hprov).
  assert (w !! AnnotationLBProvider = annotations !! AnnotationLBProvider) as Hlb
    by (rewrite Hw by discriminate; apply released_other; list_mem).
  assert (forall f, f ∈ lb_fields -> w !! f = released_value annotations f) as HwF
    by (intros f Hfl; apply Hw; by apply lb_field_cases in Hfl as [->| ->]).
  destruct (other_field field Hf) as [Hof _].
  destruct (annotations !! AnnotationManagedIPs) as [r|] eqn:Hr.
  - destruct (released_addresses annotations r Hr) as [H1 H2].
    assert (w !! AnnotationManagedIPs = None) as Hnone by by rewrite Hw by discriminate.
    assert (forall f, f ∈ lb_fields -> ann w f =
      join "," (preserveUnownedIPs (ann annotations f) (parseOwnershipRecord (Some r)) [])) as HannW.
    { intros f Hfl. unfold ann at 1. rewrite HwF, H2 by done. apply default_text. }
    assert (record_items (ann w field) = others annotations) as Hitems.
    { rewrite HannW by done. unfold others. rewrite Hr. apply items_of_join. unfold others in Hu. rewrite Hr in Hu.
      by apply user_text. }
    assert (others w = others annotations) as Ho by (unfold others at 1; by rewrite Hnone, preserve_blank).
    split; [|by split]. split; [|by rewrite Ho]. split; [by rewrite Ho|].
    split; [rewrite HannW, Hother by done; reflexivity|]. rewrite <- Hprov. unfold lbAddressAnnotationFor.
    by rewrite (ann_same annotations w).
  - assert (forall k, k ∈ [AnnotationCiliumIPs; AnnotationKubevipLBIPs; AnnotationManagedIPs; AnnotationLBProvider] ->
      w !! k = annotations !! k) as Hsame.
    { intros k Hk. rewrite Hw by (intros ->; revert Hk; apply (bool_decide_unpack _); vm_compute; exact I).
      unfold released_value, released_fields. cbn [foldl]. rewrite !release_field_lookup, Hr. cbn [fst].
      destruct (annotations !! AnnotationManagedTargets); [|done].
      rewrite !decide_False by (intros ->; revert Hk; apply (bool_decide_unpack _); vm_compute; exact I). done. }
    destruct (shared_ext annotations w Hsame Hf) as [Hsh Ho]. split; [split; [by apply Hsh|by rewrite Ho]|].
    split; [by rewrite Hsame by list_mem|]. rewrite (ann_same annotations w)
      by (apply Hsame; by apply lb_field_cases in Hf as [->| ->]; list_mem).
    unfold others. by rewrite Hr, preserve_blank.
Qed.

Lemma keeps_user_refl annotations : shared_service annotations -> keeps_user annotations annotations.
Proof. by split. Qed.

Lemma keeps_user_ext a a' w : keeps_user a a' -> (forall k, k <> AnnotationLastSync -> k <> AnnotationL2Nudge -> w !! k = a' !! k) ->
  keeps_user a w.
Proof.
  intros [Hs He] Hw. destruct (shared_ext a' w) as [Hsh Ho]; [|by eapply shared_field|].
  - intros k Hk. apply Hw; intros ->; revert Hk; apply (bool_decide_unpack _); vm_compute; exact I.
  - split; [by apply Hsh|]. by rewrite Ho.
Qed.

Lemma left_by_cases res annotations : left_by res annotations = annotations \/ left_by res annotations ∈ sr_writes res.
Proof.
  unfold left_by. destruct (last (sr_writes res)) as [w|] eqn:E; [right|by left]. cbn. by apply last_Some_elem_of.
Qed.

(** A reconcile that has addresses. *)
Lemma sync_service_plan env annotations ingress dp allIPs currentIP :
  shared_service annotations -> Forall key_text allIPs ->
  addressesForService dp ingress annotations = Ret (Addresses allIPs currentIP) ->
  sync_service configured env (mkService true annotations ingress) dp =
    Some (apply_plan env provider annotations ingress currentIP
      (plan_annotations configured ingress annotations field allIPs currentIP (collectManagedPrefixes dp))).
Proof.
  intros (_ & _ & Hprov) Htext Ha. pose proof (addressesForService_head _ _ _ _ _ Ha) as Hh. unfold sync_service.
  cbn [sv_annotations sv_ingress]. rewrite Ha, decide_False, Hprov; [done|].
  destruct allIPs as [|x l]; [done|]. injection Hh as ->. apply Forall_cons in Htext as [[Hne _] _]. by intros [?|?].
Qed.

(** A reconcile for a resource with a sound status keeps the user's entries. *)
Lemma sync_service_keeps env annotations ingress dp res :
  shared_service annotations -> ingress_ok ingress -> status_sound Find space (dp_Status dp) ->
  st_CurrentPrefix (dp_Status dp) <> EmptyString ->
  sync_service configured env (mkService true annotations ingress) dp = Some res ->
  keeps_user annotations (left_by res annotations).
Proof.
  intros Hs Hi Hst Hne Hrun. destruct (sound_tracked Find space dp Hst Hne) as (current & Ht & _).
  pose proof Hs as (_ & _ & Hprov).
  destruct (addressesForService dp ingress annotations) as [[allIPs currentIP|wait]|e|] eqn:Ha.
  2-4: unfold sync_service in Hrun; cbn [sv_annotations sv_ingress] in Hrun; rewrite Ha in Hrun; try done; injection Hrun as <-;
    by apply keeps_user_refl.
  pose proof (addresses_text dp current ingress annotations allIPs currentIP Ht Hi Ha) as Htext.
  rewrite (sync_service_plan env annotations ingress dp allIPs currentIP Hs Htext Ha) in Hrun. injection Hrun as Hres.
  destruct (plan_shared ingress annotations allIPs currentIP _ Hs (sound_delegated Find space dp Hst) Htext) as (Hk & _).
  destruct (left_by_cases res annotations) as [->|Hin]; [by apply keeps_user_refl|].
  destruct (apply_plan_result env provider annotations ingress currentIP
    (plan_annotations configured ingress annotations field allIPs currentIP (collectManagedPrefixes dp))) as (_ & _ & Hw).
  eapply keeps_user_ext; [exact Hk|]. intros k H1 H2. rewrite Hres in Hw. apply Hw; [apply plan_unchanged|done..].
Qed.

Lemma release_keeps env annotations : shared_service annotations ->
  keeps_user annotations (left_by (releaseService env annotations) annotations).
Proof.
  intros Hs. unfold left_by. destruct (release_writes env annotations) as [->|(w & -> & Hw)]; [by apply keeps_user_refl|].
  by apply release_shared.
Qed.

(** So does any other reconcile, whatever the API server answers. *)
Lemma service_keeps statuses env annotations ingress loadBalancer res :
  Forall (status_sound Find space) statuses -> shows statuses env -> ingress_ok ingress -> shared_service annotations ->
  Reconcile configured env (inl (mkService loadBalancer annotations ingress)) = Some res ->
  keeps_user annotations (left_by res annotations).
Proof.
  intros Hst Hshows Hi Hs. rewrite Forall_forall in Hst.
  assert (forall after, keeps_user annotations (left_by (svc_done after) annotations)) as Hdone by (intros; by apply keeps_user_refl).
  assert (forall after, keeps_user annotations (left_by
    (if hasOwnershipRecord annotations then releaseService env annotations else svc_done after) annotations)) as Hrel.
  { intros after. case_match; [by apply release_keeps|apply Hdone]. }
  unfold Reconcile. cbn [sv_LoadBalancer sv_annotations]. destruct loadBalancer; cbn [negb]; [|by intros [= <-]].
  destruct (annotations !! AnnotationName) as [dpName|]; [|by intros [= <-]].
  destruct (sve_get env dpName) as [dp|[|e]] eqn:Hg; [|by intros [= <-]..].
  destruct (in_ha_mode dp); cbn [negb]; [|by intros [= <-]]. case_decide as Hne; [by intros [= <-]|].
  intros Hrun. eapply sync_service_keeps; [done|done|by apply Hst, (Hshows dpName)|done|exact Hrun].
Qed.

Lemma service_cluster_step_sound c c' : service_cluster_sound c -> service_cluster_step c c' -> service_cluster_sound c'.
Proof.
  intros (Hst & Hs & Hu) Hstep. destruct Hstep as [statuses c Hstatus|env ingress lb res c Hshows Hi Hrun|annotations c Hr Hedit];
    unfold service_cluster_sound; cbn [sc_statuses sc_annotations sc_user].
  - split; [by eapply status_step_sound|done].
  - destruct (service_keeps _ _ _ _ _ _ Hst Hshows Hi Hs Hrun) as [Hs' He]. split; [done|]. split; [done|]. by rewrite He.
  - by split.
Qed.

(** ** What a reconcile finds *)

(** The resource the Service names, in HA mode and with a prefix. *)
Definition serves (env : svc_env) (annotations : gmap string string) (dp : DynamicPrefix) : Prop :=
  exists name, annotations !! AnnotationName = Some name /\ sve_get env name = DPFound dp /\ in_ha_mode dp = true /\
    st_CurrentPrefix (dp_Status dp) <> EmptyString.

(** The Service names none, or one that is gone or left HA mode. *)
Definition abandoned (env : svc_env) (annotations : gmap string string) : Prop :=
  forall name, annotations !! AnnotationName = Some name ->
    sve_get env name = DPError NotFound \/ exists dp, sve_get env name = DPFound dp /\ in_ha_mode dp = false.

Lemma serves_reconcile env annotations ingress dp : serves env annotations dp ->
  Reconcile configured env (inl (mkService true annotations ingress)) =
    sync_service configured env (mkService true annotations ingress) dp.
Proof.
  intros (name & Hn & Hg & Hha & Hne). unfold Reconcile. cbn [sv_LoadBalancer sv_annotations negb]. rewrite Hn, Hg, Hha.
  cbn [negb]. by rewrite decide_False.
Qed.

Lemma apply_plan_accepted env p annotations ingress currentIP plan : (forall w, sve_update env w = None) ->
  sr_err (apply_plan env p annotations ingress currentIP plan) = None.
Proof.
  intros Hu. unfold apply_plan. rewrite Hu. assert ((if pl_updated plan then @None error else None) = None) as -> by by case_match.
  destruct (if pl_updated plan then _ else _) as [writes current]. case_decide; [|done].
  assert (sr_err (nudgeL2Announcer env current ingress currentIP) = None) as ->; [|done].
  unfold nudgeL2Announcer. rewrite Hu. repeat case_decide; try done; by case_match.
Qed.

Lemma abandoned_released env annotations ingress : shared_service annotations -> abandoned env annotations ->
  (forall w, sve_update env w = None) ->
  exists res, Reconcile configured env (inl (mkService true annotations ingress)) = Some res /\
    left_by res annotations !! AnnotationManagedIPs = None /\
    record_items (ann (left_by res annotations) field) = others annotations.
Proof.
  intros Hs Hab Hu.
  assert (exists after, Reconcile configured env (inl (mkService true annotations ingress)) =
    Some (if hasOwnershipRecord annotations then releaseService env annotations else svc_done after)) as [after ->].
  { unfold Reconcile. cbn [sv_LoadBalancer sv_annotations negb]. destruct (annotations !! AnnotationName) as [n|] eqn:Hn; [|by eexists].
    destruct (Hab n Hn) as [->|(dp & -> & ->)]; by eexists. }
  eexists. split; [done|].
  destruct (annotations !! AnnotationManagedIPs) as [r|] eqn:Hr.
  - rewrite (has_record annotations AnnotationManagedIPs r ltac:(list_mem) Hr).
    destruct (releaseService_writes env annotations) as (w & -> & _ & _ & Hw); [left; by rewrite Hr|done|].
    by apply (release_shared annotations w).
  - assert (keeps_user annotations annotations /\ annotations !! AnnotationManagedIPs = None /\
      record_items (ann annotations field) = others annotations) as (_ & H1 & H2).
    { split; [by apply keeps_user_refl|]. split; [done|]. unfold others. by rewrite Hr, preserve_blank. }
    destruct (hasOwnershipRecord annotations); [|by split]. unfold left_by.
    destruct (release_writes env annotations) as [->|(w & -> & Hw)]; [by split|]. by apply (release_shared annotations w).
Qed.

(** The DNS targets after a reconcile with these addresses. *)
Definition targets_follow (annotations annotations' : gmap string string) (ingress : list string) (currentIP : string)
    (ms : list netip.Prefix) : Prop :=
  forall k, k ∈ targetAnnotationKeys configured ->
    (dns_ready ingress currentIP -> ann annotations' k = dns_target configured annotations currentIP ms) /\
    (~ dns_ready ingress currentIP -> annotations' !! k = annotations !! k).

(** What a reconcile that gets these addresses does. *)
Lemma service_pass_done env annotations ingress dp all currentIP res :
  shared_service annotations -> ingress_ok ingress -> status_sound Find space (dp_Status dp) -> serves env annotations dp ->
  (forall w, sve_update env w = None) ->
  addressesForService dp ingress annotations = Ret (Addresses all currentIP) ->
  Reconcile configured env (inl (mkService true annotations ingress)) = Some res ->
  let a' := left_by res annotations in
  sr_err res = None /\
  record_items (ann a' field) = dedupePreservingOrder (others annotations ++ all) /\
  ann a' AnnotationManagedIPs = formatOwnershipRecord (excludePinned all (others annotations)) /\
  (ann annotations AnnotationSkipExternalDNSUpdate <> AnnotationValueTrue ->
     targets_follow annotations a' ingress currentIP (collectManagedPrefixes dp)).
Proof.
  intros Hs Hi Hst Hserves Hu Ha HR a'. pose proof (shared_field _ Hs) as Hf. pose proof Hs as (_ & _ & Hprov).
  pose proof Hserves as (name & Hn & Hg & Hha & Hne).
  destruct (sound_tracked Find space dp Hst Hne) as (current & Ht & _).
  pose proof (addresses_text dp current ingress annotations all currentIP Ht Hi Ha) as Htext.
  pose proof HR as Hres. rewrite (serves_reconcile env annotations ingress dp Hserves),
    (sync_service_plan env annotations ingress dp all currentIP Hs Htext Ha) in Hres. injection Hres as Hres.
  set (plan := plan_annotations configured ingress annotations field all currentIP (collectManagedPrefixes dp)) in *.
  assert (sr_err res = None) as Herr by (rewrite <- Hres; by apply apply_plan_accepted).
  destruct (plan_shared ingress annotations all currentIP _ Hs (sound_delegated Find space dp Hst) Htext) as (_ & Hitems & Hrec).
  fold plan in Hitems, Hrec.
  assert (forall k, k <> AnnotationLastSync -> k <> AnnotationL2Nudge -> a' !! k = pl_annotations plan !! k) as Hk.
  { intros k H1 H2. unfold a', left_by. rewrite <- Hres. apply apply_plan_final; [apply plan_unchanged|by rewrite Hres|done..]. }
  split; [done|]. split.
  { rewrite <- Hitems. f_equal. apply ann_same, Hk; by apply lb_field_cases in Hf as [->| ->]. }
  split; [rewrite <- Hrec; by apply ann_same, Hk|]. intros Hskip k Hkt.
  pose proof (addressesForService_head _ _ _ _ _ Ha) as Hh.
  assert (good_pass (mkPass ingress all currentIP (collectManagedPrefixes dp))) as Hgood.
  { destruct all as [|x l]; [done|]. injection Hh as ->. pose proof Htext as [[Hx _] _]%Forall_cons. by split_and!. }
  destruct (service_step_dns configured provider field annotations (mkPass ingress all currentIP (collectManagedPrefixes dp)) a'
    Hkeys Hf) as [H1 H2]; [by eapply step_reconcile|done|done|]. split; intros Hrdy.
  - by apply (H2 (or_introl Hrdy)).
  - by apply (H1 Hrdy).
Qed.

(** C8 Rotations reach the Service and never cost the user an entry.  From any Service
    of the provider whose unrecorded entries are the user's, through any
    interleaving of reconciles of both controllers on caches of any age, refused
    writes, resources that vanish or leave HA mode and edits of the Service by its
    users that keep the provider and add no address of the managed space: a further reconcile returns a result, asks to be called again within a
    minute or not at all, and keeps the user's entries as they last left them,
    whatever becomes of its writes.  When they succeed, a reconcile that finds the
    resource in any of the statuses there have been gets its addresses without a
    panic, and the field then lists the user's entries and those addresses, each
    once, with a record of exactly those the user does not have; a suffix gives one
    address in the current prefix and in each remembered one; the DNS targets of a
    Service that has not opted out stay until the current address is assigned, or
    nothing is, and then are the user's and that address.  One that finds the Service abandoned
    hands the field back to the user and drops the record. *)
Theorem rotation_reaches_service (a0 : gmap string string) (c : service_cluster) (env : svc_env) (ingress : list string) :
  shared_service a0 ->
  run service_cluster_step (mkServiceCluster [no_status] a0 (dedupePreservingOrder (others a0))) c ->
  shows (sc_statuses c) env -> ingress_ok ingress ->
  let a := sc_annotations c in
  let user := sc_user c in
  exists res, Reconcile configured env (inl (mkService true a ingress)) = Some res /\ 0 <= sr_after res <= 60 /\
    let a' := left_by res a in
    dedupePreservingOrder (others a') = user /\
    ((forall w, sve_update env w = None) ->
     (forall dp, serves env a dp ->
        exists current, tracked dp current /\ delegated space current /\
        match addressesForService dp ingress a with
        | Ret (Addresses all currentIP) =>
            sr_err res = None /\
            record_items (ann a' field) = dedupePreservingOrder (user ++ all) /\
            ann a' AnnotationManagedIPs = formatOwnershipRecord (excludePinned all user) /\
            (forall suffix x, a !! AnnotationSuffix = Some suffix -> suffix <> EmptyString ->
               netiptext.ParseAddr suffix = Some x -> all = hosts_of dp current (netip.addr x)) /\
            (ann a AnnotationSkipExternalDNSUpdate <> AnnotationValueTrue ->
               targets_follow a a' ingress currentIP (collectManagedPrefixes dp))
        | Ret (WaitFor _) => a' = a
        | Fail e => a' = a /\ sr_err res = Some (FailAddresses e)
        | Panic => False
        end) /\
     (abandoned env a ->
        dedupePreservingOrder (record_items (ann a' field)) = user /\ a' !! AnnotationManagedIPs = None)).
Proof.
  intros H0 Hrun Hshows Hi a user.
  assert (service_cluster_sound c) as (Hst & Hs & Hu).
  { eapply (run_invariant service_cluster_step service_cluster_sound service_cluster_step_sound); [exact Hrun|].
    split; [constructor; [apply no_status_sound|done]|by split]. }
  fold a in Hs, Hu. fold user in Hu. pose proof Hst as Hin. rewrite Forall_forall in Hin.
  destruct (Reconcile_safe configured env (inl (mkService true a ingress)) Hkeys) as (res & HR & Hafter & _).
  { intros name dp Hg Hne. destruct (sound_tracked Find space dp) as (current & Ht & _); [by apply Hin, (Hshows name)|done|by exists current]. }
  exists res. split; [done|]. split; [done|]. intros a'.
  split. { destruct (service_keeps _ _ _ _ _ _ Hst Hshows Hi Hs HR) as [_ He]. by rewrite <- Hu, <- He. }
  intros Hacc. split.
  - intros dp Hserves. pose proof Hserves as (name & Hn & Hg & Hha & Hne).
    assert (status_sound Find space (dp_Status dp)) as Hsound by by apply Hin, (Hshows name).
    destruct (sound_tracked Find space dp Hsound Hne) as (current & Ht & Hd). exists current. split; [done|]. split; [done|].
    pose proof HR as Hsync. rewrite (serves_reconcile env a ingress dp Hserves) in Hsync. unfold sync_service in Hsync.
    cbn [sv_annotations sv_ingress] in Hsync.
    destruct (addressesForService dp ingress a) as [[all currentIP|wait]|e|] eqn:Ha;
      [clear Hsync|injection Hsync as <-; done|by injection Hsync as <-|done].
    destruct (service_pass_done env a ingress dp all currentIP res Hs Hi Hsound Hserves Hacc Ha HR) as (H1 & H2 & H3 & H4).
    pose proof (addresses_text dp current ingress a all currentIP Ht Hi Ha) as Htext.
    assert (Forall key_text (others a)) as HuT by (by apply user_text; apply Hs).
    split; [done|]. split; [by rewrite <- Hu, dedupe_app_head|].
    split; [rewrite <- Hu, excludePinned_dedupe by done; exact H3|]. split; [|exact H4].
    intros suffix x Hsx Hsne Hx. unfold addressesForService in Ha. rewrite Hsx in Ha. destruct suffix as [|ch suffix]; [done|].
    apply obind_ret in Ha as (r & Hr%wrap_err_ret & E). injection E as <- <-.
    destruct (calculateSuffixIPs_hosts dp current _ r Ht Hr) as (y & Hy & ->). congruence.
  - intros Hab. destruct (abandoned_released env a ingress Hs Hab Hacc) as (res' & HR' & H1 & H2).
    rewrite HR in HR'. injection HR' as <-. fold a' in H1, H2. by rewrite H2, Hu.
Qed.
End ServiceRotation.

(** An entry that is no address of a block is none of a prefix in it. *)
Lemma outside_block block e ms : netip.prefix6 block -> unmanaged [block] e = true -> Forall (delegated (within block)) ms ->
  unmanaged ms e = true.
Proof.
  intros Hb He Hm. unfold unmanaged in *. destruct (netiptext.ParseAddr e) as [a|] eqn:Ha; [|done].
  destruct (netip.Is4 a || netip.Is4In6 a)%bool eqn:H4; [done|]. apply negb_true_iff, not_true_iff_false.
  intros (p & Hp & Hc)%existsb_exists. apply list_elem_of_In in Hp. rewrite Forall_forall in Hm.
  destruct (Hm p Hp) as [H6 Hin]. cbn in He. rewrite orb_false_r in He. apply negb_true_iff in He.
  pose proof (ParseAddr_wf _ _ Ha) as [Hwf Hv]. apply orb_false_iff in H4 as [H4 _].
  destruct (netip.hasZone a) eqn:Hz; [by rewrite Contains6_zone in Hc|].
  assert (netip.z a = netip.z6 EmptyString) as Hza.
  { unfold netip.IsValidAddr, netip.Is4, netip.hasZone, netip.Is6, netip.Zone in *. destruct (netip.z a) as [| |[|]]; done. }
  apply Contains6 in Hc; [|done..]. apply not_true_iff_false in He. apply He. apply Contains6; [done..|]. by apply Hin.
Qed.

(** ** A Service over two prefixes and an edit *)

Definition ha_dp (st : DynamicPrefixStatus) : DynamicPrefix :=
  mkDynamicPrefix "home" false true 1 None
    (mkSpec (mkAcquisition None None None) [] [] (Some (mkTransition TransitionModeHA 2))) st.

Definition ha_env (now : string) (st : DynamicPrefixStatus) : svc_env := sample_svc_env now (ha_dp st).

Definition asking : gmap string string :=
  {[ AnnotationName := "home"; AnnotationSuffix := "::ffff:0:2"; AnnotationCiliumIPs := "198.51.100.10" ]}.

Definition synced_service : gmap string string := reconciled [] (ha_env "t1" first_status) (mkService true asking []).

(** The user puts an address in front of the operator's. *)
Definition edited_service : gmap string string :=
  <[AnnotationCiliumIPs := "fd00::7," +:+ ann synced_service AnnotationCiliumIPs]> synced_service.

(** Entries outside 2001:db8::/32. *)
Definition sample_users (l : list string) : bool :=
  forallb (fun e => negb (bool_decide (e = EmptyString)) && bool_decide (TrimSpace e = e) && str_all (not_byte ",") e &&
                    unmanaged [prefix_of_string "2001:db8::/32"] e)%bool l.

Lemma sample_users_ok l : sample_users l = true -> Forall (user_entry sample_space) l.
Proof.
  intros H. apply Forall_forall. intros e He%list_elem_of_In. unfold sample_users in H. rewrite forallb_forall in H.
  specialize (H e He). apply andb_true_iff in H as [H Hm]. split.
  - apply (proj1 (Forall_singleton key_text e)), sample_key_text. cbn. by rewrite H.
  - intros ms. apply outside_block; [apply prefix6_of_string; vm_compute; reflexivity|done].
Qed.

(** A reconcile, an edit and a rotation. *)
Lemma sample_service_run :
  run (service_cluster_step list_SetStatusCondition list_FindStatusCondition sample_space [] lbProviderCilium AnnotationCiliumIPs)
    (mkServiceCluster [no_status] asking (dedupePreservingOrder (others AnnotationCiliumIPs asking)))
    (mkServiceCluster [second_status; first_status; no_status] edited_service ["fd00::7"; "198.51.100.10"]).
Proof.
  eapply run_step; [apply step_statuses, rotation_first|]. eapply run_step.
  { eapply (step_service _ _ _ _ _ _ (ha_env "t1" first_status) [] true).
    - intros name dp [= <-]. apply list_elem_of_here.
    - constructor.
    - vm_compute. reflexivity. }
  eapply run_step.
  { apply (step_user_edit _ _ _ _ _ _ edited_service); [vm_compute; reflexivity|].
    split; [apply sample_users_ok; vm_compute; reflexivity|]. by vm_compute. }
  eapply run_step; [apply step_statuses, rotation_second|constructor].
Qed.

(** The third reconcile: both prefixes, the user's two addresses, the DNS target
    still where the Service answers. *)
Lemma rotation_reaches_service_witness :
  exists res, Reconcile [] (ha_env "t2" second_status) (inl (mkService true edited_service ["2001:db8:1200::ffff:0:2"])) = Some res /\
    let a' := left_by res edited_service in
    record_items (ann a' AnnotationCiliumIPs) =
      ["fd00::7"; "198.51.100.10"; "2001:db8:3400::ffff:0:2"; "2001:db8:1200::ffff:0:2"] /\
    ann a' AnnotationManagedIPs = "2001:db8:3400::ffff:0:2,2001:db8:1200::ffff:0:2" /\
    ann a' AnnotationExternalDNSTarget = "2001:db8:1200::ffff:0:2".
Proof.
  set (ingress := ["2001:db8:1200::ffff:0:2"]).
  assert (ingress_ok ingress) as Hi.
  { constructor; [right; exists (addr_of_string "2001:db8:1200::ffff:0:2"); by vm_compute|constructor]. }
  destruct (rotation_reaches_service list_SetStatusCondition list_FindStatusCondition list_condition_laws sample_space
    [] lbProviderCilium AnnotationCiliumIPs default_keys_ok ltac:(list_mem) asking
    (mkServiceCluster [second_status; first_status; no_status] edited_service ["fd00::7"; "198.51.100.10"])
    (ha_env "t2" second_status) ingress) as (res & HR & _ & _ & H); [..|exact Hi|].
  - split; [apply sample_users_ok; vm_compute; reflexivity|]. by vm_compute.
  - exact sample_service_run.
  - intros name dp [= <-]. apply list_elem_of_here.
  - exists res. split; [exact HR|]. destruct (H ltac:(done)) as [Hserve _].
    destruct (Hserve (ha_dp second_status)) as (current & Ht & _ & Hpass).
    { exists "home". split; [vm_compute; reflexivity|]. split; [reflexivity|]. split; [reflexivity|]. vm_compute. discriminate. }
    cbn [sc_annotations sc_user] in Hpass.
    assert (addressesForService (ha_dp second_status) ingress edited_service =
      Ret (Addresses ["2001:db8:3400::ffff:0:2"; "2001:db8:1200::ffff:0:2"] "2001:db8:3400::ffff:0:2")) as E
      by (vm_compute; reflexivity).
    rewrite E in Hpass.
    destruct Hpass as (_ & Hitems & Hrec & _ & Hdns). split; [rewrite Hitems; vm_compute; reflexivity|].
    split; [rewrite Hrec; vm_compute; reflexivity|].
    assert (AnnotationExternalDNSTarget ∈ targetAnnotationKeys []) as Hk by list_mem.
    destruct (Hdns ltac:(vm_compute; discriminate) AnnotationExternalDNSTarget Hk) as [_ Hstay].
    rewrite (ann_same edited_service); [vm_compute; reflexivity|]. apply Hstay.
    intros [Hn|Hn]; revert Hn; apply (bool_decide_unpack _); vm_compute; exact I.
Defined.
