(* ===== verification/EndToEnd.v ===== *)
(** * From the network to the cluster

    The operator of Operator.v, the statuses it applies, a pool under the pool
    controller and a Service under the Service controller, in one run: messages of any
    content at the receivers, reconciles of any controller on caches of any age, writes
    that fail, other writers of conditions and users that edit.  The run is one of
    Rotation.v and one of ServiceRotation.v, and what it delegates is what the policies
    of the specs accept. *)

From S2P Require Import Prelude GoStrings Metrics Netip NetipText Policy Subnet AddressRange Receivers Composite RAReceiver DHCPv6PD SharedRA Factory.
From S2P Require Import DynamicPrefix Controller Acquisition Operator Ownership ListBackends PoolConfigs PoolBackends CalicoSiblings PoolSync.
From S2P Require Import ServiceAddrs ServiceSync ServiceLife Statuses Rotation ServiceRotation.

(** ** Policies and space *)

(** The policy accepts prefixes of the space only. *)
Definition accepts_within (pol : Policy) (space : netip.Prefix -> Prop) : Prop :=
  forall n, netip.prefix6 n -> netip.Masked n = n -> Validate pol n = None -> space n.

(** 2000::/3. *)
Definition global_unicast : netip.Prefix := prefix_of_string "2000::/3".

(** A policy that asks for global addresses gives out global addresses only. *)
Lemma global_policy_within pol : RequireGlobalUnicast pol = true -> accepts_within pol (within global_unicast).
Proof.
  intros Hg n H6 Hm Hv x Hx. unfold Validate in Hv. rewrite Hg in Hv.
  assert (ValidateDelegatedPrefix n true = None) as Hd by by destruct (ValidateDelegatedPrefix n true).
  pose proof (accepted_covers_gua n H6 Hm Hd x Hx) as Hq.
  assert (netip.first_num global_unicast = 2 ^ 125 /\ netip.last_num global_unicast = 2 ^ 126 - 1) as [E1 E2]
    by (vm_compute; done).
  unfold netip.in_prefix. rewrite E1, E2. pose proof (Z.div_mod x (2 ^ 125) ltac:(lia)).
  pose proof (Z.mod_pos_bound x (2 ^ 125) ltac:(lia)). change (2 ^ 126) with (2 * 2 ^ 125). lia.
Qed.

(** ** What a reconcile applies *)

Section Applied.
Context (Set_ : list Condition -> Condition -> list Condition).
Context (Find : list Condition -> string -> option Condition).
Context (laws : condition_laws Set_ Find).

Lemma updateStatusIfChanged_owned st original desired :
  updateStatusIfChanged Find st original = Some desired -> desired = ownedDynamicPrefixStatus Find st.
Proof. unfold updateStatusIfChanged. case_decide; [done|]. by intros [= <-]. Qed.

(** The condition the controller applies is the one it computed. *)
Lemma owned_degraded st : list_FindStatusCondition (st_Conditions (ownedDynamicPrefixStatus Find st)) ConditionTypeDegraded =
  Find (st_Conditions st) ConditionTypeDegraded.
Proof.
  cbn [ownedDynamicPrefixStatus st_Conditions omap list_omap].
  destruct (Find (st_Conditions st) ConditionTypePrefixAcquired) as [c|] eqn:E1;
    destruct (Find (st_Conditions st) ConditionTypeDegraded) as [d|] eqn:E2; cbn [list_FindStatusCondition];
    try (apply (find_type _ _ laws) in E1; rewrite decide_False by (rewrite E1; discriminate));
    try (apply (find_type _ _ laws) in E2; rewrite decide_True by done); done.
Qed.

Lemma owned_applied cs st : set_conditions cs (ownedDynamicPrefixStatus Find st) = set_conditions cs st.
Proof. done. Qed.

(** The status it applies: the cached one with another condition when there is no
    receiver, else what the receiver's prefix makes of it. *)
Lemma reconcile_applies env dp r r' res desired :
  reconciler_ok (Env := ra_env) (W := acquisition) (R := nat) r -> re_get env = GetObject dp ->
  DynamicPrefix.Reconcile Set_ Find env (dp_Name dp) r = Some (r', res) -> rr_status res = Some desired ->
  exists st, desired = ownedDynamicPrefixStatus Find st /\
    ((exists status reason m, st = setCondition Set_ (re_now env) (dp_Generation dp) ConditionTypePrefixAcquired status reason m (dp_Status dp)) \/
     exists r1 id err src d, reconciler_ok (Env := ra_env) r1 /\ rc_receivers r1 !! dp_Name dp = Some id /\
       reconcile_status Set_ Find (re_now env) dp err (hCurrentPrefix (rc_world r1) id) src = Some (st, d)).
Proof.
  intros Hok Hget. unfold DynamicPrefix.Reconcile. rewrite Hget. destruct (dp_Deleted dp).
  { destruct (dp_Finalizer dp); [destruct (cleanupReceiver _ _ _)|]; cbn; intros; by simplify_eq. }
  destruct (dp_Finalizer dp); cbn [negb]; [|destruct (re_updateErr env); intros; by simplify_eq].
  unfold reconcile_live.
  destruct (getOrCreateReceiver_spec (re_rcv env) (dp_Name dp) (sp_Acquisition (dp_Spec dp)) r Hok) as [(_ & Hok1 & Hres) _].
  destruct (getOrCreateReceiver _ _ _ _) as [r1 [id|e|]]; cbn [fst snd] in *; [| |done].
  2:{ intros [= <- <-] Hst. cbn in Hst. apply updateStatusIfChanged_owned in Hst as ->. eexists. split; [done|]. left. by do 3 eexists. }
  destruct Hres as [Hid _]. destruct (reportRARejections _ _ _ _) as [r2 report].
  destruct (reconcile_status _ _ _ _ _ _) as [[st d]|] eqn:Hs; [|done]. cbn [mbind option_bind fst snd].
  intros Hrun Hst. assert (updateStatusIfChanged Find st (dp_Status dp) = Some desired) as Hw.
  { destruct (updateStatusIfChanged _ _ _), (re_applyErr env); simplify_eq; cbn in *; by simplify_eq. }
  apply updateStatusIfChanged_owned in Hw as ->. exists st. split; [done|]. right. by exists r1, id, (receiverLastError (hHealth (rc_world r1) id)), (hSource (rc_world r1) id), d.
Qed.
End Applied.

(** ** Everything in one run *)

Section EndToEnd.
Context (Set_ : list Condition -> Condition -> list Condition).
Context (Find : list Condition -> string -> option Condition).
Context (laws : condition_laws Set_ Find).
Context (space : netip.Prefix -> Prop).
Context (error_text : error -> string) (config_text : config_error -> string).
Context (resource : string) (b : list_backend).
Context (configured : list string) (provider : lb_provider) (field : string).
Context (Hkeys : keys_ok configured) (Hreads : AnnotationLBProvider ∉ targetAnnotationKeys configured).

Local Abbreviation operator_state := (@DynamicPrefix.reconciler acquisition nat).
Local Abbreviation reconcile := (DynamicPrefix.Reconcile Set_ Find (Env := ra_env) (W := acquisition) (R := nat)).

(** The operator; every status the API server has had for the resource; the pool
    and the users' entries of it; the Service's annotations and its users'. *)
Record system : Type := mkSystem {
  sy_operator : operator_state;
  sy_statuses : list DynamicPrefixStatus;
  sy_pool : pool;
  sy_pool_user : list item;
  sy_service : gmap string string;
  sy_service_user : list string
}.

Definition pool_view (s : system) : cluster := mkCluster (sy_statuses s) (sy_pool s) (sy_pool_user s).
Definition service_view (s : system) : service_cluster := mkServiceCluster (sy_statuses s) (sy_service s) (sy_service_user s).

Definition with_operator (r : operator_state) (s : system) : system :=
  mkSystem r (sy_statuses s) (sy_pool s) (sy_pool_user s) (sy_service s) (sy_service_user s).
Definition with_status (st : DynamicPrefixStatus) (s : system) : system :=
  mkSystem (sy_operator s) (st :: sy_statuses s) (sy_pool s) (sy_pool_user s) (sy_service s) (sy_service_user s).

(** The process may be restarted, and loses what it held.  A reconcile of any resource may fail to be written, or be one whose writing
    changes no status; one of the resource that is shown an object with a status
    there has been, and a spec whose policy stays in the space, may have its status
    applied: all its fields and its conditions, beside those of others. *)
Inductive system_step : system -> system -> Prop :=
| system_moves r s : operator_move (sy_operator s) r -> system_step s (with_operator r s)
| system_restarts obs events s : system_step s (with_operator (new_operator obs events) s)
| system_reconciles env name r res s :
    (forall dp, re_get env = GetObject dp -> dp_Name dp = name) -> reconcile env name (sy_operator s) = Some (r, res) ->
    system_step s (with_operator r s)
| system_applies env dp r res desired cs s :
    re_get env = GetObject dp -> dp_Name dp = resource -> dp_Status dp ∈ sy_statuses s ->
    accepts_within (prefixPolicyFor (sp_Acquisition (dp_Spec dp))) space ->
    reconcile env resource (sy_operator s) = Some (r, res) -> rr_status res = Some desired ->
    Find cs ConditionTypeDegraded = list_FindStatusCondition (st_Conditions desired) ConditionTypeDegraded ->
    system_step s (with_status (set_conditions cs desired) (with_operator r s))
| system_conditions st cs s :
    st ∈ sy_statuses s -> Find cs ConditionTypeDegraded = Find (st_Conditions st) ConditionTypeDegraded ->
    system_step s (with_status (set_conditions cs st) s)
| system_pool p user s :
    cluster_step Set_ Find space error_text config_text b (pool_view s) (mkCluster (sy_statuses s) p user) ->
    system_step s (mkSystem (sy_operator s) (sy_statuses s) p user (sy_service s) (sy_service_user s))
| system_service a user s :
    service_cluster_step Set_ Find space configured provider field (service_view s) (mkServiceCluster (sy_statuses s) a user) ->
    system_step s (mkSystem (sy_operator s) (sy_statuses s) (sy_pool s) (sy_pool_user s) a user).

(** The prefix of a receiver that a policy of the resource accepts is given. *)
Lemma operator_gives (r : operator_state) id dp :
  reconciler_ok (Env := ra_env) r -> accepts_within (prefixPolicyFor (sp_Acquisition (dp_Spec dp))) space ->
  held_given space dp (hCurrentPrefix (rc_world r) id).
Proof.
  intros Hok Hin p Hp Hv. pose proof (ok_world r Hok) as Hw. cbn in Hp.
  destruct (aq_receivers (rc_world r) !! id) as [l|] eqn:Hl; [|done]. cbn in Hp.
  pose proof (live_prefix6 _ id l p Hw Hl Hp) as H6. split; [done|].
  apply Hin; [done|by eapply live_prefix_masked|done].
Qed.

Lemma applied_step (r r' : operator_state) env dp res desired cs statuses :
  reconciler_ok (Env := ra_env) r -> re_get env = GetObject dp -> dp_Status dp ∈ statuses ->
  accepts_within (prefixPolicyFor (sp_Acquisition (dp_Spec dp))) space ->
  reconcile env (dp_Name dp) r = Some (r', res) -> rr_status res = Some desired ->
  Find cs ConditionTypeDegraded = list_FindStatusCondition (st_Conditions desired) ConditionTypeDegraded ->
  status_step Set_ Find space statuses (set_conditions cs desired :: statuses).
Proof.
  intros Hok Hget Hin Hpol Hrun Hst Hcs.
  destruct (reconcile_applies Set_ Find env dp r r' res desired Hok Hget Hrun Hst) as (st & -> & Hcase).
  rewrite (owned_degraded Set_ Find laws) in Hcs. rewrite owned_applied.
  destruct Hcase as [(status & reason & m & ->)|(r1 & id & err & src & d & Hok1 & Hid & Hs)].
  - apply (step_conditions Set_ Find space (dp_Status dp) cs); [done|]. rewrite Hcs.
    by apply (find_set_other _ _ laws).
  - by eapply step_reconciled; [exact Hin|apply (operator_gives r1 id); [exact Hok1|exact Hpol]|exact Hs|].
Qed.

(** Each step of the whole is one of its parts, or none. *)
Lemma system_refines s s' : operator Set_ Find (sy_operator s) -> system_step s s' ->
  operator Set_ Find (sy_operator s') /\
  run (cluster_step Set_ Find space error_text config_text b) (pool_view s) (pool_view s') /\
  run (service_cluster_step Set_ Find space configured provider field) (service_view s) (service_view s').
Proof.
  intros Hop Hstep.
  assert (forall st, status_step Set_ Find space (sy_statuses s) (st :: sy_statuses s) ->
    run (cluster_step Set_ Find space error_text config_text b) (pool_view s) (pool_view (with_status st s)) /\
    run (service_cluster_step Set_ Find space configured provider field) (service_view s) (service_view (with_status st s))) as Hboth.
  { intros st Hst. split; apply run_one; [by apply (step_status _ _ _ _ _ _ _ (pool_view s))|].
    by apply (step_statuses _ _ _ _ _ _ _ (service_view s)). }
  destruct Hstep as [r s Hm|obs events s|env name r res s Hn Hr|env dp r res desired cs s Hget Hn Hin Hpol Hr Hst Hcs|st cs s Hin Hcs
    |p user s Hc|a user s Hc].
  - split; [by eapply operator_moves|]. split; constructor.
  - split; [apply operator_start|]. split; constructor.
  - split; [by eapply operator_reconcile|]. split; constructor.
  - split; [eapply (operator_reconcile _ _ env resource); [done| |done]; intros dp' E; congruence|].
    apply Hboth. subst resource.
    eapply (applied_step (sy_operator s) r); [|done..]. exact (controller_ok _ _ _ (operator_controller _ _ _ Hop)).
  - split; [done|]. apply Hboth. by apply step_conditions.
  - split; [done|]. split; [by apply run_one|constructor].
  - split; [done|]. split; [constructor|by apply run_one].
Qed.

Lemma system_run s s' : run system_step s s' -> operator Set_ Find (sy_operator s) ->
  operator Set_ Find (sy_operator s') /\
  run (cluster_step Set_ Find space error_text config_text b) (pool_view s) (pool_view s') /\
  run (service_cluster_step Set_ Find space configured provider field) (service_view s) (service_view s').
Proof.
  induction 1 as [s|s1 s2 s3 Hs _ IH]; intros Hop; [split; [done|]; split; constructor|].
  destruct (system_refines s1 s2 Hop Hs) as (Hop2 & Hp & Hv). destruct (IH Hop2) as (Hop3 & Hp' & Hv').
  split; [done|]. split; by eapply run_trans.
Qed.

(** * Properties *)

(** C6 The whole operator is the parts, put together.  From the start of the process, a
    new resource, a pool no operator has written to and a Service of the provider
    whose unrecorded entries are the user's, through any run - messages of any content
    at the receivers, leases that end, restarts, reconciles of every controller on caches of any
    age, failing calls and refused writes, other writers of conditions and users that
    edit: the operator is in a state its own theorems are about; what happened to the
    pool is a run of the pool's theorem, what happened to the Service one of the
    Service's.  And where the policies of the resource accept prefixes of an address
    space only, every status there has been manages prefixes of that space only, every
    entry of the pool is the users' or for addresses of such a prefix, and the Service
    has its user's entries as the user last left them. *)
Theorem whole_refines_parts (obs events : bool) (p0 : pool) (a0 : gmap string string) (s : system) :
  fresh space b p0 -> shared_service space provider field a0 ->
  run system_step (mkSystem (new_operator obs events) [no_status] p0 (existing p0) a0 (dedupePreservingOrder (others field a0))) s ->
  operator Set_ Find (sy_operator s) /\
  run (cluster_step Set_ Find space error_text config_text b) (mkCluster [no_status] p0 (existing p0)) (pool_view s) /\
  run (service_cluster_step Set_ Find space configured provider field)
    (mkServiceCluster [no_status] a0 (dedupePreservingOrder (others field a0))) (service_view s) /\
  (forall dp, dp_Status dp ∈ sy_statuses s -> Forall (delegated space) (collectManagedPrefixes dp)) /\
  (forall x, x ∈ existing (sy_pool s) -> x ∈ sy_pool_user s \/ exists e, entry_given space b e /\ x = oe_value e) /\
  dedupePreservingOrder (others field (sy_service s)) = sy_service_user s.
Proof.
  intros Hfresh Hshared Hrun. destruct (system_run _ s Hrun (operator_start _ _ obs events)) as (Hop & Hpool & Hsvc).
  split; [done|]. split; [exact Hpool|]. split; [exact Hsvc|].
  assert (cluster_sound Find space b (pool_view s)) as [Hst Hp].
  { eapply (run_invariant _ _ (step_sound Set_ Find laws space error_text config_text b)); [exact Hpool|by apply start_sound]. }
  assert (service_cluster_sound Find space provider field (service_view s)) as (_ & _ & Hu).
  { eapply (run_invariant _ _ (service_cluster_step_sound Set_ Find laws space configured provider field Hkeys Hreads)); [exact Hsvc|].
    split; [constructor; [apply no_status_sound|done]|by split]. }
  split; [|split; [|exact Hu]].
  - intros dp Hdp. eapply sound_delegated. rewrite Forall_forall in Hst. by apply Hst.
  - intros x. by apply pool_entries.
Qed.
End EndToEnd.

(** ** A lease that reaches the pool and the Service *)

Definition home_dp (st : DynamicPrefixStatus) : DynamicPrefix :=
  mkDynamicPrefix "home" false true 1 None (mkSpec both_acquisition [] [] (Some (mkTransition TransitionModeHA 2))) st.

(** The status a reconcile writes once the lease is there. *)
Definition leased : @reconciler acquisition nat :=
  progressed (ClientBegins 0 (serving_env 100)) (Operator.reconciled (GetObject (home_dp no_status)) (new_operator false true)).

Definition leased_pass : option (@reconciler acquisition nat * reconcile_result) :=
  DynamicPrefix.Reconcile list_SetStatusCondition list_FindStatusCondition (operator_env (GetObject (home_dp no_status))) "home" leased.

Definition leased_status : DynamicPrefixStatus := default no_status (leased_pass ≫= fun x => rr_status x.2).

Definition home_env : @sync_env object :=
  mkSyncEnv 7 (fun n => if decide (n = "home") then DPFound (home_dp leased_status) else DPError NotFound)
    (fun _ _ => None) (fun _ => None).

Definition leased_pool : pool :=
  match syncPool list_FindStatusCondition sample_text sample_text home_env "/lan" (ListObject new_pool)
          (list_poolBackend CIDRGroup sample_api None) (sample_state empty) with
  | Some (s', _) => stored (sample_state empty) s' new_pool
  | None => new_pool
  end.

Definition leased_service : gmap string string :=
  ServiceLife.reconciled [] (sample_svc_env "t1" (home_dp leased_status)) (mkService true asking []).

Local Abbreviation home_step := (system_step list_SetStatusCondition list_FindStatusCondition (within global_unicast)
  sample_text sample_text "home" CIDRGroup [] lbProviderCilium AnnotationCiliumIPs).

Definition home_start : system :=
  mkSystem (new_operator false true) [no_status] new_pool [] asking (dedupePreservingOrder (others AnnotationCiliumIPs asking)).

Definition home_end : system :=
  mkSystem (new_operator false true) [leased_status; no_status] leased_pool [] leased_service ["198.51.100.10"].

Lemma asking_shared : shared_service (within global_unicast) lbProviderCilium AnnotationCiliumIPs asking.
Proof.
  split; [|by vm_compute]. change (others _ asking) with ["198.51.100.10"]. constructor; [|constructor]. split.
  - apply (proj1 (Forall_singleton key_text _)), sample_key_text. vm_compute. reflexivity.
  - intros ms. apply outside_block; [apply prefix6_of_string; vm_compute; reflexivity|by vm_compute].
Qed.

Definition home_at (r : @reconciler acquisition nat) (statuses : list DynamicPrefixStatus) (p : pool)
    (a : gmap string string) : system := mkSystem r statuses p [] a ["198.51.100.10"].

(** A reconcile, and the lease. *)
Lemma home_leases : run home_step home_start (home_at leased [no_status] new_pool asking).
Proof.
  apply (run_trans _ _ (home_at (Operator.reconciled (GetObject (home_dp no_status)) (new_operator false true)) [no_status] new_pool asking)).
  - apply run_one. unfold Operator.reconciled.
    destruct (DynamicPrefix.Reconcile _ _ _ _ _) as [[r res]|] eqn:E; [|by vm_compute in E].
    eapply (system_reconciles _ _ _ _ _ _ _ _ _ _ _ "home" r res home_start); [|exact E]. by intros dp [= <-].
  - apply run_one. unfold leased, progressed. set (r := Operator.reconciled _ _).
    destruct (aq_step _ (rc_world r)) as [w|] eqn:E; [|by vm_compute in E].
    apply (system_moves _ _ _ _ _ _ _ _ _ _ (set_rc_world w r) (home_at r [no_status] new_pool asking)).
    apply (move_progress (ClientBegins 0 (serving_env 100)) w r); [apply serving_env_wf|exact E].
Qed.

(** The reconcile that applies it. *)
Lemma home_applies : exists r,
  home_step (home_at leased [no_status] new_pool asking) (home_at r [leased_status; no_status] new_pool asking).
Proof.
  destruct leased_pass as [[r res]|] eqn:E; [|by vm_compute in E]. exists r.
  apply (system_applies _ _ _ _ _ _ _ _ _ _ (operator_env (GetObject (home_dp no_status))) (home_dp no_status) r res
    leased_status (st_Conditions leased_status) (home_at leased [no_status] new_pool asking)).
  1-2: done. 1: apply list_elem_of_here. 1: by apply global_policy_within. 1: exact E. 2: done.
  unfold leased_status. rewrite E. cbn. destruct (rr_status res) eqn:Hr; [done|].
  assert (bool_decide ((leased_pass ≫= fun x => rr_status x.2) = None) = false) as Hn by (vm_compute; reflexivity).
  apply bool_decide_eq_false in Hn. rewrite E in Hn. by destruct Hn.
Qed.

(** The pool, the Service and a restart. *)
Lemma home_spreads r : run home_step (home_at r [leased_status; no_status] new_pool asking) home_end.
Proof.
  eapply Prelude.run_step.
  { apply (system_pool _ _ _ _ _ _ _ _ _ _ leased_pool [] (home_at r [leased_status; no_status] new_pool asking)).
    unfold leased_pool. destruct (syncPool _ _ _ _ _ _ _ _) as [[s' res]|] eqn:E; [|by vm_compute in E].
    apply (step_pool _ _ _ _ _ _ sample_api None home_env "/lan" "home" (home_dp leased_status) (sample_state empty) s' res
      (mkCluster [leased_status; no_status] new_pool [])); [done|done|apply list_elem_of_here|exact E]. }
  eapply Prelude.run_step.
  { apply (system_service _ _ _ _ _ _ _ _ _ _ leased_service ["198.51.100.10"]
      (home_at r [leased_status; no_status] leased_pool asking)).
    unfold leased_service, ServiceLife.reconciled. destruct (Reconcile _ _ _) as [res|] eqn:E; [|by vm_compute in E].
    apply (step_service _ _ _ _ _ _ (sample_svc_env "t1" (home_dp leased_status)) [] true res
      (mkServiceCluster [leased_status; no_status] asking ["198.51.100.10"]));
      [intros name dp [= <-]; apply list_elem_of_here|constructor|exact E]. }
  apply run_one. apply (system_restarts _ _ _ _ _ _ _ _ _ _ false true (home_at r [leased_status; no_status] leased_pool leased_service)).
Qed.

Lemma home_run : run home_step home_start home_end.
Proof.
  destruct home_applies as [r Hr]. eapply run_trans; [exact home_leases|]. eapply run_trans; [by apply run_one|apply home_spreads].
Qed.

Lemma whole_refines_parts_witness :
  Forall (fun p => delegated (within global_unicast) p /\ netiptext.PrefixString p = "2001:db8:100::/56")
    (collectManagedPrefixes (home_dp leased_status)) /\
  existing leased_pool = [ItemString "2001:db8:100::/56"] /\
  (exists e, entry_given (within global_unicast) CIDRGroup e /\ ItemString "2001:db8:100::/56" = oe_value e) /\
  dedupePreservingOrder (others AnnotationCiliumIPs leased_service) = ["198.51.100.10"].
Proof.
  assert (fresh (within global_unicast) CIDRGroup new_pool) as Hfresh.
  { split; [done|]. split; [reflexivity|]. intros x ms Hx. by apply elem_of_nil in Hx. }
  destruct (whole_refines_parts list_SetStatusCondition list_FindStatusCondition list_condition_laws (within global_unicast)
    sample_text sample_text "home" CIDRGroup [] lbProviderCilium AnnotationCiliumIPs default_keys_ok ltac:(list_mem)
    false true new_pool asking home_end Hfresh asking_shared home_run) as (_ & _ & _ & Hm & Hp & Hs).
  specialize (Hm (home_dp leased_status) (list_elem_of_here _ _)).
  assert (existing leased_pool = [ItemString "2001:db8:100::/56"]) as E by (vm_compute; reflexivity).
  split; [|split; [exact E|split; [|exact Hs]]].
  - assert (collectManagedPrefixes (home_dp leased_status) = [prefix_of_string "2001:db8:100::/56"]) as Ec by (vm_compute; reflexivity).
    rewrite Ec in *. constructor; [|constructor]. split; [by apply (proj1 (Forall_singleton _ _))|vm_compute; reflexivity].
  - cbn [sy_pool sy_pool_user home_end] in Hp. rewrite E in Hp.
    destruct (Hp (ItemString "2001:db8:100::/56") (list_elem_of_here _ _)) as [Hin|He]; [|exact He]. exact (False_ind _ (not_elem_of_nil _ Hin)).
Defined.
